(* ===== verification/_CoqProject ===== *)
-Q . S2P
Prelude.v
Models.v
MonitorMatch.v
Abi.v
Conversions.v
RhaiScript.v
Registry.v
Manager.v
Filtering.v
Providers.v
Interfaces.v
Store.v
Migrations.v
AlertManager.v
AlertTasks.v
OutboxProcessor.v
Frames.v
BlockProcessor.v
Ingestor.v
HttpPool.v
Config.v
Engine.v
Filters.v
Dispatch.v
Validator.v
Loader.v
Context.v
Api.v
Requests.v
Pipeline.v
Delivery.v
Tasks.v
DryRun.v
Supervisor.v
Lives.v
