(* ===== verification/Prelude.v ===== *)
(** * Argus: a verification development

    Argus watches an EVM chain: it fetches confirmed blocks, evaluates the Rhai
    script of each configured monitor on their transactions and logs, and turns
    the matches into alerts that are throttled, aggregated, stored in an outbox
    and delivered.  This library models the crates that decide what is fetched,
    what matches and what is delivered, and proves that they do what they promise.

    ** Conventions

    - Definitions keep the names of the source.  A method that reads and changes
      [&self] or awaits a repository is a function in the monad [eff S E]: it
      passes the state along and may fail; the changes made before a failure stay.
    - [u64] and [i64] are [Z] with the wrap-around or saturation of each operation
      written out ([u64_add], [u64_saturating_sub], [u64_as_i64]); instants and
      durations are milliseconds, and the clock is an argument of each step.
    - A hash map read by key is a [gmap], an ordered JSON object a [bmap]; a shared
      pointer is an [Arc] with its address, since the code compares addresses.
    - A channel is the list of what was sent and the number of sends left before
      its receiver disappears.
    - Code outside the repository is a parameter: a class of operations (the
      [alloy] decoders, the Rhai parser and interpreter, the template engine, the
      HTTP clients, the standard hasher, SHA-256, [serde]) with, in a second class,
      the documented laws the theorems use.  Each law is satisfied by a concrete
      instance in a [Demo] module, where the witnesses run.

    ** Files, in dependency order

    - [Prelude]: results, the effect monad and its loops, channels, machine
      integers, lists, ordered maps, text.
    - [Models] ([argus-core/src/models], [config]): the records and enums.
    - [MonitorMatch] ([models/monitor_match.rs], [action_dispatcher/payload.rs]):
      the match builder, its identifier, payloads and idempotency keys.
    - [Abi] ([argus-abi/src]): the ABI service; registering, linking and removing
      ABIs, peeking event names, decoding logs and calls.
    - [Conversions] ([argus-rhai/src/conversions.rs], [proxies.rs]): the values and
      fields scripts see, and the JSON payloads of matches.
    - [RhaiScript] ([argus-rhai/src/compiler.rs], [validator.rs]): the caching
      compiler and the script validator.
    - [Registry] ([argus-monitor/src/interest_registry.rs], [argus-core/src/monitor.rs]):
      which logs and calls some monitor is interested in.
    - [Manager] ([argus-monitor/src/manager.rs]): classification of the monitors and
      the published snapshot.
    - [Filtering] ([argus-engine/src/filtering.rs]): the evaluation engine with its
      caches and scopes, against a reference evaluation without them.
    - [Providers] ([argus-providers/src]): block fetching, bloom filter and topics.
    - [Interfaces] ([argus-core/src/persistence]): the repository traits as classes
      with laws ([BlockStateLaws], [OutboxLaws], [KeyValueLaws], [SerdeLaws]); an
      in-memory repository satisfies them.  The services are proved against these.
    - [Store] ([argus-store/src]): the SQLite repository, table by table, with
      transactions and statement faults; it discharges the same laws.
    - [Migrations] ([migrations/], [argus-store/src/lib.rs]): the database of every version
      and the migrations between them, and its opening.
    - [AlertManager] ([argus-engine/src/alert_manager.rs]): throttling, aggregation,
      expired windows, saved states.
    - [AlertTasks] (the same file): its two tasks between their awaits, interleaved.
    - [OutboxProcessor] ([argus-engine/src/outbox_processor.rs]): delivery, retries,
      the drain loop.
    - [Frames]: which tables each operation of the store writes, and what the services
      keep because their repository does.
    - [BlockProcessor] ([argus-engine/src/block_processor.rs]): correlation of a
      block, batching, recorded progress.
    - [Ingestor] ([argus-engine/src/block_ingestor.rs], [polling.rs]): start block,
      chunked drain, high-water mark, calibration of the poll interval.
    - [HttpPool] ([argus-dispatch/src/http_client]): the clients shared by retry
      policy; concurrent callers as a step relation.
    - [Config] ([argus-core/src/config]): the sections of [app.yaml], their defaults,
      durations and URLs.
    - [Engine] ([argus-rhai/src/create_engine.rs], [proxies.rs], [create_provider] of
      [argus-providers/src/rpc.rs]): what the script engine and the RPC client are told.
    - [Filters] ([argus-dispatch/src/template/filters.rs]): the filters of the
      templates over bounded decimal numbers.
    - [Dispatch] ([argus-dispatch/src]): the dispatcher, the webhook, standard output
      and publisher actions; the outside world records every request and answers it.
    - [Validator] ([argus-monitor/src/validator.rs]): the validation of a monitor and
      the dummy context of its templates.
    - [Loader] ([src/loader], [argus-core/src/loader.rs]): configuration files and the
      expansion of variables.
    - [Context] ([src/context]): from the files and the database to the services.
    - [Api] ([argus-api/src], [argus-monitor/src/persistence_validator.rs]): the
      handlers of the REST API, with authentication and error responses.
    - [Requests] (the same files): the handlers cut at their awaits, several requests
      at a time.
    - [Pipeline] ([src/supervisor/mod.rs], the services): the running services and
      their channels as a step relation, against an abstract specification.
    - [Delivery] ([argus-engine/src/outbox_processor.rs]): a batch of the outbox await by
      await, with several executions in flight; what an abort or a crash leaves.
    - [Tasks] ([src/supervisor/mod.rs], the tasks): ingestor, block processor, engine and
      alert loop between their awaits, over bounded channels, and their restarts.
    - [DryRun] ([src/cmd/dry_run.rs]): the dry run, from its arguments to its report.
    - [Supervisor] ([src/supervisor/mod.rs]): configuration changes, API requests and
      the shutdown over a [Pipeline].
    - [Lives] ([src/main.rs], [src/supervisor/builder.rs]): the process from its start to
      a crash or a shutdown, and its restarts, with one database for all components.

    ** Groups of theorems

    - The deployed system: [Lives.alerts_survive_restarts] (no enqueued alert and no
      progress is lost over any number of crashes and restarts), [lives_never_stale] and
      [restart_resumes]; [Tasks.no_block_skipped] (every block the progress covers was
      handed to the engine, over all lives), [tasks_never_deadlock] and
      [tasks_refine_services] (the tasks implement the services of [Pipeline], and these
      the specification); [Supervisor.shutdown_keeps_alerts].
    - The services together: [Pipeline.pipeline_no_loss] (nothing disappears between
      them) and [pipeline_delivers] (bounded work, and everything delivered when it is
      done).
    - Inside a service: [Delivery.batch_linearizes] (a concurrent batch is a sequential
      one in some order), [AlertTasks.alert_tasks_account] (no match falls between the
      tasks of the alert manager) and [Requests.request_atomic] (a request among others
      writes once or not at all).
    - Each service against a reference without its optimisations: evaluation, fetching,
      pre-filters, correlation, dry run.
    - The store and its clients: atomicity, well-formed tables, laws of the interfaces,
      restored states, recorded progress without gaps.
    - Upgrades: [Context.application_starts] (a start on the database of any earlier version
      keeps alerts and progress).  Consistency of the tables, which the theorems on lives
      start from, needs the alerts of before the idempotency keys delivered; the lemma
      [Migrations.legacy_alert_enqueued_again] shows why.
    - Configuration and requests: what the validators, the loaders, the context and the
      handlers accept, and what they leave unchanged when they refuse.
    - Lemmas that end a file after its examples show, on concrete inputs, behaviours
      that differ from what a comment or a document says.

    ** How the parts interact

    [Context.build_application] reads the configuration, opens the database and brings it to
    the last version; [build_context] fills it from the files and makes the services; [Supervisor] runs them, and [Lives] starts the process again.
    The ingestor reads the recorded progress and the head of the chain, fetches with
    [Providers.fetch_blocks_concurrent] and sends [BlockData] to the block processor,
    which correlates them, sends them on and records its progress.  The filtering
    engine evaluates each item on the snapshot that [Manager.update] publishes, decoding
    through the ABI service; the alert manager puts its matches in the outbox, which the
    outbox processor empties through [Dispatch.dispatcher_execute].  A request of [Api]
    changes the tables and announces the change, on which the supervisor reloads the
    monitors.

    ** Bounds and fuel

    The fuelled loops are [Providers.log_chunks] (one more than the number of chunks),
    [Ingestor.drain] (one step per block of the range), [DryRun.dry_run_batches] (one
    step per batch and a last one) and [OutboxProcessor.drain_queue], whose fuel is an
    argument; the numbers of turns in [Tasks] and [Delivery] are bounded by measures.
    The theorems prove that the first three are enough, that the last ends within one
    batch per item when nothing fails, and that it has no bound when an execution always
    fails.

    ** Not modelled

    Code of third-party crates: the Rhai engine, the YAML and JSON parsers behind [serde], the
    merging of the configuration file with the environment, the template engine, the
    HTTP server and its routing of texts, the SQLite pool and the
    migration runner of [sqlx], the layers of the RPC client, brokers and webhooks.  They
    are parameters, or the outside world that a request changes.  Tracing, metrics, the
    parsing of the command line, signals and the scheduling of tasks have no model; the
    scheduling is the non-determinism of the step relations.  Test utilities and
    benchmarks are left out.
*)
From stdpp Require Export prelude gmap strings list pretty sorting.
From Stdlib Require Export ZArith Lia.
From Stdlib Require Strings.String Strings.Ascii.


(** ** Results: Rust's [Result<A, E>] *)

Inductive result (E A : Type) : Type :=
| Ok (a : A)
| Err (e : E).
Arguments Ok {E A} _.
Arguments Err {E A} _.

#[export] Instance result_ret E : MRet (result E) := λ A a, Ok a.
#[export] Instance result_bind E : MBind (result E) := λ A B f r,
  match r with Ok a => f a | Err e => Err e end.
#[export] Instance result_fmap E : FMap (result E) := λ A B f r,
  match r with Ok a => Ok (f a) | Err e => Err e end.

(** [map_err] of the Rust standard library. *)
Definition map_err {E F A} (f : E → F) (r : result E A) : result F A :=
  match r with Ok a => Ok a | Err e => Err (f e) end.

(** [Option::ok_or] and [Result::ok]. *)
Definition ok_or {E A} (o : option A) (e : E) : result E A :=
  match o with Some a => Ok a | None => Err e end.
Definition result_ok {E A} (r : result E A) : option A :=
  match r with Ok a => Some a | Err _ => None end.

Definition is_ok {E A} (r : result E A) : bool :=
  match r with Ok _ => true | Err _ => false end.

(** [iter.map(f).collect::<Result<Vec<_>, _>>()]: stops at the first error. *)
Fixpoint collect_result {E A B} (f : A → result E B) (l : list A) : result E (list B) :=
  match l with
  | [] => Ok []
  | a :: l => b ← f a; bs ← collect_result f l; Ok (b :: bs)
  end.

(** [for x in l { f(acc, x)?; }] with the mutable state passed along. *)
Fixpoint foldM {E A S} (f : S → A → result E S) (l : list A) (s : S) : result E S :=
  match l with
  | [] => Ok s
  | a :: l => s' ← f s a; foldM f l s'
  end.

Lemma bind_Ok {E A B} (r : result E A) (f : A → result E B) b :
  (r ≫= f) = Ok b ↔ ∃ a, r = Ok a ∧ f a = Ok b.
Proof. destruct r; cbn; split; [eauto|by intros (? & [= <-] & ?)|done|by intros (? & ? & ?)]. Qed.

Lemma bind_Err {E A B} (r : result E A) (f : A → result E B) e :
  (r ≫= f) = Err e ↔ r = Err e ∨ ∃ a, r = Ok a ∧ f a = Err e.
Proof.
  destruct r; cbn; split; [by eauto|by intros [[=]|(? & [= <-] & ?)]| |].
  - by intros [= <-]; left.
  - by intros [[= <-]|(? & [=] & ?)].
Qed.

Lemma ok_or_Ok {E A} (o : option A) (e : E) a : ok_or o e = Ok a ↔ o = Some a.
Proof. destruct o; cbn; split; intros [=]; by subst. Qed.

Lemma map_err_Ok {E F A} (f : E → F) (r : result E A) a : map_err f r = Ok a ↔ r = Ok a.
Proof. destruct r; cbn; split; intros [=]; by subst. Qed.

Lemma result_ok_Some {E A} (r : result E A) a : result_ok r = Some a ↔ r = Ok a.
Proof. destruct r; cbn; split; intros [=]; by subst. Qed.

Lemma collect_result_Ok {E A B} (f : A → result E B) l bs :
  collect_result f l = Ok bs ↔ Forall2 (λ a b, f a = Ok b) l bs.
Proof.
  revert bs. induction l as [|a l IH]; intros bs; cbn.
  - split; [intros [= <-]; constructor|by inversion 1].
  - rewrite bind_Ok. split.
    + intros (b & ? & (bs' & ?%IH & [= <-])%bind_Ok). by constructor.
    + inversion 1 as [|? b ? bs' Hb Hbs]; subst. exists b. split; [done|].
      apply IH in Hbs. by rewrite Hbs.
Qed.

Lemma collect_result_Err {E A B} (f : A → result E B) l e :
  collect_result f l = Err e → ∃ a, a ∈ l ∧ f a = Err e.
Proof.
  induction l as [|a l IH]; cbn; [done|].
  intros [Ha|(b & _ & [(a' & ? & ?)%IH|(? & _ & ?)]%bind_Err)]%bind_Err; [|by exists a'; split; [right|]|done].
  exists a. split; [by left|done].
Qed.

Section loop_lemmas.
Context {E A : Type}.

Lemma foldM_app {S} (f : S → A → result E S) l1 l2 s :
  foldM f (l1 ++ l2) s = (s' ← foldM f l1 s; foldM f l2 s').
Proof.
  revert s. induction l1 as [|a l1 IH]; intros s; cbn; [done|].
  destruct (f s a); cbn; auto.
Qed.

(** An invariant of the loop body is an invariant of the loop. *)
Lemma foldM_inv {S} (P : S → Prop) (f : S → A → result E S) l s s' :
  (∀ s a s', a ∈ l → P s → f s a = Ok s' → P s') →
  P s → foldM f l s = Ok s' → P s'.
Proof.
  revert s. induction l as [|a l IH]; intros s Hf Hs; cbn.
  - by intros [= <-].
  - intros (s1 & Ha & Hl)%bind_Ok. eapply IH; [|by eapply Hf; [left|..]|done].
    intros ??? ?. apply Hf. by right.
Qed.
(** An error of the loop is an error of one of its iterations. *)
Lemma foldM_Err {S} (f : S → A → result E S) l s e :
  foldM f l s = Err e → ∃ a s', a ∈ l ∧ f s' a = Err e.
Proof.
  revert s. induction l as [|a l IH]; intros s; cbn; [done|].
  intros [Ha|(s1 & _ & (a' & s' & Ha' & Hf)%IH)]%bind_Err.
  - exists a, s. split; [by left|done].
  - exists a', s'. split; [by right|done].
Qed.
End loop_lemmas.

(** ** Shared pointers: [Arc<A>] is an address and the value it points to. *)

Record Arc (A : Type) := mkArc { arc_ptr : Z; arc_val : A }.
Arguments mkArc {A} _ _.
Arguments arc_ptr {A} _.
Arguments arc_val {A} _.

(** [Arc::ptr_eq]. *)
Definition ptr_eq {A} (a b : Arc A) : bool := bool_decide (arc_ptr a = arc_ptr b).

(** ** Effects: [&self] methods that read and change shared state and can fail.
    A failing operation keeps the state changes made before the failure. *)

Definition eff (S E A : Type) : Type := S → result E A * S.

#[export] Instance eff_ret S E : MRet (eff S E) := λ A a s, (Ok a, s).
#[export] Instance eff_bind S E : MBind (eff S E) := λ A B f m s,
  match m s with
  | (Ok a, s') => f a s'
  | (Err e, s') => (Err e, s')
  end.

Definition throw {S E A} (e : E) : eff S E A := λ s, (Err e, s).
Definition lift_result {S E A} (r : result E A) : eff S E A := λ s, (r, s).
Definition gets {S E A} (f : S → A) : eff S E A := λ s, (Ok (f s), s).
Definition modify {S E} (f : S → S) : eff S E unit := λ s, (Ok tt, f s).
Definition eff_map_err {S E F A} (f : E → F) (m : eff S E A) : eff S F A :=
  λ s, let '(r, s') := m s in (map_err f r, s').

(** [for x in l { body(x).await?; }] *)
Fixpoint for_each {S E A} (body : A → eff S E unit) (l : list A) : eff S E unit :=
  match l with
  | [] => mret tt
  | a :: l => _ ← body a; for_each body l
  end.

Section eff_lemmas.
Context {S E : Type}.

Lemma eff_bind_Ok {A B} (m : eff S E A) (f : A → eff S E B) s b s' :
  (m ≫= f) s = (Ok b, s') ↔ ∃ a s1, m s = (Ok a, s1) ∧ f a s1 = (Ok b, s').
Proof.
  unfold mbind, eff_bind. destruct (m s) as [[a|e] s1]; split; naive_solver.
Qed.

(** Running a computation whose first step is known. *)
Lemma eff_bind_run {A B} (m : eff S E A) (f : A → eff S E B) s a s' :
  m s = (Ok a, s') → (m ≫= f) s = f a s'.
Proof. intros Hm. unfold mbind, eff_bind. by rewrite Hm. Qed.

Lemma eff_bind_fail {A B} (m : eff S E A) (f : A → eff S E B) s e s' :
  m s = (Err e, s') → (m ≫= f) s = (Err e, s').
Proof. intros Hm. unfold mbind, eff_bind. by rewrite Hm. Qed.

(** A state invariant kept by every step is kept by the loop, whether it
    succeeds or stops at an error. *)
Lemma for_each_inv {A} (P : S → Prop) (body : A → eff S E unit) l s :
  (∀ a s, a ∈ l → P s → P (body a s).2) → P s → P (for_each body l s).2.
Proof.
  revert s. induction l as [|a l IH]; intros s Hb Hs; cbn; [done|].
  unfold mbind, eff_bind.
  pose proof (Hb a s ltac:(by left) Hs) as Ha.
  destruct (body a s) as [[?|?] s1]; cbn in *; [|done].
  apply IH; [|done]. intros ???. apply Hb. by right.
Qed.
(** A stateful loop simulates a pure one: related states stay related, and the
    first error is the same. *)
Definition simulates {T} (R : S → T → Prop) (m : eff S E unit) (s : S) (r : result E T) : Prop :=
  match r with
  | Ok t => ∃ s', m s = (Ok tt, s') ∧ R s' t
  | Err e => (m s).1 = Err e
  end.

Lemma for_each_simulates {A T} (R : S → T → Prop) (body : A → eff S E unit) f l s t :
  (∀ a s t, a ∈ l → R s t → simulates R (body a) s (f t a)) →
  R s t → simulates R (for_each body l) s (foldM f l t).
Proof.
  unfold simulates. revert s t. induction l as [|a l IH]; intros s t Hb Hst; cbn; [by exists s|].
  pose proof (Hb a s t ltac:(by left) Hst) as Ha. unfold mbind, eff_bind.
  destruct (f t a) as [t'|e]; cbn.
  - destruct Ha as (s' & -> & Hst'). apply IH; [|done]. intros ????. apply Hb. by right.
  - destruct (body a s) as [[]]; cbn in *; congruence.
Qed.
End eff_lemmas.

(** A property of the state a computation keeps, and one its errors have. *)
Definition keeps {S E A} (P : S → Prop) (m : eff S E A) : Prop := ∀ s, P s → P (m s).2.
Definition fails_only {S E A} (P : E → Prop) (m : eff S E A) : Prop := ∀ s e, (m s).1 = Err e → P e.

Create HintDb eff discriminated.

Section keeps_lemmas.
Context {S E : Type} (P : S → Prop) (Q : E → Prop).

Lemma keeps_ret {A} (a : A) : keeps P (mret a : eff S E A).
Proof. by intros s Hs. Qed.
Lemma keeps_throw {A} (e : E) : keeps P (throw e : eff S E A).
Proof. by intros s Hs. Qed.
Lemma keeps_lift {A} (r : result E A) : keeps P (lift_result r).
Proof. by intros s Hs. Qed.
Lemma keeps_map_err {F A} (f : F → E) (m : eff S F A) : keeps P m → keeps P (eff_map_err f m).
Proof. intros Hm s Hs. specialize (Hm s Hs). unfold eff_map_err. by destruct (m s). Qed.
Lemma keeps_bind {A B} (m : eff S E A) (f : A → eff S E B) :
  keeps P m → (∀ a, keeps P (f a)) → keeps P (m ≫= f).
Proof.
  intros Hm Hf s Hs. unfold mbind, eff_bind. specialize (Hm s Hs).
  destruct (m s) as [[a|e] s']; [by apply Hf|done].
Qed.

Lemma fails_ret {A} (a : A) : fails_only Q (mret a : eff S E A).
Proof. by intros s e. Qed.
Lemma fails_throw {A} (e : E) : Q e → fails_only Q (throw e : eff S E A).
Proof. by intros He s e' [= <-]. Qed.
Lemma fails_lift {A} (r : result E A) : (∀ e, r = Err e → Q e) → fails_only Q (lift_result r : eff S E A).
Proof. intros Hr s e. apply Hr. Qed.
Lemma fails_map_err {F A} (f : F → E) (m : eff S F A) : fails_only (λ e, Q (f e)) m → fails_only Q (eff_map_err f m).
Proof.
  intros Hm s e. specialize (Hm s). unfold eff_map_err. destruct (m s) as [[a|e'] s']; cbn in *; [done|].
  intros [= <-]. by apply Hm.
Qed.
Lemma fails_bind {A B} (m : eff S E A) (f : A → eff S E B) :
  fails_only Q m → (∀ a, fails_only Q (f a)) → fails_only Q (m ≫= f).
Proof.
  intros Hm Hf s e. unfold mbind, eff_bind. specialize (Hm s).
  destruct (m s) as [[a|e'] s']; cbn in *; [apply Hf|]. intros [= <-]. by apply Hm.
Qed.
End keeps_lemmas.
#[export] Hint Resolve keeps_ret keeps_throw keeps_lift keeps_map_err keeps_bind
  fails_ret fails_throw fails_lift fails_map_err fails_bind : eff.

(** ** Channels: [mpsc::Sender].  [ch_open] is the number of sends left before the
    receiver is dropped ([None]: never). *)

Record Channel (A : Type) := mkChannel { ch_sent : list A; ch_open : option nat }.
Arguments mkChannel {A} _ _.
Arguments ch_sent {A} _.
Arguments ch_open {A} _.

Definition open_channel {A} : Channel A := mkChannel [] None.

(** [tx.send(a).await]: [false] when the receiver is gone. *)
Definition ch_send {A} (a : A) (ch : Channel A) : bool * Channel A :=
  match ch_open ch with
  | Some 0 => (false, ch)
  | Some (S n) => (true, mkChannel (ch_sent ch ++ [a]) (Some n))
  | None => (true, mkChannel (ch_sent ch ++ [a]) None)
  end.

(** ** Machine integers

    Rust's [u64] and [i64] are [Z] within their range.  The release profile of
    the workspace does not enable overflow checks, so [+] and [-] wrap. *)

Definition u64_max : Z := 2 ^ 64 - 1.
Definition u32_max : Z := 2 ^ 32 - 1.
Definition i64_min : Z := - 2 ^ 63.
Definition i64_max : Z := 2 ^ 63 - 1.

Definition is_u64 (z : Z) : Prop := (0 ≤ z ≤ u64_max)%Z.
Definition is_i64 (z : Z) : Prop := (i64_min ≤ z ≤ i64_max)%Z.

Definition u64_wrap (z : Z) : Z := (z mod 2 ^ 64)%Z.
Definition u64_add (a b : Z) : Z := u64_wrap (a + b).
Definition u64_sub (a b : Z) : Z := u64_wrap (a - b).
(** [u64::saturating_sub], [u64::saturating_add_signed]. *)
Definition u64_saturating_sub (a b : Z) : Z := Z.max 0 (a - b).
Definition u64_saturating_add_signed (a b : Z) : Z :=
  Z.min u64_max (Z.max 0 (a + b)).
(** [x as i64] of a [u64]: two's complement reinterpretation. *)
Definition u64_as_i64 (z : Z) : Z :=
  if (z <=? i64_max)%Z then z else (z - 2 ^ 64)%Z.
(** [x as u32] of a [u64]: truncation. *)
Definition u64_as_u32 (z : Z) : Z := (z mod 2 ^ 32)%Z.
(** [i64::try_from(u64)] and [u64::try_from(i64)]. *)
Definition i64_try_from (z : Z) : option Z :=
  if (z <=? i64_max)%Z then Some z else None.
Definition u64_try_from (z : Z) : option Z :=
  if (0 <=? z)%Z then Some z else None.

Ltac unfold_width :=
  unfold is_u64, is_i64, u64_max, u32_max, i64_min, i64_max in *.

Lemma u64_add_small a b : is_u64 a → is_u64 b → (a + b ≤ u64_max)%Z → u64_add a b = (a + b)%Z.
Proof. unfold u64_add, u64_wrap. unfold_width. intros. apply Z.mod_small. lia. Qed.

Lemma u64_sub_small a b : is_u64 a → (0 ≤ b ≤ a)%Z → u64_sub a b = (a - b)%Z.
Proof. unfold u64_sub, u64_wrap. unfold_width. intros. apply Z.mod_small. lia. Qed.

Lemma u64_saturating_sub_range a b : is_u64 a → (0 ≤ b)%Z → is_u64 (u64_saturating_sub a b).
Proof. unfold u64_saturating_sub. unfold_width. lia. Qed.

Lemma u64_as_i64_small z : (0 ≤ z ≤ i64_max)%Z → u64_as_i64 z = z.
Proof. intros. unfold u64_as_i64. by rewrite (proj2 (Z.leb_le _ _)) by lia. Qed.

Lemma u64_as_i64_range z : is_u64 z → is_i64 (u64_as_i64 z).
Proof. unfold u64_as_i64. unfold_width. case (Z.leb_spec z (2^63 - 1)); lia. Qed.

(** ** Lists *)

(** [slice::chunks(n)]: consecutive groups of [n], the last one shorter. *)
Fixpoint chunks_fuel {A} (fuel n : nat) (l : list A) : list (list A) :=
  match fuel, l with
  | 0, _ | _, [] => []
  | S fuel, _ => take n l :: chunks_fuel fuel n (drop n l)
  end.
Definition chunks {A} (n : nat) (l : list A) : list (list A) :=
  chunks_fuel (length l) n l.

Lemma chunks_fuel_concat {A} fuel n (l : list A) :
  0 < n → length l ≤ fuel → concat (chunks_fuel fuel n l) = l.
Proof.
  intros Hn. revert l. induction fuel as [|fuel IH]; intros l Hl; cbn.
  - destruct l; cbn in *; [done|lia].
  - destruct l as [|a l]; [done|]. cbn [concat].
    rewrite IH; [apply take_drop|]. rewrite length_drop. cbn in *. lia.
Qed.

Lemma chunks_concat {A} n (l : list A) : 0 < n → concat (chunks n l) = l.
Proof. intros. by apply chunks_fuel_concat. Qed.

Lemma chunks_fuel_length {A} fuel n (l : list A) :
  Forall (λ c, length c ≤ n) (chunks_fuel fuel n l).
Proof.
  revert l. induction fuel as [|fuel IH]; intros l; cbn; [done|].
  destruct l; [done|]. constructor; [|apply IH]. rewrite length_take. lia.
Qed.

Lemma chunks_length {A} n (l : list A) : Forall (λ c, length c ≤ n) (chunks n l).
Proof. apply chunks_fuel_length. Qed.

(** [Iterator::find_map]. *)
Fixpoint find_map {A B} (f : A → option B) (l : list A) : option B :=
  match l with
  | [] => None
  | a :: l => match f a with Some b => Some b | None => find_map f l end
  end.

Lemma filter_all {A} (P : A → Prop) `{∀ a, Decision (P a)} l : Forall P l → filter P l = l.
Proof. induction 1; [done|]. by rewrite filter_cons, decide_True, IHForall. Qed.

Lemma list_filter_iff_in {A} (P Q : A → Prop) `{∀ a, Decision (P a)} `{∀ a, Decision (Q a)} (l : list A) :
  (∀ a, a ∈ l → P a ↔ Q a) → filter P l = filter Q l.
Proof.
  induction l as [|a l IH]; intros Hl; [done|]. rewrite !filter_cons.
  rewrite IH by (intros; apply Hl; by right). specialize (Hl a ltac:(by left)).
  repeat case_decide; tauto.
Qed.

Lemma filter_none {A} (P : A → Prop) `{∀ a, Decision (P a)} l : Forall (λ a, ¬ P a) l → filter P l = [].
Proof. induction 1; [done|]. by rewrite filter_cons, decide_False, IHForall. Qed.

Lemma NoDup_fmap_filter {A B} (f : A → B) (P : A → Prop) `{∀ a, Decision (P a)} l :
  NoDup (f <$> l) → NoDup (f <$> filter P l).
Proof.
  induction l as [|a l IH]; [done|]. rewrite filter_cons, fmap_cons, NoDup_cons. intros [Ha Hl].
  case_decide; [|by apply IH]. rewrite fmap_cons, NoDup_cons. split; [|by apply IH].
  intros (b & Eb & Hb%list_elem_of_filter)%list_elem_of_fmap. apply Ha, list_elem_of_fmap. naive_solver.
Qed.

Lemma fmap_key_update {A B} (f : A → B) (P : A → bool) (g : A → A) (l : list A) :
  (∀ a, f (g a) = f a) → f <$> ((λ a, if P a then g a else a) <$> l) = f <$> l.
Proof. intros Hg. rewrite <- list_fmap_compose. apply list_fmap_ext. intros i a _. cbn. by destruct (P a). Qed.

(** Lists whose keys increase strictly and do not exceed [seq]: the rows of a table
    whose identifiers are given in increasing order. *)
Definition increasing {A} (key : A → Z) (seq : Z) (l : list A) : Prop :=
  StronglySorted Z.lt (key <$> l) ∧ Forall (λ a, (key a ≤ seq)%Z) l.

Section increasing_lemmas.
Context {A : Type} (key : A → Z).
Implicit Types (l : list A).

Lemma increasing_NoDup seq l : increasing key seq l → NoDup (key <$> l).
Proof.
  intros [Hs _]. induction Hs as [|k ks _ IH Hk]; [constructor|]. apply NoDup_cons. split; [|done].
  rewrite Forall_forall in Hk. intros Hin%Hk. lia.
Qed.

Lemma increasing_snoc seq seq' l a :
  increasing key seq l → (seq < key a ≤ seq')%Z → increasing key seq' (l ++ [a]).
Proof.
  intros [Hs Hb] Ha. rewrite Forall_forall in Hb. split.
  - rewrite fmap_app. apply StronglySorted_app_2; [|done|repeat constructor].
    intros k1 k2 (b & -> & Hb')%list_elem_of_fmap ->%list_elem_of_singleton. specialize (Hb b Hb'). lia.
  - apply Forall_app. split; [|by repeat constructor; lia].
    apply Forall_forall. intros b Hb'. specialize (Hb b Hb'). lia.
Qed.

Lemma increasing_weaken seq seq' l : increasing key seq l → (seq ≤ seq')%Z → increasing key seq' l.
Proof. intros [Hs Hb] Hle. split; [done|]. eapply Forall_impl; [exact Hb|]. cbn. lia. Qed.

Lemma increasing_filter seq (P : A → Prop) `{∀ a, Decision (P a)} l :
  increasing key seq l → increasing key seq (filter P l).
Proof.
  intros [Hs Hb]. split.
  - clear Hb. induction l as [|a l IH]; [done|]. rewrite filter_cons. rewrite fmap_cons in Hs.
    apply StronglySorted_inv in Hs as [Hs Ha]. case_decide; [|by apply IH].
    rewrite fmap_cons. constructor; [by apply IH|]. rewrite Forall_forall in Ha |- *.
    intros k (b & -> & Hb%list_elem_of_filter)%list_elem_of_fmap. apply Ha, list_elem_of_fmap. naive_solver.
  - rewrite Forall_forall in Hb |- *. intros a [_ Ha]%list_elem_of_filter. by apply Hb.
Qed.

Lemma increasing_key_eq seq l l' : key <$> l = key <$> l' → increasing key seq l → increasing key seq l'.
Proof.
  intros E [Hs Hb]. split; [by rewrite <- E|].
  apply (Forall_fmap key (λ k, (k ≤ seq)%Z)). rewrite <- E. by apply (Forall_fmap key (λ k, (k ≤ seq)%Z)).
Qed.
End increasing_lemmas.

Lemma find_map_Some {A B} (f : A → option B) l b :
  find_map f l = Some b → ∃ a, a ∈ l ∧ f a = Some b.
Proof.
  induction l as [|a l IH]; cbn; [done|].
  destruct (f a) eqn:E; [intros [= <-]; exists a; split; [by left|done]|].
  intros (a' & ? & ?)%IH. exists a'. split; [by right|done].
Qed.

Lemma find_map_None {A B} (f : A → option B) l :
  find_map f l = None ↔ Forall (λ a, f a = None) l.
Proof.
  induction l as [|a l IH]; cbn; [done|].
  rewrite Forall_cons, <- IH. destruct (f a); naive_solver.
Qed.

(** ** [BTreeMap<String, A>]: association lists in increasing key order

    [serde_json::Map] (built without [preserve_order]), [rhai::Map] and the
    [functions]/[events] tables of a JSON ABI are all ordered maps. *)

Notation bmap A := (list (string * A)).

Fixpoint bmap_get {A} (k : string) (m : bmap A) : option A :=
  match m with
  | [] => None
  | (k', a) :: m => if decide (k = k') then Some a else bmap_get k m
  end.

Fixpoint bmap_insert {A} (k : string) (a : A) (m : bmap A) : bmap A :=
  match m with
  | [] => [(k, a)]
  | (k', a') :: m' =>
      match String.compare k k' with
      | Eq => (k, a) :: m'
      | Lt => (k, a) :: m
      | Gt => (k', a') :: bmap_insert k a m'
      end
  end.

(** [map.entry(k).or_insert(a)]. *)
Definition bmap_or_insert {A} (k : string) (a : A) (m : bmap A) : bmap A :=
  match bmap_get k m with Some _ => m | None => bmap_insert k a m end.

Definition bmap_of_list {A} (l : list (string * A)) : bmap A :=
  foldl (λ m p, bmap_insert p.1 p.2 m) [] l.

Section bmap_lemmas.
Context {A : Type}.
Implicit Types (m : bmap A).

Lemma string_compare_eq k k' : String.compare k k' = Eq → k = k'.
Proof. apply String.compare_eq_iff. Qed.

Lemma string_compare_refl k : String.compare k k = Eq.
Proof.
  induction k as [|c k IH]; cbn; [done|].
  unfold Ascii.compare. by rewrite N.compare_refl.
Qed.

Lemma bmap_get_insert_eq k (a : A) m : bmap_get k (bmap_insert k a m) = Some a.
Proof.
  induction m as [|[k' a'] m IH]; cbn; [by rewrite decide_True|].
  destruct (String.compare k k') eqn:E; cbn.
  - by rewrite decide_True.
  - by rewrite decide_True.
  - rewrite decide_False; [done|]. intros ->.
    by rewrite string_compare_refl in E.
Qed.

Lemma bmap_get_insert_ne k k' (a : A) m :
  k ≠ k' → bmap_get k' (bmap_insert k a m) = bmap_get k' m.
Proof.
  intros Hne. induction m as [|[k1 a1] m IH]; cbn; [by rewrite decide_False|].
  destruct (String.compare k k1) eqn:E; cbn.
  - apply string_compare_eq in E as ->. by rewrite !decide_False.
  - by rewrite decide_False.
  - case_decide; [done|]. apply IH.
Qed.

Lemma bmap_get_insert k k' (a : A) m :
  bmap_get k' (bmap_insert k a m) = if decide (k = k') then Some a else bmap_get k' m.
Proof.
  case_decide; subst; [apply bmap_get_insert_eq|by apply bmap_get_insert_ne].
Qed.

Lemma bmap_get_or_insert k k' (a : A) m :
  bmap_get k' (bmap_or_insert k a m) =
  match bmap_get k' m with
  | Some b => Some b
  | None => if decide (k = k') then Some a else None
  end.
Proof.
  unfold bmap_or_insert. destruct (bmap_get k m) eqn:E.
  - destruct (bmap_get k' m) eqn:E'; [done|]. rewrite decide_False; [done|congruence].
  - rewrite bmap_get_insert. case_decide; subst; [by rewrite E|by destruct (bmap_get k' m)].
Qed.

Lemma bmap_of_list_snoc (l : list (string * A)) p : bmap_of_list (l ++ [p]) = bmap_insert p.1 p.2 (bmap_of_list l).
Proof. unfold bmap_of_list. by rewrite foldl_app. Qed.

Lemma bmap_of_list_keys k (l : list (string * A)) : is_Some (bmap_get k (bmap_of_list l)) ↔ k ∈ l.*1.
Proof.
  induction l as [|p l IH] using rev_ind; [split; [by intros []|by intros ?%elem_of_nil]|].
  rewrite bmap_of_list_snoc, bmap_get_insert, fmap_app, elem_of_app, <- IH. cbn.
  rewrite list_elem_of_singleton. case_decide; subst; naive_solver.
Qed.

Lemma bmap_of_list_get k a (l : list (string * A)) :
  NoDup l.*1 → (k, a) ∈ l → bmap_get k (bmap_of_list l) = Some a.
Proof.
  induction l as [|p l IH] using rev_ind; [by intros _ ?%elem_of_nil|].
  rewrite fmap_app, NoDup_app, bmap_of_list_snoc, bmap_get_insert, elem_of_app.
  intros (Hl & Hp & _) [Hk|Hk].
  - rewrite decide_False; [by apply IH|]. intros E. apply (Hp k); [by apply (list_elem_of_fmap_2 fst) in Hk|].
    rewrite <- E. cbn. by left.
  - apply list_elem_of_singleton in Hk. subst p. by rewrite decide_True.
Qed.
End bmap_lemmas.

Create HintDb argus discriminated.
#[export] Hint Rewrite @bmap_get_insert_eq : argus.
#[export] Hint Resolve u64_saturating_sub_range u64_as_i64_range : argus.

(** ** Tactics *)

(** Invert every [… = Ok …] hypothesis built from binds. *)
Ltac inv_ok :=
  repeat match goal with
  | H : (_ ≫= _) = Ok _ |- _ => apply bind_Ok in H as (? & ? & ?)
  | H : ok_or _ _ = Ok _ |- _ => apply ok_or_Ok in H
  | H : map_err _ _ = Ok _ |- _ => apply map_err_Ok in H
  | H : result_ok _ = Some _ |- _ => apply result_ok_Some in H
  | H : Ok _ = Ok _ |- _ => injection H as H; subst
  | H : Err _ = Ok _ |- _ => discriminate H
  | H : Ok _ = Err _ |- _ => discriminate H
  end.

(** Split a conjunction of boolean tests into propositions. *)
Ltac bool_to_prop :=
  repeat match goal with
  | H : _ && _ = true |- _ => apply andb_true_iff in H as [? ?]
  | H : _ || _ = false |- _ => apply orb_false_iff in H as [? ?]
  | H : negb _ = true |- _ => apply negb_true_iff in H
  | H : negb _ = false |- _ => apply negb_false_iff in H
  | H : bool_decide _ = true |- _ => apply bool_decide_eq_true_1 in H
  | H : bool_decide _ = false |- _ => apply bool_decide_eq_false_1 in H
  | H : (_ <=? _)%Z = true |- _ => apply Z.leb_le in H
  | H : (_ <=? _)%Z = false |- _ => apply Z.leb_gt in H
  | H : (_ <? _)%Z = true |- _ => apply Z.ltb_lt in H
  | H : (_ <? _)%Z = false |- _ => apply Z.ltb_ge in H
  end.

(** ** Characters of strings *)

Notation chars := Stdlib.Strings.String.list_ascii_of_string.
Notation dash := (Ascii.Ascii true false true true false true false false) (only parsing).

Lemma chars_app s t : chars (s +:+ t) = chars s ++ chars t.
Proof. induction s as [|c s IH]; [done|]. exact (f_equal (cons c) IH). Qed.

(** [str::starts_with], [str::ends_with] and [str::contains]. *)
Definition starts_with (prefix s : string) : bool := Stdlib.Strings.String.prefix prefix s.
Definition ends_with (suffix s : string) : bool :=
  bool_decide (chars suffix = drop (length (chars s) - length (chars suffix)) (chars s)).
Fixpoint str_contains (pattern s : string) : bool :=
  starts_with pattern s ||
  match s with EmptyString => false | String _ s => str_contains pattern s end.

Lemma chars_inj s t : chars s = chars t → s = t.
Proof.
  intros H. by rewrite <-(Stdlib.Strings.String.string_of_list_ascii_of_string s), H, Stdlib.Strings.String.string_of_list_ascii_of_string.
Qed.

Definition is_digit (c : Ascii.ascii) : Prop :=
  (48 <=? Ascii.nat_of_ascii c)%nat && (Ascii.nat_of_ascii c <=? 57)%nat = true.

Lemma pretty_N_go_digits x s :
  Forall is_digit (chars s) → Forall is_digit (chars (pretty_N_go x s)).
Proof.
  revert s. induction (N.lt_wf_0 x) as [x _ IH]; intros s Hs.
  destruct (decide (x = 0)%N) as [->|Hx]; [by rewrite pretty_N_go_0|].
  rewrite pretty_N_go_step by lia. apply IH; [apply N.div_lt; lia|].
  cbn. constructor; [|done].
  unfold pretty_N_char. by repeat case_match.
Qed.

Lemma pretty_N_digits (x : N) : Forall is_digit (chars (pretty x)).
Proof.
  unfold pretty, pretty_N. case_decide.
  - by repeat constructor.
  - by apply pretty_N_go_digits.
Qed.

Lemma pretty_Z_digits (z : Z) : (0 ≤ z)%Z → Forall is_digit (chars (pretty z)).
Proof.
  destruct z as [|p|p]; intros; [|apply pretty_N_digits|lia].
  by repeat constructor.
Qed.

Lemma pretty_Z_neg (z : Z) :
  (z < 0)%Z → ∃ s, pretty z = "-" +:+ s ∧ Forall is_digit (chars s).
Proof.
  destruct z as [|p|p]; intros; [lia..|].
  exists (pretty (N.pos p)). split; [done|apply pretty_N_digits].
Qed.

Lemma digits_not_in c l : ¬ is_digit c → Forall is_digit l → c ∉ l.
Proof. intros Hc Hl Hin. rewrite Forall_forall in Hl. by apply Hc, Hl. Qed.

Lemma dash_not_digit : ¬ is_digit dash.
Proof. done. Qed.

Lemma pretty_N_go_length x s : String.length s ≤ String.length (pretty_N_go x s).
Proof.
  revert s. induction (N.lt_wf_0 x) as [x _ IH]; intros s.
  destruct (decide (x = 0)%N) as [->|Hx]; [by rewrite pretty_N_go_0|].
  rewrite pretty_N_go_step by lia.
  etrans; [|apply IH, N.div_lt; lia]. cbn. lia.
Qed.

Lemma pretty_N_nonempty (x : N) : pretty x ≠ "".
Proof.
  unfold pretty, pretty_N. case_decide; [done|].
  rewrite pretty_N_go_step by lia. intros E.
  pose proof (pretty_N_go_length (x `div` 10)
    (String (pretty_N_char (x `mod` 10)) "")) as Hl.
  rewrite E in Hl. cbn in Hl. lia.
Qed.

(** A decimal number starts with a dash exactly when it is negative. *)
Lemma pretty_Z_head (z : Z) :
  ∃ c l, chars (pretty z) = c :: l ∧
    if decide (z < 0)%Z then c = dash ∧ Forall is_digit l else is_digit c ∧ Forall is_digit l.
Proof.
  case_decide as Hz.
  - destruct (pretty_Z_neg z Hz) as (s & -> & Hs). rewrite chars_app. by exists dash, (chars s).
  - assert (pretty z ≠ "") as Hne.
    { destruct z; [done|apply pretty_N_nonempty|lia]. }
    pose proof (pretty_Z_digits z ltac:(lia)) as Hd.
    destruct (chars (pretty z)) as [|c l] eqn:E.
    + by destruct Hne; apply chars_inj; rewrite E.
    + inversion Hd; subst. by exists c, l.
Qed.

(** The decimal number before the first dash that follows it is determined. *)
Lemma pretty_Z_dash_split (a b : Z) (s t : list Ascii.ascii) :
  chars (pretty a) ++ dash :: s = chars (pretty b) ++ dash :: t → a = b ∧ s = t.
Proof.
  destruct (pretty_Z_head a) as (c & l & Ea & Ha), (pretty_Z_head b) as (c' & l' & Eb & Hb).
  rewrite Ea, Eb. cbn. intros [= <- Hl].
  assert (Forall is_digit l ∧ Forall is_digit l') as [Hl1 Hl2] by (repeat case_decide; tauto).
  apply not_elem_of_app_cons_inv_l in Hl as (<- & _ & <-);
    [|by apply digits_not_in; [apply dash_not_digit|]..].
  split; [|done]. apply (inj pretty), chars_inj. congruence.
Qed.
