(* ===== verification/Models.v ===== *)
(** * Models: the data types of [crates/argus-core/src/models] and [config]

    Records for the structs, inductive types for the enums, in the order of the
    source.  Types of the [alloy], [url] and [serde_json] crates are the record
    of the fields the source reads; their operations are the members of the
    classes [AlloyPrimitives] and [UrlOps]. *)
From S2P Require Import Prelude.

(** ** Values of external crates *)

(** 20-byte addresses, 32-byte words and 256-bit integers, by value. *)
Notation Address := Z (only parsing).
Notation B256 := Z (only parsing).
Notation TxHash := Z (only parsing).
Notation U256 := Z (only parsing).
Notation Bytes := (list Byte.byte) (only parsing).
Notation Url := string (only parsing).
(** [chrono::DateTime<Utc>] and [Duration], in milliseconds. *)
Notation DateTime := Z (only parsing).
Notation Duration := Z (only parsing).

(** [serde_json::Value]; the objects are ordered maps. *)
Inductive Json : Type :=
| JNull
| JBool (b : bool)
| JNumber (z : Z)
| JString (s : string)
| JArray (l : list Json)
| JObject (m : bmap Json).

(** What the code uses of [alloy::primitives] and [hex]. *)
Class AlloyPrimitives := {
  to_checksum : Address → string;
  address_display : Address → string;
  b256_display : B256 → string;
  address_serde : Address → string;
  u256_display : U256 → string;
  i256_display : Z → string;
  parse_address : string → option Address;
  hex_encode : Bytes → string
}.

(** What the code uses of the [url] crate. *)
Class UrlOps := { url_domain : Url → option string }.

(** ** Identifiers and statuses *)

Notation NetworkId := string (only parsing).
Notation ActionId := Z (only parsing).

Inductive MonitorStatus := Active | Paused.

#[export] Instance MonitorStatus_eq_dec : EqDecision MonitorStatus.
Proof. solve_decision. Defined.

(** [impl Default for MonitorStatus] (the [#[default]] variant). *)
Definition MonitorStatus_default : MonitorStatus := Active.

(** [impl From<String> for MonitorStatus]. *)
Definition MonitorStatus_from (s : string) : MonitorStatus :=
  if decide (s = "paused") then Paused else Active.

(** [eq_ignore_ascii_case] of the Rust standard library. *)
Definition ascii_to_lower (c : Ascii.ascii) : Ascii.ascii :=
  let n := Ascii.nat_of_ascii c in
  if (65 <=? n)%nat && (n <=? 90)%nat then Ascii.ascii_of_nat (n + 32) else c.
Fixpoint to_ascii_lowercase (s : string) : string :=
  match s with
  | EmptyString => EmptyString
  | String c s => String (ascii_to_lower c) (to_ascii_lowercase s)
  end.
Definition eq_ignore_ascii_case (a b : string) : bool :=
  bool_decide (to_ascii_lowercase a = to_ascii_lowercase b).

(** ** Monitors ([models/monitor.rs]) *)

Record MonitorConfig := mkMonitorConfig {
  mc_name : string;
  mc_network : NetworkId;
  mc_address : option string;
  mc_abi_name : option string;
  mc_filter_script : string;
  mc_actions : list string;
  mc_status : MonitorStatus
}.

Record Monitor := mkMonitor {
  m_id : Z;
  m_name : string;
  m_network : NetworkId;
  m_address : option string;
  m_abi_name : option string;
  m_filter_script : string;
  m_actions : list string;
  m_created_at : DateTime;
  m_updated_at : DateTime;
  m_status : MonitorStatus
}.

(** [MonitorConfig::from_config]. *)
Definition MonitorConfig_from_config (name : string) (network : NetworkId)
    (address abi_name : option string) (filter_script : string)
    (actions : list string) : MonitorConfig :=
  {| mc_name := name; mc_network := network; mc_address := address;
     mc_abi_name := abi_name; mc_filter_script := filter_script;
     mc_actions := actions; mc_status := MonitorStatus_default |}.

(** ** Transactions, logs and blocks *)

Inductive TxType := Legacy | Eip2930 | Eip1559 | Eip4844 | Eip7702.

Record Transaction := mkTransaction {
  tx_hash : TxHash;
  tx_to : option Address;
  tx_from : Address;
  tx_input : Bytes;
  tx_value : U256;
  tx_gas : Z;
  tx_gas_price : option Z;
  tx_nonce : Z;
  tx_block_hash : option B256;
  tx_block_number : option Z;
  tx_transaction_index : option Z;
  tx_max_fee_per_gas : Z;
  tx_max_priority_fee_per_gas : option Z;
  tx_chain_id : option Z;
  tx_transaction_type : TxType
}.

(** [Transaction::is_contract_creation]. *)
Definition is_contract_creation (tx : Transaction) : bool :=
  match tx_to tx with None => true | Some _ => false end.

Record Log := mkLog {
  log_address : Address;
  log_topics : list B256;
  log_data : Bytes;
  log_block_hash : option B256;
  log_block_number : option Z;
  log_transaction_hash : option B256;
  log_transaction_index : option Z;
  log_log_index : option Z;
  log_removed : bool
}.

Record TransactionReceipt := mkReceipt {
  receipt_gas_used : Z;
  receipt_status : bool;
  receipt_effective_gas_price : Z
}.

Inductive BlockTransactions :=
| FullTxs (txs : list Transaction)
| HashesOnly (hashes : list TxHash).

(** [BlockTransactions::hashes]. *)
Definition block_tx_hashes (t : BlockTransactions) : list TxHash :=
  match t with FullTxs txs => tx_hash <$> txs | HashesOnly hs => hs end.

Record Block := mkBlock {
  block_number : Z;
  block_timestamp : Z;
  block_logs_bloom : Bytes;
  block_transactions : BlockTransactions
}.

(** ** Block data ([models/block_data.rs]) *)

Record BlockData := mkBlockData {
  bd_block : Block;
  bd_receipts : gmap TxHash TransactionReceipt;
  bd_logs : gmap TxHash (list Log)
}.

(** [HashMap::entry(k).or_default().push(x)]. *)
Definition push_entry {A} (k : Z) (x : A) (m : gmap Z (list A)) : gmap Z (list A) :=
  <[k := default [] (m !! k) ++ [x]]> m.

(** Logs without the key are skipped: the [if let Some(k)] of the grouping loops. *)
Definition group_logs (key : Log → option Z) (raw_logs : list Log) : gmap Z (list Log) :=
  foldl (λ m l, match key l with Some k => push_entry k l m | None => m end) ∅ raw_logs.

(** [BlockData::from_raw_data]. *)
Definition BlockData_from_raw_data (block : Block)
    (receipts : gmap TxHash TransactionReceipt) (raw_logs : list Log) : BlockData :=
  {| bd_block := block; bd_receipts := receipts;
     bd_logs := group_logs log_transaction_hash raw_logs |}.

(** ** Correlated data ([models/correlated_data.rs], [models/decoded_block.rs]) *)

Record CorrelatedBlockItem := mkItem {
  item_transaction : Transaction;
  item_logs : list Log;
  item_receipt : option TransactionReceipt
}.

Record CorrelatedBlockData := mkCorrelated {
  cb_block_number : Z;
  cb_items : list CorrelatedBlockItem
}.

(** ** Notifications, policies and actions ([models/action], [models/notification.rs]) *)

Record NotificationMessage := mkMessage { msg_title : string; msg_body : string }.

Record AggregationPolicy := mkAggregation {
  agg_window_secs : Duration;
  agg_template : NotificationMessage
}.
Record ThrottlePolicy := mkThrottle {
  thr_max_count : Z;
  thr_time_window_secs : Duration
}.
Inductive ActionPolicy :=
| Aggregation (p : AggregationPolicy)
| Throttle (p : ThrottlePolicy).

Inductive JitterSetting := JitterNone | JitterFull.
#[export] Instance JitterSetting_eq_dec : EqDecision JitterSetting.
Proof. solve_decision. Defined.

Record HttpRetryConfig := mkRetry {
  max_retry : Z;
  base_for_backoff : Z;
  initial_backoff_ms : Duration;
  max_backoff_secs : Duration;
  jitter : JitterSetting
}.
#[export] Instance HttpRetryConfig_eq_dec : EqDecision HttpRetryConfig.
Proof. solve_decision. Defined.

Definition HttpRetryConfig_default : HttpRetryConfig :=
  {| max_retry := 3; base_for_backoff := 2; initial_backoff_ms := 250;
     max_backoff_secs := 10000; jitter := JitterFull |}.

Record GenericWebhookConfig := mkWebhook {
  wh_url : Url;
  wh_method : option string;
  wh_secret : option string;
  wh_headers : option (gmap string string);
  wh_message : NotificationMessage;
  wh_retry_policy : HttpRetryConfig
}.
Record SlackConfig := mkSlack {
  slack_url : Url; slack_message : NotificationMessage; slack_retry_policy : HttpRetryConfig
}.
Record DiscordConfig := mkDiscord {
  discord_url : Url; discord_message : NotificationMessage; discord_retry_policy : HttpRetryConfig
}.
Record TelegramConfig := mkTelegram {
  tg_token : string;
  tg_chat_id : string;
  tg_message : NotificationMessage;
  tg_disable_web_preview : option bool;
  tg_retry_policy : HttpRetryConfig
}.
Record StdoutConfig := mkStdout { stdout_message : option NotificationMessage }.

Record KafkaSecurityConfig := mkKafkaSecurity {
  ks_protocol : string;
  ks_sasl_mechanism : option string;
  ks_sasl_username : option string;
  ks_sasl_password : option string;
  ks_ssl_ca_location : option string
}.
Definition KafkaSecurityConfig_default : KafkaSecurityConfig :=
  {| ks_protocol := "PLAINTEXT"; ks_sasl_mechanism := None; ks_sasl_username := None;
     ks_sasl_password := None; ks_ssl_ca_location := None |}.
Record KafkaProducerConfig := mkKafkaProducer {
  kp_message_timeout_ms : Z; kp_compression_codec : string; kp_acks : string
}.
Definition KafkaProducerConfig_default : KafkaProducerConfig :=
  {| kp_message_timeout_ms := 5000; kp_compression_codec := "none"; kp_acks := "all" |}.
Record KafkaConfig := mkKafka {
  kafka_topic : string;
  kafka_brokers : string;
  kafka_security : KafkaSecurityConfig;
  kafka_producer : KafkaProducerConfig
}.
Record RabbitMqConfig := mkRabbit {
  rmq_uri : string; rmq_exchange : string; rmq_exchange_type : string;
  rmq_routing_key : option string
}.
Record NatsCredentials := mkNatsCreds { nc_token : option string; nc_file : option string }.
Record NatsConfig := mkNats {
  nats_urls : string; nats_subject : string; nats_credentials : option NatsCredentials
}.

Inductive ActionTypeConfig :=
| Webhook (c : GenericWebhookConfig)
| Slack (c : SlackConfig)
| Discord (c : DiscordConfig)
| Telegram (c : TelegramConfig)
| Stdout (c : StdoutConfig)
| Kafka (c : KafkaConfig)
| RabbitMq (c : RabbitMqConfig)
| Nats (c : NatsConfig).

Inductive ActionTypeConfigError :=
| EmptyTitle | EmptyTelegramToken | EmptyTelegramChatId | InvalidDiscordUrl
| InvalidSlackUrl | EmptyKafkaTopic | EmptyKafkaBrokers | EmptyRabbitMqUri
| EmptyRabbitMqExchange | EmptyNatsUrls | EmptyNatsSubject | BothNatsCredentials.

Record ActionConfig := mkAction {
  ac_id : option ActionId;
  ac_name : string;
  ac_config : ActionTypeConfig;
  ac_policy : option ActionPolicy
}.

Definition str_is_empty (s : string) : bool := bool_decide (s = "").

Section action_validation.
Context `{UrlOps}.

(** [ActionTypeConfig::validate]. *)
Definition ActionTypeConfig_validate (c : ActionTypeConfig)
    : result ActionTypeConfigError unit :=
  match c with
  | Webhook config =>
      if str_is_empty (msg_title (wh_message config)) then Err EmptyTitle else Ok tt
  | Slack config =>
      if bool_decide (url_domain (slack_url config) ≠ Some "hooks.slack.com")
      then Err InvalidSlackUrl else Ok tt
  | Discord config =>
      if bool_decide (url_domain (discord_url config) ≠ Some "discord.com")
      then Err InvalidDiscordUrl else Ok tt
  | Telegram config =>
      if str_is_empty (tg_token config) then Err EmptyTelegramToken
      else if str_is_empty (tg_chat_id config) then Err EmptyTelegramChatId
      else Ok tt
  | Stdout _ => Ok tt
  | Kafka config =>
      if str_is_empty (kafka_topic config) then Err EmptyKafkaTopic
      else if str_is_empty (kafka_brokers config) then Err EmptyKafkaBrokers
      else Ok tt
  | RabbitMq config =>
      if str_is_empty (rmq_uri config) then Err EmptyRabbitMqUri
      else if str_is_empty (rmq_exchange config) then Err EmptyRabbitMqExchange
      else Ok tt
  | Nats config =>
      if str_is_empty (nats_urls config) then Err EmptyNatsUrls
      else if str_is_empty (nats_subject config) then Err EmptyNatsSubject
      else match nats_credentials config with
           | Some creds =>
               if bool_decide (is_Some (nc_token creds)) && bool_decide (is_Some (nc_file creds))
               then Err BothNatsCredentials else Ok tt
           | None => Ok tt
           end
  end.
End action_validation.

(** ** Errors *)

Inductive PersistenceError :=
| OperationFailed (e : string)
| NotFound
| SerializationError (e : string)
| MigrationError (e : string)
| InvalidInput (e : string)
| AbiInUse (monitors : list string).

Inductive DataSourceError :=
| UrlParse (e : string)
| Provider (e : string)
| ProviderOf (e : DataSourceError) (* [Provider] of a boxed data source error *)
| BlockNotFound (n : Z)
| ChannelClosed
| StateRepository (e : PersistenceError).

(** ** Configuration ([crates/argus-core/src/config]) *)

Inductive InitialStartBlock := Absolute (n : Z) | Offset (z : Z) | Latest.

Definition InitialStartBlock_default : InitialStartBlock := Offset (-100).

(** [StartBlockVisitor::visit_i64] and [visit_str]. *)
Definition InitialStartBlock_visit_i64 (value : Z) : InitialStartBlock :=
  if (value =? 0)%Z then InitialStartBlock_default
  else if (value >? 0)%Z then Absolute value
  else Offset value.
Definition InitialStartBlock_visit_str (value : string) : result string InitialStartBlock :=
  if eq_ignore_ascii_case value "latest" then Ok Latest else Err value.

Record OutboxConfig := mkOutboxConfig {
  ob_batch_size : Z; ob_concurrency : nat; ob_poll_interval_ms : Z
}.
Definition OutboxConfig_default : OutboxConfig :=
  {| ob_batch_size := 100; ob_concurrency := 10; ob_poll_interval_ms := 500 |}.

(** The fields of [AppConfig] the modelled services read. *)
Record AppConfig := mkAppConfig {
  cfg_network_id : NetworkId;
  cfg_block_chunk_size : Z;
  cfg_log_chunk_size : Z;
  cfg_concurrency : Z;
  cfg_polling_interval_ms : Duration;
  cfg_expected_block_time_ms : option Duration;
  cfg_confirmation_blocks : Z;
  cfg_initial_start_block : InitialStartBlock;
  cfg_api_key : option string
}.

(** ** Grouping lemmas *)

Lemma group_logs_app key l1 l2 :
  group_logs key (l1 ++ l2) =
  foldl (λ m l, match key l with Some k => push_entry k l m | None => m end)
        (group_logs key l1) l2.
Proof. apply foldl_app. Qed.

(** Looking up a group gives the logs with that key, in their original order. *)
Lemma group_logs_lookup key raw_logs k :
  default [] (group_logs key raw_logs !! k) = filter (λ l, key l = Some k) raw_logs.
Proof.
  induction raw_logs as [|l ls IH] using rev_ind; [done|].
  rewrite group_logs_app, filter_app, filter_cons, filter_nil. cbn [foldl].
  destruct (key l) as [k'|] eqn:E.
  - unfold push_entry. destruct (decide (k' = k)) as [->|Hne].
    + rewrite lookup_insert_eq, decide_True by done. cbn. by rewrite <- IH.
    + rewrite lookup_insert_ne, decide_False, app_nil_r by congruence. done.
  - rewrite decide_False, app_nil_r by congruence. done.
Qed.
