(* ===== verification/MonitorMatch.v ===== *)
(** * Monitor matches and action payloads

    [crates/argus-core/src/models/monitor_match.rs] (the typestate builder and
    the identifier of a match), [action_dispatcher/payload.rs] (the payload of
    an action and its idempotency key) and [models/alert_manager_state.rs]. *)
From S2P Require Import Prelude Models.

(** ** Data *)

Record LogDetails := mkLogDetails {
  ld_address : Address;
  ld_log_index : Z;
  ld_name : string;
  ld_params : Json
}.

Inductive MatchData :=
| MatchLog (log_details : LogDetails) (tx_details : Json)
| MatchTransaction (details : Json).

Record MonitorMatch := mkMatch {
  mm_id : string;
  mm_monitor_id : Z;
  mm_monitor_name : string;
  mm_action_name : string;
  mm_block_number : Z;
  mm_transaction_hash : TxHash;
  mm_match_data : MatchData;
  mm_decoded_call : option Json
}.

(** The builder, indexed by its state: [unit] until match data is set. *)
Record MonitorMatchBuilder (State : Type) := mkBuilder {
  bl_monitor_id : Z;
  bl_monitor_name : string;
  bl_action_name : string;
  bl_block_number : Z;
  bl_transaction_hash : TxHash;
  bl_match_data : State;
  bl_decoded_call : option Json
}.
Arguments mkBuilder {State} _ _ _ _ _ _ _.
Arguments bl_monitor_id {State} _.
Arguments bl_monitor_name {State} _.
Arguments bl_action_name {State} _.
Arguments bl_block_number {State} _.
Arguments bl_transaction_hash {State} _.
Arguments bl_match_data {State} _.
Arguments bl_decoded_call {State} _.

(** ** The builder *)

(** [MonitorMatch::builder]. *)
Definition builder (monitor_id : Z) (monitor_name action_name : string)
    (block_number : Z) (transaction_hash : TxHash) : MonitorMatchBuilder unit :=
  {| bl_monitor_id := monitor_id; bl_monitor_name := monitor_name;
     bl_action_name := action_name; bl_block_number := block_number;
     bl_transaction_hash := transaction_hash; bl_match_data := tt;
     bl_decoded_call := None |}.

Definition with_match_data {State} (b : MonitorMatchBuilder State) (d : MatchData)
    : MonitorMatchBuilder MatchData :=
  {| bl_monitor_id := bl_monitor_id b; bl_monitor_name := bl_monitor_name b;
     bl_action_name := bl_action_name b; bl_block_number := bl_block_number b;
     bl_transaction_hash := bl_transaction_hash b; bl_match_data := d;
     bl_decoded_call := bl_decoded_call b |}.

Definition transaction_match (b : MonitorMatchBuilder unit) (details : Json)
    : MonitorMatchBuilder MatchData :=
  with_match_data b (MatchTransaction details).

Definition log_match (b : MonitorMatchBuilder unit) (log_details : LogDetails)
    (tx_details : Json) : MonitorMatchBuilder MatchData :=
  with_match_data b (MatchLog log_details tx_details).

Definition decoded_call (b : MonitorMatchBuilder MatchData) (call : option Json)
    : MonitorMatchBuilder MatchData :=
  {| bl_monitor_id := bl_monitor_id b; bl_monitor_name := bl_monitor_name b;
     bl_action_name := bl_action_name b; bl_block_number := bl_block_number b;
     bl_transaction_hash := bl_transaction_hash b; bl_match_data := bl_match_data b;
     bl_decoded_call := call |}.

Section build.
Context `{AlloyPrimitives}.

(** [format!("{}-{}-{}", ..)] and [format!("{}-{}-{}-{}", ..)] of [build]. *)
Definition match_id (monitor_id : Z) (action_name : string) (h : TxHash)
    (d : MatchData) : string :=
  match d with
  | MatchTransaction _ =>
      pretty monitor_id +:+ "-" +:+ action_name +:+ "-" +:+ b256_display h
  | MatchLog ld _ =>
      pretty monitor_id +:+ "-" +:+ action_name +:+ "-" +:+ b256_display h
        +:+ "-" +:+ pretty (ld_log_index ld)
  end.

Definition build (b : MonitorMatchBuilder MatchData) : MonitorMatch :=
  {| mm_id := match_id (bl_monitor_id b) (bl_action_name b)
                (bl_transaction_hash b) (bl_match_data b);
     mm_monitor_id := bl_monitor_id b;
     mm_monitor_name := bl_monitor_name b;
     mm_action_name := bl_action_name b;
     mm_block_number := bl_block_number b;
     mm_transaction_hash := bl_transaction_hash b;
     mm_match_data := bl_match_data b;
     mm_decoded_call := bl_decoded_call b |}.
End build.

(** ** Payloads *)

Inductive ActionPayload :=
| Single (m : MonitorMatch)
| Aggregated (action_name : string) (matches : list MonitorMatch)
    (template : NotificationMessage).

(** The derived serialisation of [LogDetails], [MatchData] and [MonitorMatch]:
    [match_data] is flattened, the absent [decoded_call] is skipped. *)
Section serialization.
Context `{AlloyPrimitives}.

Definition LogDetails_to_json (ld : LogDetails) : Json :=
  JObject (bmap_of_list
    [("address", JString (address_serde (ld_address ld)));
     ("log_index", JNumber (ld_log_index ld));
     ("name", JString (ld_name ld));
     ("params", ld_params ld)]).

Definition MatchData_fields (d : MatchData) : list (string * Json) :=
  match d with
  | MatchLog ld tx => [("log", LogDetails_to_json ld); ("tx", tx)]
  | MatchTransaction tx => [("tx", tx)]
  end.

Definition MonitorMatch_to_json (m : MonitorMatch) : Json :=
  JObject (bmap_of_list
    ([("id", JString (mm_id m));
      ("monitor_id", JNumber (mm_monitor_id m));
      ("monitor_name", JString (mm_monitor_name m));
      ("action_name", JString (mm_action_name m));
      ("block_number", JNumber (mm_block_number m));
      ("transaction_hash", JString (b256_display (mm_transaction_hash m)))]
     ++ MatchData_fields (mm_match_data m)
     ++ match mm_decoded_call m with Some c => [("decoded_call", c)] | None => [] end)).

(** [ActionPayload::context]: serialising these values does not fail. *)
Definition context (p : ActionPayload) : Json :=
  match p with
  | Single m => MonitorMatch_to_json m
  | Aggregated _ matches _ =>
      let monitor_name :=
        match head matches with Some m => JString (mm_monitor_name m) | None => JNull end in
      JObject (bmap_of_list
        [("matches", JArray (MonitorMatch_to_json <$> matches));
         ("monitor_name", monitor_name)])
  end.
End serialization.

(** [ActionPayload::action_name], [ActionPayload::monitor_name]. *)
Definition action_name (p : ActionPayload) : string :=
  match p with Single m => mm_action_name m | Aggregated n _ _ => n end.

Definition monitor_name (p : ActionPayload) : string :=
  match p with
  | Single m => mm_monitor_name m
  | Aggregated _ matches _ =>
      match head matches with Some m => mm_monitor_name m | None => "" end
  end.

(** [DefaultHasher] fed with strings; its algorithm is unspecified by the
    standard library, so it is a parameter. *)
Class DefaultHasher := { hash_strings : list string → Z }.

(** [format!("{:x}", n)] of a [u64]: at most sixteen digits. *)
Definition hex_digit (n : Z) : string :=
  match n with
  | 0 => "0" | 1 => "1" | 2 => "2" | 3 => "3" | 4 => "4" | 5 => "5" | 6 => "6"
  | 7 => "7" | 8 => "8" | 9 => "9" | 10 => "a" | 11 => "b" | 12 => "c" | 13 => "d"
  | 14 => "e" | _ => "f"
  end%Z.
Fixpoint to_hex_fuel (fuel : nat) (n : Z) : string :=
  match fuel with
  | 0 => ""
  | S fuel =>
      if (n <? 16)%Z then hex_digit n
      else to_hex_fuel fuel (n / 16) +:+ hex_digit (n mod 16)
  end.
Definition to_hex (n : Z) : string := to_hex_fuel 16 n.

(** [ids.sort_unstable()]: equal strings are indistinguishable. *)
Definition sort_strings (l : list string) : list string := merge_sort String.le l.

(** [ActionPayload::idempotency_key]. *)
Definition idempotency_key `{DefaultHasher} (p : ActionPayload) : string :=
  match p with
  | Single m => mm_id m
  | Aggregated _ matches _ =>
      let ids := sort_strings (mm_id <$> matches) in
      "agg-" +:+ to_hex (hash_strings ids)
  end.

(** ** Alert state ([models/alert_manager_state.rs]) *)

Record ThrottleState := mkThrottleState {
  ts_count : Z;
  ts_window_start_time : DateTime
}.
Record AggregationState := mkAggregationState {
  as_matches : list MonitorMatch;
  as_window_start_time : DateTime
}.
(** [#[derive(Default)]]: the epoch is the default date. *)
Definition AggregationState_default : AggregationState :=
  {| as_matches := []; as_window_start_time := 0 |}.

(** ** Identifiers determine the event and the action *)

(** Documented shape of [Display for B256]: a ["0x"] prefix and hexadecimal
    digits, distinct words printing differently. *)
Class B256DisplayLaws `{AlloyPrimitives} := {
  b256_display_inj : Inj (=) (=) b256_display;
  b256_display_shape : ∀ h, ∃ s,
    b256_display h = "0x" +:+ s ∧ dash ∉ chars s
}.

(** The log index of a log match, nothing for a transaction match. *)
Definition log_index_of (d : MatchData) : option Z :=
  match d with MatchLog ld _ => Some (ld_log_index ld) | MatchTransaction _ => None end.

Definition log_index_valid (d : MatchData) : Prop :=
  match log_index_of d with Some i => is_u64 i | None => True end.

Section identifiers.
Context `{B256DisplayLaws}.

Lemma b256_display_no_dash h : dash ∉ chars (b256_display h).
Proof.
  destruct (b256_display_shape h) as (s & -> & Hs). rewrite chars_app.
  rewrite elem_of_app. intros [Hx|]; [|done].
  revert Hx. by apply (bool_decide_unpack (_ ∉ _)).
Qed.

(** A hash is never mistaken for a decimal index: it has an ['x']. *)
Lemma b256_display_not_decimal h (n : Z) : (0 ≤ n)%Z → b256_display h ≠ pretty n.
Proof.
  destruct (b256_display_shape h) as (s & -> & _). intros Hn E.
  pose proof (pretty_Z_digits n Hn) as Hd. rewrite <- E, chars_app in Hd.
  by inversion Hd as [|?? _ Hd']; inversion Hd'.
Qed.

Lemma last_dash_split s s' t t' :
  dash ∉ chars t → dash ∉ chars t' →
  chars s ++ dash :: chars t = chars s' ++ dash :: chars t' → s = s' ∧ t = t'.
Proof.
  intros Ht Ht' (?%chars_inj & _ & ?%chars_inj)%not_elem_of_app_cons_inv_r; auto.
Qed.

Lemma chars_match_id mid a h d :
  chars (match_id mid a h d) =
  chars (pretty mid) ++ dash :: chars a ++ dash ::
    match d with
    | MatchTransaction _ => chars (b256_display h)
    | MatchLog ld _ =>
        chars (b256_display h) ++ dash :: chars (pretty (ld_log_index ld))
    end.
Proof. destruct d; unfold match_id; by rewrite !chars_app. Qed.

(** The part of the identifier after the monitor id determines the action,
    the transaction and the log index. *)
Lemma match_id_tail_inj a h d a' h' d' :
  log_index_valid d → log_index_valid d' →
  chars a ++ dash :: match d with
    | MatchTransaction _ => chars (b256_display h)
    | MatchLog ld _ => chars (b256_display h) ++ dash :: chars (pretty (ld_log_index ld))
    end =
  chars a' ++ dash :: match d' with
    | MatchTransaction _ => chars (b256_display h')
    | MatchLog ld _ => chars (b256_display h') ++ dash :: chars (pretty (ld_log_index ld))
    end →
  a = a' ∧ h = h' ∧ log_index_of d = log_index_of d'.
Proof.
  assert (∀ n : Z, is_u64 n → dash ∉ chars (pretty n)) as Hn.
  { intros n [Hn _]. apply digits_not_in; [apply dash_not_digit|by apply pretty_Z_digits]. }
  pose proof b256_display_no_dash as Hb.
  destruct d as [ld tx|tx], d' as [ld' tx'|tx'];
    unfold log_index_valid; cbn; intros Hd Hd'; rewrite ?app_comm_cons, ?app_assoc; intros E.
  - apply not_elem_of_app_cons_inv_r in E as (E & _ & Ei%chars_inj%(inj pretty)); [|auto..].
    apply not_elem_of_app_cons_inv_r in E as (?%chars_inj & _ & ?%chars_inj%b256_display_inj); auto.
    by rewrite Ei.
  - apply not_elem_of_app_cons_inv_r in E as (_ & _ & Ei%chars_inj); [|auto..].
    destruct (b256_display_not_decimal h' (ld_log_index ld)); [apply Hd|done].
  - apply not_elem_of_app_cons_inv_r in E as (_ & _ & Ei%chars_inj); [|auto..].
    destruct (b256_display_not_decimal h (ld_log_index ld')); [apply Hd'|done].
  - apply not_elem_of_app_cons_inv_r in E as (?%chars_inj & _ & ?%chars_inj%b256_display_inj); auto.
Qed.

(** C38: Two matches built by the filtering engine have the same [id] only if
    they come from the same monitor, the same action, the same transaction and
    the same log (or are both transaction matches), whatever dashes the action
    names contain.  The identifier is the idempotency key of the outbox, so
    distinct alerts are never merged. *)
Theorem match_id_injective (b b' : MonitorMatchBuilder MatchData) :
  log_index_valid (bl_match_data b) → log_index_valid (bl_match_data b') →
  mm_id (build b) = mm_id (build b') →
  bl_monitor_id b = bl_monitor_id b' ∧ bl_action_name b = bl_action_name b' ∧
  bl_transaction_hash b = bl_transaction_hash b' ∧
  log_index_of (bl_match_data b) = log_index_of (bl_match_data b').
Proof.
  intros Hd Hd' E. cbn in E. apply (f_equal chars) in E. rewrite !chars_match_id in E.
  apply pretty_Z_dash_split in E as [-> E].
  apply match_id_tail_inj in E; naive_solver.
Qed.
End identifiers.

(** The idempotency key of an aggregated payload does not depend on the order
    in which its matches were collected, nor on the action name or template. *)
Theorem idempotency_key_order_independent `{DefaultHasher} n n' ms ms' t t' :
  ms ≡ₚ ms' →
  idempotency_key (Aggregated n ms t) = idempotency_key (Aggregated n' ms' t').
Proof.
  intros Hp. unfold idempotency_key, sort_strings. do 3 f_equal.
  apply (Sorted_unique String.le); [apply Sorted_merge_sort; apply _..|].
  by rewrite !merge_sort_Permutation, Hp.
Qed.

(** ** Concrete instances used by the witnesses *)

Module Demo.
(** Addresses and words print as ["0x"] followed by their decimal value. *)
#[export] Instance demo_primitives : AlloyPrimitives := {|
  to_checksum a := "0x" +:+ pretty a;
  address_display a := "0x" +:+ pretty a;
  b256_display h := "0x" +:+ pretty (Z.to_N (Z.abs h)) +:+
                    (if decide (0 ≤ h)%Z then "" else "n");
  address_serde a := "0x" +:+ pretty a;
  u256_display v := pretty v;
  i256_display v := pretty v;
  parse_address s :=
    match s with
    | "0x1" => Some 1 | "0x2" => Some 2 | "0x3" => Some 3 | _ => None
    end%Z;
  hex_encode b := pretty (Z.of_nat (length b))
|}.

#[export] Instance demo_hasher : DefaultHasher :=
  {| hash_strings l := foldr (λ s h, (31 * h + Z.of_nat (String.length s)) mod 2 ^ 64)%Z 7%Z l |}.

Lemma pretty_N_append_inj (a b : N) s t :
  (s = "" ∨ s = "n") → (t = "" ∨ t = "n") →
  pretty a +:+ s = pretty b +:+ t → a = b ∧ s = t.
Proof.
  intros Hs Ht E. apply (f_equal chars) in E. rewrite !chars_app in E.
  pose proof (pretty_N_digits a) as Ha. pose proof (pretty_N_digits b) as Hb.
  destruct Hs as [-> | ->], Ht as [-> | ->]; cbn in E; rewrite ?app_nil_r in E.
  - split; [|done]. by apply (inj pretty), chars_inj.
  - exfalso. rewrite E in Ha. apply Forall_app in Ha as [_ Ha]. by inversion Ha.
  - exfalso. rewrite <- E in Hb. apply Forall_app in Hb as [_ Hb]. by inversion Hb.
  - apply app_inj_tail in E as [E _]. split; [|done]. by apply (inj pretty), chars_inj.
Qed.

#[export] Instance demo_display_laws : B256DisplayLaws.
Proof.
  split.
  - intros x y E. cbn in E. injection E as E.
    apply pretty_N_append_inj in E as [E Hs]; [|repeat case_decide; auto..].
    repeat case_decide; solve [lia|done].
  - intros h. eexists. split; [reflexivity|]. rewrite chars_app, elem_of_app. intros [Hx|Hx].
    + revert Hx. apply digits_not_in; [done|apply pretty_N_digits].
    + case_decide; [by apply not_elem_of_nil in Hx|].
      apply elem_of_cons in Hx as [[=]|Hx]. by apply not_elem_of_nil in Hx.
Defined.

Definition demo_log : LogDetails := mkLogDetails 1 4 "Transfer" JNull.
Definition demo_builder : MonitorMatchBuilder MatchData :=
  log_match (builder 1 "m" "hook-0x7" 10 7) demo_log JNull.
Definition demo_tx_builder : MonitorMatchBuilder MatchData :=
  transaction_match (builder 1 "m" "hook" 10 7) JNull.
End Demo.
Import Demo.

Lemma match_id_injective_witness :
  let b := Demo.demo_builder in
  mm_id (build b) = "1-hook-0x7-0x7-4" ∧
  bl_monitor_id b = bl_monitor_id b ∧ bl_action_name b = bl_action_name b ∧
  bl_transaction_hash b = bl_transaction_hash b ∧
  log_index_of (bl_match_data b) = log_index_of (bl_match_data b).
Proof.
  cbv zeta. split; [vm_compute; reflexivity|].
  apply (match_id_injective Demo.demo_builder Demo.demo_builder);
    [vm_compute; split; discriminate..|reflexivity].
Defined.

Lemma idempotency_key_order_independent_witness :
  let m1 := build Demo.demo_builder in
  let m2 := build Demo.demo_tx_builder in
  let t := mkMessage "t" "b" in
  idempotency_key (Aggregated "hook" [m1; m2] t) = idempotency_key (Aggregated "hook" [m2; m1] t).
Proof.
  cbv zeta. apply (idempotency_key_order_independent "hook" "hook"). apply Permutation_swap.
Defined.
