(* ===== verification/Abi.v ===== *)
(** * The ABI service ([crates/argus-abi/src/lib.rs], [models.rs])

    Contract ABIs by name and by address, the global indices, and the decoding
    of logs and calls: address-specific ABIs first, global ones after.  The ABI
    decoder, the selectors and the type parser of [alloy] are the members of
    the class [DynAbi]. *)
From S2P Require Import Prelude Models.

(** ** ABI items and values of [alloy] *)

Notation Selector := (list Byte.byte) (only parsing).

#[export] Instance byte_eq_dec : EqDecision Byte.byte := Byte.byte_eq_dec.
#[export] Instance byte_countable : Countable Byte.byte.
Proof. refine (inj_countable Byte.to_N Byte.of_N _). apply Byte.of_to_N. Defined.

Record Param := mkParam { param_name : string; param_ty : string }.
Record Function := mkFunction { fn_name : string; fn_inputs : list Param }.
Record EventParam := mkEventParam { ep_name : string; ep_ty : string; ep_indexed : bool }.
Record Event := mkEvent { ev_name : string; ev_inputs : list EventParam }.
(** The functions and events in the order of [JsonAbi::functions] and [events]. *)
Record JsonAbi := mkJsonAbi { abi_functions : list Function; abi_events : list Event }.

#[export] Instance Param_eq_dec : EqDecision Param.
Proof. solve_decision. Defined.
#[export] Instance Function_eq_dec : EqDecision Function.
Proof. solve_decision. Defined.
#[export] Instance EventParam_eq_dec : EqDecision EventParam.
Proof. solve_decision. Defined.
#[export] Instance Event_eq_dec : EqDecision Event.
Proof. solve_decision. Defined.

(** [dyn_abi::DynSolValue]. *)
Inductive DynSolValue :=
| SolBool (b : bool)
| SolInt (i : Z) (size : nat)
| SolUint (u : Z) (size : nat)
| SolFixedBytes (word : list Byte.byte) (size : nat)
| SolAddress (a : Address)
| SolFunction (f : list Byte.byte)
| SolBytes (b : list Byte.byte)
| SolString (s : string)
| SolArray (l : list DynSolValue)
| SolFixedArray (l : list DynSolValue)
| SolTuple (l : list DynSolValue).

(** [dyn_abi::Error]: the code builds [TypeMismatch] itself. *)
Inductive DynAbiError :=
| TypeMismatch (expected actual : string)
| DynError (e : string).

Class DynAbi := {
  DynSolType : Type;
  parse_type : string → option DynSolType;
  tuple_to_string : list DynSolType → string;
  value_debug : DynSolValue → string;
  event_selector : Event → B256;
  function_selector : Function → Selector;
  (** [Event::decode_log_parts]: the indexed values and the body values. *)
  decode_log_parts : Event → list B256 → Bytes →
    result DynAbiError (list DynSolValue * list DynSolValue);
  (** [DynSolType::Tuple(types).abi_decode(data)]. *)
  abi_decode_tuple : list DynSolType → Bytes → result DynAbiError DynSolValue
}.

(** ** Decoded items ([models.rs]) *)

Record DecodedLog := mkDecodedLog {
  dl_log : Log;
  dl_name : string;
  dl_params : list (string * DynSolValue)
}.
Record DecodedCall := mkDecodedCall {
  dc_name : string;
  dc_params : list (string * DynSolValue)
}.

(** ** Errors *)

Inductive AbiError :=
| AbiNotFound (a : Address)
| AbiNotFoundInRegistry (name : string)
| EventNotFound (signature : B256) (address : Address)
| FunctionNotFound (selector : Selector) (address : Address)
| ContractCreation
| InputTooShort (length : nat)
| LogHasNoTopics (address : Address)
| DecodingError (address : Address) (item_type : string) (source : DynAbiError).

Section AbiService.
Context `{DynAbi}.

(** ** Cached contracts *)

Record CachedContract := mkCached {
  cc_functions : gmap Selector Function;
  cc_events : gmap B256 Event;
  cc_abi : Arc JsonAbi;
  cc_function_input_types : gmap Selector (list DynSolType)
}.

(** [iter.map(f).collect::<HashMap<_, _>>()]: the last entry of a key wins. *)
Definition collect_map {A} `{Countable K} {V} (k : A → K) (v : A → V) (l : list A) : gmap K V :=
  foldl (λ m a, <[k a := v a]> m) ∅ l.

(** The input types of a function, all parsed or none. *)
Definition parse_input_types (f : Function) : option (list DynSolType) :=
  mapM (λ p, parse_type (param_ty p)) (fn_inputs f).

(** [impl From<Arc<JsonAbi>> for CachedContract]; [None] when the [expect] on
    the input types panics. *)
Definition CachedContract_from (abi : Arc JsonAbi) : option CachedContract :=
  let functions := collect_map function_selector id (abi_functions (arc_val abi)) in
  let events := collect_map event_selector id (abi_events (arc_val abi)) in
  types ← mapM (λ f, ts ← parse_input_types f; Some (function_selector f, ts))
            (abi_functions (arc_val abi));
  Some {| cc_functions := functions; cc_events := events; cc_abi := abi;
          cc_function_input_types := collect_map fst snd types |}.

(** [impl PartialEq for CachedContract]: the ABIs are the same allocation. *)
Definition CachedContract_eq (c c' : CachedContract) : bool := ptr_eq (cc_abi c) (cc_abi c').

(** [extract_address_and_selector]. *)
Definition extract_address_and_selector (tx : Transaction) : result AbiError (Address * Selector) :=
  to ← ok_or (tx_to tx) ContractCreation;
  if (length (tx_input tx) <? 4)%nat then Err (InputTooShort (length (tx_input tx)))
  else Ok (to, take 4 (tx_input tx)).

(** ** The service *)

Record AbiService := mkAbiService {
  named_abis : gmap string (Arc JsonAbi);
  address_specific_cache : gmap Address CachedContract;
  global_contracts : gmap string CachedContract;
  global_event_index : gmap B256 (list CachedContract);
  global_function_index : gmap Selector (list CachedContract)
}.

Definition AbiService_new : AbiService :=
  {| named_abis := ∅; address_specific_cache := ∅; global_contracts := ∅;
     global_event_index := ∅; global_function_index := ∅ |}.

Definition get_abi_by_name (svc : AbiService) (abi_name : string) : option (Arc JsonAbi) :=
  named_abis svc !! abi_name.

Definition register_abi (svc : AbiService) (name : string) (abi : Arc JsonAbi)
    : option (Arc JsonAbi) * AbiService :=
  (named_abis svc !! name,
   {| named_abis := <[name := abi]> (named_abis svc);
      address_specific_cache := address_specific_cache svc;
      global_contracts := global_contracts svc;
      global_event_index := global_event_index svc;
      global_function_index := global_function_index svc |}).

Definition register_abis (svc : AbiService) (abis : list (string * Arc JsonAbi)) : AbiService :=
  foldl (λ svc p, (register_abi svc p.1 p.2).2) svc abis.

Definition from_named_abis (abis : list (string * Arc JsonAbi)) : AbiService :=
  register_abis AbiService_new abis.

(** A call either returns, with its result, or panics. *)
Inductive abi_fault := AbiErr (e : AbiError) | AbiPanic.

Definition lookup_named_abi (svc : AbiService) (abi_name : string) : result AbiError (Arc JsonAbi) :=
  ok_or (get_abi_by_name svc abi_name) (AbiNotFoundInRegistry abi_name).

(** [index.entry(k).or_default().push(c)] for every key [k]. *)
Definition index_push `{Countable K} (keys : list K) (c : CachedContract)
    (m : gmap K (list CachedContract)) : gmap K (list CachedContract) :=
  foldl (λ m k, <[k := default [] (m !! k) ++ [c]]> m) m keys.

Definition add_global_abi (abi_name : string) : eff AbiService abi_fault unit := λ svc,
  match lookup_named_abi svc abi_name with
  | Err e => (Err (AbiErr e), svc)
  | Ok abi =>
      match CachedContract_from abi with
      | None => (Err AbiPanic, svc)
      | Some cached_contract =>
          (Ok tt,
           {| named_abis := named_abis svc;
              address_specific_cache := address_specific_cache svc;
              global_contracts := <[abi_name := cached_contract]> (global_contracts svc);
              global_event_index :=
                index_push (map_to_list (cc_events cached_contract)).*1 cached_contract
                  (global_event_index svc);
              global_function_index :=
                index_push (map_to_list (cc_functions cached_contract)).*1 cached_contract
                  (global_function_index svc) |})
      end
  end.

Definition set_address_cache (svc : AbiService) (m : gmap Address CachedContract) : AbiService :=
  {| named_abis := named_abis svc; address_specific_cache := m;
     global_contracts := global_contracts svc;
     global_event_index := global_event_index svc;
     global_function_index := global_function_index svc |}.

Definition link_abi (address : Address) (abi_name : string) : eff AbiService abi_fault unit := λ svc,
  match lookup_named_abi svc abi_name with
  | Err e => (Err (AbiErr e), svc)
  | Ok abi =>
      match CachedContract_from abi with
      | None => (Err AbiPanic, svc)
      | Some cached_contract =>
          (Ok tt, set_address_cache svc
                    (<[address := cached_contract]> (address_specific_cache svc)))
      end
  end.

Definition remove_abi (svc : AbiService) (address : Address) : bool * AbiService :=
  (bool_decide (is_Some (address_specific_cache svc !! address)),
   set_address_cache svc (delete address (address_specific_cache svc))).

Definition is_monitored (svc : AbiService) (address : Address) : bool :=
  bool_decide (is_Some (address_specific_cache svc !! address)).

Definition cache_size (svc : AbiService) : nat := size (address_specific_cache svc).

Definition get_abi (svc : AbiService) (address : Address) : option CachedContract :=
  address_specific_cache svc !! address.

Definition has_global_abi (svc : AbiService) (abi_name : string) : bool :=
  bool_decide (is_Some (global_contracts svc !! abi_name)).

Definition peek_event_name (svc : AbiService) (log : Log) : option Event :=
  topic0 ← head (log_topics log);
  match (contract ← address_specific_cache svc !! log_address log; cc_events contract !! topic0) with
  | Some ev => Some ev
  | None =>
      contracts ← global_event_index svc !! topic0;
      find_map (λ contract, cc_events contract !! topic0) contracts
  end.

(** ** Decoding *)

(** [Option::or_else]. *)
Notation "o 'or_else' p" := (match o with Some x => Some x | None => p end)
  (at level 60, right associativity, only parsing).

Definition decode_log_direct (log : Log) (event : Event) : result AbiError DecodedLog :=
  decoded ← map_err (DecodingError (log_address log) ("event " +:+ ev_name event))
              (decode_log_parts event (log_topics log) (log_data log));
  let params := zip (ep_name <$> ev_inputs event) (decoded.1 ++ decoded.2) in
  Ok {| dl_log := log; dl_name := ev_name event; dl_params := params |}.

Definition try_decode_log_from_address (svc : AbiService) (log : Log) (event_signature : B256)
    : option (result AbiError DecodedLog) :=
  contract ← address_specific_cache svc !! log_address log;
  event ← cc_events contract !! event_signature;
  Some (decode_log_direct log event).

(** The loop over the global contracts, with [last_error]. *)
Fixpoint decode_log_loop (log : Log) (event_signature : B256) (contracts : list CachedContract)
    (last_error : option AbiError) : option (result AbiError DecodedLog) :=
  match contracts with
  | [] => Err <$> last_error
  | contract :: contracts =>
      match cc_events contract !! event_signature with
      | Some event =>
          match decode_log_direct log event with
          | Ok decoded => Some (Ok decoded)
          | Err e => decode_log_loop log event_signature contracts (Some e)
          end
      | None => decode_log_loop log event_signature contracts last_error
      end
  end.

Definition try_decode_log_from_global (svc : AbiService) (log : Log) (event_signature : B256)
    : option (result AbiError DecodedLog) :=
  contracts ← global_event_index svc !! event_signature;
  decode_log_loop log event_signature contracts None.

Definition decode_log (svc : AbiService) (log : Log) : result AbiError DecodedLog :=
  event_signature ← ok_or (head (log_topics log)) (LogHasNoTopics (log_address log));
  match try_decode_log_from_address svc log event_signature
        or_else try_decode_log_from_global svc log event_signature with
  | Some (Ok decoded_log) => Ok decoded_log
  | Some (Err e) => Err e
  | None => Err (EventNotFound event_signature (log_address log))
  end.

Definition decode_function_direct (tx : Transaction) (function : Function)
    (input_types : list DynSolType) : result AbiError DecodedCall :=
  let err := DecodingError (default 0%Z (tx_to tx)) ("function " +:+ fn_name function) in
  decoded_value ← map_err err (abi_decode_tuple input_types (drop 4 (tx_input tx)));
  match decoded_value with
  | SolTuple tokens =>
      Ok {| dc_name := fn_name function;
            dc_params := zip (param_name <$> fn_inputs function) tokens |}
  | v => Err (err (TypeMismatch (tuple_to_string input_types) (value_debug v)))
  end.

Definition try_decode_function_from_address (svc : AbiService) (tx : Transaction)
    (to : Address) (selector : Selector) : option (result AbiError DecodedCall) :=
  contract ← address_specific_cache svc !! to;
  input_types ← cc_function_input_types contract !! selector;
  function ← cc_functions contract !! selector;
  Some (decode_function_direct tx function input_types).

Fixpoint decode_function_loop (tx : Transaction) (selector : Selector)
    (contracts : list CachedContract) : option (result AbiError DecodedCall) :=
  match contracts with
  | [] => None
  | contract :: contracts =>
      match cc_functions contract !! selector with
      | Some function =>
          input_types ← cc_function_input_types contract !! selector;
          Some (decode_function_direct tx function input_types)
      | None => decode_function_loop tx selector contracts
      end
  end.

Definition try_decode_function_from_global (svc : AbiService) (tx : Transaction)
    (selector : Selector) : option (result AbiError DecodedCall) :=
  contracts ← global_function_index svc !! selector;
  decode_function_loop tx selector contracts.

Definition decode_function_input (svc : AbiService) (tx : Transaction) : result AbiError DecodedCall :=
  to_selector ← extract_address_and_selector tx;
  let '(to, selector) := to_selector in
  match try_decode_function_from_address svc tx to selector
        or_else try_decode_function_from_global svc tx selector with
  | Some (Ok decoded_call) => Ok decoded_call
  | Some (Err e) => Err e
  | None => Err (FunctionNotFound selector to)
  end.

(** ** Cached contracts are the image of their ABI *)

Lemma collect_map_lookup {A} `{Countable K} {V} (k : A → K) (v : A → V) l x :
  collect_map k v l !! x = v <$> last (filter (λ a, k a = x) l).
Proof.
  unfold collect_map. induction l as [|a l IH] using rev_ind; [done|].
  rewrite foldl_app, filter_app, filter_cons, filter_nil. cbn [foldl].
  case_decide as Hk.
  - subst. by rewrite lookup_insert_eq, last_snoc.
  - by rewrite lookup_insert_ne, app_nil_r.
Qed.

(** Distinct keys: every element is found. *)
Lemma collect_map_once {A} `{Countable K} (k : A → K) l a :
  NoDup (k <$> l) → a ∈ l → collect_map k id l !! k a = Some a.
Proof.
  intros Hnd Ha. rewrite collect_map_lookup, option_fmap_id.
  induction l as [|b l IH]; [by apply elem_of_nil in Ha|].
  rewrite fmap_cons in Hnd. apply NoDup_cons in Hnd as [Hb Hnd]. rewrite filter_cons.
  apply elem_of_cons in Ha as [<-|Ha].
  - rewrite decide_True, filter_none; [done| |done]. apply Forall_forall. intros a' Ha' Hk.
    apply Hb. rewrite <- Hk. by apply list_elem_of_fmap_2.
  - rewrite decide_False; [by apply IH|]. intros Hk. apply Hb. rewrite Hk. by apply list_elem_of_fmap_2.
Qed.

Lemma collect_map_key {A} `{Countable K} (k : A → K) l x a :
  collect_map k id l !! x = Some a → k a = x ∧ a ∈ l.
Proof.
  rewrite collect_map_lookup, option_fmap_id. intros Ha%last_Some_elem_of.
  by apply list_elem_of_filter in Ha.
Qed.

(** A cached contract is the pre-processing of the ABI it holds. *)
Definition contract_wf (c : CachedContract) : Prop :=
  CachedContract_from (cc_abi c) = Some c.

Lemma CachedContract_from_wf abi c : CachedContract_from abi = Some c → contract_wf c.
Proof.
  unfold contract_wf, CachedContract_from.
  intros (types & Ht & [= <-])%bind_Some. cbn. by rewrite Ht.
Qed.

Lemma contract_wf_events c sig ev :
  contract_wf c → cc_events c !! sig = Some ev → event_selector ev = sig.
Proof.
  intros (types & _ & E)%bind_Some. injection E as <-. cbn.
  by intros [? _]%collect_map_key.
Qed.

(** The two function tables agree: the types stored for a selector are those of
    the function stored for it. *)
Lemma contract_wf_functions c sel :
  contract_wf c →
  cc_function_input_types c !! sel = (f ← cc_functions c !! sel; parse_input_types f).
Proof.
  intros (types & Ht & E)%bind_Some. injection E as <-. cbn.
  unfold collect_map. apply mapM_Some_1 in Ht.
  assert (∀ (m1 : gmap Selector Function) (m2 : gmap Selector (list DynSolType)),
    (∀ s, m2 !! s = (f ← m1 !! s; parse_input_types f)) → ∀ s,
    foldl (λ m a, <[a.1 := a.2]> m) m2 types !! s =
    (f ← foldl (λ m a, <[function_selector a := id a]> m) m1 (abi_functions (arc_val (cc_abi c))) !! s;
     parse_input_types f)) as Hgen.
  { induction Ht as [|f p fs ps Hf Hfs IH]; intros m1 m2 Hm s; cbn; [done|].
    apply IH. intros s'. apply bind_Some in Hf as (ts & Hts & [= <-]). cbn.
    destruct (decide (function_selector f = s')) as [<-|Hne].
    - by rewrite !lookup_insert_eq.
    - by rewrite !lookup_insert_ne. }
  by apply Hgen.
Qed.

(** ** The invariant of the service *)

Record service_wf (svc : AbiService) : Prop := {
  wf_cache : map_Forall (λ _, contract_wf) (address_specific_cache svc);
  wf_globals : map_Forall (λ _, contract_wf) (global_contracts svc);
  wf_event_index : map_Forall (λ sig, Forall (λ c, contract_wf c ∧ is_Some (cc_events c !! sig)))
                     (global_event_index svc);
  wf_function_index : map_Forall (λ sel, Forall (λ c, contract_wf c ∧ is_Some (cc_functions c !! sel)))
                        (global_function_index svc)
}.

Lemma index_push_Forall `{Countable K} (P : K → CachedContract → Prop) keys c m :
  (∀ k, k ∈ keys → P k c) →
  map_Forall (λ k, Forall (P k)) m → map_Forall (λ k, Forall (P k)) (index_push keys c m).
Proof.
  unfold index_push. revert m. induction keys as [|k keys IH]; intros m Hk Hm; [done|].
  apply IH; [by intros; apply Hk; right|].
  apply map_Forall_insert_2; [|done]. apply Forall_app. split.
  - destruct (m !! k) as [cs|] eqn:E; [by apply (Hm k)|constructor].
  - constructor; [apply Hk; by left|done].
Qed.

(** The operations that change the service. *)
Inductive abi_op :=
| OpRegister (name : string) (abi : Arc JsonAbi)
| OpAddGlobal (name : string)
| OpLink (address : Address) (name : string)
| OpRemove (address : Address).

Definition run_abi_op (svc : AbiService) (op : abi_op) : AbiService :=
  match op with
  | OpRegister name abi => (register_abi svc name abi).2
  | OpAddGlobal name => (add_global_abi name svc).2
  | OpLink address name => (link_abi address name svc).2
  | OpRemove address => (remove_abi svc address).2
  end.

Definition abi_reachable (svc : AbiService) : Prop :=
  ∃ ops, svc = foldl run_abi_op AbiService_new ops.

Lemma in_keys_is_Some `{Countable K} {V} (m : gmap K V) k :
  k ∈ (map_to_list m).*1 → is_Some (m !! k).
Proof. intros ([k' v] & -> & Hv)%list_elem_of_fmap. apply elem_of_map_to_list in Hv. by eexists. Qed.

Lemma run_abi_op_wf svc op : service_wf svc → service_wf (run_abi_op svc op).
Proof.
  intros [Hc Hg He Hf]. destruct op as [n abi|n|a n|a]; cbn.
  - by split.
  - unfold add_global_abi. destruct (lookup_named_abi svc n) as [abi|]; [|by split].
    destruct (CachedContract_from abi) as [c|] eqn:E; [|by split].
    apply CachedContract_from_wf in E. split; cbn; [done|by apply map_Forall_insert_2|..].
    + apply (index_push_Forall (λ k c, contract_wf c ∧ is_Some (cc_events c !! k))); [|done].
      intros k Hk. split; [done|by apply in_keys_is_Some].
    + apply (index_push_Forall (λ k c, contract_wf c ∧ is_Some (cc_functions c !! k))); [|done].
      intros k Hk. split; [done|by apply in_keys_is_Some].
  - unfold link_abi. destruct (lookup_named_abi svc n) as [abi|]; [|by split].
    destruct (CachedContract_from abi) as [c|] eqn:E; [|by split].
    apply CachedContract_from_wf in E. split; cbn; [by apply map_Forall_insert_2|done..].
  - split; cbn; [by apply map_Forall_delete|done..].
Qed.

Lemma abi_reachable_wf svc : abi_reachable svc → service_wf svc.
Proof.
  intros [ops ->]. assert (service_wf AbiService_new) as Hnew by (split; apply map_Forall_empty).
  revert Hnew. generalize AbiService_new. induction ops as [|op ops IH]; intros svc Hs; [done|].
  apply IH, run_abi_op_wf, Hs.
Qed.

(** ** What decoding promises *)

(** The event definitions for a log, in order of precedence: the one linked to
    the address, or else those of the global ABIs. *)
Definition candidate_events (svc : AbiService) (a : Address) (sig : B256) : list Event :=
  match (c ← address_specific_cache svc !! a; cc_events c !! sig) with
  | Some ev => [ev]
  | None => omap (λ c, cc_events c !! sig) (default [] (global_event_index svc !! sig))
  end.

(** The first candidate that decodes; the error of the last one otherwise. *)
Definition decode_log_spec (svc : AbiService) (log : Log) : result AbiError DecodedLog :=
  match head (log_topics log) with
  | None => Err (LogHasNoTopics (log_address log))
  | Some sig =>
      let evs := candidate_events svc (log_address log) sig in
      match find_map (λ ev, result_ok (decode_log_direct log ev)) evs, last evs with
      | Some d, _ => Ok d
      | None, Some ev => decode_log_direct log ev
      | None, None => Err (EventNotFound sig (log_address log))
      end
  end.

Lemma decode_log_loop_spec log sig cs le :
  decode_log_loop log sig cs le =
  let evs := omap (λ c, cc_events c !! sig) cs in
  match find_map (λ ev, result_ok (decode_log_direct log ev)) evs, last evs with
  | Some d, _ => Some (Ok d)
  | None, Some ev => Some (decode_log_direct log ev)
  | None, None => Err <$> le
  end.
Proof.
  revert le. induction cs as [|c cs IH]; intros le; [done|]. cbn.
  destruct (cc_events c !! sig) as [ev|]; [|apply IH]. cbn.
  destruct (decode_log_direct log ev) as [d|e] eqn:Ed; [done|]. cbn.
  rewrite IH. cbn. rewrite last_cons.
  destruct (find_map _ _); [done|]. destruct (last _) as [ev'|]; [done|]. by rewrite Ed.
Qed.

Lemma decode_log_meets_spec svc log : decode_log svc log = decode_log_spec svc log.
Proof.
  unfold decode_log, decode_log_spec, candidate_events,
    try_decode_log_from_address, try_decode_log_from_global.
  destruct (head (log_topics log)) as [sig|]; [|done]. cbn.
  destruct (address_specific_cache svc !! log_address log) as [c|]; cbn;
    [destruct (cc_events c !! sig) as [ev|]; cbn|].
  - by destruct (decode_log_direct log ev).
  - destruct (global_event_index svc !! sig) as [cs|]; cbn; [|done].
    rewrite decode_log_loop_spec. cbn.
    destruct (find_map _ _); [done|]. destruct (last _) as [ev|]; [|done].
    by destruct (decode_log_direct log ev).
  - destruct (global_event_index svc !! sig) as [cs|]; cbn; [|done].
    rewrite decode_log_loop_spec. cbn.
    destruct (find_map _ _); [done|]. destruct (last _) as [ev|]; [|done].
    by destruct (decode_log_direct log ev).
Qed.

Lemma find_map_omap_head {A B} (f : A → option B) l : find_map f l = head (omap f l).
Proof. induction l as [|a l IH]; cbn; [done|]. by destruct (f a). Qed.

Lemma peek_event_name_candidates svc log :
  peek_event_name svc log =
  (sig ← head (log_topics log); head (candidate_events svc (log_address log) sig)).
Proof.
  unfold peek_event_name, candidate_events.
  destruct (head (log_topics log)) as [sig|]; [|done]. cbn.
  destruct (_ ← address_specific_cache svc !! log_address log; _); [done|].
  destruct (global_event_index svc !! sig) as [cs|]; cbn; [apply find_map_omap_head|done].
Qed.

Lemma candidate_events_selector svc a sig ev :
  service_wf svc → ev ∈ candidate_events svc a sig → event_selector ev = sig.
Proof.
  intros Hs. unfold candidate_events.
  destruct (_ ← address_specific_cache svc !! a; _) as [ev'|] eqn:E.
  - intros ->%list_elem_of_singleton. apply bind_Some in E as (c & Hc & Hev).
    by eapply contract_wf_events; [eapply wf_cache|].
  - intros (c & Hc & Hev)%list_elem_of_omap.
    destruct (global_event_index svc !! sig) as [cs|] eqn:Ei; cbn in Hc;
      [|by apply not_elem_of_nil in Hc].
    apply (wf_event_index svc Hs) in Ei. rewrite Forall_forall in Ei.
    apply Ei in Hc as [Hwf _]. by eapply contract_wf_events.
Qed.

Lemma decode_log_Ok svc log d :
  decode_log svc log = Ok d →
  ∃ sig ev, head (log_topics log) = Some sig ∧
    ev ∈ candidate_events svc (log_address log) sig ∧ decode_log_direct log ev = Ok d.
Proof.
  rewrite decode_log_meets_spec. unfold decode_log_spec.
  destruct (head (log_topics log)) as [sig|]; [|done].
  destruct (find_map _ _) as [d'|] eqn:Ef.
  - intros [= <-]. apply find_map_Some in Ef as (ev & ? & ?%result_ok_Some). by exists sig, ev.
  - destruct (last _) as [ev|] eqn:El; [|done].
    intros Hd. apply last_Some_elem_of in El. by exists sig, ev.
Qed.

Lemma decode_log_direct_name log ev d :
  decode_log_direct log ev = Ok d → dl_name d = ev_name ev ∧ dl_log d = log.
Proof. unfold decode_log_direct. intros. inv_ok. done. Qed.

End AbiService.

Section AbiTheorems.
Context `{DynAbi}.

(** C36: Decoding a log is total and does what its precedence promises: the event
    of the ABI linked to the emitting address alone decides when it exists;
    otherwise the first global event that decodes wins, and only when none does
    is the last decoding error (or [EventNotFound]) reported. *)
Theorem decode_log_correct svc log : decode_log svc log = decode_log_spec svc log.
Proof. apply decode_log_meets_spec. Qed.

(** ** Peeking agrees with decoding *)

(** The topic of an event is the Keccak hash of its signature, which starts with
    its name: events with the same topic have the same name. *)
Class EventSelectorNames : Prop :=
  event_selector_name ev ev' : event_selector ev = event_selector ev' → ev_name ev = ev_name ev'.

Lemma peek_decode_agree `{EventSelectorNames} svc log :
  abi_reachable svc →
  match peek_event_name svc log with
  | Some ev => ∀ d, decode_log svc log = Ok d → dl_name d = ev_name ev
  | None => is_ok (decode_log svc log) = false
  end.
Proof.
  intros Hs%abi_reachable_wf.
  assert (∀ d, decode_log svc log = Ok d →
    ∃ ev, peek_event_name svc log = Some ev ∧ dl_name d = ev_name ev) as Hok.
  { intros d (sig & ev & Hsig & Hev & Hd)%decode_log_Ok.
    apply decode_log_direct_name in Hd as [-> _].
    rewrite peek_event_name_candidates, Hsig. cbn.
    destruct (candidate_events svc (log_address log) sig) as [|ev' evs] eqn:E;
      [by apply not_elem_of_nil in Hev|].
    exists ev'. split; [done|]. apply event_selector_name.
    rewrite (candidate_events_selector svc (log_address log) sig ev) by (rewrite ?E; done).
    symmetry. apply (candidate_events_selector svc (log_address log) sig); [done|].
    rewrite E. by left. }
  destruct (peek_event_name svc log) as [ev|] eqn:Ep.
  - intros d (ev' & [= <-] & ->)%Hok. done.
  - destruct (decode_log svc log) as [d|] eqn:Ed; [|done].
    by destruct (Hok d eq_refl) as (? & ? & ?).
Qed.

(** In every state the service can reach, when a log decodes, the cheap
    name lookup used to skip logs returns an event of the same name; when the
    lookup finds nothing, decoding fails.  So a monitor that filters on the peeked
    name never skips a log whose decoded name it accepts. *)
Theorem peek_event_name_sound `{EventSelectorNames} svc log :
  abi_reachable svc →
  match peek_event_name svc log with
  | Some ev => ∀ d, decode_log svc log = Ok d → dl_name d = ev_name ev
  | None => is_ok (decode_log svc log) = false
  end.
Proof. apply peek_decode_agree. Qed.

(** ** Linking an ABI to an address *)

Definition same_service_but_address (a : Address) (svc svc' : AbiService) : Prop :=
  global_event_index svc' = global_event_index svc ∧
  global_function_index svc' = global_function_index svc ∧
  named_abis svc' = named_abis svc ∧
  ∀ b, b ≠ a → address_specific_cache svc' !! b = address_specific_cache svc !! b.

(** After [link_abi] succeeds, a log of that address whose topic is an event of
    the named ABI is decoded with exactly that definition, whatever the global
    ABIs say; the logs of the other addresses decode as before, and a failing or
    panicking call changes nothing. *)
Theorem link_abi_spec a n svc r svc' :
  link_abi a n svc = (r, svc') →
  match r with
  | Ok _ =>
      ∃ abi, get_abi_by_name svc n = Some abi ∧
      (∀ log sig ev, log_address log = a → head (log_topics log) = Some sig →
         last (filter (λ ev, event_selector ev = sig) (abi_events (arc_val abi))) = Some ev →
         decode_log svc' log = decode_log_direct log ev) ∧
      (∀ log, log_address log ≠ a → decode_log svc' log = decode_log svc log) ∧
      same_service_but_address a svc svc'
  | Err (AbiErr e) => e = AbiNotFoundInRegistry n ∧ get_abi_by_name svc n = None ∧ svc' = svc
  | Err AbiPanic => svc' = svc
  end.
Proof.
  unfold link_abi, lookup_named_abi.
  destruct (get_abi_by_name svc n) as [abi|] eqn:En; cbn; [|by intros [= <- <-]].
  destruct (CachedContract_from abi) as [c|] eqn:Ec; intros [= <- <-]; [|done].
  exists abi. split_and!; [done|..].
  - intros log sig ev <- Hsig Hev. rewrite decode_log_meets_spec. unfold decode_log_spec.
    rewrite Hsig. unfold candidate_events. cbn. rewrite lookup_insert_eq. cbn.
    assert (cc_events c !! sig = Some ev) as ->.
    { apply bind_Some in Ec as (ts & _ & [= <-]). cbn.
      by rewrite collect_map_lookup, Hev. }
    cbn. by destruct (decode_log_direct log ev).
  - intros log Hne. rewrite !decode_log_meets_spec. unfold decode_log_spec, candidate_events.
    cbn. by rewrite lookup_insert_ne by congruence.
  - repeat split. intros b Hb. cbn. by rewrite lookup_insert_ne.
Qed.

(** ** Parameter names *)

(** The parameters a decoded log should show: each input takes the next indexed
    value or the next body value, by its own kind. *)
Fixpoint assign_params (inputs : list EventParam) (indexed body : list DynSolValue)
    : list (string * DynSolValue) :=
  match inputs with
  | [] => []
  | p :: inputs =>
      if ep_indexed p then
        match indexed with
        | v :: indexed => (ep_name p, v) :: assign_params inputs indexed body
        | [] => []
        end
      else
        match body with
        | v :: body => (ep_name p, v) :: assign_params inputs indexed body
        | [] => []
        end
  end.

(** Documented shape of [DecodedEvent]: a value per indexed input, then a value
    per other input, in declaration order. *)
Class DecodeLogLaws : Prop :=
  decode_log_parts_length ev topics data indexed body :
    decode_log_parts ev topics data = Ok (indexed, body) →
    length indexed = length (filter (λ p, ep_indexed p = true) (ev_inputs ev)) ∧
    length body = length (filter (λ p, ep_indexed p = false) (ev_inputs ev)).

Definition indexed_first (inputs : list EventParam) : Prop :=
  ∃ ps qs, inputs = ps ++ qs ∧
    Forall (λ p, ep_indexed p = true) ps ∧ Forall (λ p, ep_indexed p = false) qs.

Lemma assign_params_indexed_first ps qs indexed body :
  Forall (λ p, ep_indexed p = true) ps → Forall (λ p, ep_indexed p = false) qs →
  length indexed = length ps → length body = length qs →
  assign_params (ps ++ qs) indexed body = zip (ep_name <$> (ps ++ qs)) (indexed ++ body).
Proof.
  intros Hps Hqs. revert indexed. induction Hps as [|p ps Hp Hps IH]; intros [|v indexed] Hi Hb;
    try discriminate Hi.
  - cbn. clear Hi. revert body Hb. induction Hqs as [|q qs Hq Hqs IH]; intros [|v body] Hb;
      try discriminate Hb; cbn; [done|].
    rewrite Hq, IH by (cbn in Hb; lia). done.
  - cbn. rewrite Hp, IH by (cbn in Hi; lia). done.
Qed.

Lemma filter_indexed_first (ps qs : list EventParam) b :
  Forall (λ p, ep_indexed p = true) ps → Forall (λ p, ep_indexed p = false) qs →
  filter (λ p, ep_indexed p = b) (ps ++ qs) = if b then ps else qs.
Proof.
  intros Hps Hqs. rewrite filter_app. destruct b.
  - rewrite (filter_all _ ps), (filter_none _ qs), app_nil_r; [done|..];
      eapply Forall_impl; eauto; cbn; congruence.
  - rewrite (filter_none _ ps), (filter_all _ qs); [done|..];
      eapply Forall_impl; eauto; cbn; congruence.
Qed.

(** When the indexed inputs of an event are declared before the others, each
    parameter of a decoded log carries the name of the input it belongs to.  (The
    code pairs the declared names with the indexed values followed by the body
    values: see [decode_log_direct_misnames] for the other events.) *)
Theorem decode_log_params_named `{DecodeLogLaws} log ev d :
  indexed_first (ev_inputs ev) →
  decode_log_direct log ev = Ok d →
  ∃ indexed body,
    decode_log_parts ev (log_topics log) (log_data log) = Ok (indexed, body) ∧
    dl_params d = assign_params (ev_inputs ev) indexed body ∧
    (dl_params d).*1 = ep_name <$> ev_inputs ev.
Proof.
  intros (ps & qs & Eps & Hps & Hqs). unfold decode_log_direct. intros ([indexed body] & Hd & Hok)%bind_Ok.
  apply map_err_Ok in Hd. inv_ok. exists indexed, body. split; [done|]. cbn [fst snd dl_params].
  apply decode_log_parts_length in Hd as [Hi Hb].
  rewrite Eps in *. rewrite (filter_indexed_first _ _ true) in Hi by done.
  rewrite (filter_indexed_first _ _ false) in Hb by done.
  rewrite assign_params_indexed_first by done. split; [done|].
  apply fst_zip. rewrite length_fmap, !length_app. lia.
Qed.

(** ** Calls *)

Definition candidate_function (svc : AbiService) (to : Address) (sel : Selector) : option Function :=
  match (c ← address_specific_cache svc !! to; cc_functions c !! sel) with
  | Some f => Some f
  | None => find_map (λ c, cc_functions c !! sel) (default [] (global_function_index svc !! sel))
  end.

Definition decode_function_spec (svc : AbiService) (tx : Transaction) : result AbiError DecodedCall :=
  match tx_to tx with
  | None => Err ContractCreation
  | Some to =>
      if (length (tx_input tx) <? 4)%nat then Err (InputTooShort (length (tx_input tx)))
      else
        let sel := take 4 (tx_input tx) in
        match (f ← candidate_function svc to sel; ts ← parse_input_types f; Some (f, ts)) with
        | Some (f, ts) => decode_function_direct tx f ts
        | None => Err (FunctionNotFound sel to)
        end
  end.

Lemma contract_wf_types c sel f :
  contract_wf c → cc_functions c !! sel = Some f →
  ∃ ts, parse_input_types f = Some ts ∧ cc_function_input_types c !! sel = Some ts.
Proof.
  intros Hwf Hf. rewrite contract_wf_functions, Hf by done. cbn.
  apply bind_Some in Hwf as (types & Ht & E). injection E as E.
  rewrite <- E in Hf. apply collect_map_key in Hf as [_ Hin].
  apply list_elem_of_lookup in Hin as [i Hi]. apply mapM_Some_1 in Ht.
  destruct (Forall2_lookup_l _ _ _ _ _ Ht Hi) as (p & _ & Hp).
  apply bind_Some in Hp as (ts & Hts & _). by exists ts.
Qed.

Lemma decode_function_loop_spec tx sel cs :
  Forall (λ c, contract_wf c ∧ is_Some (cc_functions c !! sel)) cs →
  decode_function_loop tx sel cs =
  (f ← find_map (λ c, cc_functions c !! sel) cs; ts ← parse_input_types f;
   Some (decode_function_direct tx f ts)).
Proof.
  induction 1 as [|c cs [Hwf [f Hf]] _ _]; cbn; [done|].
  rewrite Hf. cbn. by destruct (contract_wf_types c sel f Hwf Hf) as (ts & -> & ->).
Qed.

Lemma decode_function_global svc tx to sel :
  service_wf svc →
  match (contracts ← global_function_index svc !! sel; decode_function_loop tx sel contracts) with
  | Some (Ok decoded_call) => Ok decoded_call
  | Some (Err e) => Err e
  | None => Err (FunctionNotFound sel to)
  end =
  match (f ← find_map (λ c, cc_functions c !! sel) (default [] (global_function_index svc !! sel));
         ts ← parse_input_types f; Some (f, ts)) with
  | Some (f, ts) => decode_function_direct tx f ts
  | None => Err (FunctionNotFound sel to)
  end.
Proof.
  intros Hs. destruct (global_function_index svc !! sel) as [cs|] eqn:Ei; cbn; [|done].
  rewrite decode_function_loop_spec by by eapply (wf_function_index svc Hs).
  destruct (find_map _ cs) as [f|]; cbn; [|done].
  destruct (parse_input_types f) as [ts|]; cbn; [|done].
  by destruct (decode_function_direct tx f ts).
Qed.

(** In every reachable state, decoding a call's input is total and follows the
    same precedence as logs: the function of the ABI linked to the called address,
    or else the first global one with the selector, decoded with its own parsed
    input types; contract creations, short inputs and unknown selectors are the
    errors the code names. *)
Theorem decode_function_input_correct svc tx :
  abi_reachable svc → decode_function_input svc tx = decode_function_spec svc tx.
Proof.
  intros Hs%abi_reachable_wf.
  unfold decode_function_input, decode_function_spec, extract_address_and_selector,
    try_decode_function_from_address, try_decode_function_from_global, candidate_function.
  destruct (tx_to tx) as [to|], (length (tx_input tx) <? 4)%nat; cbn; try done.
  set (sel := take 4 (tx_input tx)).
  destruct (address_specific_cache svc !! to) as [c|] eqn:Ec; cbn;
    [destruct (cc_functions c !! sel) as [f|] eqn:Ef; cbn|].
  - destruct (contract_wf_types c sel f (wf_cache svc Hs to c Ec) Ef) as (ts & -> & ->). cbn.
    by destruct (decode_function_direct tx f ts).
  - apply (wf_cache svc Hs) in Ec. rewrite contract_wf_functions, Ef by done. cbn.
    apply decode_function_global, Hs.
  - apply decode_function_global, Hs.
Qed.
End AbiTheorems.

(** ** A concrete decoder, for the witnesses

    One topic per indexed input, one data byte per other input. *)

Module AbiDemo.
Definition byte_value (b : Byte.byte) : DynSolValue := SolUint (Z.of_N (Byte.to_N b)) 256.

#[export] Instance demo_dyn_abi : DynAbi := {|
  DynSolType := string;
  parse_type s := if decide (s = "uint256" ∨ s = "address") then Some s else None;
  tuple_to_string ts := foldr (λ t s, t +:+ "," +:+ s) "" ts;
  value_debug _ := "value";
  event_selector ev := Zpos (encode (ev_name ev));
  function_selector f := take 4 (map Stdlib.Strings.Ascii.byte_of_ascii (chars (fn_name f)));
  decode_log_parts ev topics data :=
    if decide (length (tail topics) = length (filter (λ p, ep_indexed p = true) (ev_inputs ev)) ∧
               length data = length (filter (λ p, ep_indexed p = false) (ev_inputs ev)))
    then Ok ((λ t, SolUint t 256) <$> tail topics, byte_value <$> data)
    else Err (DynError "log");
  abi_decode_tuple ts data :=
    if decide (length data = length ts) then Ok (SolTuple (byte_value <$> data))
    else Err (DynError "data")
|}.

#[export] Instance demo_selector_names : EventSelectorNames.
Proof. intros ev ev' E. cbn in E. by injection E as E%(inj encode). Defined.

#[export] Instance demo_decode_laws : DecodeLogLaws.
Proof.
  intros ev topics data i b. cbn. case_decide as Hl; [|done]. intros [= <- <-].
  by rewrite !length_fmap.
Defined.

Definition transfer_event : Event := mkEvent "Transfer"
  [mkEventParam "from" "address" true; mkEventParam "to" "address" true;
   mkEventParam "value" "uint256" false].
Definition transfer_function : Function := mkFunction "transfer"
  [mkParam "to" "address"; mkParam "value" "uint256"].
Definition erc20 : Arc JsonAbi := mkArc 100 (mkJsonAbi [transfer_function] [transfer_event]).

Definition demo_service : AbiService :=
  foldl run_abi_op AbiService_new
    [OpRegister "erc20" erc20; OpAddGlobal "erc20"; OpLink 1 "erc20"].

Definition transfer_log : Log :=
  mkLog 1 [event_selector transfer_event; 2; 3]%Z [Byte.x05] (Some 9%Z) (Some 10%Z) (Some 7%Z)
    (Some 0%Z) (Some 4%Z) false.

Definition demo_tx (h : TxHash) (to : option Address) (input : Bytes) : Transaction :=
  mkTransaction h to 9 input 100 21000 (Some 5%Z) 1 (Some 9%Z) (Some 10%Z) (Some 0%Z) 7 (Some 2%Z)
    (Some 1%Z) Eip1559.
Definition transfer_tx : Transaction :=
  demo_tx 7 (Some 1%Z) (function_selector transfer_function ++ [Byte.x03; Byte.x05]).

(** An event that declares a plain input before an indexed one. *)
Definition mixed_event : Event := mkEvent "Mixed"
  [mkEventParam "amount" "uint256" false; mkEventParam "from" "address" true].
Definition mixed_log : Log :=
  mkLog 1 [event_selector mixed_event; 7]%Z [Byte.x05] None None None None None false.
End AbiDemo.
Import AbiDemo.

Lemma demo_service_reachable : abi_reachable demo_service.
Proof. by eexists. Qed.

Lemma peek_event_name_sound_witness :
  peek_event_name demo_service transfer_log = Some transfer_event ∧
  match peek_event_name demo_service transfer_log with
  | Some ev => ∀ d, decode_log demo_service transfer_log = Ok d → dl_name d = ev_name ev
  | None => is_ok (decode_log demo_service transfer_log) = false
  end.
Proof.
  split; [vm_compute; reflexivity|].
  apply (peek_event_name_sound demo_service transfer_log). apply demo_service_reachable.
Defined.

Lemma link_abi_spec_witness :
  let svc := (register_abi AbiService_new "erc20" erc20).2 in
  ∃ svc', link_abi 1 "erc20" svc = (Ok tt, svc') ∧
  decode_log svc' transfer_log = decode_log_direct transfer_log transfer_event ∧
  ∀ log, log_address log ≠ 1%Z → decode_log svc' log = decode_log svc log.
Proof.
  cbv zeta. set (svc := (register_abi AbiService_new "erc20" erc20).2).
  assert (is_ok (link_abi 1 "erc20" svc).1 = true) as Hok by (vm_compute; reflexivity).
  assert (get_abi_by_name svc "erc20" = Some erc20) as Hn by apply lookup_insert_eq.
  clearbody svc.
  destruct (link_abi 1 "erc20" svc) as [[[]|e] svc'] eqn:Hl; [|discriminate Hok].
  exists svc'. split; [reflexivity|].
  destruct (link_abi_spec 1 "erc20" svc (Ok tt) svc' Hl) as (abi & Habi & Hlog & Hother & _).
  split; [|exact Hother].
  rewrite Hn in Habi. injection Habi as <-.
  apply (Hlog _ (event_selector transfer_event)); vm_compute; reflexivity.
Defined.

Lemma decode_log_params_named_witness :
  let ev := transfer_event in
  let d := mkDecodedLog transfer_log "Transfer"
    [("from", SolUint 2 256); ("to", SolUint 3 256); ("value", SolUint 5 256)] in
  ∃ indexed body,
    decode_log_parts ev (log_topics transfer_log) (log_data transfer_log) = Ok (indexed, body) ∧
    dl_params d = assign_params (ev_inputs ev) indexed body ∧
    (dl_params d).*1 = ep_name <$> ev_inputs ev.
Proof.
  cbv zeta.
  apply (decode_log_params_named transfer_log transfer_event);
    [|vm_compute; reflexivity].
  exists (take 2 (ev_inputs transfer_event)), (drop 2 (ev_inputs transfer_event)).
  split; [reflexivity|]. split; repeat constructor.
Defined.

Lemma decode_function_input_correct_witness :
  decode_function_input demo_service transfer_tx =
  Ok (mkDecodedCall "transfer" [("to", SolUint 3 256); ("value", SolUint 5 256)]) ∧
  decode_function_input demo_service transfer_tx = decode_function_spec demo_service transfer_tx.
Proof.
  split; [vm_compute; reflexivity|].
  apply (decode_function_input_correct demo_service transfer_tx). apply demo_service_reachable.
Defined.

(** The names are exchanged when an indexed input follows a plain one. *)
Lemma decode_log_direct_misnames :
  ∃ d, decode_log_direct mixed_log mixed_event = Ok d ∧
    dl_params d = [("amount", SolUint 7 256); ("from", SolUint 5 256)] ∧
    assign_params (ev_inputs mixed_event) [SolUint 7 256] [SolUint 5 256] =
      [("amount", SolUint 5 256); ("from", SolUint 7 256)].
Proof. eexists. vm_compute. done. Qed.
