(* ===== verification/Conversions.v ===== *)
(** * Conversions to scripts and payloads

    [crates/argus-rhai/src/conversions.rs] and [proxies.rs], and the JSON form
    of decoded items of [crates/argus-abi/src/models.rs]: what a filter script
    sees of a transaction, a log and a call, and what an alert carries. *)
From S2P Require Import Prelude Models MonitorMatch Abi.

(** ** Values of the [rhai] engine the code builds or reads *)

Inductive Dynamic :=
| DUnit
| DBool (b : bool)
| DInt (i : Z)
| DBigInt (i : Z)
| DString (s : string)
| DArray (l : list Dynamic)
| DMap (m : bmap Dynamic)
| DOther (type_name : string).

Section Conversions.
Context `{AlloyPrimitives}.

Definition hex0x (b : list Byte.byte) : string := "0x" +:+ hex_encode b.

(** [dyn_sol_value_to_rhai]. *)
Fixpoint dyn_sol_value_to_rhai (value : DynSolValue) : Dynamic :=
  match value with
  | SolAddress a => DString (to_checksum a)
  | SolBool b => DBool b
  | SolBytes b => DString (hex0x b)
  | SolFixedBytes fb _ => DString (hex0x fb)
  | SolInt i _ => DBigInt i
  | SolUint u _ => DBigInt u
  | SolString s => DString s
  | SolArray arr | SolFixedArray arr | SolTuple arr => DArray (map dyn_sol_value_to_rhai arr)
  | SolFunction _ => DUnit
  end.

(** [i.to_string().parse::<i64>()]: succeeds within the range of [i64]. *)
Definition parse_i64 (i : Z) : option Z :=
  if (i64_min <=? i)%Z && (i <=? i64_max)%Z then Some i else None.

(** [dyn_sol_value_to_json] of [argus-rhai]. *)
Fixpoint dyn_sol_value_to_json (value : DynSolValue) : Json :=
  match value with
  | SolAddress a => JString (to_checksum a)
  | SolBool b => JBool b
  | SolBytes b => JString (hex0x b)
  | SolFixedBytes fb _ => JString (hex0x fb)
  | SolInt i _ =>
      match parse_i64 i with
      | Some val => JNumber val
      | None => JString (i256_display i)
      end
  | SolString s => JString s
  | SolUint u _ =>
      if (u <=? i64_max)%Z then JNumber (u64_as_i64 u) else JString (u256_display u)
  | SolArray arr | SolFixedArray arr | SolTuple arr => JArray (map dyn_sol_value_to_json arr)
  | SolFunction _ => JNull
  end.

(** [dyn_sol_value_to_json] of [argus-abi]: integers are always strings. *)
Fixpoint abi_dyn_sol_value_to_json (value : DynSolValue) : Json :=
  match value with
  | SolAddress a => JString (to_checksum a)
  | SolBool b => JBool b
  | SolBytes b => JString (hex0x b)
  | SolFixedBytes fb _ => JString (hex0x fb)
  | SolInt i _ => JString (i256_display i)
  | SolUint u _ => JString (u256_display u)
  | SolString s => JString s
  | SolArray a | SolFixedArray a | SolTuple a => JArray (map abi_dyn_sol_value_to_json a)
  | SolFunction _ => JNull
  end.

(** [impl Serialize for DecodedCall]: the parameters as an object. *)
Definition DecodedCall_to_json (call : DecodedCall) : Json :=
  JObject (bmap_of_list
    [("name", JString (dc_name call));
     ("params", JObject (bmap_of_list
        ((λ p, (p.1, abi_dyn_sol_value_to_json p.2)) <$> dc_params call)))]).

(** [build_params_map]: a repeated name keeps its last value. *)
Definition build_params_map (params : list (string * DynSolValue)) : bmap Dynamic :=
  foldl (λ m p, bmap_insert p.1 (dyn_sol_value_to_rhai p.2) m) [] params.

(** ** Field names *)

Definition KEY_TX_TO := "to".
Definition KEY_TX_FROM := "from".
Definition KEY_TX_HASH := "hash".
Definition KEY_TX_VALUE := "value".
Definition KEY_TX_GAS_LIMIT := "gas_limit".
Definition KEY_TX_NONCE := "nonce".
Definition KEY_TX_INPUT := "input".
Definition KEY_TX_BLOCK_NUMBER := "block_number".
Definition KEY_TX_TRANSACTION_INDEX := "transaction_index".
Definition KEY_TX_GAS_PRICE := "gas_price".
Definition KEY_TX_MAX_FEE_PER_GAS := "max_fee_per_gas".
Definition KEY_TX_MAX_PRIORITY_FEE_PER_GAS := "max_priority_fee_per_gas".
Definition KEY_TX_GAS_USED := "gas_used".
Definition KEY_TX_STATUS := "status".
Definition KEY_TX_EFFECTIVE_GAS_PRICE := "effective_gas_price".
Definition KEY_LOG_NAME := "name".
Definition KEY_LOG_PARAMS := "params".
Definition KEY_LOG_ADDRESS := "address".
Definition KEY_LOG_INDEX := "log_index".
Definition KEY_LOG_BLOCK_NUMBER := "block_number".
Definition KEY_LOG_TRANSACTION_HASH := "transaction_hash".
Definition KEY_LOG_TRANSACTION_INDEX := "transaction_index".
Definition KEY_CALL_NAME := "name".
Definition KEY_CALL_PARAMS := "params".

Definition tx_keys : list string :=
  [KEY_TX_FROM; KEY_TX_TO; KEY_TX_HASH; KEY_TX_VALUE; KEY_TX_GAS_LIMIT; KEY_TX_NONCE;
   KEY_TX_INPUT; KEY_TX_BLOCK_NUMBER; KEY_TX_TRANSACTION_INDEX; KEY_TX_GAS_PRICE;
   KEY_TX_MAX_FEE_PER_GAS; KEY_TX_MAX_PRIORITY_FEE_PER_GAS].
Definition receipt_keys : list string :=
  [KEY_TX_GAS_USED; KEY_TX_STATUS; KEY_TX_EFFECTIVE_GAS_PRICE].
Definition log_keys : list string :=
  [KEY_LOG_NAME; KEY_LOG_ADDRESS; KEY_LOG_INDEX; KEY_LOG_BLOCK_NUMBER;
   KEY_LOG_TRANSACTION_HASH; KEY_LOG_TRANSACTION_INDEX].

Definition get_valid_tx_rhai_paths : gset string :=
  list_to_set ((λ s, "tx." +:+ s) <$> tx_keys).
Definition get_valid_receipt_rhai_paths : gset string :=
  list_to_set ((λ s, "tx." +:+ s) <$> receipt_keys).
Definition get_valid_log_rhai_paths : gset string :=
  list_to_set ((λ s, "log." +:+ s) <$> log_keys).
Definition get_valid_decoded_call_rhai_paths : gset string :=
  {["decoded_call"]} ∪ list_to_set ((λ s, "decoded_call." +:+ s) <$> [KEY_CALL_NAME; KEY_CALL_PARAMS]).

(** ** Maps seen by scripts *)

(** [Some(n) => (n as i64).into()], [None => Dynamic::UNIT]. *)
Definition opt_as_i64 (o : option Z) : Dynamic :=
  match o with Some n => DInt (u64_as_i64 n) | None => DUnit end.

(** [opt.map_or(UNIT, u256_to_bigint_dynamic)]. *)
Definition opt_bigint (o : option Z) : Dynamic :=
  match o with Some n => DBigInt n | None => DUnit end.

Definition bool_as_int (b : bool) : Z := if b then 1%Z else 0%Z.

Definition build_transaction_map (tx : Transaction) (receipt : option TransactionReceipt) : bmap Dynamic :=
  let map := [] in
  let map := match tx_to tx with
             | Some to => bmap_insert KEY_TX_TO (DString (to_checksum to)) map
             | None => map
             end in
  let map := bmap_insert KEY_TX_FROM (DString (to_checksum (tx_from tx))) map in
  let map := bmap_insert KEY_TX_HASH (DString (b256_display (tx_hash tx))) map in
  let map := bmap_insert KEY_TX_VALUE (DBigInt (tx_value tx)) map in
  let map := bmap_insert KEY_TX_GAS_LIMIT (DInt (u64_as_i64 (tx_gas tx))) map in
  let map := bmap_insert KEY_TX_NONCE (DInt (u64_as_i64 (tx_nonce tx))) map in
  let map := bmap_insert KEY_TX_INPUT (DString (hex0x (tx_input tx))) map in
  let map := bmap_insert KEY_TX_BLOCK_NUMBER (opt_as_i64 (tx_block_number tx)) map in
  let map := bmap_insert KEY_TX_TRANSACTION_INDEX (opt_as_i64 (tx_transaction_index tx)) map in
  let map :=
    match tx_transaction_type tx with
    | Legacy => bmap_insert KEY_TX_GAS_PRICE (opt_bigint (tx_gas_price tx)) map
    | Eip1559 =>
        let map := bmap_insert KEY_TX_MAX_FEE_PER_GAS (DBigInt (tx_max_fee_per_gas tx)) map in
        bmap_insert KEY_TX_MAX_PRIORITY_FEE_PER_GAS
          (opt_bigint (tx_max_priority_fee_per_gas tx)) map
    | _ => map
    end in
  match receipt with
  | Some receipt =>
      let map := bmap_insert KEY_TX_GAS_USED (DInt (u64_as_i64 (receipt_gas_used receipt))) map in
      let map := bmap_insert KEY_TX_STATUS (DInt (bool_as_int (receipt_status receipt))) map in
      bmap_insert KEY_TX_EFFECTIVE_GAS_PRICE (DBigInt (receipt_effective_gas_price receipt)) map
  | None =>
      let map := bmap_insert KEY_TX_GAS_USED DUnit map in
      let map := bmap_insert KEY_TX_STATUS DUnit map in
      bmap_insert KEY_TX_EFFECTIVE_GAS_PRICE DUnit map
  end.

Definition build_log_map (log : DecodedLog) (params_map : bmap Dynamic) : bmap Dynamic :=
  let log_map := bmap_insert KEY_LOG_NAME (DString (dl_name log)) [] in
  let log_map := bmap_insert KEY_LOG_PARAMS (DMap params_map) log_map in
  let log_map := bmap_insert KEY_LOG_ADDRESS (DString (to_checksum (log_address (dl_log log)))) log_map in
  let log_map := bmap_insert KEY_LOG_BLOCK_NUMBER (opt_as_i64 (log_block_number (dl_log log))) log_map in
  let log_map := bmap_insert KEY_LOG_TRANSACTION_HASH
    (DString (b256_display (default 0%Z (log_transaction_hash (dl_log log))))) log_map in
  let log_map := bmap_insert KEY_LOG_INDEX (opt_as_i64 (log_log_index (dl_log log))) log_map in
  bmap_insert KEY_LOG_TRANSACTION_INDEX (opt_as_i64 (log_transaction_index (dl_log log))) log_map.

Definition build_decoded_call_map (call : DecodedCall) : bmap Dynamic :=
  let call_map := bmap_insert KEY_CALL_NAME (DString (dc_name call)) [] in
  bmap_insert KEY_CALL_PARAMS (DMap (build_params_map (dc_params call))) call_map.

(** ** Payloads of alerts *)

Definition build_log_params_payload (params : list (string * DynSolValue)) : Json :=
  JObject (foldl (λ m p, bmap_insert p.1 (dyn_sol_value_to_json p.2) m) [] params).

Definition build_transaction_details_payload (tx : Transaction) (receipt : option TransactionReceipt) : Json :=
  let map := [] in
  let map := match tx_to tx with
             | Some to => bmap_insert KEY_TX_TO (JString (to_checksum to)) map
             | None => map
             end in
  let map := bmap_insert KEY_TX_FROM (JString (to_checksum (tx_from tx))) map in
  let map := bmap_insert KEY_TX_HASH (JString (b256_display (tx_hash tx))) map in
  let map := bmap_insert KEY_TX_VALUE (JString (u256_display (tx_value tx))) map in
  let map := bmap_insert KEY_TX_GAS_LIMIT (JNumber (tx_gas tx)) map in
  let map := bmap_insert KEY_TX_NONCE (JNumber (tx_nonce tx)) map in
  let map := bmap_insert KEY_TX_INPUT (JString (hex0x (tx_input tx))) map in
  let map := match tx_transaction_index tx with
             | Some i => bmap_insert KEY_TX_TRANSACTION_INDEX (JNumber i) map
             | None => map
             end in
  let map :=
    match tx_transaction_type tx with
    | Legacy =>
        match tx_gas_price tx with
        | Some gas_price => bmap_insert KEY_TX_GAS_PRICE (JString (pretty gas_price)) map
        | None => map
        end
    | Eip1559 =>
        let map := bmap_insert KEY_TX_MAX_FEE_PER_GAS (JString (pretty (tx_max_fee_per_gas tx))) map in
        match tx_max_priority_fee_per_gas tx with
        | Some fee => bmap_insert KEY_TX_MAX_PRIORITY_FEE_PER_GAS (JString (pretty fee)) map
        | None => map
        end
    | _ => map
    end in
  let map :=
    match receipt with
    | Some receipt =>
        let map := bmap_insert KEY_TX_GAS_USED (JString (pretty (receipt_gas_used receipt))) map in
        let map := bmap_insert KEY_TX_STATUS (JNumber (bool_as_int (receipt_status receipt))) map in
        bmap_insert KEY_TX_EFFECTIVE_GAS_PRICE
          (JString (pretty (receipt_effective_gas_price receipt))) map
    | None => map
    end in
  JObject map.

(** ** Proxies ([proxies.rs]) *)

Definition ParamsProxy := option (bmap Dynamic).

Definition index_get (p : ParamsProxy) (index : string) : Dynamic :=
  match p with
  | Some map => default DUnit (bmap_get index map)
  | None => DUnit
  end.

(** [LogProxy]: the getters scripts call on [log]. *)
Definition LogProxy := option DecodedLog.
Definition log_get_name (p : LogProxy) : string :=
  match p with Some log => dl_name log | None => "" end.
Definition log_get_address (p : LogProxy) : string :=
  match p with Some log => to_checksum (log_address (dl_log log)) | None => address_display 0%Z end.
Definition log_get_log_index (p : LogProxy) : Z :=
  match p with Some log => default 0%Z (log_log_index (dl_log log)) | None => 0%Z end.
Definition log_get_params (p : LogProxy) : ParamsProxy :=
  (λ log, build_params_map (dl_params log)) <$> p.

(** [CallProxy]: the getters scripts call on [decoded_call]. *)
Definition CallProxy := option DecodedCall.
Definition call_get_name (p : CallProxy) : string :=
  match p with Some call => dc_name call | None => "" end.
Definition call_get_params (p : CallProxy) : ParamsProxy :=
  (λ call, build_params_map (dc_params call)) <$> p.

(** ** Numbers in payloads *)

(** Induction on values with the elements of arrays and tuples. *)
Lemma DynSolValue_ind' (P : DynSolValue → Prop) :
  (∀ v, match v with SolArray l | SolFixedArray l | SolTuple l => Forall P l | _ => True end → P v) →
  ∀ v, P v.
Proof.
  intros IH. fix go 1. intros v. apply IH. destruct v; try exact I.
  - induction l; constructor; [apply go|done].
  - induction l; constructor; [apply go|done].
  - induction l; constructor; [apply go|done].
Qed.

(** Every number of a JSON value fits an [i64]. *)
Fixpoint json_numbers_i64 (j : Json) : bool :=
  match j with
  | JNumber n => (i64_min <=? n)%Z && (n <=? i64_max)%Z
  | JArray l => forallb json_numbers_i64 l
  | JObject m => forallb (λ p, json_numbers_i64 p.2) m
  | _ => true
  end.

(** Values the ABI decoder can produce: unsigned words are not negative. *)
Fixpoint sol_value_wf (v : DynSolValue) : bool :=
  match v with
  | SolUint u _ => (0 <=? u)%Z
  | SolArray l | SolFixedArray l | SolTuple l => forallb sol_value_wf l
  | _ => true
  end.

Lemma parse_i64_Some i n : parse_i64 i = Some n ↔ n = i ∧ is_i64 i.
Proof.
  unfold parse_i64, is_i64. destruct (Z.leb_spec i64_min i), (Z.leb_spec i i64_max); cbn;
    split; try (intros [= <-]); try (intros [-> ?]); auto; lia.
Qed.

Lemma forallb_map_Forall {A B} (f : A → B) (p : A → bool) (q : B → bool) l :
  Forall (λ a, p a = true → q (f a) = true) l → forallb p l = true → forallb q (map f l) = true.
Proof.
  induction 1 as [|a l Ha Hl IH]; cbn; [done|]. intros [? ?]%andb_true_iff.
  by rewrite Ha, IH.
Qed.

Lemma dyn_sol_value_to_json_i64 v :
  sol_value_wf v = true → json_numbers_i64 (dyn_sol_value_to_json v) = true.
Proof.
  induction v as [v IH] using DynSolValue_ind'. destruct v; cbn [dyn_sol_value_to_json sol_value_wf]; intros Hv;
    try done; try (by eapply forallb_map_Forall).
  - destruct (parse_i64 i) as [n|] eqn:E; [|done]. apply parse_i64_Some in E as [-> [Hl Hu]].
    cbn. rewrite andb_true_iff, !Z.leb_le. lia.
  - destruct (Z.leb_spec u i64_max); [|done]. bool_to_prop.
    rewrite u64_as_i64_small by lia. cbn. unfold_width. rewrite andb_true_iff, !Z.leb_le. lia.
Qed.
End Conversions.

(** Decimal printing does not identify distinct integers. *)
Class IntDisplayLaws `{AlloyPrimitives} : Prop := {
  u256_display_inj : Inj (=) (=) u256_display;
  i256_display_inj : Inj (=) (=) i256_display
}.

Section ConversionTheorems.
Context `{AlloyPrimitives}.

(** The JSON of a decoded value, at any depth of arrays and tuples, holds only
    numbers in the range of [i64], and no precision is lost: an integer becomes
    itself when it fits and a string otherwise, so distinct integers of a kind
    always have distinct JSON. *)
Theorem dyn_sol_value_to_json_exact `{!IntDisplayLaws} :
  (∀ v, sol_value_wf v = true → json_numbers_i64 (dyn_sol_value_to_json v) = true) ∧
  (∀ i n, dyn_sol_value_to_json (SolInt i n) = if decide (is_i64 i) then JNumber i else JString (i256_display i)) ∧
  (∀ i i' n n', dyn_sol_value_to_json (SolInt i n) = dyn_sol_value_to_json (SolInt i' n') → i = i') ∧
  (∀ u u' n n', (0 ≤ u)%Z → (0 ≤ u')%Z →
     dyn_sol_value_to_json (SolUint u n) = dyn_sol_value_to_json (SolUint u' n') → u = u').
Proof.
  split_and!.
  - apply dyn_sol_value_to_json_i64.
  - intros i n. cbn. destruct (parse_i64 i) as [m|] eqn:E.
    + apply parse_i64_Some in E as [-> Hi]. by rewrite decide_True.
    + rewrite decide_False; [done|]. intros Hi.
      by rewrite (proj2 (parse_i64_Some i i)) in E.
  - intros i i' n n'. cbn.
    destruct (parse_i64 i) as [m|] eqn:E, (parse_i64 i') as [m'|] eqn:E'; intros [= Hs].
    + apply parse_i64_Some in E as [-> _]. by apply parse_i64_Some in E' as [-> _].
    + by apply i256_display_inj.
  - intros u u' n n' Hu Hu'. cbn.
    destruct (Z.leb_spec u i64_max), (Z.leb_spec u' i64_max); intros [= Hs].
    + by rewrite !u64_as_i64_small in Hs by lia.
    + by apply u256_display_inj.
Qed.

Lemma bmap_get_elem {A} k (m : bmap A) : is_Some (bmap_get k m) → k ∈ m.*1.
Proof.
  induction m as [|[k' a] m IH]; cbn; [by intros [? [=]]|].
  case_decide; [subst; left|right; auto].
Qed.

Lemma bmap_insert_keys {A} (P : string → Prop) k (a : A) (m : bmap A) :
  P k → Forall P m.*1 → Forall P (bmap_insert k a m).*1.
Proof.
  intros Hk. induction m as [|[k' a'] m IH]; cbn; [by constructor|].
  intros [Hk' Hm]%Forall_cons. destruct (String.compare k k'); cbn; auto.
Qed.

Lemma bmap_insert_present {A} k k' (a : A) (m : bmap A) :
  k = k' ∨ is_Some (bmap_get k' m) → is_Some (bmap_get k' (bmap_insert k a m)).
Proof. rewrite bmap_get_insert. case_decide; [by eexists|by intros [|]]. Qed.

Ltac case_tx tx receipt :=
  unfold build_transaction_map, opt_bigint, opt_as_i64;
  destruct (tx_transaction_type tx) eqn:?, (tx_to tx) eqn:?, receipt as [receipt|]; cbv zeta.

(** Find the insertion of the key asked for. *)
Ltac find_key :=
  first [apply bmap_insert_present; left; reflexivity
        |apply bmap_insert_present; right; find_key].

(** Skip the insertions of other keys. *)
Ltac read_key :=
  repeat (rewrite bmap_get_insert_ne by discriminate); rewrite ?bmap_get_insert_eq.

Lemma build_transaction_map_keys tx receipt :
  Forall (λ k, k ∈ tx_keys ++ receipt_keys) (build_transaction_map tx receipt).*1.
Proof.
  case_tx tx receipt; repeat (apply bmap_insert_keys; [by repeat first [left; reflexivity|right]|]);
    constructor.
Qed.

(** A field of [tx] the map leaves out, by the kind of transaction. *)
Definition field_omitted (tx : Transaction) (k : string) : bool :=
  bool_decide (k = KEY_TX_TO) && bool_decide (tx_to tx = None)
  || bool_decide (k = KEY_TX_GAS_PRICE) &&
     match tx_transaction_type tx with Legacy => false | _ => true end
  || bool_decide (k ∈ [KEY_TX_MAX_FEE_PER_GAS; KEY_TX_MAX_PRIORITY_FEE_PER_GAS]) &&
     match tx_transaction_type tx with Eip1559 => false | _ => true end.

Lemma build_transaction_map_present tx receipt :
  Forall (λ k, is_Some (bmap_get k (build_transaction_map tx receipt)) ∨ field_omitted tx k = true)
    (tx_keys ++ receipt_keys).
Proof.
  unfold field_omitted. case_tx tx receipt;
    repeat (constructor; [first [left; find_key|right; reflexivity]|]); constructor.
Qed.

Lemma valid_tx_path k :
  "tx." +:+ k ∈ get_valid_tx_rhai_paths ∪ get_valid_receipt_rhai_paths ↔
  k ∈ tx_keys ++ receipt_keys.
Proof.
  unfold get_valid_tx_rhai_paths, get_valid_receipt_rhai_paths.
  rewrite <- list_to_set_app_L, <- fmap_app, elem_of_list_to_set.
  rewrite (list_elem_of_fmap_inj (λ s, "tx." +:+ s)). done.
Qed.

(** The [tx] map a script is given has exactly fields the script validator
    accepts: every key of the map is a valid path, and every valid path is a key
    of the map, except [to] for a contract creation and the gas prices of the
    other kinds of transaction.  A script that passes validation never reads a
    misspelt transaction field. *)
Theorem build_transaction_map_fields tx receipt k :
  (is_Some (bmap_get k (build_transaction_map tx receipt)) →
   "tx." +:+ k ∈ get_valid_tx_rhai_paths ∪ get_valid_receipt_rhai_paths) ∧
  ("tx." +:+ k ∈ get_valid_tx_rhai_paths ∪ get_valid_receipt_rhai_paths →
   is_Some (bmap_get k (build_transaction_map tx receipt)) ∨ field_omitted tx k = true).
Proof.
  rewrite valid_tx_path. split.
  - intros Hk%bmap_get_elem.
    pose proof (build_transaction_map_keys tx receipt) as Hall. rewrite Forall_forall in Hall. auto.
  - intros Hk. pose proof (build_transaction_map_present tx receipt) as Hall.
    rewrite Forall_forall in Hall. auto.
Qed.

(** The amounts a script compares are exact: the value, the gas prices and
    the effective gas price are arbitrary-precision integers, and the bounded
    fields are the field itself below [2^63] (above, [as i64] wraps them to
    negative numbers).  Without a receipt its three fields are unit. *)
Theorem build_transaction_map_values tx receipt :
  let m := build_transaction_map tx receipt in
  bmap_get KEY_TX_VALUE m = Some (DBigInt (tx_value tx)) ∧
  bmap_get KEY_TX_GAS_LIMIT m =
    Some (DInt (if (tx_gas tx <=? i64_max)%Z then tx_gas tx else (tx_gas tx - 2 ^ 64)%Z)) ∧
  bmap_get KEY_TX_NONCE m =
    Some (DInt (if (tx_nonce tx <=? i64_max)%Z then tx_nonce tx else (tx_nonce tx - 2 ^ 64)%Z)) ∧
  (tx_transaction_type tx = Legacy → bmap_get KEY_TX_GAS_PRICE m = Some (opt_bigint (tx_gas_price tx))) ∧
  (tx_transaction_type tx = Eip1559 →
     bmap_get KEY_TX_MAX_FEE_PER_GAS m = Some (DBigInt (tx_max_fee_per_gas tx))) ∧
  match receipt with
  | Some r =>
      bmap_get KEY_TX_GAS_USED m = Some (DInt (u64_as_i64 (receipt_gas_used r))) ∧
      bmap_get KEY_TX_STATUS m = Some (DInt (bool_as_int (receipt_status r))) ∧
      bmap_get KEY_TX_EFFECTIVE_GAS_PRICE m = Some (DBigInt (receipt_effective_gas_price r))
  | None => Forall (λ k, bmap_get k m = Some DUnit) receipt_keys
  end.
Proof.
  cbv zeta. case_tx tx receipt; split_and!; try (intros [=]); repeat constructor; by read_key.
Qed.
End ConversionTheorems.

(** ** Witnesses *)

Import MonitorMatch.Demo Abi.AbiDemo.

#[export] Instance demo_int_display : IntDisplayLaws.
Proof. split; intros x y; apply (inj pretty). Defined.

Lemma dyn_sol_value_to_json_exact_witness :
  dyn_sol_value_to_json (SolUint (2 ^ 63) 256) = JString "9223372036854775808" ∧
  dyn_sol_value_to_json (SolInt (- 2 ^ 63) 256) = JNumber (- 2 ^ 63) ∧
  json_numbers_i64 (dyn_sol_value_to_json (SolTuple [SolUint (2 ^ 63 - 1) 64; SolInt (- 2 ^ 63) 256])) = true.
Proof.
  split; [vm_compute; reflexivity|].
  destruct dyn_sol_value_to_json_exact as (Hnum & Hint & _).
  split; [rewrite Hint; vm_compute; reflexivity|apply Hnum; vm_compute; reflexivity].
Defined.

Lemma build_transaction_map_fields_witness :
  is_Some (bmap_get "max_fee_per_gas" (build_transaction_map transfer_tx None)).
Proof.
  destruct (proj2 (build_transaction_map_fields transfer_tx None "max_fee_per_gas")) as [Hk|Hk].
  - apply (bool_decide_unpack _). vm_compute. exact I.
  - exact Hk.
  - discriminate Hk.
Defined.

Lemma build_transaction_map_values_witness :
  let tx := mkTransaction 7 None 9 [] 100 (2 ^ 64 - 1) None 1 None None None 7 None None Legacy in
  bmap_get "gas_limit" (build_transaction_map tx None) = Some (DInt (-1)) ∧
  bmap_get "gas_price" (build_transaction_map tx None) = Some DUnit.
Proof.
  cbv zeta.
  destruct (build_transaction_map_values
    (mkTransaction 7 None 9 [] 100 (2 ^ 64 - 1) None 1 None None None 7 None None Legacy) None)
    as (_ & Hgas & _ & Hprice & _).
  split; [exact Hgas|exact (Hprice eq_refl)].
Defined.
