(* ===== verification/RhaiScript.v ===== *)
(** * Script compilation and validation

    [crates/argus-rhai/src/compiler.rs] and [validator.rs].  The [rhai] engine,
    the analyzer of [rhai_analyzer] and SHA-256 are the members of the class
    [RhaiEngine]. *)
From S2P Require Import Prelude Models Abi Conversions.

(** ** The script engine *)

(** A variable of a [rhai::Scope]: proxies are custom types of the engine. *)
Inductive ScopeValue :=
| SDyn (d : Dynamic)
| SLog (p : LogProxy)
| SCall (p : CallProxy).

Record ScopeEntry := mkEntry { se_name : string; se_const : bool; se_value : ScopeValue }.
Notation Scope := (list ScopeEntry).

Definition push_constant (name : string) (v : ScopeValue) (s : Scope) : Scope :=
  s ++ [mkEntry name true v].
Definition push (name : string) (v : ScopeValue) (s : Scope) : Scope :=
  s ++ [mkEntry name false v].
(** [Scope::rewind]. *)
Definition rewind (n : nat) (s : Scope) : Scope := take n s.

(** [rhai_analyzer::ScriptAnalysisResult]. *)
Record ScriptAnalysisResult := mkAnalysisResult {
  ar_accessed_variables : gset string;
  ar_local_variables : gset string;
  ar_string_comparisons : gmap string (gset string)
}.

Class RhaiEngine := {
  AST : Type;
  ParseError : Type;
  EvalAltResult : Type;
  compile : string → result ParseError AST;
  analyze : AST → ScriptAnalysisResult;
  (** [eval_ast_with_scope::<Dynamic>]: the value and the scope left behind. *)
  eval_ast_with_scope : Scope → AST → result EvalAltResult Dynamic * Scope;
  (** The error of [eval_ast_with_scope::<bool>] on another type of value. *)
  mismatch_output_type : Dynamic → EvalAltResult;
  sha256 : string → Z
}.

Definition type_name (d : Dynamic) : string :=
  match d with
  | DUnit => "()"
  | DBool _ => "bool"
  | DInt _ => "i64"
  | DBigInt _ => "BigInt"
  | DString _ => "string"
  | DArray _ => "array"
  | DMap _ => "map"
  | DOther t => t
  end.

Section RhaiScript.
Context `{RhaiEngine}.

(** [eval_ast_with_scope::<bool>]. *)
Definition eval_ast_bool (scope : Scope) (ast : AST) : result EvalAltResult bool * Scope :=
  let '(r, scope') := eval_ast_with_scope scope ast in
  (match r with
   | Ok (DBool b) => Ok b
   | Ok d => Err (mismatch_output_type d)
   | Err e => Err e
   end, scope').

(** ** The compiler ([compiler.rs]) *)

Record ScriptAnalysis := mkAnalysis {
  sa_ast : AST;
  sa_accessed_variables : gset string;
  sa_accesses_log_variable : bool;
  sa_local_variables : gset string;
  sa_accesses_call_variable : bool;
  sa_accessed_log_event_names : gset string
}.

Record RhaiCompiler := mkCompiler { rc_cache : gmap Z ScriptAnalysis }.
Definition RhaiCompiler_new : RhaiCompiler := {| rc_cache := ∅ |}.

Inductive RhaiCompilerError := CompilationError (e : ParseError).

(** [HashSet::iter().any(f)]. *)
Definition set_any (f : string → bool) (X : gset string) : bool := existsb f (elements X).

(** The closure [accesses_root]. *)
Definition accesses_root (accessed_variables : gset string) (root : string) : bool :=
  set_any (λ p, bool_decide (p = root) || starts_with (root +:+ ".") p) accessed_variables.

(** The analysis proper: what [analyze_script] does on a cache miss. *)
Definition analyze_fresh (script : string) : result RhaiCompilerError ScriptAnalysis :=
  ast ← map_err CompilationError (compile script);
  let r := analyze ast in
  let accessed_variables := ar_accessed_variables r in
  Ok {| sa_ast := ast;
        sa_accessed_variables := accessed_variables;
        sa_accesses_log_variable := accesses_root accessed_variables "log";
        sa_local_variables := ar_local_variables r;
        sa_accesses_call_variable := accesses_root accessed_variables "decoded_call";
        sa_accessed_log_event_names := default ∅ (ar_string_comparisons r !! "log.name") |}.

(** [RhaiCompiler::analyze_script]. *)
Definition analyze_script (script : string) : eff RhaiCompiler RhaiCompilerError ScriptAnalysis := λ c,
  let key := sha256 script in
  match rc_cache c !! key with
  | Some cached => (Ok cached, c)
  | None =>
      match analyze_fresh script with
      | Ok analysis => (Ok analysis, {| rc_cache := <[key := analysis]> (rc_cache c) |})
      | Err e => (Err e, c)
      end
  end.

(** [RhaiCompiler::get_ast]. *)
Definition get_ast (script : string) : eff RhaiCompiler RhaiCompilerError AST := λ c,
  let '(r, c') := analyze_script script c in (sa_ast <$> r, c').

(** ** The validator ([validator.rs]) *)

Inductive RhaiScriptValidationError :=
| InvalidField (field : string)
| InvalidAbiField (field : string)
| RhaiSyntaxError (e : RhaiCompilerError)
| InvalidReturnType (msg : string)
| MissingAbi
| RhaiEvaluationError (e : EvalAltResult).

Record RhaiScriptValidationResult := mkValidationResult {
  vr_ast_analysis : ScriptAnalysis;
  vr_requires_receipt : bool
}.

Definition valid_static_fields : gset string :=
  get_valid_tx_rhai_paths ∪ get_valid_receipt_rhai_paths ∪ get_valid_log_rhai_paths
    ∪ get_valid_decoded_call_rhai_paths.

(** The parameters of the ABI's events and functions. *)
Definition valid_dynamic_fields (abi : option JsonAbi) : gset string :=
  match abi with
  | Some abi =>
      list_to_set
        ((ev ← abi_events abi; (λ p, "log.params." +:+ ep_name p) <$> ev_inputs ev) ++
         (f ← abi_functions abi; (λ p, "decoded_call.params." +:+ param_name p) <$> fn_inputs f))
  | None => ∅
  end.

(** The checks on one accessed variable. *)
Definition check_field (a : ScriptAnalysis) (abi : option JsonAbi) (field : string)
    : result RhaiScriptValidationError unit :=
  if bool_decide (field ∈ sa_local_variables a) then Ok tt
  else if bool_decide (field ∈ valid_static_fields) then Ok tt
  else if starts_with "log.params." field || starts_with "decoded_call.params." field then
    if bool_decide (field ∈ valid_dynamic_fields abi) then Ok tt else Err (InvalidAbiField field)
  else Err (InvalidField field).

Definition any_starts_with (a : ScriptAnalysis) (prefix : string) : bool :=
  set_any (starts_with prefix) (sa_accessed_variables a).

(** The dummy scope of [validate_return_type]. *)
Definition dummy_scope (a : ScriptAnalysis) : Scope :=
  let scope := [] in
  let scope := if any_starts_with a "tx." then push "tx" (SDyn (DMap [])) scope else scope in
  let scope :=
    if any_starts_with a "log." then
      let log_map := if any_starts_with a "log.params." then [("params", DMap [])] else [] in
      push "log" (SDyn (DMap log_map)) scope
    else scope in
  if any_starts_with a "decoded_call." then
    let call_map := if any_starts_with a "decoded_call.params." then [("params", DMap [])] else [] in
    push "decoded_call" (SDyn (DMap call_map)) scope
  else scope.

Definition validate_return_type (a : ScriptAnalysis) : result RhaiScriptValidationError unit :=
  match (eval_ast_with_scope (dummy_scope a) (sa_ast a)).1 with
  | Err e => Err (RhaiEvaluationError e)
  | Ok (DBool _) => Ok tt
  | Ok value =>
      Err (InvalidReturnType ("Expected boolean return type, got " +:+ type_name value))
  end.

Definition validate_analysis (a : ScriptAnalysis) (abi : option JsonAbi)
    : result RhaiScriptValidationError RhaiScriptValidationResult :=
  _ ← collect_result (check_field a abi) (elements (sa_accessed_variables a));
  _ ← validate_return_type a;
  let requires_receipt :=
    set_any (λ f, bool_decide (f ∈ get_valid_receipt_rhai_paths)) (sa_accessed_variables a) in
  Ok {| vr_ast_analysis := a; vr_requires_receipt := requires_receipt |}.

(** [RhaiScriptValidator::validate_script]. *)
Definition validate_script (script : string) (abi : option JsonAbi)
    : eff RhaiCompiler RhaiScriptValidationError RhaiScriptValidationResult := λ c,
  let '(r, c') := analyze_script script c in
  (ast_analysis ← map_err RhaiSyntaxError r; validate_analysis ast_analysis abi, c').

(** ** The cache is transparent *)

(** SHA-256 does not collide on the scripts in use. *)
Class Sha256Injective : Prop := sha256_inj : Inj (=) (=) sha256.

(** Every entry is the analysis of the script with that hash. *)
Definition cache_ok (c : RhaiCompiler) : Prop :=
  map_Forall (λ k a, ∃ script, sha256 script = k ∧ analyze_fresh script = Ok a) (rc_cache c).

Lemma cache_ok_new : cache_ok RhaiCompiler_new.
Proof. apply map_Forall_empty. Qed.

Lemma analyze_script_fresh `{!Sha256Injective} script c :
  cache_ok c → (analyze_script script c).1 = analyze_fresh script ∧ cache_ok (analyze_script script c).2.
Proof.
  intros Hc. unfold analyze_script. destruct (rc_cache c !! sha256 script) as [a|] eqn:E.
  - destruct (Hc _ _ E) as (script' & ->%sha256_inj & Ha). done.
  - destruct (analyze_fresh script) as [a|e] eqn:Ea; cbn; [|done]. split; [done|].
    apply map_Forall_insert_2; [by exists script|done].
Qed.

(** The calls that use the cache. *)
Definition run_scripts (scripts : list string) (c : RhaiCompiler) : RhaiCompiler :=
  foldl (λ c s, (analyze_script s c).2) c scripts.

Lemma run_scripts_ok `{!Sha256Injective} scripts c : cache_ok c → cache_ok (run_scripts scripts c).
Proof.
  revert c. induction scripts as [|s scripts IH]; intros c Hc; [done|].
  apply IH. by apply analyze_script_fresh.
Qed.

Lemma set_any_true f X : set_any f X = true ↔ ∃ x, x ∈ X ∧ f x = true.
Proof.
  unfold set_any. rewrite existsb_exists. split.
  - intros (x & Hx%list_elem_of_In%elem_of_elements & ?). by exists x.
  - intros (x & Hx & ?). exists x. split; [|done]. by apply list_elem_of_In, elem_of_elements.
Qed.

Lemma collect_result_unit_Ok {E A} (f : A → result E unit) l :
  is_ok (collect_result f l) = true ↔ ∀ a, a ∈ l → f a = Ok tt.
Proof.
  induction l as [|a l IH]; cbn; [split; [intros _ a Ha%not_elem_of_nil|]; done|].
  setoid_rewrite elem_of_cons. destruct (f a) as [[]|e] eqn:Ea; cbn.
  - destruct (collect_result f l); cbn in *; naive_solver.
  - split; [done|]. intros Hl. by rewrite (Hl a) in Ea by auto.
Qed.
End RhaiScript.

Section RhaiTheorems.
Context `{RhaiEngine}.

(** The compiler's cache is transparent: after any sequence of scripts has
    been analysed, analysing a script returns what a fresh compilation and
    analysis of that very script gives, errors included. *)
Theorem analyze_script_transparent `{!Sha256Injective} scripts script :
  (analyze_script script (run_scripts scripts RhaiCompiler_new)).1 = analyze_fresh script.
Proof. apply analyze_script_fresh, run_scripts_ok, cache_ok_new. Qed.

(** What a valid script may read. *)
Definition field_allowed (a : ScriptAnalysis) (abi : option JsonAbi) (field : string) : Prop :=
  field ∈ sa_local_variables a ∨ field ∈ valid_static_fields ∨
  ((starts_with "log.params." field = true ∨ starts_with "decoded_call.params." field = true) ∧
   field ∈ valid_dynamic_fields abi).

Lemma check_field_Ok a abi field : check_field a abi field = Ok tt ↔ field_allowed a abi field.
Proof.
  unfold check_field, field_allowed. rewrite <- orb_true_iff.
  repeat case_bool_decide; destruct (_ || _); naive_solver.
Qed.

Lemma validate_return_type_Ok a :
  validate_return_type a = Ok tt ↔
  ∃ b, (eval_ast_with_scope (dummy_scope a) (sa_ast a)).1 = Ok (DBool b).
Proof.
  unfold validate_return_type. destruct (_.1) as [[]|]; split; try done; try (intros [? [=]]; fail); eauto.
Qed.

(** C39: A script is accepted exactly when it compiles, every variable it reads is
    local, a known field, or a parameter of the given ABI, and its evaluation in
    the dummy scope is a boolean; the result then says that receipts are needed
    exactly when the script reads a receipt field. *)
Theorem validate_script_correct script abi c r :
  (validate_script script abi c).1 = Ok r ↔
  ∃ a, (analyze_script script c).1 = Ok a ∧
    (∀ field, field ∈ sa_accessed_variables a → field_allowed a abi field) ∧
    (∃ b, (eval_ast_with_scope (dummy_scope a) (sa_ast a)).1 = Ok (DBool b)) ∧
    vr_ast_analysis r = a ∧
    (vr_requires_receipt r = true ↔
       ∃ f, f ∈ sa_accessed_variables a ∧ f ∈ get_valid_receipt_rhai_paths).
Proof.
  unfold validate_script. destruct (analyze_script script c) as [[a|e] c'] eqn:Ea; cbn;
    [|split; [done|by intros (? & [=] & _)]].
  unfold validate_analysis. setoid_rewrite <- validate_return_type_Ok.
  set (need := set_any _ _).
  assert (need = true ↔ ∃ f, f ∈ sa_accessed_variables a ∧ f ∈ get_valid_receipt_rhai_paths) as Hneed.
  { unfold need. rewrite set_any_true. by setoid_rewrite bool_decide_eq_true. }
  pose proof (collect_result_unit_Ok (check_field a abi) (elements (sa_accessed_variables a))) as Hfields.
  setoid_rewrite elem_of_elements in Hfields. setoid_rewrite check_field_Ok in Hfields.
  destruct (collect_result _ _) as [us|e]; cbn in *.
  - destruct (validate_return_type a) as [[]|e] eqn:Er; cbn.
    + split.
      * intros [= <-]. exists a. split_and!; [done|by apply Hfields|done|done|exact Hneed].
      * intros (a' & [= <-] & _ & _ & Hast & Hr). destruct r as [a' b]; cbn in *. subst.
        do 2 f_equal. apply eq_true_iff_eq. by rewrite Hneed, Hr.
    + split; [done|]. intros (a' & [= <-] & _ & Hr & _). by rewrite Er in Hr.
  - split; [done|]. intros (a' & [= <-] & Hall & _). by apply Hfields in Hall.
Qed.
End RhaiTheorems.

(** ** A concrete engine, for the witnesses: five scripts *)

Module RhaiDemo.
(** The value of a variable: the last one pushed. *)
Definition scope_get (name : string) (s : Scope) : option ScopeValue :=
  se_value <$> last (filter (λ e, se_name e = name) s).

Definition tx_value_over (n : Z) (s : Scope) : bool :=
  match scope_get "tx" s with
  | Some (SDyn (DMap m)) =>
      match bmap_get "value" m with Some (DBigInt v) => (n <? v)%Z | _ => false end
  | _ => false
  end.
Definition log_named (n : string) (s : Scope) : bool :=
  match scope_get "log" s with
  | Some (SLog p) => bool_decide (log_get_name p = n)
  | _ => false
  end.
Definition call_named (n : string) (s : Scope) : bool :=
  match scope_get "decoded_call" s with
  | Some (SCall p) => bool_decide (call_get_name p = n)
  | _ => false
  end.

(** [tx.value > 50], [log.name == "Transfer"], their disjunction,
    [decoded_call.name == "transfer"], and a script that throws. *)
Inductive demo_script := ScriptTx | ScriptLog | ScriptHybrid | ScriptCall | ScriptFail.
Definition demo_compile (s : string) : result string demo_script :=
  if decide (s = "tx") then Ok ScriptTx
  else if decide (s = "log") then Ok ScriptLog
  else if decide (s = "hybrid") then Ok ScriptHybrid
  else if decide (s = "call") then Ok ScriptCall
  else if decide (s = "fail") then Ok ScriptFail
  else Err "syntax".
Definition demo_analyze (a : demo_script) : ScriptAnalysisResult :=
  match a with
  | ScriptTx => mkAnalysisResult {["tx.value"]} ∅ ∅
  | ScriptLog => mkAnalysisResult {["log.name"]} ∅ {["log.name" := {["Transfer"]}]}
  | ScriptHybrid => mkAnalysisResult {["log.name"; "tx.value"]} ∅ {["log.name" := {["Transfer"]}]}
  | ScriptCall => mkAnalysisResult {["decoded_call.name"]} ∅ ∅
  | ScriptFail => mkAnalysisResult ∅ ∅ ∅
  end.
Definition demo_eval (s : Scope) (a : demo_script) : bool :=
  match a with
  | ScriptTx => tx_value_over 50 s
  | ScriptLog => log_named "Transfer" s
  | ScriptHybrid => tx_value_over 50 s || log_named "Transfer" s
  | ScriptCall => call_named "transfer" s
  | ScriptFail => false
  end.

#[export] Instance demo_engine : RhaiEngine := {|
  AST := demo_script;
  ParseError := string;
  EvalAltResult := string;
  compile := demo_compile;
  analyze := demo_analyze;
  eval_ast_with_scope s a :=
    (match a with ScriptFail => Err "throw" | _ => Ok (DBool (demo_eval s a)) end, s);
  mismatch_output_type d := type_name d;
  sha256 s := Zpos (encode s)
|}.

#[export] Instance demo_sha256 : Sha256Injective.
Proof. intros s s' E. cbn in E. by injection E as E%(inj encode). Defined.
End RhaiDemo.
Import RhaiDemo.

Lemma analyze_script_transparent_witness :
  (analyze_script "log" (run_scripts ["tx"; "log"; "bad"] RhaiCompiler_new)).1 = analyze_fresh "log".
Proof. apply (analyze_script_transparent ["tx"; "log"; "bad"] "log"). Defined.

Lemma validate_script_correct_witness :
  ∃ r, (validate_script "tx" None RhaiCompiler_new).1 = Ok r ∧ vr_requires_receipt r = false.
Proof.
  eexists (mkValidationResult _ false). split; [|reflexivity].
  apply (validate_script_correct "tx" None RhaiCompiler_new). eexists. split; [reflexivity|].
  split_and!.
  - intros field Hf. cbn in Hf. apply elem_of_singleton in Hf. right. left. subst. apply (bool_decide_unpack _). vm_compute. exact I.
  - eexists. reflexivity.
  - reflexivity.
  - split; [discriminate|]. intros (f & Hf & Hf'). cbn in Hf. apply elem_of_singleton in Hf. exfalso. subst.
    revert Hf'. apply (bool_decide_unpack (_ ∉ _)). vm_compute. exact I.
Defined.
