(* ===== verification/Registry.v ===== *)
(** * The interest registry

    [crates/argus-core/src/monitor.rs] (which logs and calls interest some
    monitor) and [crates/argus-monitor/src/interest_registry.rs] (how the
    registry is built from the classified monitors). *)
From S2P Require Import Prelude Models MonitorMatch Abi Conversions RhaiScript.

(** ** The registry ([monitor.rs]) *)

(** [Some signatures] is the precise mode of an address, [None] the broad one. *)
Record InterestRegistry := mkRegistry {
  log_interests : gmap Address (option (gset B256));
  calldata_addresses : gset Address;
  global_event_signatures : gset B256
}.
(** [#[derive(Default)]]. *)
Definition InterestRegistry_default : InterestRegistry := mkRegistry ∅ ∅ ∅.

(** [topics.first().is_some_and(|t| set.contains(t))]. *)
Definition topic0_in (sigs : gset B256) (log : Log) : bool :=
  match head (log_topics log) with Some topic0 => bool_decide (topic0 ∈ sigs) | None => false end.

Definition is_globally_monitored (reg : InterestRegistry) (log : Log) : bool :=
  negb (bool_decide (global_event_signatures reg = ∅)) && topic0_in (global_event_signatures reg) log.

Definition is_log_interesting (reg : InterestRegistry) (log : Log) : bool :=
  match log_interests reg !! log_address log with
  | Some (Some specific_signatures) => topic0_in specific_signatures log
  | Some None => true
  | None => is_globally_monitored reg log
  end.

Definition is_calldata_interesting (reg : InterestRegistry) (to_address : option Address) : bool :=
  match to_address with
  | Some addr => bool_decide (addr ∈ calldata_addresses reg)
  | None => false
  end.

(** ** Classified monitors ([manager.rs]) *)

(** The [bitflags] of a script. *)
Module MonitorCapabilities.
Definition TX : Z := 1.
Definition LOG : Z := 2.
Definition CALL : Z := 4.
Definition empty : Z := 0.
Definition is_empty (caps : Z) : bool := (caps =? 0)%Z.
(** [caps |= flag]. *)
Definition union (caps flag : Z) : Z := Z.lor caps flag.
Definition contains (caps flag : Z) : bool := (Z.land caps flag =? flag)%Z.
End MonitorCapabilities.
Import MonitorCapabilities(TX, LOG, CALL, contains).

Section Builder.
Context `{AlloyPrimitives} `{DynAbi} `{RhaiEngine}.

Record ClassifiedMonitor := mkClassified {
  cm_monitor : Monitor;
  cm_caps : Z;
  cm_analysis : ScriptAnalysis
}.

Record InterestRegistryBuilder := mkRegistryBuilder {
  ib_log_interests : gmap Address (option (gset B256));
  ib_calldata_addresses : gset Address;
  ib_global_event_signatures : gset B256
}.
Definition InterestRegistryBuilder_default : InterestRegistryBuilder := mkRegistryBuilder ∅ ∅ ∅.

(** [monitor.address.as_ref().map(|a| a.parse::<Address>())] when it is [Some(Ok(_))]. *)
Definition parsed_address (cm : ClassifiedMonitor) : option Address :=
  m_address (cm_monitor cm) ≫= parse_address.

Definition add_calldata_interest (b : InterestRegistryBuilder) (cm : ClassifiedMonitor) : InterestRegistryBuilder :=
  if contains (cm_caps cm) CALL then
    match parsed_address cm with
    | Some addr =>
        {| ib_log_interests := ib_log_interests b;
           ib_calldata_addresses := {[addr]} ∪ ib_calldata_addresses b;
           ib_global_event_signatures := ib_global_event_signatures b |}
    | None => b
    end
  else b.

(** [JsonAbi::event]: the events with a name. *)
Definition abi_event (abi : JsonAbi) (name : string) : list Event :=
  filter (λ ev, ev_name ev = name) (abi_events abi).

Definition get_signatures_for_monitor (cm : ClassifiedMonitor) (abi : JsonAbi) : gset B256 :=
  let event_names := sa_accessed_log_event_names (cm_analysis cm) in
  if bool_decide (event_names ≠ ∅) then
    list_to_set (event_selector <$> (elements event_names ≫= abi_event abi))
  else list_to_set (event_selector <$> abi_events abi).

Definition set_log_interests (b : InterestRegistryBuilder) (m : gmap Address (option (gset B256)))
    : InterestRegistryBuilder :=
  {| ib_log_interests := m; ib_calldata_addresses := ib_calldata_addresses b;
     ib_global_event_signatures := ib_global_event_signatures b |}.

Definition add_global_event_signature (b : InterestRegistryBuilder) (cm : ClassifiedMonitor)
    (svc : AbiService) : InterestRegistryBuilder :=
  match m_abi_name (cm_monitor cm) with
  | Some abi_name =>
      match get_abi_by_name svc abi_name with
      | Some abi =>
          {| ib_log_interests := ib_log_interests b;
             ib_calldata_addresses := ib_calldata_addresses b;
             ib_global_event_signatures :=
               ib_global_event_signatures b ∪ get_signatures_for_monitor cm (arc_val abi) |}
      | None => b
      end
  | None => b
  end.

(** [monitor.address.is_some_and(|a| a.eq_ignore_ascii_case("all"))]. *)
Definition is_global (m : Monitor) : bool :=
  match m_address m with Some a => eq_ignore_ascii_case a "all" | None => false end.

Definition add_log_interest (b : InterestRegistryBuilder) (cm : ClassifiedMonitor) (svc : AbiService)
    : InterestRegistryBuilder :=
  if negb (contains (cm_caps cm) LOG) then b
  else if is_global (cm_monitor cm) then add_global_event_signature b cm svc
  else
    match parsed_address cm with
    | Some address =>
        let broad := set_log_interests b (<[address := None]> (ib_log_interests b)) in
        if bool_decide (ib_log_interests b !! address = Some None) then b
        else
          match m_abi_name (cm_monitor cm) with
          | Some abi_name =>
              match get_abi svc address with
              | Some contract =>
                  if match get_abi_by_name svc abi_name with
                     | Some repo_abi => negb (ptr_eq (cc_abi contract) repo_abi)
                     | None => false
                     end
                  then broad
                  else
                    let signatures := get_signatures_for_monitor cm (arc_val (cc_abi contract)) in
                    match default (Some ∅) (ib_log_interests b !! address) with
                    | Some interest_set =>
                        set_log_interests b
                          (<[address := Some (interest_set ∪ signatures)]> (ib_log_interests b))
                    | None => b
                    end
              | None => broad
              end
          | None => broad
          end
    | None => b
    end.

(** [InterestRegistryBuilder::add]. *)
Definition registry_add (b : InterestRegistryBuilder) (cm : ClassifiedMonitor) (svc : AbiService)
    : InterestRegistryBuilder :=
  add_log_interest (add_calldata_interest b cm) cm svc.

Definition build_registry (b : InterestRegistryBuilder) : InterestRegistry :=
  {| log_interests := ib_log_interests b; calldata_addresses := ib_calldata_addresses b;
     global_event_signatures := ib_global_event_signatures b |}.

(** [InterestRegistryBuilder::build], [MonitorManager::build_interest_registry]. *)
Definition build_interest_registry (cms : list ClassifiedMonitor) (svc : AbiService) : InterestRegistry :=
  build_registry (foldl (λ b cm, registry_add b cm svc) InterestRegistryBuilder_default cms).

(** ** What the registry should be *)

(** A log monitor of a specific address. *)
Definition monitors_logs_of (addr : Address) (cm : ClassifiedMonitor) : bool :=
  contains (cm_caps cm) LOG && negb (is_global (cm_monitor cm))
  && bool_decide (parsed_address cm = Some addr).

(** The ABI that restricts it: the one linked to the address, unless the
    monitor names another one. *)
Definition restricting_abi (svc : AbiService) (addr : Address) (cm : ClassifiedMonitor) : option JsonAbi :=
  abi_name ← m_abi_name (cm_monitor cm);
  contract ← get_abi svc addr;
  match get_abi_by_name svc abi_name with
  | Some repo_abi => if ptr_eq (cc_abi contract) repo_abi then Some (arc_val (cc_abi contract)) else None
  | None => Some (arc_val (cc_abi contract))
  end.

(** Broad when some monitor of the address has no restricting ABI, the union of
    the signatures otherwise. *)
Definition log_interest_spec (svc : AbiService) (cms : list ClassifiedMonitor) (addr : Address)
    : option (option (gset B256)) :=
  match filter (monitors_logs_of addr) cms with
  | [] => None
  | ms =>
      Some (sigs ← mapM (λ cm, get_signatures_for_monitor cm <$> restricting_abi svc addr cm) ms;
            Some (⋃ sigs))
  end.

Definition global_signatures_spec (svc : AbiService) (cms : list ClassifiedMonitor) : gset B256 :=
  ⋃ ((λ cm,
        if contains (cm_caps cm) LOG && is_global (cm_monitor cm) then
          match (n ← m_abi_name (cm_monitor cm); get_abi_by_name svc n) with
          | Some abi => get_signatures_for_monitor cm (arc_val abi)
          | None => ∅
          end
        else ∅) <$> cms).

Definition calldata_spec (cms : list ClassifiedMonitor) : gset Address :=
  list_to_set (omap (λ cm, if contains (cm_caps cm) CALL then parsed_address cm else None) cms).

(** ** The builder computes it *)

Definition build_from (cms : list ClassifiedMonitor) (svc : AbiService) : InterestRegistryBuilder :=
  foldl (λ b cm, registry_add b cm svc) InterestRegistryBuilder_default cms.

Lemma build_from_snoc cms cm svc :
  build_from (cms ++ [cm]) svc = registry_add (build_from cms svc) cm svc.
Proof. unfold build_from. by rewrite foldl_app. Qed.

Lemma add_calldata_interest_frame b cm :
  ib_log_interests (add_calldata_interest b cm) = ib_log_interests b ∧
  ib_global_event_signatures (add_calldata_interest b cm) = ib_global_event_signatures b ∧
  ib_calldata_addresses (add_calldata_interest b cm) =
    match (if contains (cm_caps cm) CALL then parsed_address cm else None) with
    | Some a => {[a]} | None => ∅ end ∪ ib_calldata_addresses b.
Proof.
  unfold add_calldata_interest. destruct (contains (cm_caps cm) CALL); [|set_solver].
  destruct (parsed_address cm); set_solver.
Qed.

Lemma add_log_interest_calldata b cm svc :
  ib_calldata_addresses (add_log_interest b cm svc) = ib_calldata_addresses b.
Proof.
  unfold add_log_interest, add_global_event_signature, set_log_interests. by repeat case_match.
Qed.

Lemma build_from_calldata cms svc : ib_calldata_addresses (build_from cms svc) = calldata_spec cms.
Proof.
  induction cms as [|cm cms IH] using rev_ind; [done|].
  rewrite build_from_snoc. unfold registry_add. rewrite add_log_interest_calldata.
  destruct (add_calldata_interest_frame (build_from cms svc) cm) as (_ & _ & ->). rewrite IH.
  unfold calldata_spec. rewrite omap_app, list_to_set_app_L. cbn.
  destruct (if contains (cm_caps cm) CALL then parsed_address cm else None); set_solver.
Qed.

Lemma build_from_global cms svc :
  ib_global_event_signatures (build_from cms svc) = global_signatures_spec svc cms.
Proof.
  induction cms as [|cm cms IH] using rev_ind; [done|].
  rewrite build_from_snoc. unfold registry_add, global_signatures_spec.
  destruct (add_calldata_interest_frame (build_from cms svc) cm) as (_ & Hg & _).
  rewrite fmap_app, union_list_app_L. cbn. rewrite <- (right_id_L ∅ (∪) (ib_global_event_signatures _)).
  fold (global_signatures_spec svc cms). rewrite <- IH, <- Hg.
  set (b := add_calldata_interest (build_from cms svc) cm). clearbody b.
  unfold add_log_interest, add_global_event_signature, set_log_interests.
  destruct (contains (cm_caps cm) LOG); cbn; [|set_solver].
  destruct (is_global (cm_monitor cm)).
  - destruct (m_abi_name (cm_monitor cm)) as [n|]; cbn; [|set_solver].
    destruct (get_abi_by_name svc n); cbn; set_solver.
  - repeat case_match; cbn; set_solver.
Qed.

(** One monitor's effect on the interest in an address. *)
Lemma add_log_interest_step b cm svc addr :
  ib_log_interests (add_log_interest b cm svc) !! addr =
  if monitors_logs_of addr cm then
    Some (old ← default (Some ∅) (ib_log_interests b !! addr);
          abi ← restricting_abi svc addr cm;
          Some (old ∪ get_signatures_for_monitor cm abi))
  else ib_log_interests b !! addr.
Proof.
  unfold add_log_interest, monitors_logs_of.
  destruct (contains (cm_caps cm) LOG); cbn; [|done].
  destruct (is_global (cm_monitor cm)); cbn.
  { unfold add_global_event_signature. by repeat case_match. }
  destruct (parsed_address cm) as [a|]; cbn; [|by rewrite bool_decide_false].
  destruct (decide (a = addr)) as [->|Hne].
  - rewrite (bool_decide_true (Some addr = Some addr)) by done.
    unfold restricting_abi, set_log_interests.
    case_bool_decide as Hb; [by rewrite Hb|].
    assert (∃ old, default (Some ∅) (ib_log_interests b !! addr) = Some old) as [old Hold].
    { destruct (ib_log_interests b !! addr) as [[]|]; cbn; eauto. done. }
    rewrite Hold. cbn.
    destruct (m_abi_name (cm_monitor cm)) as [n|]; cbn; [|by rewrite lookup_insert_eq].
    destruct (get_abi svc addr) as [c|]; cbn; [|by rewrite lookup_insert_eq].
    destruct (get_abi_by_name svc n) as [r|]; cbn; [destruct (ptr_eq (cc_abi c) r); cbn|];
      by rewrite lookup_insert_eq.
  - rewrite (bool_decide_false (Some a = Some addr)) by congruence.
    repeat case_match; cbn; try done; by rewrite lookup_insert_ne.
Qed.

Lemma mapM_snoc {A B} (f : A → option B) l a :
  mapM f (l ++ [a]) = (bs ← mapM f l; b ← f a; Some (bs ++ [b])).
Proof.
  induction l as [|x l IH]; cbn; [by destruct (f a)|].
  destruct (f x); cbn; [|done]. rewrite IH. destruct (mapM f l); cbn; [|done]. by destruct (f a).
Qed.

Lemma build_from_log_interests cms svc addr :
  ib_log_interests (build_from cms svc) !! addr = log_interest_spec svc cms addr.
Proof.
  induction cms as [|cm cms IH] using rev_ind; [done|].
  rewrite build_from_snoc. unfold registry_add. rewrite add_log_interest_step.
  destruct (add_calldata_interest_frame (build_from cms svc) cm) as (-> & _ & _).
  rewrite IH. unfold log_interest_spec. rewrite filter_app, filter_cons, filter_nil.
  destruct (monitors_logs_of addr cm); [rewrite decide_True by done|].
  2: { rewrite decide_False by (intros []). by rewrite app_nil_r. }
  destruct (filter (monitors_logs_of addr) cms) as [|m ms] eqn:Ef; cbn [app default].
  - cbn. destruct (restricting_abi svc addr cm); cbn; [|done]. do 2 f_equal. set_solver.
  - change (m :: ms ++ [cm]) with ((m :: ms) ++ [cm]). rewrite mapM_snoc.
    destruct (mapM _ (m :: ms)) as [sigs|]; cbn; [|done].
    destruct (restricting_abi svc addr cm); cbn; [|done].
    do 2 f_equal. rewrite union_list_app_L. set_solver.
Qed.
End Builder.

Section RegistryTheorems.
Context `{AlloyPrimitives} `{DynAbi} `{RhaiEngine}.

(** The registry built from the classified monitors is the intended one,
    whatever their order: an address is in broad mode exactly when one of its log
    monitors has no ABI that restricts it, and in precise mode with the union of
    the signatures of its monitors otherwise; the global signatures and the
    calldata addresses are the unions over the monitors. *)
Theorem build_interest_registry_correct cms svc :
  let reg := build_interest_registry cms svc in
  (∀ addr, log_interests reg !! addr = log_interest_spec svc cms addr) ∧
  global_event_signatures reg = global_signatures_spec svc cms ∧
  calldata_addresses reg = calldata_spec cms.
Proof.
  split_and!; [intros; apply build_from_log_interests|apply build_from_global|apply build_from_calldata].
Qed.

(** The events of an ABI a monitor's script can accept, by name. *)
Definition event_of_interest (cm : ClassifiedMonitor) (abi : JsonAbi) (ev : Event) : Prop :=
  ev ∈ abi_events abi ∧
  (sa_accessed_log_event_names (cm_analysis cm) = ∅ ∨
   ev_name ev ∈ sa_accessed_log_event_names (cm_analysis cm)).

Lemma get_signatures_for_monitor_elem cm abi sig :
  sig ∈ get_signatures_for_monitor cm abi ↔
  ∃ ev, event_selector ev = sig ∧ event_of_interest cm abi ev.
Proof.
  unfold get_signatures_for_monitor, event_of_interest. case_bool_decide as Hn.
  - rewrite elem_of_list_to_set, list_elem_of_fmap. setoid_rewrite list_elem_of_bind.
    unfold abi_event. setoid_rewrite list_elem_of_filter. setoid_rewrite elem_of_elements.
    split; [intros (ev & -> & n & [<- ?] & ?); exists ev; auto|].
    intros (ev & <- & ? & [|]); [done|]. exists ev. split; [done|]. by exists (ev_name ev).
  - rewrite elem_of_list_to_set, list_elem_of_fmap.
    split; [intros (ev & -> & ?); exists ev; auto|intros (ev & <- & ? & _); by exists ev].
Qed.

(** What a log monitor asks of the registry for its own address. *)
Definition wants_log (svc : AbiService) (cm : ClassifiedMonitor) (log : Log) : Prop :=
  monitors_logs_of (log_address log) cm = true ∧
  match restricting_abi svc (log_address log) cm with
  | None => True
  | Some abi => ∃ ev, head (log_topics log) = Some (event_selector ev) ∧ event_of_interest cm abi ev
  end.

(** What a global monitor asks. *)
Definition wants_log_globally (svc : AbiService) (cm : ClassifiedMonitor) (log : Log) : Prop :=
  contains (cm_caps cm) LOG = true ∧ is_global (cm_monitor cm) = true ∧
  ∃ n abi ev, m_abi_name (cm_monitor cm) = Some n ∧ get_abi_by_name svc n = Some abi ∧
    head (log_topics log) = Some (event_selector ev) ∧ event_of_interest cm (arc_val abi) ev.

Lemma topic0_in_true sigs log :
  topic0_in sigs log = true ↔ ∃ t, head (log_topics log) = Some t ∧ t ∈ sigs.
Proof.
  unfold topic0_in. destruct (head (log_topics log)); [rewrite bool_decide_eq_true|]; naive_solver.
Qed.

Lemma global_signatures_elem svc cms t :
  t ∈ global_signatures_spec svc cms ↔
  ∃ cm, cm ∈ cms ∧ contains (cm_caps cm) LOG = true ∧ is_global (cm_monitor cm) = true ∧
    ∃ n abi ev, m_abi_name (cm_monitor cm) = Some n ∧ get_abi_by_name svc n = Some abi ∧
      event_selector ev = t ∧ event_of_interest cm (arc_val abi) ev.
Proof.
  unfold global_signatures_spec. rewrite elem_of_union_list. setoid_rewrite list_elem_of_fmap. split.
  - intros (X & (cm & -> & Hcm) & Ht). exists cm.
    destruct (contains (cm_caps cm) LOG), (is_global (cm_monitor cm)); cbn in Ht; try set_solver.
    destruct (m_abi_name (cm_monitor cm)) as [n|]; cbn in Ht; [|set_solver].
    destruct (get_abi_by_name svc n) as [abi|] eqn:En; [|set_solver].
    apply get_signatures_for_monitor_elem in Ht as (ev & ? & ?). split_and!; [done..|]. by exists n, abi, ev.
  - intros (cm & Hcm & Hl & Hg & n & abi & ev & Hn & Ha & Hev). eexists. split; [by exists cm|].
    rewrite Hl, Hg, Hn. cbn. rewrite Ha. apply get_signatures_for_monitor_elem. by exists ev.
Qed.

Lemma address_monitors_elem addr (cms : list ClassifiedMonitor) cm :
  cm ∈ filter (monitors_logs_of addr) cms ↔ monitors_logs_of addr cm = true ∧ cm ∈ cms.
Proof. rewrite list_elem_of_filter. by rewrite Is_true_true. Qed.

Lemma mapM_union_elem {A} (f : A → option (gset Z)) l sigs t :
  mapM f l = Some sigs → (t ∈ ⋃ sigs ↔ ∃ a X, a ∈ l ∧ f a = Some X ∧ t ∈ X).
Proof.
  intros Hl%mapM_Some. induction Hl as [|a X l sigs Ha Hl IH]; cbn; [set_solver|].
  rewrite elem_of_union, IH. setoid_rewrite elem_of_cons. naive_solver.
Qed.

(** The interest in an address with monitors, as a condition on them. *)
Lemma address_interest svc cms log :
  filter (monitors_logs_of (log_address log)) cms ≠ [] →
  is_log_interesting (build_interest_registry cms svc) log = true ↔
  Exists (λ cm, wants_log svc cm log) cms.
Proof.
  intros Hne. rewrite Exists_exists. unfold is_log_interesting. cbn.
  fold (build_from cms svc). rewrite build_from_log_interests. unfold log_interest_spec.
  destruct (filter _ cms) as [|m ms] eqn:Ef; [done|].
  destruct (mapM _ (m :: ms)) as [sigs|] eqn:Em; cbn [mbind option_bind].
  - rewrite topic0_in_true. setoid_rewrite (mapM_union_elem _ _ _ _ Em). rewrite <- Ef.
    setoid_rewrite address_monitors_elem. unfold wants_log. split.
    + intros (t & Ht & cm & X & [Hm Hcm] & HX & HtX). exists cm. split_and!; [done..|].
      apply fmap_Some in HX as (abi & -> & ->).
      apply get_signatures_for_monitor_elem in HtX as (ev & <- & Hev). by exists ev.
    + intros (cm & Hcm & Hm & Hw).
      assert (cm ∈ m :: ms) as Hin by (rewrite <- Ef; by apply address_monitors_elem).
      destruct (restricting_abi svc (log_address log) cm) as [abi|] eqn:Ea.
      * destruct Hw as (ev & Ht & Hev). exists (event_selector ev). split; [done|].
        exists cm, (get_signatures_for_monitor cm abi). rewrite Ea. split_and!; [done..|].
        apply get_signatures_for_monitor_elem. by exists ev.
      * exfalso. assert (is_Some (mapM (λ cm, get_signatures_for_monitor cm <$>
          restricting_abi svc (log_address log) cm) (m :: ms))) as Hall by by eexists.
        rewrite mapM_is_Some, Forall_forall in Hall. apply Hall in Hin as [X HX].
        by rewrite Ea in HX.
  - split; [intros _|done]. apply mapM_None, Exists_exists in Em as (cm & Hin & Hcm).
    rewrite <- Ef in Hin. apply address_monitors_elem in Hin as [Hm Hin]. exists cm. split; [done|].
    split; [done|]. by destruct (restricting_abi svc (log_address log) cm).
Qed.

End RegistryTheorems.

(** ** Concrete monitors *)

Import MonitorMatch.Demo Abi.AbiDemo RhaiScript.RhaiDemo.

Module RegistryDemo.

Definition demo_monitor (id : Z) (address : option string) (abi_name : option string)
    (script : string) (actions : list string) : Monitor :=
  mkMonitor id ("m" +:+ pretty id) "net" address abi_name script actions 0 0 Active.

Definition demo_analysis (script : string) : option ScriptAnalysis := result_ok (analyze_fresh script).

Definition approval_event : Event := mkEvent "Approval" [mkEventParam "owner" "address" true].
Definition tokens : Arc JsonAbi := mkArc 101 (mkJsonAbi [] [approval_event]).
Definition approval_log : Log :=
  mkLog 1 [event_selector approval_event; 2]%Z [] None None None None (Some 5%Z) false.

Definition service : AbiService :=
  foldl run_abi_op AbiService_new
    [OpRegister "erc20" erc20; OpRegister "tokens" tokens; OpLink 1 "erc20"; OpAddGlobal "tokens"].

(** A monitor of the [Transfer] events of address 1, and a monitor of every
    [Approval] event. *)
Definition transfer_cm : ClassifiedMonitor :=
  mkClassified (demo_monitor 1 (Some "0x1") (Some "erc20") "log" ["a"]) LOG
    (mkAnalysis ScriptLog {["log.name"]} true ∅ false {["Transfer"]}).
Definition approval_cm : ClassifiedMonitor :=
  mkClassified (demo_monitor 2 (Some "all") (Some "tokens") "log" ["a"]) LOG
    (mkAnalysis ScriptLog {["log.name"]} true ∅ false ∅).
End RegistryDemo.


(** A precise monitor of an address hides the logs of that address from the
    global monitors: the early return skips the global check. *)
Lemma precise_mode_hides_global :
  let cms := [RegistryDemo.transfer_cm; RegistryDemo.approval_cm] in
  let reg := build_interest_registry cms RegistryDemo.service in
  wants_log_globally RegistryDemo.service RegistryDemo.approval_cm RegistryDemo.approval_log ∧
  is_globally_monitored reg RegistryDemo.approval_log = true ∧
  is_log_interesting reg RegistryDemo.approval_log = false.
Proof.
  cbv zeta. split; [|split; vm_compute; reflexivity].
  split; [reflexivity|]. split; [reflexivity|].
  exists "tokens", RegistryDemo.tokens, RegistryDemo.approval_event.
  split_and!; [reflexivity|vm_compute; reflexivity|reflexivity|].
  split; [by left|by left].
Qed.
