(* ===== verification/Manager.v ===== *)
(** * The monitor manager ([crates/argus-monitor/src/manager.rs])

    Classification of monitors by what their script reads, and the snapshot of
    the monitor state that the block processor, the filtering engine and the
    RPC source read. *)
From S2P Require Import Prelude Models MonitorMatch Abi Conversions RhaiScript Registry.
Import Registry.MonitorCapabilities(TX, LOG, CALL, contains).

Definition TX_GAS_USED := "tx.gas_used".
Definition TX_STATUS := "tx.status".
Definition TX_EFFECTIVE_GAS_PRICE := "tx.effective_gas_price".

Section Manager.
Context `{AlloyPrimitives} `{DynAbi} `{RhaiEngine}.

Record MonitorAssetState := mkAssets {
  monitors_by_id : gmap Z ClassifiedMonitor;
  tx_aware_monitors : list Z;
  log_aware_monitors : list Z;
  interest_registry : InterestRegistry;
  requires_receipts : bool;
  has_transaction_only_monitors : bool
}.
Definition MonitorAssetState_default : MonitorAssetState :=
  mkAssets ∅ [] [] InterestRegistry_default false false.

Record MonitorManager := mkManager {
  mgr_compiler : RhaiCompiler;
  mgr_abi_service : AbiService;
  mgr_state : MonitorAssetState
}.

(** ** Classification *)

Definition receipt_fields : gset string := {[TX_GAS_USED; TX_STATUS; TX_EFFECTIVE_GAS_PRICE]}.

(** The flags of an analysed script. *)
Definition script_capabilities (analysis : ScriptAnalysis) : Z :=
  let vars := sa_accessed_variables analysis in
  let caps := MonitorCapabilities.empty in
  let caps := if set_any (starts_with "tx.") vars then MonitorCapabilities.union caps TX else caps in
  let caps := if sa_accesses_log_variable analysis then MonitorCapabilities.union caps LOG else caps in
  let caps :=
    if set_any (λ var, starts_with "decoded_call." var || bool_decide (var = "decoded_call")) vars
    then MonitorCapabilities.union caps CALL else caps in
  if MonitorCapabilities.is_empty caps then TX else caps.

Definition needs_receipt (analysis : ScriptAnalysis) : bool :=
  set_any (λ v, bool_decide (v ∈ receipt_fields)) (sa_accessed_variables analysis).

(** [MonitorManager::classify_monitor]. *)
Definition classify_monitor (monitor : Monitor)
    : eff RhaiCompiler RhaiCompilerError (ClassifiedMonitor * bool) := λ c,
  let '(r, c') := analyze_script (m_filter_script monitor) c in
  (analysis ← r;
   Ok (mkClassified monitor (script_capabilities analysis) analysis, needs_receipt analysis), c').

(** [.map(classify_monitor).partition(Result::is_ok)]: the classified monitors,
    in order, and the number of failures. *)
Fixpoint classify_all (monitors : list Monitor) (c : RhaiCompiler)
    : list (ClassifiedMonitor * bool) * nat * RhaiCompiler :=
  match monitors with
  | [] => ([], 0, c)
  | m :: monitors =>
      let '(r, c) := classify_monitor m c in
      let '(classified, failed, c) := classify_all monitors c in
      match r with
      | Ok cm => (cm :: classified, failed, c)
      | Err _ => (classified, S failed, c)
      end
  end.

(** The loop that distributes the classified monitors. *)
Definition distribute (acc : gmap Z ClassifiedMonitor * list Z * list Z) (p : ClassifiedMonitor * bool)
    : gmap Z ClassifiedMonitor * list Z * list Z :=
  let '(monitors_by_id, tx_aware, log_aware) := acc in
  let cm := p.1 in
  let monitor_id := m_id (cm_monitor cm) in
  let is_tx_aware := contains (cm_caps cm) TX || contains (cm_caps cm) CALL in
  let is_log_aware := contains (cm_caps cm) LOG in
  let tx_aware := if is_tx_aware then tx_aware ++ [monitor_id] else tx_aware in
  let log_aware := if is_log_aware then log_aware ++ [monitor_id] else log_aware in
  let tx_aware := if negb is_tx_aware && negb is_log_aware then tx_aware ++ [monitor_id] else tx_aware in
  (<[monitor_id := cm]> monitors_by_id, tx_aware, log_aware).

(** [MonitorManager::organize_assets]. *)
Definition organize_assets (monitors : list Monitor) (svc : AbiService) (c : RhaiCompiler)
    : MonitorAssetState * RhaiCompiler :=
  let active_monitors := filter (λ m, m_status m = Active) monitors in
  let '(classified_monitors, _, c) := classify_all active_monitors c in
  let registry := build_interest_registry classified_monitors.*1 svc in
  let '(by_id, tx_aware, log_aware) := foldl distribute (∅, [], []) classified_monitors in
  ({| monitors_by_id := by_id; tx_aware_monitors := tx_aware; log_aware_monitors := log_aware;
      interest_registry := registry;
      requires_receipts := existsb snd classified_monitors;
      has_transaction_only_monitors := existsb (λ p, (cm_caps p.1 =? TX)%Z) classified_monitors |}, c).

(** [MonitorManager::new], [update], [load]. *)
Definition MonitorManager_new (monitors : list Monitor) (c : RhaiCompiler) (svc : AbiService) : MonitorManager :=
  let '(st, c) := organize_assets monitors svc c in mkManager c svc st.

Definition update (mgr : MonitorManager) (monitors : list Monitor) : MonitorManager :=
  let '(st, c) := organize_assets monitors (mgr_abi_service mgr) (mgr_compiler mgr) in
  mkManager c (mgr_abi_service mgr) st.

Definition load (mgr : MonitorManager) : MonitorAssetState := mgr_state mgr.

(** [MonitorStateHandle::interest_registry]: the registry of the same snapshot. *)
Definition registry_provider (mgr : MonitorManager) : InterestRegistry := interest_registry (mgr_state mgr).

(** ** What classification promises *)

(** A monitor classified by a fresh analysis of its script. *)
Definition classify_fresh (m : Monitor) : option (ClassifiedMonitor * bool) :=
  a ← result_ok (analyze_fresh (m_filter_script m));
  Some (mkClassified m (script_capabilities a) a, needs_receipt a).

(** The monitors the services run: the active ones whose script compiles. *)
Definition running_monitors (monitors : list Monitor) : list (ClassifiedMonitor * bool) :=
  omap classify_fresh (filter (λ m, m_status m = Active) monitors).

Lemma classify_monitor_fresh `{!Sha256Injective} m c :
  cache_ok c →
  result_ok (classify_monitor m c).1 = classify_fresh m ∧ cache_ok (classify_monitor m c).2.
Proof.
  intros Hc. destruct (analyze_script_fresh (m_filter_script m) c Hc) as [Hr Hc'].
  unfold classify_monitor, classify_fresh. rewrite <- Hr.
  destruct (analyze_script (m_filter_script m) c) as [[a|e] c']; done.
Qed.

Lemma classify_all_fresh `{!Sha256Injective} ms c :
  cache_ok c →
  (classify_all ms c).1.1 = omap classify_fresh ms ∧ cache_ok (classify_all ms c).2.
Proof.
  revert c. induction ms as [|m ms IH]; intros c Hc; cbn; [done|].
  destruct (classify_monitor_fresh m c Hc) as [Hr Hc']. rewrite <- Hr.
  destruct (classify_monitor m c) as [r c']. cbn in *.
  destruct (IH c' Hc') as [Hms Hc'']. destruct (classify_all ms c') as [[cl f] c''].
  cbn in *. subst. by destruct r.
Qed.

(** The flags mean what their names say. *)
Lemma script_capabilities_spec a :
  contains (script_capabilities a) LOG = sa_accesses_log_variable a ∧
  contains (script_capabilities a) CALL =
    set_any (λ var, starts_with "decoded_call." var || bool_decide (var = "decoded_call"))
      (sa_accessed_variables a) ∧
  contains (script_capabilities a) TX =
    set_any (starts_with "tx.") (sa_accessed_variables a)
    || negb (sa_accesses_log_variable a || contains (script_capabilities a) CALL).
Proof.
  unfold script_capabilities.
  destruct (set_any (starts_with "tx.") _), (sa_accesses_log_variable a),
    (set_any (λ var, starts_with "decoded_call." var || bool_decide (var = "decoded_call")) _); done.
Qed.

Definition tx_aware (cm : ClassifiedMonitor) : bool :=
  contains (cm_caps cm) TX || contains (cm_caps cm) CALL || negb (contains (cm_caps cm) LOG).
Definition log_aware (cm : ClassifiedMonitor) : bool := contains (cm_caps cm) LOG.

Definition cm_id (cm : ClassifiedMonitor) : Z := m_id (cm_monitor cm).

(** The snapshot for a list of monitors, written from the running monitors. *)
Definition snapshot_spec (svc : AbiService) (monitors : list Monitor) : MonitorAssetState :=
  let running := running_monitors monitors in
  let cms := running.*1 in
  {| monitors_by_id := collect_map cm_id id cms;
     tx_aware_monitors := cm_id <$> filter tx_aware cms;
     log_aware_monitors := cm_id <$> filter log_aware cms;
     interest_registry := build_interest_registry cms svc;
     requires_receipts := existsb snd running;
     has_transaction_only_monitors := existsb (λ cm, (cm_caps cm =? TX)%Z) cms |}.

Lemma existsb_fmap {A B} (f : A → B) (p : B → bool) l : existsb p (f <$> l) = existsb (λ a, p (f a)) l.
Proof. induction l as [|a l IH]; [done|]. cbn. by rewrite <- IH. Qed.

Lemma distribute_spec l :
  foldl distribute (∅, [], []) l =
  (collect_map cm_id id l.*1, cm_id <$> filter tx_aware l.*1, cm_id <$> filter log_aware l.*1).
Proof.
  induction l as [|[cm b] l IH] using rev_ind; [done|].
  rewrite foldl_app, IH, (fmap_app fst l). change ([(cm, b)].*1) with [cm].
  rewrite !filter_app, !fmap_app, !filter_cons, !filter_nil.
  unfold collect_map. rewrite foldl_app. cbn [foldl fst fmap list_fmap]. unfold distribute at 1.
  cbn [fst]. unfold tx_aware, log_aware, cm_id.
  destruct (contains (cm_caps cm) TX), (contains (cm_caps cm) CALL), (contains (cm_caps cm) LOG);
    cbn [orb andb negb]; rewrite ?decide_True by done; rewrite ?decide_False by (intros []);
    by rewrite ?app_nil_r.
Qed.

Lemma organize_assets_spec `{!Sha256Injective} monitors svc c :
  cache_ok c →
  (organize_assets monitors svc c).1 = snapshot_spec svc monitors ∧
  cache_ok (organize_assets monitors svc c).2.
Proof.
  intros Hc. unfold organize_assets, snapshot_spec, running_monitors.
  destruct (classify_all_fresh (filter (λ m, m_status m = Active) monitors) c Hc) as [Hl Hc'].
  destruct (classify_all _ c) as [[l f] c']. cbn in Hl, Hc'. subst l.
  rewrite distribute_spec. split; [|done]. cbn. f_equal. by rewrite existsb_fmap.
Qed.

Lemma update_cache_ok `{!Sha256Injective} mgr hist :
  cache_ok (mgr_compiler mgr) →
  cache_ok (mgr_compiler (foldl update mgr hist)) ∧
  mgr_abi_service (foldl update mgr hist) = mgr_abi_service mgr.
Proof.
  revert mgr. induction hist as [|ms hist IH]; intros mgr Hc; cbn; [done|].
  destruct (organize_assets_spec ms (mgr_abi_service mgr) (mgr_compiler mgr) Hc) as [_ Hc'].
  specialize (IH (update mgr ms)). unfold update in *.
  destruct (organize_assets _ _ _) as [st c]. by apply IH.
Qed.

(** Looking the ids up gives back the monitors they were taken from. *)
Lemma collect_map_cm_id (cms : list ClassifiedMonitor) cm :
  NoDup (cm_id <$> cms) → cm ∈ cms → collect_map cm_id id cms !! cm_id cm = Some cm.
Proof.
  intros Hnd Hin. rewrite collect_map_lookup, option_fmap_id.
  assert (filter (λ a, cm_id a = cm_id cm) cms = [cm]) as ->; [|done].
  apply list_elem_of_split in Hin as (l1 & l2 & ->).
  rewrite fmap_app, fmap_cons in Hnd. apply NoDup_app in Hnd as (_ & Hd & [Hn _]%NoDup_cons).
  rewrite filter_app, filter_cons, decide_True by done.
  rewrite !filter_none; [done|..]; apply Forall_forall; intros x Hx E.
  - apply Hn. rewrite <- E. by apply list_elem_of_fmap_2.
  - apply (Hd (cm_id x)); [by apply list_elem_of_fmap_2|]. rewrite E. by left.
Qed.

Lemma omap_lookup_ids (cms sub : list ClassifiedMonitor) :
  NoDup (cm_id <$> cms) → (∀ cm, cm ∈ sub → cm ∈ cms) →
  omap (λ i, collect_map cm_id id cms !! i) (cm_id <$> sub) = sub.
Proof.
  intros Hnd. induction sub as [|cm sub IH]; intros Hsub; cbn; [done|].
  rewrite collect_map_cm_id by (try apply Hsub; try left; done).
  f_equal. apply IH. intros ??. apply Hsub. by right.
Qed.

Lemma classify_fresh_monitor m p : classify_fresh m = Some p → cm_monitor p.1 = m.
Proof. by intros (a & _ & [= <-])%bind_Some. Qed.

Lemma running_monitors_elem monitors p :
  p ∈ running_monitors monitors ↔
  cm_monitor p.1 ∈ monitors ∧ m_status (cm_monitor p.1) = Active ∧
  classify_fresh (cm_monitor p.1) = Some p.
Proof.
  unfold running_monitors. rewrite list_elem_of_omap. setoid_rewrite list_elem_of_filter. split.
  - intros (m & [Hs Hm] & Hc). by rewrite (classify_fresh_monitor m p Hc).
  - intros (Hm & Hs & Hc). by exists (cm_monitor p.1).
Qed.

Lemma running_monitors_NoDup monitors :
  NoDup (m_id <$> monitors) → NoDup (cm_id <$> (running_monitors monitors).*1).
Proof.
  intros Hnd.
  assert (cm_id <$> (running_monitors monitors).*1 `sublist_of` m_id <$> monitors) as Hsub.
  { unfold running_monitors. induction monitors as [|m ms IH]; [done|].
    apply NoDup_cons in Hnd as [_ Hnd]. rewrite filter_cons. case_decide; cbn.
    - destruct (classify_fresh m) as [p|] eqn:Ep; cbn; [|apply sublist_cons; auto].
      unfold cm_id at 1. rewrite (classify_fresh_monitor m p Ep). apply sublist_skip. auto.
    - apply sublist_cons. auto. }
  by eapply sublist_NoDup.
Qed.
End Manager.

Lemma receipt_fields_eq : receipt_fields = get_valid_receipt_rhai_paths.
Proof. vm_compute. reflexivity. Qed.
#[local] Opaque receipt_fields get_valid_receipt_rhai_paths.

Section ManagerTheorems.
Context `{AlloyPrimitives} `{DynAbi} `{RhaiEngine}.

(** The snapshot published by [update] depends only on the monitors it is given
    and on the ABIs, not on the history of updates (nor on what the compiler has
    cached): it is the snapshot written from the active monitors whose scripts
    compile. *)
Theorem update_snapshot `{!Sha256Injective} initial svc hist monitors :
  load (update (foldl update (MonitorManager_new initial RhaiCompiler_new svc) hist) monitors) =
  snapshot_spec svc monitors.
Proof.
  unfold MonitorManager_new.
  destruct (organize_assets_spec initial svc _ cache_ok_new) as [_ Hc].
  destruct (organize_assets initial svc RhaiCompiler_new) as [st c].
  destruct (update_cache_ok (mkManager c svc st) hist Hc) as [Hc' Hs]. cbn in Hs.
  destruct (organize_assets_spec monitors svc _ Hc') as [Hst _].
  unfold load, update at 1. rewrite Hs.
  by destruct (organize_assets monitors svc _) as [st' c'].
Qed.

(** The monitors each pass of the filtering engine looks up in a snapshot. *)
Definition pass_monitors (st : MonitorAssetState) (ids : list Z) : list ClassifiedMonitor :=
  omap (λ i, monitors_by_id st !! i) ids.

(** In a snapshot of monitors with distinct ids, the two passes together
    evaluate every active monitor whose script compiles, with its own
    classification, and nothing else: the log pass those that read [log], in
    order, the transaction pass those that read [tx] or [decoded_call] or nothing.
    A paused monitor is in neither. *)
Theorem snapshot_passes svc monitors :
  NoDup (m_id <$> monitors) →
  let st := snapshot_spec svc monitors in
  let cms := (running_monitors monitors).*1 in
  pass_monitors st (log_aware_monitors st) = filter log_aware cms ∧
  pass_monitors st (tx_aware_monitors st) = filter tx_aware cms ∧
  (∀ cm, cm ∈ pass_monitors st (log_aware_monitors st) ++ pass_monitors st (tx_aware_monitors st) ↔
     ∃ b, cm_monitor cm ∈ monitors ∧ m_status (cm_monitor cm) = Active ∧
          classify_fresh (cm_monitor cm) = Some (cm, b)).
Proof.
  intros Hnd%running_monitors_NoDup st cms.
  assert (pass_monitors st (log_aware_monitors st) = filter log_aware cms) as Hl.
  { apply omap_lookup_ids; [done|]. by intros cm [_ Hcm]%list_elem_of_filter. }
  assert (pass_monitors st (tx_aware_monitors st) = filter tx_aware cms) as Ht.
  { apply omap_lookup_ids; [done|]. by intros cm [_ Hcm]%list_elem_of_filter. }
  split_and!; [done..|]. intros cm. rewrite Hl, Ht, elem_of_app, !list_elem_of_filter.
  unfold cms. rewrite list_elem_of_fmap. setoid_rewrite running_monitors_elem. split.
  - intros [[_ ([c b] & -> & ?)]|[_ ([c b] & -> & ?)]]; by exists b.
  - intros (b & ?). assert (log_aware cm || tx_aware cm = true) as Hor.
    { unfold log_aware, tx_aware. by destruct (contains (cm_caps cm) LOG);
        rewrite ?orb_true_r. }
    apply orb_true_iff in Hor as [Ho|Ho]; [left|right]; (split; [by rewrite Ho|by exists (cm, b)]).
Qed.

(** The manager and the script validator agree on which scripts need
    receipts, and a snapshot asks for receipts exactly when some running monitor
    reads a receipt field. *)
Theorem requires_receipts_correct svc monitors :
  requires_receipts (snapshot_spec svc monitors) = true ↔
  ∃ m a f, m ∈ monitors ∧ m_status m = Active ∧ analyze_fresh (m_filter_script m) = Ok a ∧
    f ∈ sa_accessed_variables a ∧ f ∈ get_valid_receipt_rhai_paths.
Proof.
  pose proof receipt_fields_eq as Hset. unfold snapshot_spec. cbn [requires_receipts]. rewrite existsb_exists. setoid_rewrite <- list_elem_of_In.
  setoid_rewrite running_monitors_elem. split.
  - intros ([cm b] & (Hm & Hs & Hc) & Hb). cbn in *.
    apply bind_Some in Hc as (a & Ha & Hcm). injection Hcm as _ <-.
    apply result_ok_Some in Ha. apply set_any_true in Hb as (f & Hf & Hr).
    apply bool_decide_eq_true_1 in Hr. rewrite Hset in Hr.
    exists (cm_monitor cm), a, f. split_and!; assumption.
  - intros (m & a & f & Hm & Hs & Ha & Hf & Hr).
    exists (mkClassified m (script_capabilities a) a, needs_receipt a). cbn.
    unfold classify_fresh. rewrite Ha.
    split; [split_and!; [assumption|assumption|reflexivity]|].
    apply set_any_true. exists f. split; [done|]. apply bool_decide_eq_true_2. by rewrite Hset.
Qed.
End ManagerTheorems.

(** ** Concrete monitors *)

Import MonitorMatch.Demo Abi.AbiDemo RhaiScript.RhaiDemo Registry.RegistryDemo.

Module ManagerDemo.
Definition pause (m : Monitor) : Monitor :=
  mkMonitor (m_id m) (m_name m) (m_network m) (m_address m) (m_abi_name m) (m_filter_script m)
    (m_actions m) (m_created_at m) (m_updated_at m) Paused.

Definition demo_monitors : list Monitor :=
  [demo_monitor 1 (Some "0x1") (Some "erc20") "log" ["a"; "b"];
   demo_monitor 2 None None "tx" ["a"];
   demo_monitor 3 (Some "0x1") (Some "erc20") "call" ["b"];
   demo_monitor 4 (Some "0x1") (Some "erc20") "hybrid" ["b"];
   pause (demo_monitor 5 None None "tx" ["a"])].
End ManagerDemo.
Import ManagerDemo.

Lemma update_snapshot_witness :
  load (update (foldl update (MonitorManager_new [] RhaiCompiler_new service)
                 [take 2 demo_monitors; demo_monitors]) (drop 1 demo_monitors)) =
  snapshot_spec service (drop 1 demo_monitors).
Proof. apply (update_snapshot [] service [take 2 demo_monitors; demo_monitors]). Defined.

Lemma snapshot_passes_witness :
  let st := snapshot_spec service demo_monitors in
  log_aware_monitors st = [1; 4]%Z ∧ tx_aware_monitors st = [2; 3; 4]%Z ∧
  pass_monitors st (log_aware_monitors st) = filter log_aware (running_monitors demo_monitors).*1.
Proof.
  cbv zeta. split_and!; [vm_compute; reflexivity..|].
  apply (snapshot_passes service demo_monitors).
  apply (bool_decide_unpack (NoDup _)). vm_compute. exact I.
Defined.

(** A hybrid monitor ([tx.value > 50 || log.name == "Transfer"]) alone does not
    set the flag that keeps transactions without interesting logs. *)
Lemma hybrid_is_not_transaction_only :
  let st := snapshot_spec service [demo_monitor 4 (Some "0x1") (Some "erc20") "hybrid" ["b"]] in
  tx_aware_monitors st = [4]%Z ∧ has_transaction_only_monitors st = false.
Proof. split; vm_compute; reflexivity. Qed.
