(* ===== verification/Filtering.v ===== *)
(** * The filtering engine ([crates/argus-engine/src/filtering.rs])

    Two passes over a block item: the monitors that read logs against each log,
    then the remaining monitors against the transaction.  The mutable
    [EvaluationContext] with its caches is explicit state; the reference
    evaluation at the end has no cache and no scope. *)
From S2P Require Import Prelude Models MonitorMatch Abi Conversions RhaiScript Registry Manager.
Import Registry.MonitorCapabilities(TX, LOG, CALL, contains).

Section Filtering.
Context `{AlloyPrimitives} `{DynAbi} `{RhaiEngine}.

Inductive RhaiError :=
| RhaiCompilationError (e : RhaiCompilerError)
| RuntimeError (e : EvalAltResult)
| ExecutionTimeout (timeout : Duration).

(** [(tx_hash, log_index)]. *)
Definition LogCacheKey : Type := B256 * Z.

Record EvaluationContext := mkContext {
  ctx_item : CorrelatedBlockItem;
  tx_details_cache : option Json;
  ctx_matches : list MonitorMatch;
  matched_monitor_ids : gset Z;
  decoded_call_cache : option (option DecodedCall);
  decoded_call_json_cache : option (option Json);
  decoded_logs_cache : gmap LogCacheKey (option DecodedLog);
  tx_map_cache : option (bmap Dynamic)
}.

(** [EvaluationContext::new]. *)
Definition context_new (item : CorrelatedBlockItem) : EvaluationContext :=
  mkContext item None [] ∅ None None ∅ None.

Definition log_cache_key (raw_log : Log) : option LogCacheKey :=
  tx ← log_transaction_hash raw_log; idx ← log_log_index raw_log; Some (tx, idx).

(** Field updates. *)
Definition set_logs_cache (c : EvaluationContext) v :=
  mkContext (ctx_item c) (tx_details_cache c) (ctx_matches c) (matched_monitor_ids c)
    (decoded_call_cache c) (decoded_call_json_cache c) v (tx_map_cache c).
Definition set_tx_map_cache (c : EvaluationContext) v :=
  mkContext (ctx_item c) (tx_details_cache c) (ctx_matches c) (matched_monitor_ids c)
    (decoded_call_cache c) (decoded_call_json_cache c) (decoded_logs_cache c) v.
Definition set_tx_details_cache (c : EvaluationContext) v :=
  mkContext (ctx_item c) v (ctx_matches c) (matched_monitor_ids c)
    (decoded_call_cache c) (decoded_call_json_cache c) (decoded_logs_cache c) (tx_map_cache c).
Definition set_call_cache (c : EvaluationContext) v :=
  mkContext (ctx_item c) (tx_details_cache c) (ctx_matches c) (matched_monitor_ids c)
    v (decoded_call_json_cache c) (decoded_logs_cache c) (tx_map_cache c).
Definition set_call_json_cache (c : EvaluationContext) v :=
  mkContext (ctx_item c) (tx_details_cache c) (ctx_matches c) (matched_monitor_ids c)
    (decoded_call_cache c) v (decoded_logs_cache c) (tx_map_cache c).
Definition set_matches (c : EvaluationContext) v :=
  mkContext (ctx_item c) (tx_details_cache c) v (matched_monitor_ids c)
    (decoded_call_cache c) (decoded_call_json_cache c) (decoded_logs_cache c) (tx_map_cache c).
Definition set_matched_ids (c : EvaluationContext) v :=
  mkContext (ctx_item c) (tx_details_cache c) (ctx_matches c) v
    (decoded_call_cache c) (decoded_call_json_cache c) (decoded_logs_cache c) (tx_map_cache c).

(** ** The caches *)

Definition get_or_decode_log (c : EvaluationContext) (svc : AbiService) (raw_log : Log)
    : option DecodedLog * EvaluationContext :=
  let cache_key := log_cache_key raw_log in
  match (key ← cache_key; decoded_logs_cache c !! key) with
  | Some cached => (cached, c)
  | None =>
      let result := result_ok (decode_log svc raw_log) in
      match cache_key with
      | Some key => (result, set_logs_cache c (<[key := result]> (decoded_logs_cache c)))
      | None => (result, c)
      end
  end.

Definition get_tx_map (c : EvaluationContext) : bmap Dynamic * EvaluationContext :=
  match tx_map_cache c with
  | Some map => (map, c)
  | None =>
      let map := build_transaction_map (item_transaction (ctx_item c)) (item_receipt (ctx_item c)) in
      (map, set_tx_map_cache c (Some map))
  end.

Definition get_tx_details (c : EvaluationContext) : Json * EvaluationContext :=
  match tx_details_cache c with
  | Some details => (details, c)
  | None =>
      let details := build_transaction_details_payload
        (item_transaction (ctx_item c)) (item_receipt (ctx_item c)) in
      (details, set_tx_details_cache c (Some details))
  end.

Definition get_decoded_call_json (c : EvaluationContext) : option Json * EvaluationContext :=
  let c :=
    match decoded_call_json_cache c, decoded_call_cache c with
    | None, Some opt_call => set_call_json_cache c (Some (DecodedCall_to_json <$> opt_call))
    | _, _ => c
    end in
  (mjoin (decoded_call_json_cache c), c).

Definition has_matched (c : EvaluationContext) (monitor_id : Z) : bool :=
  bool_decide (monitor_id ∈ matched_monitor_ids c).
Definition mark_as_matched (c : EvaluationContext) (monitor_id : Z) : EvaluationContext :=
  set_matched_ids c ({[monitor_id]} ∪ matched_monitor_ids c).

(** The decoding of the call, at most once, for monitors with the [CALL] flag. *)
Definition get_decoded_call (svc : AbiService) (cm : ClassifiedMonitor) (c : EvaluationContext)
    : option DecodedCall * EvaluationContext :=
  if contains (cm_caps cm) CALL then
    match decoded_call_cache c with
    | Some call => (call, c)
    | None =>
        let call := result_ok (decode_function_input svc (item_transaction (ctx_item c))) in
        (call, set_call_cache c (Some call))
    end
  else (None, c).

(** ** Matches *)

Definition match_builder (item : CorrelatedBlockItem) (monitor : Monitor) (action : string)
    : MonitorMatchBuilder unit :=
  builder (m_id monitor) (m_name monitor) action
    (default 0%Z (tx_block_number (item_transaction item))) (tx_hash (item_transaction item)).

Definition make_log_match (item : CorrelatedBlockItem) (monitor : Monitor) (decoded_log : DecodedLog)
    (payload tx_details : Json) (call_json : option Json) (action : string) : MonitorMatch :=
  let log_details :=
    {| ld_log_index := default 0%Z (log_log_index (dl_log decoded_log));
       ld_address := log_address (dl_log decoded_log);
       ld_name := dl_name decoded_log;
       ld_params := payload |} in
  build (decoded_call (log_match (match_builder item monitor action) log_details tx_details) call_json).

Definition make_tx_match (item : CorrelatedBlockItem) (monitor : Monitor)
    (tx_details : Json) (call_json : option Json) (action : string) : MonitorMatch :=
  build (decoded_call (transaction_match (match_builder item monitor action) tx_details) call_json).

Definition create_log_matches (c : EvaluationContext) (monitor : Monitor) (decoded_log : DecodedLog)
    : EvaluationContext :=
  let log_match_payload := build_log_params_payload (dl_params decoded_log) in
  let '(tx_details, c) := get_tx_details c in
  let '(decoded_call_json, c) := get_decoded_call_json c in
  let c := set_matches c (ctx_matches c ++
    (make_log_match (ctx_item c) monitor decoded_log log_match_payload tx_details decoded_call_json
       <$> m_actions monitor)) in
  mark_as_matched c (m_id monitor).

Definition create_tx_matches (c : EvaluationContext) (monitor : Monitor) : EvaluationContext :=
  let '(tx_match_payload, c) := get_tx_details c in
  let '(decoded_call_json, c) := get_decoded_call_json c in
  set_matches c (ctx_matches c ++
    (make_tx_match (ctx_item c) monitor tx_match_payload decoded_call_json <$> m_actions monitor)).

Definition eval_ast_bool_secure (ast : AST) (scope : Scope) : result RhaiError bool * Scope :=
  let '(r, scope) := eval_ast_bool scope ast in (map_err RuntimeError r, scope).

(** ** The log-aware pass *)

(** The variables of the loop over the logs of one monitor. *)
Record LogLoop := mkLogLoop {
  ll_context : EvaluationContext;
  ll_scope : Scope;
  ll_scope_initialized : bool;
  ll_base_len : nat
}.

(** The event-name pre-filter: [true] when the log is skipped. *)
Definition skip_by_name (svc : AbiService) (cm : ClassifiedMonitor) (raw_log : Log) : bool :=
  let filter_names := sa_accessed_log_event_names (cm_analysis cm) in
  if bool_decide (filter_names ≠ ∅) then
    match peek_event_name svc raw_log with
    | Some event => negb (bool_decide (ev_name event ∈ filter_names))
    | None => true
    end
  else false.

(** [if !scope_initialized { .. }]. *)
Definition init_scope (svc : AbiService) (cm : ClassifiedMonitor) (st : LogLoop) : LogLoop :=
  if ll_scope_initialized st then st
  else
    let '(tx_map, c) := get_tx_map (ll_context st) in
    let scope := push_constant "tx" (SDyn (DMap tx_map)) (ll_scope st) in
    let '(decoded_call_result, c) := get_decoded_call svc cm c in
    let scope := push_constant "decoded_call" (SCall decoded_call_result) scope in
    mkLogLoop c scope true (length scope).

(** The body of the loop over the logs. *)
Definition log_step (svc : AbiService) (cm : ClassifiedMonitor) (raw_log : Log)
    : eff LogLoop RhaiError unit := λ st,
  if skip_by_name svc cm raw_log then (Ok tt, st)
  else
    let '(decoded, c) := get_or_decode_log (ll_context st) svc raw_log in
    let st := mkLogLoop c (ll_scope st) (ll_scope_initialized st) (ll_base_len st) in
    match decoded with
    | None => (Ok tt, st)
    | Some decoded_log =>
        let st := init_scope svc cm st in
        let scope := push "log" (SLog (Some decoded_log)) (ll_scope st) in
        let '(r, scope) := eval_ast_bool_secure (sa_ast (cm_analysis cm)) scope in
        match r with
        | Err e => (Err e, mkLogLoop (ll_context st) scope (ll_scope_initialized st) (ll_base_len st))
        | Ok is_match =>
            let scope := rewind (ll_base_len st) scope in
            let c := if is_match : bool
                     then create_log_matches (ll_context st) (cm_monitor cm) decoded_log
                     else ll_context st in
            (Ok tt, mkLogLoop c scope (ll_scope_initialized st) (ll_base_len st))
        end
    end.

(** One monitor against the logs of the item, with a new scope. *)
Definition monitor_logs (svc : AbiService) (cm : ClassifiedMonitor) : eff EvaluationContext RhaiError unit := λ c,
  let '(r, st) := for_each (log_step svc cm) (item_logs (ctx_item c)) (mkLogLoop c [] false 0) in
  (r, ll_context st).

Definition evaluate_log_aware_monitors (svc : AbiService) (monitors : list ClassifiedMonitor)
    : eff EvaluationContext RhaiError unit :=
  for_each (monitor_logs svc) monitors.

(** ** The transaction pass *)

Definition tx_step (svc : AbiService) (base_len : nat) (cm : ClassifiedMonitor)
    : eff (EvaluationContext * Scope) RhaiError unit := λ st,
  let '(c, scope) := st in
  if has_matched c (m_id (cm_monitor cm)) then (Ok tt, st)
  else
    let '(decoded_call_result, c) := get_decoded_call svc cm c in
    let scope := push "log" (SLog None) scope in
    let scope := push "decoded_call" (SCall decoded_call_result) scope in
    let '(r, scope) := eval_ast_bool_secure (sa_ast (cm_analysis cm)) scope in
    match r with
    | Err e => (Err e, (c, scope))
    | Ok is_match =>
        let scope := rewind base_len scope in
        let c := if is_match : bool then create_tx_matches c (cm_monitor cm) else c in
        (Ok tt, (c, scope))
    end.

Definition evaluate_tx_aware_monitors (svc : AbiService) (monitors : list ClassifiedMonitor)
    : eff EvaluationContext RhaiError unit := λ c,
  match monitors with
  | [] => (Ok tt, c)
  | _ =>
      let '(tx_map, c) := get_tx_map c in
      let scope := push_constant "tx" (SDyn (DMap tx_map)) [] in
      let base_len := length scope in
      let '(r, (c, _)) := for_each (tx_step svc base_len) monitors (c, scope) in
      (r, c)
  end.

(** ** [evaluate_item] *)

(** The engine: the services it holds. *)
Record RhaiFilteringEngine := mkEngine {
  fe_abi_service : AbiService;
  fe_assets : MonitorAssetState
}.

Definition evaluate_item (fe : RhaiFilteringEngine) (item : CorrelatedBlockItem)
    : result RhaiError (list MonitorMatch) :=
  let assets := fe_assets fe in
  let log_aware_monitors := omap (λ id, monitors_by_id assets !! id) (log_aware_monitors assets) in
  let tx_aware_monitors := omap (λ id, monitors_by_id assets !! id) (tx_aware_monitors assets) in
  let run : eff EvaluationContext RhaiError unit :=
    _ ← (match item_logs item with
         | [] => mret tt
         | _ => evaluate_log_aware_monitors (fe_abi_service fe) log_aware_monitors
         end);
    evaluate_tx_aware_monitors (fe_abi_service fe) tx_aware_monitors in
  let '(r, context) := run (context_new item) in
  (λ _, ctx_matches context) <$> r.

Definition requires_receipt_data (fe : RhaiFilteringEngine) : bool := requires_receipts (fe_assets fe).

(** ** [run]: the blocks are received in order; the matches of a block are one
    message; an item whose evaluation fails contributes nothing. *)

Definition block_matches (fe : RhaiFilteringEngine) (block : CorrelatedBlockData) : list MonitorMatch :=
  cb_items block ≫= λ item, match evaluate_item fe item with Ok matches => matches | Err _ => [] end.

(** A block whose task panics is skipped. *)
Definition run_step (fe : RhaiFilteringEngine) (panics : CorrelatedBlockData → bool)
    (ch : Channel (list MonitorMatch)) (block : CorrelatedBlockData) : Channel (list MonitorMatch) :=
  if panics block then ch
  else
    match block_matches fe block with
    | [] => ch
    | all_matches => (ch_send all_matches ch).2
    end.

Definition run (fe : RhaiFilteringEngine) (panics : CorrelatedBlockData → bool)
    (blocks : list CorrelatedBlockData) (ch : Channel (list MonitorMatch)) : Channel (list MonitorMatch) :=
  foldl (run_step fe panics) ch blocks.

(** ** The reference evaluation *)

Section Reference.
Context (svc : AbiService) (item : CorrelatedBlockItem).

(** What a script sees as [tx], and as [decoded_call] for its monitor. *)
Definition tx_entry : ScopeEntry :=
  mkEntry "tx" true (SDyn (DMap (build_transaction_map (item_transaction item) (item_receipt item)))).
Definition call_of : option DecodedCall := result_ok (decode_function_input svc (item_transaction item)).
Definition call_value (cm : ClassifiedMonitor) : option DecodedCall :=
  if contains (cm_caps cm) CALL then call_of else None.

(** The value of a monitor's script on a log, and without a log. *)
Definition eval_on_log (cm : ClassifiedMonitor) (d : DecodedLog) : result RhaiError bool :=
  map_err RuntimeError
    (eval_ast_bool [tx_entry; mkEntry "decoded_call" true (SCall (call_value cm));
                    mkEntry "log" false (SLog (Some d))] (sa_ast (cm_analysis cm))).1.
Definition eval_on_tx (cm : ClassifiedMonitor) : result RhaiError bool :=
  map_err RuntimeError
    (eval_ast_bool [tx_entry; mkEntry "log" false (SLog None);
                    mkEntry "decoded_call" false (SCall (call_value cm))] (sa_ast (cm_analysis cm))).1.

(** The log a monitor is evaluated on: not skipped by its name, and decoded. *)
Definition surviving_log (cm : ClassifiedMonitor) (raw_log : Log) : option DecodedLog :=
  if skip_by_name svc cm raw_log then None else result_ok (decode_log svc raw_log).

(** The accumulated matches, the monitors that matched, and whether the call
    has been decoded for some monitor. *)
Record SpecState := mkSpec {
  sp_matches : list MonitorMatch;
  sp_matched : gset Z;
  sp_call_decoded : bool
}.

Definition spec_call_json (decoded : bool) : option Json :=
  if decoded then DecodedCall_to_json <$> call_of else None.

Definition details : Json :=
  build_transaction_details_payload (item_transaction item) (item_receipt item).

Definition spec_log_step (cm : ClassifiedMonitor) (sp : SpecState) (raw_log : Log) : result RhaiError SpecState :=
  match surviving_log cm raw_log with
  | None => Ok sp
  | Some d =>
      let decoded := sp_call_decoded sp || contains (cm_caps cm) CALL in
      is_match ← eval_on_log cm d;
      Ok (if is_match : bool then
            mkSpec (sp_matches sp ++ (make_log_match item (cm_monitor cm) d
                      (build_log_params_payload (dl_params d)) details (spec_call_json decoded)
                      <$> m_actions (cm_monitor cm)))
                   ({[cm_id cm]} ∪ sp_matched sp) decoded
          else mkSpec (sp_matches sp) (sp_matched sp) decoded)
  end.

Definition spec_tx_step (sp : SpecState) (cm : ClassifiedMonitor) : result RhaiError SpecState :=
  if bool_decide (cm_id cm ∈ sp_matched sp) then Ok sp
  else
    let decoded := sp_call_decoded sp || contains (cm_caps cm) CALL in
    is_match ← eval_on_tx cm;
    Ok (mkSpec (sp_matches sp ++
                  if is_match : bool then
                    make_tx_match item (cm_monitor cm) details (spec_call_json decoded)
                      <$> m_actions (cm_monitor cm)
                  else [])
               (sp_matched sp) decoded).

Definition spec_passes (log_cms tx_cms : list ClassifiedMonitor) : result RhaiError SpecState :=
  sp ← foldM (λ sp cm, foldM (spec_log_step cm) (item_logs item) sp) log_cms (mkSpec [] ∅ false);
  foldM spec_tx_step tx_cms sp.
End Reference.

Definition evaluate_item_spec (fe : RhaiFilteringEngine) (item : CorrelatedBlockItem)
    : result RhaiError (list MonitorMatch) :=
  let st := fe_assets fe in
  sp_matches <$> spec_passes (fe_abi_service fe) item
    (pass_monitors st (log_aware_monitors st)) (pass_monitors st (tx_aware_monitors st)).

(** ** The engine computes the reference evaluation *)

(** Documented behaviour of [rhai]: a script cannot change the constants it is
    given; what it pushes or changes comes after them. *)
Class EvalKeepsConstants : Prop :=
  eval_keeps_constants base s ast :
    Forall (λ e, se_const e = true) base →
    ∃ t, (eval_ast_with_scope (base ++ s) ast).2 = base ++ t.

(** The logs of an item are told apart by transaction hash and index. *)
Definition keys_coherent (item : CorrelatedBlockItem) : Prop :=
  ∀ l l' key, l ∈ item_logs item → l' ∈ item_logs item →
    log_cache_key l = Some key → log_cache_key l' = Some key → l = l'.

Lemma eval_secure_fst ast scope :
  (eval_ast_bool_secure ast scope).1 = map_err RuntimeError (eval_ast_bool scope ast).1.
Proof. unfold eval_ast_bool_secure. by destruct (eval_ast_bool scope ast). Qed.

Lemma eval_secure_rewind `{!EvalKeepsConstants} ast base s :
  Forall (λ e, se_const e = true) base →
  rewind (length base) (eval_ast_bool_secure ast (base ++ s)).2 = base.
Proof.
  intros Hb. destruct (eval_keeps_constants base s ast Hb) as [t Ht].
  unfold eval_ast_bool_secure, eval_ast_bool.
  destruct (eval_ast_with_scope (base ++ s) ast) as [r s']. cbn in *. subst.
  unfold rewind. apply take_app_length.
Qed.

Section Refinement.
Context `{!EvalKeepsConstants} (svc : AbiService) (item : CorrelatedBlockItem).
Hypothesis Hkeys : keys_coherent item.

(** A context holds the accumulated result, and its caches hold what would be
    computed afresh. *)
Record ctx_rel (c : EvaluationContext) (sp : SpecState) : Prop := {
  r_item : ctx_item c = item;
  r_matches : ctx_matches c = sp_matches sp;
  r_matched : matched_monitor_ids c = sp_matched sp;
  r_details : tx_details_cache c = None ∨ tx_details_cache c = Some (details item);
  r_map : tx_map_cache c = None ∨
    tx_map_cache c = Some (build_transaction_map (item_transaction item) (item_receipt item));
  r_call : decoded_call_cache c = if sp_call_decoded sp then Some (call_of svc item) else None;
  r_json : decoded_call_json_cache c = None ∨
    (sp_call_decoded sp = true ∧
     decoded_call_json_cache c = Some (DecodedCall_to_json <$> call_of svc item));
  r_logs : ∀ key v, decoded_logs_cache c !! key = Some v →
    ∃ l, l ∈ item_logs item ∧ log_cache_key l = Some key ∧ v = result_ok (decode_log svc l)
}.

Lemma ctx_rel_new : ctx_rel (context_new item) (mkSpec [] ∅ false).
Proof. split; cbn; auto. intros key v. by rewrite lookup_empty. Qed.

Lemma get_or_decode_log_rel c sp l :
  ctx_rel c sp → l ∈ item_logs item →
  (get_or_decode_log c svc l).1 = result_ok (decode_log svc l) ∧
  ctx_rel (get_or_decode_log c svc l).2 sp.
Proof.
  intros Hc Hl. unfold get_or_decode_log.
  destruct (log_cache_key l) as [key|] eqn:Ek; cbn; [|done].
  destruct (decoded_logs_cache c !! key) as [v|] eqn:Ev; cbn.
  - destruct (r_logs c sp Hc key v Ev) as (l' & Hl' & Ek' & ->).
    by rewrite (Hkeys l' l key).
  - split; [done|]. destruct Hc. split; cbn; auto. intros key' v.
    rewrite lookup_insert_Some. intros [[<- <-]|[_ ?]]; [by exists l|auto].
Qed.

Lemma get_tx_map_rel c sp :
  ctx_rel c sp →
  (get_tx_map c).1 = build_transaction_map (item_transaction item) (item_receipt item) ∧
  ctx_rel (get_tx_map c).2 sp.
Proof.
  intros Hc. unfold get_tx_map. destruct (r_map c sp Hc) as [->| ->]; cbn; [|done].
  rewrite (r_item c sp Hc). split; [done|]. destruct Hc. split; cbn; auto.
Qed.

Lemma get_tx_details_rel c sp :
  ctx_rel c sp → (get_tx_details c).1 = details item ∧ ctx_rel (get_tx_details c).2 sp.
Proof.
  intros Hc. unfold get_tx_details. destruct (r_details c sp Hc) as [->| ->]; cbn; [|done].
  rewrite (r_item c sp Hc). split; [done|]. destruct Hc. split; cbn; auto.
Qed.

Lemma get_decoded_call_json_rel c sp :
  ctx_rel c sp →
  (get_decoded_call_json c).1 = spec_call_json svc item (sp_call_decoded sp) ∧
  ctx_rel (get_decoded_call_json c).2 sp.
Proof.
  intros Hc. unfold get_decoded_call_json, spec_call_json. cbv zeta.
  rewrite (r_call c sp Hc). destruct (r_json c sp Hc) as [Hj|[Hd Hj]]; rewrite Hj.
  - destruct (sp_call_decoded sp) eqn:Hd; cbn.
    + split; [done|]. destruct Hc. split; cbn; auto.
    + rewrite Hj. done.
  - rewrite Hd, Hj. done.
Qed.

(** The call decoded by a step of monitor [cm]. *)
Definition after_call (cm : ClassifiedMonitor) (sp : SpecState) : SpecState :=
  mkSpec (sp_matches sp) (sp_matched sp) (sp_call_decoded sp || contains (cm_caps cm) CALL).

Lemma get_decoded_call_rel c sp cm :
  ctx_rel c sp →
  (get_decoded_call svc cm c).1 = call_value svc item cm ∧
  ctx_rel (get_decoded_call svc cm c).2 (after_call cm sp).
Proof.
  intros Hc. unfold get_decoded_call, call_value, after_call.
  destruct (contains (cm_caps cm) CALL).
  - rewrite (r_call c sp Hc), orb_true_r. destruct (sp_call_decoded sp) eqn:Hd; cbn.
    + split; [done|]. destruct Hc. split; cbn; auto; [by rewrite Hd in *|tauto].
    + rewrite (r_item c sp Hc). split; [done|]. destruct Hc. split; cbn; auto; tauto.
  - rewrite orb_false_r. split; [done|]. by destruct sp.
Qed.

Lemma create_log_matches_rel c sp m d :
  ctx_rel c sp →
  ctx_rel (create_log_matches c m d)
    (mkSpec (sp_matches sp ++ (make_log_match item m d (build_log_params_payload (dl_params d))
               (details item) (spec_call_json svc item (sp_call_decoded sp)) <$> m_actions m))
       ({[m_id m]} ∪ sp_matched sp) (sp_call_decoded sp)).
Proof.
  intros Hc. unfold create_log_matches.
  destruct (get_tx_details_rel c sp Hc) as [E1 Hc1]. destruct (get_tx_details c) as [td c1].
  destruct (get_decoded_call_json_rel c1 sp Hc1) as [E2 Hc2]. destruct (get_decoded_call_json c1) as [cj c2].
  cbn in *. subst. rewrite (r_item c2 sp Hc2). destruct Hc2. split; cbn; auto; congruence.
Qed.

Lemma create_tx_matches_rel c sp m :
  ctx_rel c sp →
  ctx_rel (create_tx_matches c m)
    (mkSpec (sp_matches sp ++ (make_tx_match item m (details item)
               (spec_call_json svc item (sp_call_decoded sp)) <$> m_actions m))
       (sp_matched sp) (sp_call_decoded sp)).
Proof.
  intros Hc. unfold create_tx_matches.
  destruct (get_tx_details_rel c sp Hc) as [E1 Hc1]. destruct (get_tx_details c) as [td c1].
  destruct (get_decoded_call_json_rel c1 sp Hc1) as [E2 Hc2]. destruct (get_decoded_call_json c1) as [cj c2].
  cbn in *. subst. rewrite (r_item c2 sp Hc2). destruct Hc2. split; cbn; auto; congruence.
Qed.

(** The constants of a monitor's scope in the log pass. *)
Definition log_base (cm : ClassifiedMonitor) : Scope :=
  [tx_entry item; mkEntry "decoded_call" true (SCall (call_value svc item cm))].

Definition loop_rel (cm : ClassifiedMonitor) (st : LogLoop) (sp : SpecState) : Prop :=
  ctx_rel (ll_context st) sp ∧
  if ll_scope_initialized st then
    ll_scope st = log_base cm ∧ ll_base_len st = 2 ∧ after_call cm sp = sp
  else ll_scope st = [].

Lemma after_call_idemp cm sp : after_call cm (after_call cm sp) = after_call cm sp.
Proof. unfold after_call. cbn. by rewrite <- orb_assoc, orb_diag. Qed.

Lemma init_scope_rel cm st sp :
  loop_rel cm st sp →
  let st' := init_scope svc cm st in
  loop_rel cm st' (after_call cm sp) ∧ ll_scope_initialized st' = true.
Proof.
  intros [Hc Hs]. unfold init_scope. destruct (ll_scope_initialized st) eqn:Hi; cbn.
  - destruct Hs as (? & ? & Ha). split; [|done]. rewrite Ha. split; [done|]. by rewrite Hi.
  - destruct (get_tx_map_rel _ sp Hc) as [E1 Hc1]. destruct (get_tx_map (ll_context st)) as [m c1].
    destruct (get_decoded_call_rel c1 sp cm Hc1) as [E2 Hc2].
    destruct (get_decoded_call svc cm c1) as [call c2]. cbn in *. subst. rewrite Hs.
    split; [|done]. split; [done|]. cbn. split_and!; [done..|apply after_call_idemp].
Qed.

Lemma log_step_rel cm l st sp :
  l ∈ item_logs item → loop_rel cm st sp →
  simulates (loop_rel cm) (log_step svc cm l) st (spec_log_step svc item cm sp l).
Proof.
  intros Hl [Hc Hs]. unfold simulates, log_step, spec_log_step, surviving_log.
  destruct (skip_by_name svc cm l); [by exists st|].
  destruct (get_or_decode_log_rel _ sp l Hc Hl) as [E1 Hc1].
  destruct (get_or_decode_log (ll_context st) svc l) as [d c1]. cbn in E1, Hc1. subst d.
  set (st1 := mkLogLoop c1 _ _ _). assert (loop_rel cm st1 sp) as Hst1 by done.
  destruct (result_ok (decode_log svc l)) as [d|]; [|by exists st1].
  destruct (init_scope_rel cm st1 sp Hst1) as [[Hc2 Hs2] Hi].
  set (st2 := init_scope svc cm st1) in *. rewrite Hi in Hs2. destruct Hs2 as (Hscope & Hlen & Hcall).
  clearbody st2. unfold push. rewrite Hscope, Hlen.
  pose proof (eval_secure_fst (sa_ast (cm_analysis cm)) (log_base cm ++ [mkEntry "log" false (SLog (Some d))])) as Hv.
  pose proof (eval_secure_rewind (sa_ast (cm_analysis cm)) (log_base cm)
    [mkEntry "log" false (SLog (Some d))] ltac:(by repeat constructor)) as Hr.
  destruct (eval_ast_bool_secure _ _) as [r s']. cbn [fst snd] in Hv, Hr.
  change (length (log_base cm)) with 2 in Hr.
  change (r = eval_on_log svc item cm d) in Hv. rewrite <- Hv.
  destruct r as [b|e]; [|done]. cbn. rewrite Hr, Hi. eexists. split; [done|].
  unfold loop_rel. cbn. destruct b.
  - split; [by apply (create_log_matches_rel _ (after_call cm sp))|]. split_and!; [done..|].
    unfold after_call. cbn. by rewrite <- orb_assoc, orb_diag.
  - split; [done|]. split_and!; [done..|apply after_call_idemp].
Qed.

Lemma monitor_logs_rel cm c sp :
  ctx_rel c sp →
  simulates ctx_rel (monitor_logs svc cm) c (foldM (spec_log_step svc item cm) (item_logs item) sp).
Proof.
  intros Hc.
  pose proof (for_each_simulates (loop_rel cm) (log_step svc cm) (spec_log_step svc item cm)
    (item_logs item) (mkLogLoop c [] false 0) sp) as Hsim.
  specialize (Hsim (λ l st sp', log_step_rel cm l st sp') (conj Hc eq_refl)).
  unfold simulates in *. unfold monitor_logs. rewrite (r_item c sp Hc).
  destruct (foldM _ _ sp) as [sp'|e].
  - destruct Hsim as (st & Hst & Hrel & _). exists (ll_context st). by rewrite Hst.
  - by destruct (for_each _ _ _) as [r st].
Qed.

Definition tx_rel (st : EvaluationContext * Scope) (sp : SpecState) : Prop :=
  ctx_rel st.1 sp ∧ st.2 = [tx_entry item].

Lemma tx_step_rel cm st sp :
  tx_rel st sp → simulates tx_rel (tx_step svc 1 cm) st (spec_tx_step svc item sp cm).
Proof.
  destruct st as [c scope]. intros [Hc Hs]. cbn in Hc, Hs. subst scope.
  unfold simulates, tx_step, spec_tx_step, has_matched. rewrite (r_matched c sp Hc).
  change (m_id (cm_monitor cm)) with (cm_id cm).
  case_bool_decide; [by exists (c, [tx_entry item])|].
  destruct (get_decoded_call_rel c sp cm Hc) as [E1 Hc1].
  destruct (get_decoded_call svc cm c) as [call c1]. cbn in E1, Hc1. subst call.
  unfold push. rewrite <- app_assoc. cbn [app].
  pose proof (eval_secure_fst (sa_ast (cm_analysis cm)) [tx_entry item; mkEntry "log" false (SLog None);
    mkEntry "decoded_call" false (SCall (call_value svc item cm))]) as Hv.
  pose proof (eval_secure_rewind (sa_ast (cm_analysis cm)) [tx_entry item]
    [mkEntry "log" false (SLog None); mkEntry "decoded_call" false (SCall (call_value svc item cm))]
    ltac:(by repeat constructor)) as Hr. cbn [app length] in Hr.
  destruct (eval_ast_bool_secure _ _) as [r s']. cbn [fst snd] in Hv, Hr.
  change (r = eval_on_tx svc item cm) in Hv. rewrite <- Hv.
  destruct r as [b|e]; [|done]. cbn. rewrite Hr. eexists. split; [done|]. split; [|done].
  destruct b; cbn; [by apply (create_tx_matches_rel _ (after_call cm sp))|by rewrite app_nil_r].
Qed.

Lemma evaluate_tx_aware_monitors_rel cms c sp :
  ctx_rel c sp →
  simulates ctx_rel (evaluate_tx_aware_monitors svc cms) c (foldM (spec_tx_step svc item) cms sp).
Proof.
  intros Hc. unfold evaluate_tx_aware_monitors. destruct cms as [|cm cms]; [by exists c|].
  set (l := cm :: cms). unfold simulates.
  destruct (get_tx_map_rel c sp Hc) as [E1 Hc1]. destruct (get_tx_map c) as [m c1]. cbn in E1, Hc1. subst m.
  pose proof (for_each_simulates tx_rel (tx_step svc 1) (spec_tx_step svc item) l
    (c1, [tx_entry item]) sp (λ cm st sp' _, tx_step_rel cm st sp') (conj Hc1 eq_refl)) as Hsim.
  unfold simulates in Hsim. cbn [length push_constant app].
  destruct (foldM _ l sp) as [sp'|e].
  - destruct Hsim as ([c2 s2] & Hst & Hrel & _). exists c2. unfold tx_entry in Hst. by rewrite Hst.
  - unfold tx_entry in Hsim. by destruct (for_each _ _ _) as [r [c2 s2]].
Qed.
End Refinement.

Lemma foldM_id {E A S} (l : list A) (s : S) : foldM (E:=E) (λ s _, Ok s) l s = Ok s.
Proof. by induction l. Qed.

Lemma evaluate_item_meets_spec `{!EvalKeepsConstants} fe item :
  keys_coherent item → evaluate_item fe item = evaluate_item_spec fe item.
Proof.
  intros Hk. unfold evaluate_item, evaluate_item_spec, spec_passes, pass_monitors.
  set (svc := fe_abi_service fe). set (lcms := omap _ (log_aware_monitors _)). set (tcms := omap _ (tx_aware_monitors _)).
  set (pass1 := match item_logs item with [] => mret tt | _ => evaluate_log_aware_monitors svc lcms end).
  assert (simulates (ctx_rel svc item) pass1 (context_new item)
    (foldM (λ sp cm, foldM (spec_log_step svc item cm) (item_logs item) sp) lcms (mkSpec [] ∅ false))) as H1'.
  { pose proof (for_each_simulates (ctx_rel svc item) (monitor_logs svc)
      (λ sp cm, foldM (spec_log_step svc item cm) (item_logs item) sp) lcms (context_new item)
      (mkSpec [] ∅ false) (λ cm c sp _, monitor_logs_rel svc item Hk cm c sp) (ctx_rel_new svc item)) as Hsim.
    unfold pass1. destruct (item_logs item) as [|l ls]; [|exact Hsim].
    cbn [foldM]. rewrite foldM_id. exists (context_new item). split; [done|apply ctx_rel_new]. }
  clearbody pass1. unfold simulates in H1'. destruct (foldM _ lcms _) as [sp|e]; cbn [mbind result_bind].
  - destruct H1' as (c & Hc & Hrel).
    pose proof (evaluate_tx_aware_monitors_rel svc item tcms c sp Hrel) as H2'.
    unfold mbind, eff_bind. rewrite Hc. unfold simulates in H2'.
    destruct (foldM _ tcms sp) as [sp'|e].
    + destruct H2' as (c' & -> & Hrel'). cbn. by rewrite (r_matches svc item c' sp' Hrel').
    + by destruct (evaluate_tx_aware_monitors svc tcms c) as [r c']; cbn in *; subst.
  - unfold mbind, eff_bind.
    by destruct (pass1 (context_new item)) as [[] c]; cbn in *; simplify_eq.
Qed.
End Filtering.

(** ** The matches of an item, in closed form *)

Section ClosedForm.
Context `{AlloyPrimitives} `{DynAbi} `{RhaiEngine}.
Context (svc : AbiService) (item : CorrelatedBlockItem).

(** A match without its decoded call. *)
Definition strip_call (m : MonitorMatch) : MonitorMatch :=
  mkMatch (mm_id m) (mm_monitor_id m) (mm_monitor_name m) (mm_action_name m) (mm_block_number m)
    (mm_transaction_hash m) (mm_match_data m) None.

(** The decoded log a monitor's script accepts. *)
Definition accepted_log (cm : ClassifiedMonitor) (raw_log : Log) : option DecodedLog :=
  d ← surviving_log svc cm raw_log;
  match eval_on_log svc item cm d with Ok true => Some d | _ => None end.

Definition accepts_some_log (cm : ClassifiedMonitor) : bool :=
  existsb (λ l, bool_decide (is_Some (accepted_log cm l))) (item_logs item).

Definition accepts_tx (cm : ClassifiedMonitor) : bool :=
  match eval_on_tx svc item cm with Ok true => true | _ => false end.

(** One match per accepted log and action. *)
Definition log_match_of (cm : ClassifiedMonitor) (d : DecodedLog) (action : string) : MonitorMatch :=
  make_log_match item (cm_monitor cm) d (build_log_params_payload (dl_params d)) (details item) None action.
Definition log_matches_of (cm : ClassifiedMonitor) : list MonitorMatch :=
  d ← omap (accepted_log cm) (item_logs item); log_match_of cm d <$> m_actions (cm_monitor cm).

(** One match per action, for a monitor that accepts the transaction. *)
Definition tx_match_of (cm : ClassifiedMonitor) (action : string) : MonitorMatch :=
  make_tx_match item (cm_monitor cm) (details item) None action.
Definition tx_matches_of (cm : ClassifiedMonitor) : list MonitorMatch :=
  if accepts_tx cm then tx_match_of cm <$> m_actions (cm_monitor cm) else [].

(** The ids of the monitors that matched a log. *)
Definition log_matched (log_cms : list ClassifiedMonitor) : gset Z :=
  list_to_set (cm_id <$> filter accepts_some_log log_cms).

Definition item_matches (log_cms tx_cms : list ClassifiedMonitor) : list MonitorMatch :=
  (log_cms ≫= log_matches_of) ++
  (filter (λ cm, cm_id cm ∉ log_matched log_cms) tx_cms ≫= tx_matches_of).

(** [sp'] extends [sp] with the matches [ms], given without their calls. *)
Definition call_ok (m : MonitorMatch) : Prop :=
  mm_decoded_call m = None ∨ mm_decoded_call m = DecodedCall_to_json <$> call_of svc item.
Definition extends (sp sp' : SpecState) (ms : list MonitorMatch) : Prop :=
  strip_call <$> sp_matches sp' = (strip_call <$> sp_matches sp) ++ ms ∧
  (Forall call_ok (sp_matches sp) → Forall call_ok (sp_matches sp')).

Lemma extends_refl sp : extends sp sp [].
Proof. split; [by rewrite app_nil_r|done]. Qed.

Lemma extends_trans sp1 sp2 sp3 ms ms' :
  extends sp1 sp2 ms → extends sp2 sp3 ms' → extends sp1 sp3 (ms ++ ms').
Proof. intros [E1 C1] [E2 C2]. split; [by rewrite E2, E1, app_assoc|auto]. Qed.

Lemma spec_call_json_ok b : spec_call_json svc item b = None ∨
  spec_call_json svc item b = DecodedCall_to_json <$> call_of svc item.
Proof. destruct b; cbn; auto. Qed.

Lemma extends_app sp ms matched b :
  Forall call_ok ms →
  extends sp (mkSpec (sp_matches sp ++ ms) matched b) (strip_call <$> ms).
Proof. intros Hms. split; cbn; [by rewrite fmap_app|intros; by apply Forall_app]. Qed.

Lemma spec_log_step_extends cm sp l sp' :
  spec_log_step svc item cm sp l = Ok sp' →
  extends sp sp' (d ← option_list (accepted_log cm l); log_match_of cm d <$> m_actions (cm_monitor cm)) ∧
  sp_matched sp' = (if accepted_log cm l then {[cm_id cm]} else ∅) ∪ sp_matched sp.
Proof.
  unfold spec_log_step, accepted_log.
  destruct (surviving_log svc cm l) as [d|]; cbn;
    [|intros [= <-]; split; [apply extends_refl|set_solver]].
  destruct (eval_on_log svc item cm d) as [b|]; cbn; [|done].
  destruct b; intros [= <-]; cbn.
  - split; [|done]. rewrite app_nil_r.
    pose proof (extends_app sp (make_log_match item (cm_monitor cm) d (build_log_params_payload (dl_params d))
      (details item) (spec_call_json svc item (sp_call_decoded sp || contains (cm_caps cm) CALL))
      <$> m_actions (cm_monitor cm)) ({[cm_id cm]} ∪ sp_matched sp)
      (sp_call_decoded sp || contains (cm_caps cm) CALL)) as Hext.
    rewrite <- list_fmap_compose in Hext. apply Hext.
    apply Forall_fmap, Forall_true. intros a. apply spec_call_json_ok.
  - split; [|set_solver]. split; cbn; [by rewrite app_nil_r|done].
Qed.

Lemma spec_log_loop_extends cm ls sp sp' :
  foldM (spec_log_step svc item cm) ls sp = Ok sp' →
  extends sp sp' (d ← omap (accepted_log cm) ls; log_match_of cm d <$> m_actions (cm_monitor cm)) ∧
  sp_matched sp' =
    (if existsb (λ l, bool_decide (is_Some (accepted_log cm l))) ls then {[cm_id cm]} else ∅) ∪ sp_matched sp.
Proof.
  revert sp. induction ls as [|l ls IH]; intros sp; cbn [foldM].
  - intros [= <-]. split; [apply extends_refl|set_solver].
  - intros (sp1 & [E1 M1]%spec_log_step_extends & [E2 M2]%IH)%bind_Ok.
    pose proof (extends_trans _ _ _ _ _ E1 E2) as Hext. rewrite M2, M1. cbn.
    destruct (accepted_log cm l); cbn in *.
    + rewrite app_nil_r in Hext. split; [exact Hext|]. destruct (existsb _ ls); set_solver.
    + split; [exact Hext|set_solver].
Qed.

Lemma spec_log_pass_extends cms sp sp' :
  foldM (λ sp cm, foldM (spec_log_step svc item cm) (item_logs item) sp) cms sp = Ok sp' →
  extends sp sp' (cms ≫= log_matches_of) ∧ sp_matched sp' = log_matched cms ∪ sp_matched sp.
Proof.
  revert sp. induction cms as [|cm cms IH]; intros sp; cbn [foldM].
  - intros [= <-]. split; [apply extends_refl|]. unfold log_matched. set_solver.
  - intros (sp1 & [E1 M1]%spec_log_loop_extends & [E2 M2]%IH)%bind_Ok.
    split; [by eapply extends_trans|]. rewrite M2, M1. unfold log_matched. rewrite filter_cons.
    fold (accepts_some_log cm). destruct (accepts_some_log cm).
    + rewrite decide_True by done. set_solver.
    + rewrite decide_False by (intros []). set_solver.
Qed.

Lemma spec_tx_pass_extends cms sp sp' :
  foldM (spec_tx_step svc item) cms sp = Ok sp' →
  extends sp sp' (filter (λ cm, cm_id cm ∉ sp_matched sp) cms ≫= tx_matches_of).
Proof.
  revert sp. induction cms as [|cm cms IH]; intros sp; cbn [foldM].
  - intros [= <-]. apply extends_refl.
  - intros (sp1 & Hstep & Hrest)%bind_Ok. rewrite filter_cons. unfold spec_tx_step in Hstep.
    case_bool_decide as Hm.
    + injection Hstep as <-. rewrite decide_False by auto. by apply IH.
    + rewrite decide_True by done. apply bind_Ok in Hstep as (b & Hb & [= <-]).
      apply IH in Hrest. cbn [sp_matched] in Hrest. cbn [mbind list_bind].
      eapply extends_trans; [|exact Hrest]. unfold tx_matches_of, accepts_tx. rewrite Hb. destruct b.
      * pose proof (extends_app sp (make_tx_match item (cm_monitor cm) (details item)
          (spec_call_json svc item (sp_call_decoded sp || contains (cm_caps cm) CALL))
          <$> m_actions (cm_monitor cm)) (sp_matched sp)
          (sp_call_decoded sp || contains (cm_caps cm) CALL)) as Hext.
        rewrite <- list_fmap_compose in Hext. apply Hext.
        apply Forall_fmap, Forall_true. intros a. apply spec_call_json_ok.
      * rewrite app_nil_r. split; cbn; [by rewrite app_nil_r|done].
Qed.

Lemma spec_passes_closed log_cms tx_cms sp :
  spec_passes svc item log_cms tx_cms = Ok sp →
  strip_call <$> sp_matches sp = item_matches log_cms tx_cms ∧ Forall call_ok (sp_matches sp).
Proof.
  intros (sp1 & [[E1 C1] M1]%spec_log_pass_extends & [E2 C2]%spec_tx_pass_extends)%bind_Ok.
  cbn in E1, M1, C1. rewrite (right_id_L ∅ (∪)) in M1. rewrite M1 in E2. split; [|auto].
  by rewrite E2, E1.
Qed.
End ClosedForm.

Section FilteringTheorems.
Context `{AlloyPrimitives} `{DynAbi} `{RhaiEngine}.

(** C7: The engine, with its lazily filled caches for the transaction map, the
    details, the decoded logs and the decoded call, its reused scopes and its
    rewinding, computes exactly the reference evaluation that decodes and
    serialises everything afresh for each monitor, errors included, on every item
    whose logs have distinct (transaction hash, index). *)
Theorem evaluate_item_correct `{!EvalKeepsConstants} fe item :
  keys_coherent item → evaluate_item fe item = evaluate_item_spec fe item.
Proof. apply evaluate_item_meets_spec. Qed.

Definition engine_matches (fe : RhaiFilteringEngine) (item : CorrelatedBlockItem) : list MonitorMatch :=
  let st := fe_assets fe in
  item_matches (fe_abi_service fe) item
    (pass_monitors st (log_aware_monitors st)) (pass_monitors st (tx_aware_monitors st)).

Lemma evaluate_item_closed `{!EvalKeepsConstants} fe item ms :
  keys_coherent item → evaluate_item fe item = Ok ms →
  strip_call <$> ms = engine_matches fe item ∧ Forall (call_ok (fe_abi_service fe) item) ms.
Proof.
  intros Hk. rewrite evaluate_item_meets_spec by done. unfold evaluate_item_spec.
  destruct (spec_passes _ _ _ _) as [sp|] eqn:E; intros [= <-].
  by apply spec_passes_closed in E.
Qed.

(** C8: When no script fails, the result is exactly this list, in order: for each
    log monitor, one match per log its script accepts and per action; then, for
    each transaction monitor that accepted no log and whose script accepts the
    transaction, one match per action.  Each match carries the decoded call or
    nothing. *)
Theorem evaluate_item_matches `{!EvalKeepsConstants} fe item ms :
  keys_coherent item → evaluate_item fe item = Ok ms →
  strip_call <$> ms = engine_matches fe item ∧
  Forall (λ m, mm_decoded_call m = None ∨
     mm_decoded_call m = DecodedCall_to_json <$> call_of (fe_abi_service fe) item) ms.
Proof. apply evaluate_item_closed. Qed.

Definition is_log_match (m : MonitorMatch) : bool :=
  match mm_match_data m with MatchLog _ _ => true | MatchTransaction _ => false end.

Lemma item_matches_log_elem svc item log_cms tx_cms m :
  m ∈ item_matches svc item log_cms tx_cms → is_log_match m = true →
  ∃ cm l d a, cm ∈ log_cms ∧ l ∈ item_logs item ∧ accepted_log svc item cm l = Some d ∧
    a ∈ m_actions (cm_monitor cm) ∧ m = log_match_of item cm d a.
Proof.
  unfold item_matches. rewrite elem_of_app. intros [Hm|Hm] Hl.
  - apply list_elem_of_bind in Hm as (cm & Hm & Hcm).
    apply list_elem_of_bind in Hm as (d & Hm & Hd).
    apply list_elem_of_fmap in Hm as (a & -> & Ha).
    apply list_elem_of_omap in Hd as (l & ? & ?). by exists cm, l, d, a.
  - exfalso. apply list_elem_of_bind in Hm as (cm & Hm & _). unfold tx_matches_of in Hm.
    destruct (accepts_tx svc item cm); [|by apply not_elem_of_nil in Hm].
    by apply list_elem_of_fmap in Hm as (a & -> & _).
Qed.

Lemma item_matches_tx_elem svc item log_cms tx_cms m :
  m ∈ item_matches svc item log_cms tx_cms → is_log_match m = false →
  ∃ cm a, cm ∈ tx_cms ∧ cm_id cm ∉ log_matched svc item log_cms ∧ accepts_tx svc item cm = true ∧
    a ∈ m_actions (cm_monitor cm) ∧ m = tx_match_of item cm a.
Proof.
  unfold item_matches. rewrite elem_of_app. intros [Hm|Hm] Hl.
  - exfalso. apply list_elem_of_bind in Hm as (cm & Hm & Hcm).
    apply list_elem_of_bind in Hm as (d & Hm & Hd).
    by apply list_elem_of_fmap in Hm as (a & -> & Ha).
  - apply list_elem_of_bind in Hm as (cm & Hm & Hcm). unfold tx_matches_of in Hm.
    destruct (accepts_tx svc item cm) eqn:Ea; [|by apply not_elem_of_nil in Hm].
    apply list_elem_of_fmap in Hm as (a & -> & Ha).
    apply list_elem_of_filter in Hcm as [? ?]. by exists cm, a.
Qed.

(** A monitor never produces both a log match and a transaction match for the
    same transaction, hybrid monitors included: the log matches win. *)
Theorem no_double_matches `{!EvalKeepsConstants} fe item ms m1 m2 :
  keys_coherent item → evaluate_item fe item = Ok ms →
  m1 ∈ ms → m2 ∈ ms → is_log_match m1 = true → is_log_match m2 = false →
  mm_monitor_id m1 ≠ mm_monitor_id m2.
Proof.
  intros Hk Hms H1' H2' Hl1 Hl2 E. destruct (evaluate_item_closed fe item ms Hk Hms) as [Hstrip _].
  apply (list_elem_of_fmap_2 strip_call) in H1', H2'. rewrite Hstrip in H1', H2'.
  unfold engine_matches in H1', H2'.
  apply item_matches_log_elem in H1' as (cm & l & d & a & Hcm & Hl & Hacc & Ha & Em1); [|exact Hl1].
  apply item_matches_tx_elem in H2' as (cm' & a' & _ & Hn & _ & _ & Em2); [|exact Hl2].
  apply Hn. unfold log_matched. apply elem_of_list_to_set.
  assert (cm_id cm' = cm_id cm) as ->.
  { apply (f_equal mm_monitor_id) in Em1, Em2. cbn in Em1, Em2. unfold cm_id. congruence. }
  apply list_elem_of_fmap_2, list_elem_of_filter. split; [|done].
  unfold accepts_some_log. apply Is_true_true, existsb_exists. exists l.
  rewrite <- list_elem_of_In. split; [done|]. apply bool_decide_eq_true_2. by rewrite Hacc.
Qed.

(** C27: Skipping logs by the peeked event name loses nothing: in every state the
    ABI service can reach, the logs a monitor is evaluated on are the logs that
    decode to an event its script names (all that decode, when it names none). *)
Theorem prefilter_sound `{!EventSelectorNames} svc cm raw_log :
  abi_reachable svc →
  surviving_log svc cm raw_log =
    (d ← result_ok (decode_log svc raw_log);
     let names := sa_accessed_log_event_names (cm_analysis cm) in
     if decide (names = ∅ ∨ dl_name d ∈ names) then Some d else None).
Proof.
  intros Hs. pose proof (peek_decode_agree svc raw_log Hs) as Hpeek.
  unfold surviving_log, skip_by_name.
  case_bool_decide as Hn.
  - destruct (peek_event_name svc raw_log) as [ev|].
    + destruct (decode_log svc raw_log) as [d|e]; cbn; [|by case_match].
      rewrite <- (Hpeek d eq_refl). case_bool_decide; cbn.
      * by rewrite decide_True by auto.
      * rewrite decide_False by tauto. done.
    + by destruct (decode_log svc raw_log).
  - destruct (decode_log svc raw_log); cbn; [|done]. by rewrite decide_True by auto.
Qed.

(** Evaluation fails only when the script of some monitor of the snapshot
    fails on a log it decodes, or on the transaction; the reported error is that
    script's. *)
Theorem evaluate_item_error `{!EvalKeepsConstants} fe item e :
  keys_coherent item → evaluate_item fe item = Err e →
  let st := fe_assets fe in
  let svc := fe_abi_service fe in
  (∃ cm l d, cm ∈ pass_monitors st (log_aware_monitors st) ∧ l ∈ item_logs item ∧
     surviving_log svc cm l = Some d ∧ eval_on_log svc item cm d = Err e) ∨
  (∃ cm, cm ∈ pass_monitors st (tx_aware_monitors st) ∧ eval_on_tx svc item cm = Err e).
Proof.
  intros Hk. rewrite evaluate_item_meets_spec by done. unfold evaluate_item_spec, spec_passes.
  cbv zeta. set (svc := fe_abi_service fe).
  destruct (foldM (λ sp cm, foldM _ _ sp) _ _) as [sp|e'] eqn:E1; cbn.
  - destruct (foldM (spec_tx_step _ _) _ _) as [sp'|e'] eqn:E2; intros [= ->]. right.
    apply foldM_Err in E2 as (cm & sp2 & Hcm & Hstep). exists cm. split; [done|].
    unfold spec_tx_step in Hstep. case_bool_decide; [done|].
    apply bind_Err in Hstep as [?|(b & _ & [=])]. done.
  - intros [= ->]. left. apply foldM_Err in E1 as (cm & sp2 & Hcm & Hstep).
    apply foldM_Err in Hstep as (l & sp3 & Hl & Hstep). unfold spec_log_step in Hstep.
    destruct (surviving_log svc cm l) as [d|] eqn:Ed; [|done].
    apply bind_Err in Hstep as [?|(b & _ & [=])]. by exists cm, l, d.
Qed.
End FilteringTheorems.

(** ** Concrete evaluations *)

Import MonitorMatch.Demo Abi.AbiDemo RhaiScript.RhaiDemo Registry.RegistryDemo Manager.ManagerDemo.

Module FilteringDemo.
#[export] Instance demo_eval_keeps : EvalKeepsConstants.
Proof. intros base s ast _. exists s. reflexivity. Defined.

Definition ids (ms : list MonitorMatch) : list string := mm_id <$> ms.
Definition no_call (ms : list MonitorMatch) : list bool :=
  (λ m, bool_decide (mm_decoded_call m = None)) <$> ms.

Definition engine_for (monitors : list Monitor) : RhaiFilteringEngine :=
  mkEngine service (snapshot_spec service monitors).

(** A transfer call of 100 wei that emitted one [Transfer] log. *)
Definition demo_item : CorrelatedBlockItem := mkItem transfer_tx [transfer_log] None.

Lemma demo_item_keys : keys_coherent demo_item.
Proof.
  intros l l' key Hl Hl' _ _. apply list_elem_of_singleton in Hl, Hl'. congruence.
Qed.

(** Two matches of monitor 1, one of 4, then one of 2 and one of 3. *)
Definition demo_ids : list string :=
  ["1-a-0x7-4"; "1-b-0x7-4"; "4-b-0x7-4"; "2-a-0x7"; "3-b-0x7"].

Lemma demo_evaluation :
  (ids <$> evaluate_item (engine_for demo_monitors) demo_item) = Ok demo_ids.
Proof. vm_compute. reflexivity. Qed.

Lemma demo_evaluation_Ok :
  ∃ ms, evaluate_item (engine_for demo_monitors) demo_item = Ok ms ∧ mm_id <$> ms = demo_ids.
Proof.
  pose proof demo_evaluation as Hd.
  destruct (evaluate_item (engine_for demo_monitors) demo_item) as [ms|e]; [|discriminate Hd].
  exists ms. split; [reflexivity|]. by injection Hd.
Qed.
End FilteringDemo.
Import FilteringDemo.

Lemma evaluate_item_correct_witness :
  (ids <$> evaluate_item_spec (engine_for demo_monitors) demo_item) = Ok demo_ids.
Proof.
  rewrite <- (evaluate_item_correct (engine_for demo_monitors) demo_item demo_item_keys).
  exact demo_evaluation.
Defined.

Lemma evaluate_item_matches_witness :
  ∃ ms, evaluate_item (engine_for demo_monitors) demo_item = Ok ms ∧
    strip_call <$> ms = engine_matches (engine_for demo_monitors) demo_item.
Proof.
  destruct demo_evaluation_Ok as (ms & Hms & _). exists ms. split; [exact Hms|].
  apply (evaluate_item_matches (engine_for demo_monitors) demo_item ms demo_item_keys Hms).
Defined.

Lemma no_double_matches_witness :
  ∃ ms m1 m2, evaluate_item (engine_for demo_monitors) demo_item = Ok ms ∧ m1 ∈ ms ∧ m2 ∈ ms ∧
    is_log_match m1 = true ∧ is_log_match m2 = false ∧ mm_monitor_id m1 ≠ mm_monitor_id m2.
Proof.
  assert (match evaluate_item (engine_for demo_monitors) demo_item with
          | Ok [_; _; m1; m2; _] => is_log_match m1 && negb (is_log_match m2)
          | _ => false end = true) as Hb by (vm_compute; reflexivity).
  destruct (evaluate_item (engine_for demo_monitors) demo_item) as [ms|e] eqn:Hms; [|discriminate Hb].
  destruct ms as [|m0 [|m0' [|m1 [|m2 [|m3 [|]]]]]]; try discriminate Hb.
  apply andb_true_iff in Hb as [Hl1 Hl2]. apply negb_true_iff in Hl2.
  eexists _, m1, m2. split; [reflexivity|].
  assert (m1 ∈ [m0; m0'; m1; m2; m3]) as Hm1 by (right; right; left).
  assert (m2 ∈ [m0; m0'; m1; m2; m3]) as Hm2 by (right; right; right; left).
  split; [exact Hm1|]. split; [exact Hm2|]. split; [exact Hl1|]. split; [exact Hl2|].
  apply (no_double_matches (engine_for demo_monitors) demo_item _ m1 m2 demo_item_keys Hms Hm1 Hm2 Hl1 Hl2).
Defined.

Lemma prefilter_sound_witness :
  surviving_log demo_service transfer_cm transfer_log =
    (d ← result_ok (decode_log demo_service transfer_log);
     let names := sa_accessed_log_event_names (cm_analysis transfer_cm) in
     if decide (names = ∅ ∨ dl_name d ∈ names) then Some d else None).
Proof. apply (prefilter_sound demo_service transfer_cm transfer_log demo_service_reachable). Defined.

(** One failing script discards the matches of all the monitors of the item. *)
Lemma evaluate_item_error_witness :
  let ms := demo_monitors ++ [demo_monitor 8 None None "fail" []] in
  evaluate_item (engine_for ms) demo_item = Err (RuntimeError "throw") ∧
  ((∃ cm l d, cm ∈ pass_monitors (fe_assets (engine_for ms)) (log_aware_monitors (fe_assets (engine_for ms))) ∧
      l ∈ item_logs demo_item ∧ surviving_log service cm l = Some d ∧
      eval_on_log service demo_item cm d = Err (RuntimeError "throw")) ∨
   (∃ cm, cm ∈ pass_monitors (fe_assets (engine_for ms)) (tx_aware_monitors (fe_assets (engine_for ms))) ∧
      eval_on_tx service demo_item cm = Err (RuntimeError "throw"))).
Proof.
  cbv zeta.
  assert (evaluate_item (engine_for (demo_monitors ++ [demo_monitor 8 None None "fail" []])) demo_item
    = Err (RuntimeError "throw")) as He by (vm_compute; reflexivity).
  split; [exact He|].
  exact (evaluate_item_error (engine_for (demo_monitors ++ [demo_monitor 8 None None "fail" []]))
    demo_item (RuntimeError "throw") demo_item_keys He).
Defined.

(** The address of a monitor is not checked: a monitor of address 2 matches a log
    of address 1 that decodes with a monitored event. *)
Lemma address_not_checked :
  (ids <$> evaluate_item
     (engine_for [demo_monitor 9 (Some "0x2") (Some "erc20") "log" ["a"]]) demo_item) = Ok ["9-a-0x7-4"].
Proof. vm_compute. reflexivity. Qed.

(** The decoded call of a match depends on the monitors evaluated before it:
    monitor 2 reports no call alone, and one after monitor 3. *)
Lemma decoded_call_depends_on_order :
  let m2 := demo_monitor 2 None None "tx" ["a"] in
  let m3 := demo_monitor 3 None None "call" [] in
  (no_call <$>
     evaluate_item (engine_for [m2]) demo_item) = Ok [true] ∧
  (no_call <$>
     evaluate_item (engine_for [m3; m2]) demo_item) = Ok [false].
Proof. split; vm_compute; reflexivity. Qed.
