(* ===== verification/Providers.v ===== *)
(** * Data sources ([crates/argus-providers/src])

    [rpc.rs]: the requests of the RPC source, with the topic filter and the
    bloom filter that save them; [block_fetcher.rs]: the concurrent fetch of a
    range of blocks.  The RPC provider is a record of its answers; the bloom
    filter of [alloy] and the completion order of concurrent requests are the
    classes [LogsBloom] and [CompletionOrder]. *)
From S2P Require Import Prelude Models Abi Conversions RhaiScript Registry.

(** ** The [DataSource] trait ([argus-core/src/providers/traits.rs]) *)

Record DataSource := mkDataSource {
  fetch_block_core_data : Z → result DataSourceError (Block * list Log);
  fetch_block_only : Z → result DataSourceError Block;
  fetch_logs_for_range : Z → Z → result DataSourceError (list Log);
  get_current_block_number : result DataSourceError Z;
  fetch_receipts : list TxHash → nat → result DataSourceError (gmap TxHash TransactionReceipt)
}.

(** The answers of an RPC provider; [get_logs from to topics] restricts the first
    topic when [topics] is given. *)
Record RpcProvider := mkProvider {
  get_block_by_number : Z → result string (option Block);
  get_logs : Z → Z → option (list B256) → result string (list Log);
  get_transaction_receipt : TxHash → result string (option TransactionReceipt);
  get_block_number : result string Z
}.

(** [Bloom::contains_input]. *)
Class LogsBloom := { bloom_contains : Bytes → Z → bool }.

(** The order in which [buffer_unordered] yields its results. *)
Class CompletionOrder := {
  unordered : ∀ {A}, list A → list A;
  unordered_perm : ∀ {A} (l : list A), unordered l ≡ₚ l
}.

(** ** The RPC source ([rpc.rs]) *)

Section Rpc.
Context `{LogsBloom} `{CompletionOrder}.

(** [EvmRpcSource]: the provider and the registry read at each request. *)
Record EvmRpcSource := mkRpcSource {
  rpc_provider : RpcProvider;
  rpc_registry : InterestRegistry
}.

Definition provider_error {A} (r : result string A) : result DataSourceError A := map_err Provider r.

Definition interests (reg : InterestRegistry) : list (option (gset B256)) :=
  (map_to_list (log_interests reg)).*2.

Definition build_topic_filter (reg : InterestRegistry) : option (list B256) :=
  if existsb (λ v : option (gset B256), bool_decide (v = None)) (interests reg) then None
  else
    let topics := global_event_signatures reg ∪ ⋃ omap id (interests reg) in
    if bool_decide (topics = ∅) then None else Some (elements topics).

Definition fetch_logs_for_block_range (src : EvmRpcSource) (from to : Z) (topic_filter : option (list B256))
    : result DataSourceError (list Log) :=
  provider_error (get_logs (rpc_provider src) from to topic_filter).

Definition no_log_monitors (reg : InterestRegistry) : bool :=
  bool_decide (log_interests reg = ∅) && bool_decide (global_event_signatures reg = ∅).

Definition rpc_fetch_logs_for_range (src : EvmRpcSource) (from_block to_block : Z)
    : result DataSourceError (list Log) :=
  let reg := rpc_registry src in
  if no_log_monitors reg then Ok []
  else
    logs ← fetch_logs_for_block_range src from_block to_block (build_topic_filter reg);
    Ok (filter (λ log, is_log_interesting reg log = true) logs).

Definition rpc_fetch_block_only (src : EvmRpcSource) (block_number : Z) : result DataSourceError Block :=
  o ← provider_error (get_block_by_number (rpc_provider src) block_number);
  ok_or o (BlockNotFound block_number).

(** The bloom checks of [fetch_block_and_logs]. *)
Definition might_contain_relevant_logs (reg : InterestRegistry) (bloom : Bytes) : bool :=
  existsb (bloom_contains bloom) (elements (global_event_signatures reg))
  || existsb (λ p : Address * option (gset B256),
       if bloom_contains bloom p.1 then
         match p.2 with
         | Some specific_signatures => existsb (bloom_contains bloom) (elements specific_signatures)
         | None => true
         end
       else false) (map_to_list (log_interests reg)).

Definition fetch_block_and_logs (src : EvmRpcSource) (number : Z)
    : result DataSourceError (Block * list Log) :=
  block ← rpc_fetch_block_only src number;
  let reg := rpc_registry src in
  if no_log_monitors reg then Ok (block, [])
  else
    logs ← (if might_contain_relevant_logs reg (block_logs_bloom block)
            then fetch_logs_for_block_range src number number (build_topic_filter reg)
            else Ok []);
    Ok (block, logs).

Definition rpc_fetch_block_core_data (src : EvmRpcSource) (block_number : Z)
    : result DataSourceError (Block * list Log) :=
  match fetch_block_and_logs src block_number with
  | Ok r => Ok r
  | Err (BlockNotFound num) => Err (BlockNotFound num)
  | Err e => Err (ProviderOf e)
  end.

(** With at least one request in flight ([in_flight], below). *)
Definition rpc_fetch_receipts (src : EvmRpcSource) (tx_hashes : list TxHash) (concurrency : nat)
    : result DataSourceError (gmap TxHash TransactionReceipt) :=
  match tx_hashes with
  | [] => Ok ∅
  | _ =>
      results ← collect_result (λ tx_hash,
        receipt ← provider_error (get_transaction_receipt (rpc_provider src) tx_hash);
        Ok (tx_hash, receipt)) (unordered tx_hashes);
      Ok (list_to_map (omap (λ p : TxHash * option TransactionReceipt, pair p.1 <$> p.2) results))
  end.

(** [impl DataSource for EvmRpcSource]. *)
Definition rpc_data_source (src : EvmRpcSource) : DataSource :=
  {| fetch_block_core_data := rpc_fetch_block_core_data src;
     fetch_block_only := rpc_fetch_block_only src;
     fetch_logs_for_range := rpc_fetch_logs_for_range src;
     get_current_block_number := provider_error (get_block_number (rpc_provider src));
     fetch_receipts := rpc_fetch_receipts src |}.
End Rpc.

(** ** Fetching ranges ([block_fetcher.rs]) *)

Record FetchConfig := mkFetchConfig { fc_concurrency : nat; fc_log_chunk_size : Z }.

(** [from..=to]. *)
Definition block_range (from to : Z) : list Z := seqZ from (to - from + 1).

(** The sub-ranges [(start, end)] from [start] on; [fuel] bounds their number. *)
Fixpoint log_chunks (fuel : nat) (start to chunk_size : Z) : list (Z * Z) :=
  match fuel with
  | 0 => []
  | S fuel =>
      if (start <=? to)%Z then
        (start, Z.min (u64_sub (u64_add start chunk_size) 1) to)
          :: log_chunks fuel (u64_add start chunk_size) to chunk_size
      else []
  end.

(** [sort_by_key]: a stable sort. *)
Fixpoint insert_by {A} (key : A → Z) (a : A) (l : list A) : list A :=
  match l with
  | [] => [a]
  | b :: l' => if (key a <=? key b)%Z then a :: l else b :: insert_by key a l'
  end.
Definition sort_by_key {A} (key : A → Z) (l : list A) : list A := foldr (insert_by key) [] l.

Section Fetch.
Context `{CompletionOrder} (ds : DataSource).

Definition fetch_single_block_data (needs_receipts : bool) (block_num : Z) (concurrency : nat)
    : result DataSourceError BlockData :=
  p ← fetch_block_core_data ds block_num;
  let '(block, logs) := p in
  receipts ←
    (if needs_receipts then
       match block_tx_hashes (block_transactions block) with
       | [] => Ok ∅
       | tx_hashes => fetch_receipts ds tx_hashes concurrency
       end
     else Ok ∅);
  Ok (BlockData_from_raw_data block receipts logs).

(** [buffered] keeps the order of the requests. *)
Definition fetch_blocks_only (from_block to_block : Z) : result DataSourceError (list Block) :=
  collect_result (fetch_block_only ds) (block_range from_block to_block).

(** The number of sub-ranges of a range. *)
Definition n_chunks (from_block to_block chunk_size : Z) : nat :=
  Z.to_nat ((to_block - from_block) / chunk_size + 1).

Definition fetch_logs_chunked (from_block to_block chunk_size : Z) : result DataSourceError (list Log) :=
  if (chunk_size =? 0)%Z || (u64_saturating_sub to_block from_block <? chunk_size)%Z
  then fetch_logs_for_range ds from_block to_block
  else
    let chunks := log_chunks (S (n_chunks from_block to_block chunk_size)) from_block to_block chunk_size in
    results ← collect_result (λ p, fetch_logs_for_range ds p.1 p.2) (unordered chunks);
    Ok (concat results).

(** [hashes().filter_map(|h| receipts_map.remove(&h).map(|r| (h, r))).collect()],
    with the map left behind. *)
Definition take_receipt (acc : gmap TxHash TransactionReceipt * gmap TxHash TransactionReceipt) (h : TxHash)
    : gmap TxHash TransactionReceipt * gmap TxHash TransactionReceipt :=
  match acc.2 !! h with
  | Some r => (<[h := r]> acc.1, delete h acc.2)
  | None => acc
  end.
Definition take_receipts (hashes : list TxHash) (receipts_map : gmap TxHash TransactionReceipt)
    : gmap TxHash TransactionReceipt * gmap TxHash TransactionReceipt :=
  foldl take_receipt (∅, receipts_map) hashes.

(** The loop that combines blocks with their logs and receipts. *)
Fixpoint combine_blocks (blocks : list Block) (logs_by_block : gmap Z (list Log))
    (receipts_map : gmap TxHash TransactionReceipt) : list BlockData :=
  match blocks with
  | [] => []
  | block :: blocks =>
      let block_num := block_number block in
      let logs := default [] (logs_by_block !! block_num) in
      let '(receipts, receipts_map) :=
        take_receipts (block_tx_hashes (block_transactions block)) receipts_map in
      BlockData_from_raw_data block receipts logs
        :: combine_blocks blocks (delete block_num logs_by_block) receipts_map
  end.

(** [buffered(n)] and [buffer_unordered(n)] have at most [n] requests in flight; with none
    they never yield, not even the end of the stream. *)
Definition in_flight {A} (concurrency : nat) (outcome : A) : option A :=
  match concurrency with 0 => None | _ => Some outcome end.

(** [fetch_blocks_concurrent], once its streams have ended. *)
Definition fetch_range (needs_receipts : bool) (from_block to_block : Z) (cfg : FetchConfig)
    : result DataSourceError (list BlockData) :=
  range_logs ← fetch_logs_chunked from_block to_block (fc_log_chunk_size cfg);
  blocks ← fetch_blocks_only from_block to_block;
  let logs_by_block := group_logs log_block_number range_logs in
  receipts_map ←
    (if needs_receipts then
       match blocks ≫= λ b, block_tx_hashes (block_transactions b) with
       | [] => Ok ∅
       | all_tx_hashes => fetch_receipts ds all_tx_hashes (fc_concurrency cfg)
       end
     else Ok ∅);
  Ok (sort_by_key (λ bd, block_number (bd_block bd)) (combine_blocks blocks logs_by_block receipts_map)).

(** [None] when it never returns. *)
Definition fetch_blocks_concurrent (needs_receipts : bool) (from_block to_block : Z) (cfg : FetchConfig)
    : option (result DataSourceError (list BlockData)) :=
  in_flight (fc_concurrency cfg) (fetch_range needs_receipts from_block to_block cfg).
End Fetch.

(** [concurrency: 0] is accepted by the configuration: no range is ever fetched, nor an
    error reported. *)
Lemma zero_concurrency_hangs `{CompletionOrder} ds needs from to log_chunk_size :
  fetch_blocks_concurrent ds needs from to (mkFetchConfig 0 log_chunk_size) = None.
Proof. done. Qed.

Lemma fetch_blocks_concurrent_Some `{CompletionOrder} ds needs from to cfg r :
  fetch_blocks_concurrent ds needs from to cfg = Some r ↔ 0 < fc_concurrency cfg ∧ fetch_range ds needs from to cfg = r.
Proof.
  unfold fetch_blocks_concurrent, in_flight. destruct (fc_concurrency cfg); split; [done|lia|..].
  - intros [= <-]. split; [lia|done].
  - by intros [_ ->].
Qed.

Lemma fetch_blocks_concurrent_returns `{CompletionOrder} ds needs from to cfg :
  0 < fc_concurrency cfg → fetch_blocks_concurrent ds needs from to cfg = Some (fetch_range ds needs from to cfg).
Proof. intros. by apply fetch_blocks_concurrent_Some. Qed.

(** ** The RPC source gives the interesting logs *)

Section RpcTheorems.
Context `{LogsBloom} `{CompletionOrder} (src : EvmRpcSource).

(** Documented behaviour of [eth_getLogs]: the topic filter keeps the logs whose
    first topic is one of the given ones. *)
Class NodeFilters (p : RpcProvider) : Prop :=
  get_logs_topics a b ts :
    get_logs p a b (Some ts) =
    (λ logs, filter (λ l, topic0_in (list_to_set ts) l = true) logs) <$> get_logs p a b None.

Lemma interests_elem reg v :
  v ∈ interests reg ↔ ∃ a, log_interests reg !! a = Some v.
Proof.
  unfold interests. rewrite list_elem_of_fmap. split.
  - intros ([a v'] & -> & Hv%elem_of_map_to_list). by exists a.
  - intros [a Ha%elem_of_map_to_list]. by exists (a, v).
Qed.

(** A topic filter admits every interesting log. *)
Lemma topic_filter_admits reg ts log :
  build_topic_filter reg = Some ts → is_log_interesting reg log = true →
  topic0_in (list_to_set ts) log = true.
Proof.
  unfold build_topic_filter. destruct (existsb _ _) eqn:Eb; [done|].
  case_bool_decide; [done|]. intros [= <-]. rewrite list_to_set_elements_L.
  unfold is_log_interesting, is_globally_monitored, topic0_in.
  destruct (log_interests reg !! log_address log) as [[sigs|]|] eqn:Ei.
  - destruct (head (log_topics log)) as [t|]; [|done]. rewrite !bool_decide_eq_true. intros Ht.
    apply elem_of_union_r, elem_of_union_list. exists sigs. split; [|done].
    apply list_elem_of_omap. exists (Some sigs). split; [|done]. apply interests_elem. by eexists.
  - exfalso. rewrite <- not_true_iff_false, existsb_exists in Eb. apply Eb. exists None.
    split; [|done]. apply list_elem_of_In, interests_elem. by eexists.
  - intros [_ Ht]%andb_true_iff. destruct (head (log_topics log)); [|done].
    rewrite !bool_decide_eq_true in *. set_solver.
Qed.

Lemma no_log_monitors_none reg log :
  no_log_monitors reg = true → is_log_interesting reg log = false.
Proof.
  unfold no_log_monitors, is_log_interesting, is_globally_monitored.
  intros [H1%bool_decide_eq_true H2%bool_decide_eq_true]%andb_true_iff.
  rewrite H1, lookup_empty. by rewrite bool_decide_true.
Qed.

Lemma filter_interesting_topics reg (logs : list Log) :
  filter (λ l, is_log_interesting reg l = true)
    (match build_topic_filter reg with
     | Some ts => filter (λ l, topic0_in (list_to_set ts) l = true) logs | None => logs end) =
  filter (λ l, is_log_interesting reg l = true) logs.
Proof.
  destruct (build_topic_filter reg) as [ts|] eqn:Et; [|done].
  rewrite list_filter_filter_l; [done|]. intros l Hl. by eapply topic_filter_admits.
Qed.

Lemma get_logs_filtered `{!NodeFilters (rpc_provider src)} a b all tf :
  get_logs (rpc_provider src) a b None = Ok all →
  fetch_logs_for_block_range src a b tf =
    Ok (match tf with
        | Some ts => filter (λ l, topic0_in (list_to_set ts) l = true) all | None => all end).
Proof.
  intros Hall. unfold fetch_logs_for_block_range. destruct tf as [ts|]; [|by rewrite Hall].
  by rewrite get_logs_topics, Hall.
Qed.

(** The range request returns exactly the logs of the range that interest some
    monitor, whether or not it could restrict the topics, and without any request
    when no monitor reads logs. *)
Theorem fetch_logs_for_range_interesting `{!NodeFilters (rpc_provider src)} a b all :
  get_logs (rpc_provider src) a b None = Ok all →
  fetch_logs_for_range (rpc_data_source src) a b =
    Ok (filter (λ l, is_log_interesting (rpc_registry src) l = true) all).
Proof.
  intros Hall. cbn. unfold rpc_fetch_logs_for_range.
  destruct (no_log_monitors (rpc_registry src)) eqn:En.
  - f_equal. symmetry. apply filter_none, Forall_forall. intros l _.
    by rewrite no_log_monitors_none.
  - rewrite (get_logs_filtered _ _ all) by done. cbn. f_equal. apply filter_interesting_topics.
Qed.

(** Bloom filters have no false negatives: the address and the topics of every
    log of the block are in the filter of its header. *)
Definition bloom_sound (bloom : Bytes) (all : list Log) : Prop :=
  ∀ l, l ∈ all → bloom_contains bloom (log_address l) = true ∧
    ∀ t, t ∈ log_topics l → bloom_contains bloom t = true.

Lemma existsb_elements (bloom : Bytes) (X : gset Z) t :
  t ∈ X → bloom_contains bloom t = true → existsb (bloom_contains bloom) (elements X) = true.
Proof.
  intros Ht Hb. apply existsb_exists. exists t. split; [|done].
  by apply list_elem_of_In, elem_of_elements.
Qed.

Lemma bloom_admits reg bloom all l :
  bloom_sound bloom all → l ∈ all → is_log_interesting reg l = true →
  might_contain_relevant_logs reg bloom = true.
Proof.
  intros Hbloom Hl Hi. destruct (Hbloom l Hl) as [Ha Ht].
  unfold might_contain_relevant_logs. apply orb_true_iff.
  unfold is_log_interesting, is_globally_monitored, topic0_in in Hi.
  destruct (log_interests reg !! log_address l) as [v|] eqn:Ei.
  - right. apply existsb_exists. exists (log_address l, v).
    split; [by apply list_elem_of_In, elem_of_map_to_list|]. cbn. rewrite Ha.
    destruct v as [sigs|]; [|done]. destruct (log_topics l) as [|t ts]; [done|]. cbn in Hi.
    apply bool_decide_eq_true in Hi. apply (existsb_elements _ _ t Hi), Ht. by left.
  - left. apply andb_true_iff in Hi as [_ Hi]. destruct (log_topics l) as [|t ts]; [done|]. cbn in Hi.
    apply bool_decide_eq_true in Hi. apply (existsb_elements _ _ t Hi), Ht. by left.
Qed.

(** C26: Skipping the log request of a block by its bloom filter, or restricting it by
    topics, loses no log a monitor asks for. *)
Theorem fetch_block_and_logs_complete `{!NodeFilters (rpc_provider src)} n block all :
  get_block_by_number (rpc_provider src) n = Ok (Some block) →
  get_logs (rpc_provider src) n n None = Ok all →
  bloom_sound (block_logs_bloom block) all →
  ∃ logs, fetch_block_and_logs src n = Ok (block, logs) ∧
    filter (λ l, is_log_interesting (rpc_registry src) l = true) logs =
    filter (λ l, is_log_interesting (rpc_registry src) l = true) all.
Proof.
  intros Hb Hall Hbloom. unfold fetch_block_and_logs, rpc_fetch_block_only. rewrite Hb. cbn.
  destruct (no_log_monitors (rpc_registry src)) eqn:En.
  - exists []. split; [done|]. symmetry. apply filter_none, Forall_forall. intros l _.
    by rewrite no_log_monitors_none.
  - destruct (might_contain_relevant_logs _ _) eqn:Em.
    + rewrite (get_logs_filtered _ _ all) by done. cbn. eexists. split; [done|].
      apply filter_interesting_topics.
    + exists []. split; [done|]. symmetry. apply filter_none, Forall_forall. intros l Hl Hi.
      by rewrite (bloom_admits _ _ all l) in Em.
Qed.
End RpcTheorems.

(** ** Sub-ranges *)

Section Chunks.
Context (to chunk_size : Z).
Hypotheses (Hc : (0 < chunk_size)%Z) (Hmax : (to + chunk_size ≤ u64_max)%Z).

Lemma log_chunks_unfold fuel start :
  (0 ≤ start)%Z →
  log_chunks (S fuel) start to chunk_size =
  if (start <=? to)%Z then
    (start, Z.min (start + chunk_size - 1) to) :: log_chunks fuel (start + chunk_size) to chunk_size
  else [].
Proof.
  intros Hs. cbn. destruct (Z.leb_spec start to); [|done].
  rewrite u64_add_small by (unfold_width; lia).
  by rewrite u64_sub_small by (unfold_width; lia).
Qed.

Lemma log_chunks_spec fuel start :
  (0 ≤ start)%Z → (to - start < Z.of_nat fuel * chunk_size)%Z →
  concat ((λ p, block_range p.1 p.2) <$> log_chunks fuel start to chunk_size) = block_range start to ∧
  Forall (λ p, (start ≤ p.1 ∧ p.1 ≤ p.2 ≤ to ∧ p.2 - p.1 < chunk_size)%Z) (log_chunks fuel start to chunk_size).
Proof.
  revert start. induction fuel as [|fuel IH]; intros start Hs Hf.
  - cbn. unfold block_range. rewrite seqZ_nil by lia. done.
  - rewrite Nat2Z.inj_succ, Z.mul_succ_l in Hf.
    rewrite log_chunks_unfold by done. destruct (Z.leb_spec start to) as [Hle|Hgt].
    + destruct (IH (start + chunk_size)%Z) as [IH1 IH2]; [lia..|].
      rewrite fmap_cons. cbn [concat fst snd]. rewrite IH1. split.
      * unfold block_range.
        destruct (Z.min_spec (start + chunk_size - 1) to) as [[? ->]|[? ->]].
        -- replace (to - start + 1)%Z with (chunk_size + (to - (start + chunk_size) + 1))%Z by lia.
           replace (start + chunk_size - 1 - start + 1)%Z with chunk_size by lia.
           by rewrite (seqZ_app start chunk_size) by lia.
        -- rewrite (seqZ_nil (start + chunk_size)) by lia. by rewrite app_nil_r.
      * constructor; [cbn; lia|]. eapply Forall_impl; [exact IH2|]. cbn. intros p. lia.
    + unfold block_range. rewrite seqZ_nil by lia. done.
Qed.

Definition in_chunk (n : Z) (p : Z * Z) : Prop := (p.1 ≤ n ≤ p.2)%Z.
#[export] Instance in_chunk_dec n p : Decision (in_chunk n p).
Proof. unfold in_chunk. apply _. Defined.

(** Every block of the range is in one sub-range. *)
Lemma log_chunks_once fuel start n :
  (0 ≤ start)%Z → (to - start < Z.of_nat fuel * chunk_size)%Z → (start ≤ n ≤ to)%Z →
  length (filter (in_chunk n) (log_chunks fuel start to chunk_size)) = 1.
Proof.
  revert start. induction fuel as [|fuel IH]; intros start Hs Hf Hn; [lia|].
  rewrite Nat2Z.inj_succ, Z.mul_succ_l in Hf.
  rewrite log_chunks_unfold by done. destruct (Z.leb_spec start to) as [Hle|]; [|lia].
  rewrite filter_cons. unfold in_chunk at 1. cbn [fst snd]. case_decide as Hin.
  - cbn. f_equal. destruct (log_chunks_spec fuel (start + chunk_size)) as [_ Hall]; [lia..|].
    rewrite filter_none; [done|]. eapply Forall_impl; [exact Hall|]. unfold in_chunk. cbn. intros p. lia.
  - apply IH; lia.
Qed.
End Chunks.

(** ** The concurrent fetch is the sequential one *)

Lemma insert_by_sorted {A} (key : A → Z) a l :
  Forall (λ b, (key a ≤ key b)%Z) l → insert_by key a l = a :: l.
Proof. destruct 1 as [|b l Hb _]; [done|]. cbn. by rewrite (proj2 (Z.leb_le _ _) Hb). Qed.

Lemma sort_by_key_sorted {A} (key : A → Z) l :
  StronglySorted (λ a b, (key a ≤ key b)%Z) l → sort_by_key key l = l.
Proof.
  induction 1 as [|a l _ IH Ha]; [done|]. unfold sort_by_key in *. cbn. rewrite IH.
  by apply insert_by_sorted.
Qed.

Lemma block_range_sorted {A} (f : Z → A) (key : A → Z) from to :
  (∀ n, (from ≤ n ≤ to)%Z → key (f n) = n) →
  StronglySorted (λ a b, (key a ≤ key b)%Z) (f <$> block_range from to).
Proof.
  intros Hk. unfold block_range. remember (Z.to_nat (to - from + 1)) as k eqn:Ek.
  revert from Hk Ek. induction k as [|k IH]; intros from Hk Ek.
  - rewrite seqZ_nil by lia. constructor.
  - rewrite seqZ_cons by lia. cbn. replace (Z.pred (to - from + 1)) with (to - Z.succ from + 1)%Z by lia.
    constructor; [apply IH; [intros; apply Hk; lia|lia]|].
    apply Forall_fmap, Forall_forall. intros n Hn%elem_of_seqZ. cbn. rewrite !Hk by lia. lia.
Qed.

Lemma concat_map_once {A B} (P : A → Prop) `{∀ a, Decision (P a)} (f : A → list B) X cs :
  (∀ a, f a = if decide (P a) then X else []) → length (filter P cs) = 1 → concat (f <$> cs) = X.
Proof.
  intros Hf. assert (∀ cs, length (filter P cs) = 0 → concat (f <$> cs) = []) as H0.
  { clear cs. induction cs as [|a cs IH]; [done|]. rewrite filter_cons, fmap_cons. cbn.
    rewrite Hf. case_decide; [done|]. exact IH. }
  induction cs as [|a cs IH]; [done|]. rewrite filter_cons, fmap_cons. cbn. rewrite Hf.
  case_decide; cbn; [intros [= E]; by rewrite H0, app_nil_r|exact IH].
Qed.

Lemma filter_concat {A} (P : A → Prop) `{∀ a, Decision (P a)} ls :
  filter P (concat ls) = concat (filter P <$> ls).
Proof. induction ls as [|l ls IH]; [done|]. cbn. by rewrite filter_app, IH. Qed.

Lemma collect_result_fmap {E A B} (f : A → B) (g : A → result E B) l :
  (∀ a, a ∈ l → g a = Ok (f a)) → collect_result g l = Ok (f <$> l).
Proof.
  induction l as [|a l IH]; intros Hg; cbn; [done|].
  rewrite (Hg a) by left. cbn. rewrite IH by (intros; apply Hg; by right). done.
Qed.

Section FetchTheorems.
Context `{CompletionOrder} (ds : DataSource).

(** The chain between two heights: its blocks, its logs in order, its receipts. *)
Context (from to : Z) (chain : Z → Block) (logs : list Log) (receipts : gmap TxHash TransactionReceipt).

Definition in_range (a b : Z) (l : Log) : Prop :=
  match log_block_number l with Some n => (a ≤ n ≤ b)%Z | None => False end.
#[export] Instance in_range_dec a b l : Decision (in_range a b l).
Proof. unfold in_range. destruct (log_block_number l); apply _. Defined.

(** A data source that answers consistently about that chain. *)
Record serves : Prop := {
  serves_block n : (from ≤ n ≤ to)%Z → fetch_block_only ds n = Ok (chain n) ∧ block_number (chain n) = n;
  serves_logs a b : (from ≤ a)%Z → (b ≤ to)%Z → fetch_logs_for_range ds a b = Ok (filter (in_range a b) logs);
  serves_receipts hs c : fetch_receipts ds hs c = Ok (filter (λ p, p.1 ∈ hs) receipts)
}.

Definition hashes_of (b : Block) : list TxHash := block_tx_hashes (block_transactions b).
Definition logs_of_block (n : Z) : list Log := filter (λ l, log_block_number l = Some n) logs.

(** What a sequential fetch of one block gives. *)
Definition block_data_of (needs_receipts : bool) (n : Z) : BlockData :=
  BlockData_from_raw_data (chain n)
    (if needs_receipts then filter (λ p, p.1 ∈ hashes_of (chain n)) receipts else ∅) (logs_of_block n).

Lemma fetch_logs_chunked_spec chunk :
  serves → is_u64 from → (0 ≤ chunk)%Z → (to + chunk ≤ u64_max)%Z →
  ∃ ls, fetch_logs_chunked ds from to chunk = Ok ls ∧
    ∀ n, (from ≤ n ≤ to)%Z → filter (λ l, log_block_number l = Some n) ls = logs_of_block n.
Proof.
  intros Hs [Hf _] Hc Hmax. unfold fetch_logs_chunked.
  assert (∀ a b n, (a ≤ n ≤ b)%Z →
    filter (λ l, log_block_number l = Some n) (filter (in_range a b) logs) = logs_of_block n) as Hin.
  { intros a b n Hn. apply list_filter_filter_l. intros l Hl. unfold in_range. by rewrite Hl. }
  destruct (Z.eqb_spec chunk 0) as [|Hne]; cbn [orb];
    [|destruct (Z.ltb_spec (u64_saturating_sub to from) chunk) as [|Hge]].
  - rewrite (serves_logs Hs) by lia. eauto.
  - rewrite (serves_logs Hs) by lia. eauto.
  - set (cs := log_chunks _ _ _ _).
    assert (to - from < Z.of_nat (S (n_chunks from to chunk)) * chunk)%Z as Hfuel.
    { unfold n_chunks. unfold u64_saturating_sub in Hge.
      pose proof (Z.mul_succ_div_gt (to - from) chunk ltac:(lia)).
      assert (0 ≤ (to - from) / chunk)%Z by (apply Z.div_pos; lia). nia. }
    destruct (log_chunks_spec to chunk ltac:(lia) Hmax _ from ltac:(lia) Hfuel) as [_ Hall].
    fold cs in Hall.
    assert (∀ n, (from ≤ n ≤ to)%Z → length (filter (in_chunk n) cs) = 1) as Honce
      by (intros n Hn; apply log_chunks_once; [lia|done|lia..]).
    clearbody cs.
    rewrite (collect_result_fmap (λ p, filter (in_range p.1 p.2) logs)).
    + cbn. eexists. split; [done|]. intros n Hn. rewrite filter_concat, <- list_fmap_compose.
      apply (concat_map_once (in_chunk n)).
      * intros [a b]. cbn. unfold in_chunk. cbn. case_decide; [by apply Hin|].
        apply filter_none, Forall_forall. intros l [Hl _]%list_elem_of_filter E.
        unfold in_range in Hl. by rewrite E in Hl.
      * pose proof (unordered_perm cs) as Hperm. apply (filter_Permutation (in_chunk n)) in Hperm.
        rewrite (Permutation_length Hperm). by apply Honce.
    + intros p Hp. rewrite (unordered_perm cs) in Hp. rewrite Forall_forall in Hall.
      apply (serves_logs Hs); specialize (Hall p Hp); lia.
Qed.

Lemma take_receipts_lookup hs acc i :
  (foldl take_receipt acc hs).1 !! i =
    (if decide (i ∈ hs) then match acc.2 !! i with Some r => Some r | None => acc.1 !! i end
     else acc.1 !! i) ∧
  (foldl take_receipt acc hs).2 !! i = (if decide (i ∈ hs) then None else acc.2 !! i).
Proof.
  revert acc. induction hs as [|h hs IH]; intros [got rest]; cbn [foldl fst snd].
  - by rewrite !decide_False by apply not_elem_of_nil.
  - destruct (IH (take_receipt (got, rest) h)) as [-> ->]. clear IH.
    unfold take_receipt. cbn [fst snd].
    destruct (rest !! h) as [r|] eqn:Eh; cbn [fst snd];
      destruct (decide (i = h)) as [->|Hne];
      rewrite ?lookup_insert_eq, ?lookup_delete_eq, ?Eh, ?lookup_insert_ne, ?lookup_delete_ne by done;
      repeat case_decide; set_solver.
Qed.

Lemma take_receipts_spec hs rm :
  (take_receipts hs rm).1 = filter (λ p, p.1 ∈ hs) rm ∧
  (take_receipts hs rm).2 = filter (λ p, p.1 ∉ hs) rm.
Proof.
  unfold take_receipts. split; apply map_eq; intros i.
  - rewrite (proj1 (take_receipts_lookup hs (∅, rm) i)). cbn. rewrite map_lookup_filter, lookup_empty.
    destruct (rm !! i); cbn; repeat case_decide; try done; by rewrite ?option_guard_True, ?option_guard_False.
  - rewrite (proj2 (take_receipts_lookup hs (∅, rm) i)). cbn. rewrite map_lookup_filter.
    destruct (rm !! i); cbn; repeat case_decide; try done; by rewrite ?option_guard_True, ?option_guard_False by tauto.
Qed.

Lemma combine_blocks_spec needs ns lg rm :
  NoDup ns → NoDup (ns ≫= λ n, hashes_of (chain n)) ∨ rm = ∅ →
  (∀ n, n ∈ ns → block_number (chain n) = n) →
  (∀ n, n ∈ ns → default [] (lg !! n) = logs_of_block n) →
  (∀ n, n ∈ ns → filter (λ p, p.1 ∈ hashes_of (chain n)) rm =
     if needs : bool then filter (λ p, p.1 ∈ hashes_of (chain n)) receipts else ∅) →
  combine_blocks (chain <$> ns) lg rm = block_data_of needs <$> ns.
Proof.
  intros Hnd. revert lg rm. induction Hnd as [|n ns Hn Hnd IH]; intros lg rm Hh Hnum Hlg Hrm; [done|].
  rewrite !fmap_cons. cbn [combine_blocks]. rewrite (Hnum n) by left.
  destruct (take_receipts_spec (block_tx_hashes (block_transactions (chain n))) rm) as [Eg Er].
  destruct (take_receipts _ rm) as [got rest]. cbn in Eg, Er. subst. f_equal.
  - unfold block_data_of. rewrite (Hlg n) by left. f_equal. apply Hrm. by left.
  - apply IH.
    + destruct Hh as [Hh| ->]; [left|right; apply map_filter_empty]. cbn in Hh. by apply NoDup_app in Hh as (_ & _ & ?).
    + intros m Hm. apply Hnum. by right.
    + intros m Hm. rewrite lookup_delete_ne by (intros ->; done). apply Hlg. by right.
    + intros m Hm. rewrite <- Hrm by by right. apply map_eq. intros h. rewrite !map_lookup_filter.
      destruct (rm !! h) as [r|] eqn:Erm; cbn; [|done].
      destruct Hh as [Hh| ->]; [|by rewrite lookup_empty in Erm].
      cbn in Hh. apply NoDup_app in Hh as (_ & Hd & _).
      repeat (case_guard; cbn in *); try done. destruct (Hd h); [tauto|].
      apply list_elem_of_bind. by exists m.
Qed.

Lemma fetch_range_spec needs cfg :
  serves → is_u64 from → (0 ≤ fc_log_chunk_size cfg)%Z → (to + fc_log_chunk_size cfg ≤ u64_max)%Z →
  NoDup (block_range from to ≫= λ n, hashes_of (chain n)) →
  fetch_range ds needs from to cfg = Ok (block_data_of needs <$> block_range from to).
Proof.
  intros Hs Hf Hc Hmax Hnd. unfold fetch_range.
  destruct (fetch_logs_chunked_spec (fc_log_chunk_size cfg) Hs Hf Hc Hmax) as (ls & -> & Hls).
  cbn [mbind result_bind]. unfold fetch_blocks_only.
  assert (∀ n, n ∈ block_range from to → (from ≤ n ≤ to)%Z) as Hrange
    by (intros n Hn%elem_of_seqZ; lia).
  rewrite (collect_result_fmap chain) by (intros; by apply (serves_block Hs), Hrange).
  cbn [mbind result_bind].
  set (all_hashes := (chain <$> block_range from to) ≫= λ b, block_tx_hashes (block_transactions b)).
  assert (∃ rm', (if needs then match all_hashes with [] => Ok ∅ | h :: hs => fetch_receipts ds (h :: hs) (fc_concurrency cfg) end
                  else Ok ∅) = Ok rm' ∧
    ∀ n, n ∈ block_range from to → filter (λ p, p.1 ∈ hashes_of (chain n)) rm' =
     if needs then filter (λ p, p.1 ∈ hashes_of (chain n)) receipts else ∅) as (rm' & -> & Hrm').
  { destruct needs; [|exists ∅; split; [done|intros; apply map_filter_empty]].
    assert (∀ n, n ∈ block_range from to → filter (λ p, p.1 ∈ hashes_of (chain n))
      (filter (λ p, p.1 ∈ all_hashes) receipts) = filter (λ p, p.1 ∈ hashes_of (chain n)) receipts) as Hsub.
    { intros n Hn. apply map_filter_filter_l. intros h r _ Hh. cbn in *.
      apply list_elem_of_bind. exists (chain n). split; [done|]. by apply list_elem_of_fmap_2. }
    destruct all_hashes as [|h hs]; [|rewrite (serves_receipts Hs); by eexists].
    exists ∅. split; [done|]. intros n Hn. rewrite <- (Hsub n Hn), map_filter_empty. symmetry.
    apply map_empty. intros h. rewrite !map_lookup_filter.
    destruct (receipts !! h); cbn; [|done].
    repeat (case_guard; cbn in *); try done; exfalso; by eapply not_elem_of_nil. }
  cbn [mbind result_bind]. f_equal.
  rewrite (combine_blocks_spec needs); [|apply NoDup_seqZ|by left| | |done].
  - apply sort_by_key_sorted, block_range_sorted. intros n Hn. cbn. by apply (serves_block Hs).
  - intros n Hn. by apply (serves_block Hs), Hrange.
  - intros n Hn. rewrite group_logs_lookup. by apply Hls, Hrange.
Qed.

Lemma fetch_blocks_concurrent_spec needs cfg :
  0 < fc_concurrency cfg →
  serves → is_u64 from → (0 ≤ fc_log_chunk_size cfg)%Z → (to + fc_log_chunk_size cfg ≤ u64_max)%Z →
  NoDup (block_range from to ≫= λ n, hashes_of (chain n)) →
  fetch_blocks_concurrent ds needs from to cfg = Some (Ok (block_data_of needs <$> block_range from to)).
Proof.
  intros Hpos Hs Hf Hc Hmax Hnd. by rewrite fetch_blocks_concurrent_returns, fetch_range_spec.
Qed.

(** C9: Over a data source that answers consistently about a chain, the concurrent
    fetch of a range returns, and exactly what fetching its blocks one by one would, in
    block order, for every chunk size, positive concurrency and completion order: no log
    or receipt is lost, repeated, or given to another block. *)
Theorem fetch_blocks_concurrent_correct needs cfg :
  0 < fc_concurrency cfg →
  serves → is_u64 from → (0 ≤ fc_log_chunk_size cfg)%Z → (to + fc_log_chunk_size cfg ≤ u64_max)%Z →
  NoDup (block_range from to ≫= λ n, hashes_of (chain n)) →
  fetch_blocks_concurrent ds needs from to cfg = Some (Ok (block_data_of needs <$> block_range from to)).
Proof. apply fetch_blocks_concurrent_spec. Qed.
End FetchTheorems.

(** ** Parts of a chain, and honest sources *)

Lemma serves_sub ds from to from' to' chain logs receipts :
  (from ≤ from')%Z → (to' ≤ to)%Z → serves ds from to chain logs receipts →
  serves ds from' to' chain logs receipts.
Proof.
  intros Hf Ht Hs. split.
  - intros n Hn. apply (serves_block _ _ _ _ _ _ Hs). lia.
  - intros a b Ha Hb. apply (serves_logs _ _ _ _ _ _ Hs); lia.
  - apply (serves_receipts _ _ _ _ _ _ Hs).
Qed.

Lemma block_range_app from mid to :
  (from ≤ mid + 1)%Z → (mid ≤ to)%Z → block_range from to = block_range from mid ++ block_range (mid + 1) to.
Proof.
  intros. unfold block_range. replace (to - from + 1)%Z with ((mid - from + 1) + (to - mid))%Z by lia.
  rewrite seqZ_app by lia. repeat (f_equal; try lia).
Qed.

Lemma block_range_one n : block_range n n = [n].
Proof. unfold block_range. rewrite seqZ_cons by lia. f_equal. apply seqZ_nil. lia. Qed.

Lemma last_block_range from to : (from ≤ to)%Z → last (block_range from to) = Some to.
Proof.
  intros. rewrite (block_range_app from (to - 1) to) by lia.
  replace (to - 1 + 1)%Z with to by lia. by rewrite block_range_one, last_snoc.
Qed.

Lemma block_range_nil from to : (to < from)%Z → block_range from to = [].
Proof. intros. unfold block_range. apply seqZ_nil. lia. Qed.

(** A source that answers a request for a block with that block, or fails. *)
Definition honest (ds : DataSource) : Prop :=
  ∀ n b, fetch_block_only ds n = Ok b → block_number b = n.

Definition bd_number (bd : BlockData) : Z := block_number (bd_block bd).

Lemma combine_blocks_numbers blocks lg rm :
  bd_number <$> combine_blocks blocks lg rm = block_number <$> blocks.
Proof.
  revert lg rm. induction blocks as [|b blocks IH]; intros lg rm; [done|]. cbn [combine_blocks].
  destruct (take_receipts _ rm) as [got rest]. cbn. by rewrite IH.
Qed.

Lemma StronglySorted_key {A} (key : A → Z) l :
  StronglySorted Z.le (key <$> l) → StronglySorted (λ a b, (key a ≤ key b)%Z) l.
Proof.
  induction l as [|a l IH]; cbn; [constructor|]. inversion 1; subst.
  constructor; [by apply IH|]. by rewrite <- (Forall_fmap key (Z.le (key a))).
Qed.

(** A successful fetch of a range gives each of its blocks once, in order. *)
Lemma fetch_blocks_concurrent_numbers `{CompletionOrder} ds needs from to cfg l :
  honest ds → fetch_blocks_concurrent ds needs from to cfg = Some (Ok l) → bd_number <$> l = block_range from to.
Proof.
  intros Hh [_ Hf]%fetch_blocks_concurrent_Some. unfold fetch_range, fetch_blocks_only in Hf. inv_ok.
  match goal with H : collect_result _ _ = Ok ?bs |- _ => rename bs into blocks; apply collect_result_Ok in H as Hb end.
  assert (block_number <$> blocks = block_range from to) as Hn.
  { clear -Hb Hh. revert Hb. generalize (block_range from to). clear from to.
    induction 1 as [|n b ns bs Hn _ IH]; [done|]. cbn. f_equal; [by apply Hh|done]. }
  rewrite sort_by_key_sorted; [by rewrite combine_blocks_numbers|].
  apply StronglySorted_key. change (λ a, block_number (bd_block a)) with bd_number.
  rewrite combine_blocks_numbers, Hn. pose proof (block_range_sorted id id from to (λ n _, eq_refl)) as Hs.
  by rewrite list_fmap_id in Hs.
Qed.

(** ** A concrete chain *)

Module ProvidersDemo.
#[export] Instance demo_bloom : LogsBloom :=
  {| bloom_contains bloom t := existsb (λ b, (Z.of_N (Byte.to_N b) =? t mod 256)%Z) bloom |}.
(** Requests complete in the reverse order. *)
#[export] Instance demo_order : CompletionOrder := {|
  unordered A l := rev l;
  unordered_perm A l := symmetry (Permutation_rev l)
|}.

Definition demo_log (block address topic hash index : Z) : Log :=
  mkLog address [topic] [] None (Some block) (Some hash) (Some 0%Z) (Some index) false.
Definition demo_logs : list Log :=
  [demo_log 10 1 50 100 0; demo_log 11 2 51 110 0; demo_log 11 1 51 110 1; demo_log 14 1 50 140 0]%Z.
Definition demo_block (n : Z) : Block := mkBlock n (1000 + n) [Byte.x01; Byte.x02; Byte.x32; Byte.x33] (HashesOnly [10 * n]%Z).
Definition demo_receipts : gmap TxHash TransactionReceipt :=
  {[100%Z := mkReceipt 21000 true 7; 140%Z := mkReceipt 30000 false 8]}.

Definition demo_ds : DataSource := {|
  fetch_block_core_data n := Ok (demo_block n, filter (in_range n n) demo_logs);
  fetch_block_only n := Ok (demo_block n);
  fetch_logs_for_range a b := Ok (filter (in_range a b) demo_logs);
  get_current_block_number := Ok 14%Z;
  fetch_receipts hs _ := Ok (filter (λ p, p.1 ∈ hs) demo_receipts)
|}.

Lemma demo_serves : serves demo_ds 10 14 demo_block demo_logs demo_receipts.
Proof. split; intros; try split; reflexivity. Qed.

Definition demo_provider : RpcProvider := {|
  get_block_by_number n := Ok (Some (demo_block n));
  get_logs a b ts :=
    let ls := filter (in_range a b) demo_logs in
    Ok (match ts with Some ts => filter (λ l, topic0_in (list_to_set ts) l = true) ls | None => ls end);
  get_transaction_receipt h := Ok (demo_receipts !! h);
  get_block_number := Ok 14%Z
|}.
#[export] Instance demo_node : NodeFilters demo_provider.
Proof. intros a b ts. reflexivity. Defined.

(** Address 1 in precise mode for topic 50. *)
Definition demo_registry : InterestRegistry := mkRegistry {[1%Z := Some {[50%Z]}]} ∅ ∅.
Definition demo_source : EvmRpcSource := mkRpcSource demo_provider demo_registry.
End ProvidersDemo.
Import ProvidersDemo.

Lemma fetch_blocks_concurrent_correct_witness :
  fetch_blocks_concurrent demo_ds true 10 14 (mkFetchConfig 4 2) =
  Some (Ok (block_data_of demo_block demo_logs demo_receipts true <$> block_range 10 14)).
Proof.
  apply (fetch_blocks_concurrent_correct demo_ds 10 14 demo_block demo_logs demo_receipts true (mkFetchConfig 4 2)).
  - apply Nat.lt_0_succ.
  - apply demo_serves.
  - vm_compute. split; discriminate.
  - vm_compute. discriminate.
  - vm_compute. discriminate.
  - apply (bool_decide_unpack (NoDup _)). vm_compute. exact I.
Defined.

Lemma fetch_logs_for_range_interesting_witness :
  fetch_logs_for_range (rpc_data_source demo_source) 10 14 =
  Ok [demo_log 10 1 50 100 0; demo_log 14 1 50 140 0]%Z.
Proof.
  rewrite (fetch_logs_for_range_interesting demo_source 10 14 demo_logs); [vm_compute; reflexivity|].
  vm_compute; reflexivity.
Defined.

Lemma fetch_block_and_logs_complete_witness :
  ∃ logs, fetch_block_and_logs demo_source 11 = Ok (demo_block 11, logs) ∧
    filter (λ l, is_log_interesting demo_registry l = true) logs =
    filter (λ l, is_log_interesting demo_registry l = true) (filter (in_range 11 11) demo_logs).
Proof.
  apply (fetch_block_and_logs_complete demo_source 11 (demo_block 11) (filter (in_range 11 11) demo_logs)).
  - reflexivity.
  - reflexivity.
  - intros l Hl. apply list_elem_of_In in Hl. cbv in Hl.
    destruct Hl as [<-|[<-|[]]]; (split; [reflexivity|]); intros t Ht%list_elem_of_In;
      destruct Ht as [<-|[]]; reflexivity.
Defined.
