(* ===== verification/Interfaces.v ===== *)
(** * What the services expect of the repositories

    The parts of the [AppRepository] and [KeyValueStore] traits
    ([crates/argus-core/src/persistence/traits.rs]) the engine's services use,
    as classes of operations, each with the class of laws its clients rely on:
    an abstract view of the store and the effect of each operation on it, a
    failing operation leaving the view as it was.  [Store.v] gives the
    instances. *)
From S2P Require Import Prelude Models MonitorMatch.

(** ** The progress of a network *)

Class BlockStateRepository (S : Type) := {
  get_last_processed_block : NetworkId → eff S PersistenceError (option Z);
  set_last_processed_block : NetworkId → Z → eff S PersistenceError unit
}.

Class BlockStateLaws (S : Type) `{BlockStateRepository S} := {
  last_block : S → NetworkId → option Z;
  get_last_block_view n s r s' :
    get_last_processed_block n s = (r, s') →
    last_block s' = last_block s ∧ (∀ o, r = Ok o → o = last_block s n);
  set_last_block_view n b s r s' :
    set_last_processed_block n b s = (r, s') →
    match r with
    | Ok _ => last_block s' n = Some b ∧ ∀ n', n' ≠ n → last_block s' n' = last_block s n'
    | Err _ => last_block s' = last_block s
    end
}.

(** ** The outbox *)

Record OutboxItem := mkOutboxItem {
  oi_id : Z;
  oi_action_name : string;
  oi_payload : ActionPayload;
  oi_retries : Z
}.

Class OutboxRepository (S : Type) := {
  enqueue_outbox_batch : list (string * ActionPayload) → eff S PersistenceError unit;
  get_pending_outbox : Z → eff S PersistenceError (list OutboxItem);
  delete_outbox_items_batch : list Z → eff S PersistenceError unit;
  increment_outbox_retries : Z → eff S PersistenceError unit
}.

Section outbox_view.
Context `{DefaultHasher}.

Definition item_key (i : OutboxItem) : string := idempotency_key (oi_payload i).
Definition content (i : OutboxItem) : string * ActionPayload := (oi_action_name i, oi_payload i).

(** Enqueuing one item: dropped when its idempotency key is already there. *)
Definition insert_new (acc : list (string * ActionPayload)) (it : string * ActionPayload)
    : list (string * ActionPayload) :=
  if decide (idempotency_key it.2 ∈ (λ p, idempotency_key p.2) <$> acc) then acc else acc ++ [it].

(** A retry counted for the item [id]. *)
Definition retried (id : Z) (i : OutboxItem) : OutboxItem :=
  if decide (oi_id i = id)
  then mkOutboxItem (oi_id i) (oi_action_name i) (oi_payload i) (oi_retries i + 1)
  else i.
End outbox_view.

Section insert_new_lemmas.
Context `{DefaultHasher}.
Implicit Types (acc items : list (string * ActionPayload)).

Notation keys l := ((λ p, idempotency_key p.2) <$> l).

Lemma insert_new_prefix items acc : acc `prefix_of` foldl insert_new acc items.
Proof.
  revert acc. induction items as [|it items IH]; intros acc; cbn; [done|].
  etrans; [|apply IH]. unfold insert_new. case_decide; [done|]. by apply prefix_app_r.
Qed.

(** Every key given is there afterwards. *)
Lemma insert_new_keys items acc k :
  k ∈ keys (foldl insert_new acc items) ↔ k ∈ keys acc ∨ k ∈ keys items.
Proof.
  revert acc. induction items as [|it items IH]; intros acc; cbn; [set_solver|].
  rewrite IH. unfold insert_new. case_decide as Hd; [set_solver|].
  rewrite fmap_app. set_solver.
Qed.

Lemma insert_new_elem items acc p : p ∈ foldl insert_new acc items → p ∈ acc ∨ p ∈ items.
Proof.
  revert acc. induction items as [|it items IH]; intros acc; cbn; [tauto|].
  intros [Hp|Hp]%IH; [|set_solver]. revert Hp. unfold insert_new. case_decide; set_solver.
Qed.

Lemma insert_new_NoDup items acc : NoDup (keys acc) → NoDup (keys (foldl insert_new acc items)).
Proof.
  revert acc. induction items as [|it items IH]; intros acc Hnd; cbn; [done|]. apply IH.
  unfold insert_new. case_decide; [done|]. rewrite fmap_app. apply NoDup_app.
  split_and!; [done| |apply NoDup_singleton]. intros k Hk Hk'. cbn in Hk'. set_solver.
Qed.
End insert_new_lemmas.

(** The view is the list of the items in the order of their identifiers; the
    identifiers and the idempotency keys are distinct in every consistent store. *)
Class OutboxLaws (S : Type) `{DefaultHasher} `{OutboxRepository S} := {
  outbox : S → list OutboxItem;
  outbox_ok : S → Prop;
  outbox_ids s : outbox_ok s → NoDup (oi_id <$> outbox s);
  outbox_keys s : outbox_ok s → NoDup (item_key <$> outbox s);
  enqueue_view items s r s' :
    outbox_ok s → enqueue_outbox_batch items s = (r, s') →
    outbox_ok s' ∧
    match r with
    | Err _ => outbox s' = outbox s
    | Ok _ =>
        ∃ added, outbox s' = outbox s ++ added ∧ Forall (λ i, oi_retries i = 0%Z) added ∧
          content <$> outbox s' = foldl insert_new (content <$> outbox s) items
    end;
  pending_view limit s r s' :
    outbox_ok s → get_pending_outbox limit s = (r, s') →
    outbox_ok s' ∧ outbox s' = outbox s ∧
    (∀ l, r = Ok l → (0 ≤ limit)%Z → l = take (Z.to_nat limit) (outbox s));
  delete_view ids s r s' :
    outbox_ok s → delete_outbox_items_batch ids s = (r, s') →
    outbox_ok s' ∧
    outbox s' = match r with
                | Ok _ => filter (λ i, oi_id i ∉ ids) (outbox s)
                | Err _ => outbox s
                end;
  increment_view id s r s' :
    outbox_ok s → increment_outbox_retries id s = (r, s') →
    outbox_ok s' ∧
    outbox s' = match r with Ok _ => retried id <$> outbox s | Err _ => outbox s end
}.

(** ** JSON states *)

(** [serde_json::to_string] and [from_str] at a type. *)
Class Serde (T : Type) := {
  to_string : T → result string string;
  from_str : string → result string T
}.
(** What is written can be read back. *)
Class SerdeLaws (T : Type) `{Serde T} :=
  from_to_string (v : T) (s : string) : to_string v = Ok s → from_str s = Ok v.

Class KeyValueStore (S : Type) := {
  get_json_state : ∀ {T} `{Serde T}, string → eff S PersistenceError (option T);
  set_json_state : ∀ {T} `{Serde T}, string → T → eff S PersistenceError unit;
  get_all_json_states_by_prefix : ∀ {T} `{Serde T}, string → eff S PersistenceError (list (string * T))
}.

(** The view is the JSON text of each key.  A prefix query lists at least the
    keys with that prefix. *)
Class KeyValueLaws (S : Type) `{KeyValueStore S} := {
  kv : S → gmap string string;
  get_json_view {T} `{Serde T} k s r s' :
    get_json_state k s = (r, s') →
    kv s' = kv s ∧
    ∀ o : option T, r = Ok o →
      match kv s !! k with None => o = None | Some str => ∃ v, o = Some v ∧ from_str str = Ok v end;
  set_json_view {T} `{Serde T} k (v : T) s r s' :
    set_json_state k v s = (r, s') →
    match r with
    | Ok _ => ∃ str, to_string v = Ok str ∧ kv s' = <[k := str]> (kv s)
    | Err _ => kv s' = kv s
    end;
  prefix_view {T} `{Serde T} p s r s' :
    get_all_json_states_by_prefix p s = (r, s') →
    kv s' = kv s ∧
    ∀ l : list (string * T), r = Ok l → NoDup l.*1 ∧
      (∀ k v, (k, v) ∈ l → ∃ str, kv s !! k = Some str ∧ from_str str = Ok v) ∧
      (∀ k, is_Some (kv s !! k) → String.prefix p k = true → k ∈ l.*1)
}.

(** The two views are independent. *)
Class AlertStoreLaws (S : Type) `{OutboxLaws S} `{KeyValueLaws S} := {
  enqueue_kv items s : kv (enqueue_outbox_batch items s).2 = kv s;
  set_json_outbox {T} `{Serde T} k (v : T) s :
    outbox_ok s → outbox_ok (set_json_state k v s).2 ∧ outbox (set_json_state k v s).2 = outbox s
}.

(** ** A serialisation that can be run, for the witnesses

    Values of a countable type are written as the binary digits of their code. *)

Module SerdeDemo.
Fixpoint json_tree (j : Json) : gen_tree (bool + Z + string) :=
  match j with
  | JNull => GenNode 0 []
  | JBool b => GenLeaf (inl (inl b))
  | JNumber z => GenLeaf (inl (inr z))
  | JString s => GenLeaf (inr s)
  | JArray l => GenNode 1 (json_tree <$> l)
  | JObject m => GenNode 2 ((λ p, GenNode 3 [GenLeaf (inr p.1); json_tree p.2]) <$> m)
  end.
Fixpoint tree_json (t : gen_tree (bool + Z + string)) : Json :=
  match t with
  | GenLeaf (inl (inl b)) => JBool b
  | GenLeaf (inl (inr z)) => JNumber z
  | GenLeaf (inr s) => JString s
  | GenNode 1 l => JArray (tree_json <$> l)
  | GenNode 2 l =>
      JObject ((λ t, match t with
                     | GenNode _ [GenLeaf (inr k); v] => (k, tree_json v)
                     | _ => (EmptyString, JNull)
                     end) <$> l)
  | _ => JNull
  end.

Lemma tree_json_tree j : tree_json (json_tree j) = j.
Proof.
  revert j. fix IH 1. intros [|b|z|s|l|m]; cbn; try reflexivity; f_equal.
  - induction l as [|j l IHl]; cbn; [reflexivity|]. f_equal; [apply IH|exact IHl].
  - induction m as [|[k j] m IHm]; cbn; [reflexivity|]. f_equal; [f_equal; apply IH|exact IHm].
Qed.

#[export] Instance Json_eq_dec : EqDecision Json.
Proof.
  intros j1 j2. destruct (decide (json_tree j1 = json_tree j2)) as [E|E].
  - left. by rewrite <- (tree_json_tree j1), E, tree_json_tree.
  - right. by intros ->.
Defined.
#[export] Instance Json_countable : Countable Json := inj_countable' json_tree tree_json tree_json_tree.

#[export] Instance LogDetails_eq_dec : EqDecision LogDetails.
Proof. solve_decision. Defined.
#[export] Instance LogDetails_countable : Countable LogDetails.
Proof.
  refine (inj_countable' (λ d, (ld_address d, ld_log_index d, ld_name d, ld_params d))
    (λ '(a, i, n, p), mkLogDetails a i n p) _). by intros [].
Defined.

#[export] Instance MatchData_eq_dec : EqDecision MatchData.
Proof. solve_decision. Defined.
#[export] Instance MatchData_countable : Countable MatchData.
Proof.
  refine (inj_countable' (λ d, match d with MatchLog l t => inl (l, t) | MatchTransaction t => inr t end)
    (λ d, match d with inl (l, t) => MatchLog l t | inr t => MatchTransaction t end) _). by intros [].
Defined.

#[export] Instance MonitorMatch_eq_dec : EqDecision MonitorMatch.
Proof. solve_decision. Defined.
#[export] Instance MonitorMatch_countable : Countable MonitorMatch.
Proof.
  refine (inj_countable' (λ m, (mm_id m, mm_monitor_id m, mm_monitor_name m, mm_action_name m,
      mm_block_number m, mm_transaction_hash m, mm_match_data m, mm_decoded_call m))
    (λ '(i, mi, mn, a, b, h, d, c), mkMatch i mi mn a b h d c) _). by intros [].
Defined.

#[export] Instance NotificationMessage_eq_dec : EqDecision NotificationMessage.
Proof. solve_decision. Defined.
#[export] Instance NotificationMessage_countable : Countable NotificationMessage.
Proof.
  refine (inj_countable' (λ m, (msg_title m, msg_body m)) (λ '(t, b), mkMessage t b) _). by intros [].
Defined.

#[export] Instance ActionPayload_eq_dec : EqDecision ActionPayload.
Proof. solve_decision. Defined.
#[export] Instance ActionPayload_countable : Countable ActionPayload.
Proof.
  refine (inj_countable' (λ p, match p with Single m => inl m | Aggregated n ms t => inr (n, ms, t) end)
    (λ p, match p with inl m => Single m | inr (n, ms, t) => Aggregated n ms t end) _). by intros [].
Defined.

#[export] Instance ThrottleState_eq_dec : EqDecision ThrottleState.
Proof. solve_decision. Defined.
#[export] Instance ThrottleState_countable : Countable ThrottleState.
Proof.
  refine (inj_countable' (λ s, (ts_count s, ts_window_start_time s)) (λ '(c, w), mkThrottleState c w) _). by intros [].
Defined.

#[export] Instance AggregationState_eq_dec : EqDecision AggregationState.
Proof. solve_decision. Defined.
#[export] Instance AggregationState_countable : Countable AggregationState.
Proof.
  refine (inj_countable' (λ s, (as_matches s, as_window_start_time s)) (λ '(m, w), mkAggregationState m w) _). by intros [].
Defined.

Notation digit0 := (Ascii.ascii_of_nat 48) (only parsing).
Notation digit1 := (Ascii.ascii_of_nat 49) (only parsing).
Fixpoint positive_text (p : positive) : string :=
  match p with
  | xH => EmptyString
  | xO p => String digit0 (positive_text p)
  | xI p => String digit1 (positive_text p)
  end.
Fixpoint text_positive (s : string) : positive :=
  match s with
  | EmptyString => xH
  | String c s => if decide (c = digit0) then xO (text_positive s) else xI (text_positive s)
  end.
Lemma text_positive_text p : text_positive (positive_text p) = p.
Proof.
  induction p as [p IH|p IH|]; [| |reflexivity]; cbn [positive_text text_positive];
    [rewrite decide_False by discriminate|rewrite decide_True by reflexivity]; by rewrite IH.
Qed.

#[export] Instance countable_serde {A} `{Countable A} : Serde A := {|
  to_string v := Ok (positive_text (encode v));
  from_str s := ok_or (decode (text_positive s)) "invalid"
|}.
#[export] Instance countable_serde_laws {A} `{Countable A} : SerdeLaws A.
Proof. intros v s [= <-]. cbn. by rewrite text_positive_text, decode_encode. Qed.
End SerdeDemo.

(** ** A repository that never fails, for the witnesses *)

Module InterfacesDemo.
Definition DemoDb : Type := gmap NetworkId Z.

#[export] Instance demo_block_state : BlockStateRepository DemoDb := {|
  get_last_processed_block n s := (Ok (s !! n), s);
  set_last_processed_block n b s := (Ok tt, <[n := b]> s)
|}.

#[export] Instance demo_block_state_laws : BlockStateLaws DemoDb.
Proof.
  refine {| last_block := λ s n, s !! n |}.
  - intros n s r s' [= <- <-]. split; [reflexivity|]. by intros o [= <-].
  - intros n b s r s' [= <- <-]. split; [apply lookup_insert_eq|].
    intros n' Hn'. by apply lookup_insert_ne.
Defined.
(** An outbox and JSON states in memory. *)
Section Memory.
Context `{DefaultHasher}.

Record MemStore := mkMem { mem_outbox : list OutboxItem; mem_next : Z; mem_kv : gmap string string }.

Definition mem_insert (s : MemStore) (it : string * ActionPayload) : MemStore :=
  if decide (idempotency_key it.2 ∈ item_key <$> mem_outbox s) then s
  else mkMem (mem_outbox s ++ [mkOutboxItem (mem_next s) it.1 it.2 0]) (mem_next s + 1) (mem_kv s).

#[export] Instance mem_outbox_repository : OutboxRepository MemStore := {|
  enqueue_outbox_batch items s := (Ok tt, foldl mem_insert s items);
  get_pending_outbox limit s :=
    (Ok (if (limit <? 0)%Z then mem_outbox s else take (Z.to_nat limit) (mem_outbox s)), s);
  delete_outbox_items_batch ids s :=
    (Ok tt, mkMem (filter (λ i, oi_id i ∉ ids) (mem_outbox s)) (mem_next s) (mem_kv s));
  increment_outbox_retries id s := (Ok tt, mkMem (retried id <$> mem_outbox s) (mem_next s) (mem_kv s))
|}.

#[export] Instance mem_key_value : KeyValueStore MemStore := {|
  get_json_state T _ key s :=
    (match mem_kv s !! key with
     | Some str => map_err SerializationError (Some <$> from_str str)
     | None => Ok None
     end, s);
  set_json_state T _ key v s :=
    match to_string v with
    | Ok str => (Ok tt, mkMem (mem_outbox s) (mem_next s) (<[key := str]> (mem_kv s)))
    | Err e => (Err (SerializationError e), s)
    end;
  get_all_json_states_by_prefix T _ p s :=
    (collect_result (λ kv : string * string, v ← map_err SerializationError (from_str kv.2); Ok (kv.1, v))
       (filter (λ kv : string * string, String.prefix p kv.1 = true) (map_to_list (mem_kv s))), s)
|}.

Record mem_ok (s : MemStore) : Prop := {
  mo_ids : increasing oi_id (mem_next s - 1) (mem_outbox s);
  mo_keys : NoDup (item_key <$> mem_outbox s)
}.

Lemma mem_insert_ok s it :
  mem_ok s → mem_ok (mem_insert s it) ∧
  content <$> mem_outbox (mem_insert s it) = insert_new (content <$> mem_outbox s) it ∧
  mem_kv (mem_insert s it) = mem_kv s ∧
  ∃ added, mem_outbox (mem_insert s it) = mem_outbox s ++ added ∧ Forall (λ i, oi_retries i = 0%Z) added.
Proof.
  intros [Hids Hkeys]. unfold mem_insert, insert_new. destruct it as [name p]. cbn [fst snd].
  assert ((λ q : string * ActionPayload, idempotency_key q.2) <$> (content <$> mem_outbox s) =
    item_key <$> mem_outbox s) as -> by (by rewrite <- list_fmap_compose).
  case_decide as Hk.
  - split_and!; try done. exists []. by rewrite app_nil_r.
  - split_and!; [|by cbn; rewrite fmap_app|done|by eexists [_]; split; [done|repeat constructor]].
    split; cbn.
    + eapply increasing_snoc; [done|cbn; lia].
    + rewrite fmap_app. apply NoDup_app. split_and!; [done| |apply NoDup_singleton].
      intros k Hk1 ->%list_elem_of_singleton. done.
Qed.

Lemma mem_enqueue_ok items s :
  mem_ok s → let s' := foldl mem_insert s items in
  mem_ok s' ∧ content <$> mem_outbox s' = foldl insert_new (content <$> mem_outbox s) items ∧
  mem_kv s' = mem_kv s ∧
  ∃ added, mem_outbox s' = mem_outbox s ++ added ∧ Forall (λ i, oi_retries i = 0%Z) added.
Proof.
  revert s. induction items as [|it items IH]; intros s Hs; cbn.
  { split_and!; try done. exists []. by rewrite app_nil_r. }
  destruct (mem_insert_ok s it Hs) as (Hs1 & Hc1 & Hkv1 & added1 & Ha1 & Hr1).
  destruct (IH _ Hs1) as (Hs2 & Hc2 & Hkv2 & added2 & Ha2 & Hr2).
  split_and!; [done|by rewrite Hc2, Hc1|congruence|].
  exists (added1 ++ added2). rewrite Ha2, Ha1, app_assoc. split; [done|by apply Forall_app].
Qed.

#[export] Instance mem_outbox_laws : OutboxLaws MemStore.
Proof.
  refine {| outbox := mem_outbox; outbox_ok := mem_ok |}.
  - intros s [Hids _]. by eapply increasing_NoDup.
  - intros s [_ Hkeys]. done.
  - intros items s r s' Hs [= <- <-]. destruct (mem_enqueue_ok items s Hs) as (? & ? & _ & added & ? & ?). eauto.
  - intros limit s r s' Hs [= <- <-]. split_and!; [done..|]. intros l [= <-] Hl.
    by rewrite (proj2 (Z.ltb_ge _ _)).
  - intros ids s r s' [Hids Hkeys] [= <- <-]. split; [|done]. split; cbn.
    + by apply increasing_filter.
    + by apply NoDup_fmap_filter.
  - intros id s r s' [Hids Hkeys] [= <- <-]. split; [|done].
    assert (∀ i, oi_id (retried id i) = oi_id i ∧ item_key (retried id i) = item_key i) as Hr
      by (intros i; unfold retried; by case_decide).
    split; cbn.
    + eapply increasing_key_eq; [|exact Hids]. rewrite <- list_fmap_compose.
      apply list_fmap_ext. intros n i _. symmetry. apply Hr.
    + rewrite <- list_fmap_compose. erewrite list_fmap_ext; [exact Hkeys|]. intros n i _. apply Hr.
Defined.

Lemma mem_rows_Ok {T} `{Serde T} (rows : list (string * string)) (l : list (string * T)) :
  collect_result (λ kv : string * string, v ← map_err SerializationError (from_str kv.2); Ok (kv.1, v)) rows = Ok l →
  Forall2 (λ row kv, kv.1 = row.1 ∧ from_str row.2 = Ok kv.2) rows l.
Proof.
  rewrite collect_result_Ok. intros Hl. eapply Forall2_impl; [exact Hl|]. intros row kv Hkv. cbn in Hkv. inv_ok. done.
Qed.

#[export] Instance mem_key_value_laws : KeyValueLaws MemStore.
Proof.
  refine {| kv := mem_kv |}.
  - intros T ? k s r s' [= <- <-]. split; [done|]. intros o.
    destruct (mem_kv s !! k) as [str|]; [|by intros [= <-]]. destruct (from_str str) as [v|]; [|done].
    intros [= <-]. eauto.
  - intros T ? k v s r s'. cbn. destruct (to_string v) as [str|e]; intros [= <- <-]; [by exists str|done].
  - intros T ? p s r s' [= <- <-]. split; [done|]. intros l Hl%mem_rows_Ok.
    set (rows := filter _ _) in Hl.
    assert (l.*1 = rows.*1) as Hfst.
    { clearbody rows. induction Hl as [|row kv rows l [E _] _ IH]; [done|]. cbn. by rewrite IH, E. }
    rewrite Hfst. split_and!.
    + apply NoDup_fmap_filter, NoDup_fst_map_to_list.
    + intros k v Hkv. apply list_elem_of_lookup in Hkv as [i Hi].
      destruct (Forall2_lookup_r _ _ _ _ _ Hl Hi) as ([k' str] & Hr & E & Hd). cbn in E, Hd. subst k'.
      exists str. split; [|done]. apply list_elem_of_lookup_2 in Hr.
      by apply list_elem_of_filter in Hr as [_ Hr%elem_of_map_to_list].
    + intros k [str Hk] Hp. apply list_elem_of_fmap. exists (k, str). split; [done|].
      apply list_elem_of_filter. split; [done|]. by apply elem_of_map_to_list.
Defined.

#[export] Instance mem_alert_laws : AlertStoreLaws MemStore.
Proof.
  split.
  - intros items s. cbn. induction items as [|it items IH] using rev_ind; [done|]. rewrite foldl_app. cbn.
    rewrite <- IH. unfold mem_insert. by case_decide.
  - intros T ? k v s [Hids Hkeys]. cbn. by destruct (to_string v).
Defined.

Definition mem_empty : MemStore := mkMem [] 1 ∅.
Lemma mem_empty_ok : mem_ok mem_empty.
Proof. split; [split|]; constructor. Qed.
End Memory.
End InterfacesDemo.
