(* ===== verification/Store.v ===== *)
(** * The SQLite store ([crates/argus-store/src])

    Each SQL statement of [app_repository.rs] and [key_value_store.rs] is a
    function on the tables of [migrations/], constraints included; a statement
    can also fail for reasons of its own (the list of faults of the state), and a
    transaction that fails leaves the tables as they were.  [serde_json] at the
    stored types is the class [Serde]. *)
From S2P Require Import Prelude Models MonitorMatch Interfaces.

(** ** Tables ([migrations/]) *)

Record MonitorRow := mkMonitorRow {
  mr_monitor_id : Z;
  mr_name : string;
  mr_network : string;
  mr_address : option string;
  mr_abi_name : option string;
  mr_filter_script : string;
  mr_actions : string;
  mr_created_at : DateTime;
  mr_updated_at : DateTime;
  mr_status : MonitorStatus
}.
Record AbiRow := mkAbiRow { ar_name : string; ar_abi : string }.
Record ActionRow := mkActionRow {
  acr_action_id : Z; acr_name : string; acr_network_id : string; acr_config : string
}.
Record OutboxRow := mkOutboxRow {
  or_id : Z;
  or_action_name : string;
  or_payload : string;
  or_retries : Z;
  or_idempotency_key : string
}.

(** The rows of each table in insertion order, and the last identifier given in
    the tables with an [AUTOINCREMENT] key.  Without [ORDER BY] the order of the
    rows of a query is SQLite's choice; the model takes the insertion order. *)
Record Tables := mkTables {
  processed_blocks : gmap NetworkId Z;
  monitors : list MonitorRow;
  monitors_seq : Z;
  abis : list AbiRow;
  actions : list ActionRow;
  actions_seq : Z;
  outbox_rows : list OutboxRow;
  outbox_seq : Z;
  application_state : gmap string string;
  synchronous : string;
  current_timestamp : DateTime
}.

Definition empty_tables : Tables := mkTables ∅ [] 0 [] [] 0 [] 0 ∅ "FULL" 0.

Definition set_processed_blocks m t :=
  mkTables m (monitors t) (monitors_seq t) (abis t) (actions t) (actions_seq t)
    (outbox_rows t) (outbox_seq t) (application_state t) (synchronous t) (current_timestamp t).
Definition set_monitors ms seq t :=
  mkTables (processed_blocks t) ms seq (abis t) (actions t) (actions_seq t)
    (outbox_rows t) (outbox_seq t) (application_state t) (synchronous t) (current_timestamp t).
Definition set_abis a t :=
  mkTables (processed_blocks t) (monitors t) (monitors_seq t) a (actions t) (actions_seq t)
    (outbox_rows t) (outbox_seq t) (application_state t) (synchronous t) (current_timestamp t).
Definition set_actions a seq t :=
  mkTables (processed_blocks t) (monitors t) (monitors_seq t) (abis t) a seq
    (outbox_rows t) (outbox_seq t) (application_state t) (synchronous t) (current_timestamp t).
Definition set_outbox rows seq t :=
  mkTables (processed_blocks t) (monitors t) (monitors_seq t) (abis t) (actions t) (actions_seq t)
    rows seq (application_state t) (synchronous t) (current_timestamp t).
Definition set_application_state m t :=
  mkTables (processed_blocks t) (monitors t) (monitors_seq t) (abis t) (actions t) (actions_seq t)
    (outbox_rows t) (outbox_seq t) m (synchronous t) (current_timestamp t).
Definition set_synchronous m t :=
  mkTables (processed_blocks t) (monitors t) (monitors_seq t) (abis t) (actions t) (actions_seq t)
    (outbox_rows t) (outbox_seq t) (application_state t) m (current_timestamp t).

(** ** Statements and transactions *)

(** The state of a connection: [sq_faults] says which of the next statements fail. *)
Record SqliteStateRepository := mkSqlite { sq_tables : Tables; sq_faults : list bool }.
Notation query A := (eff SqliteStateRepository PersistenceError A).

(** [execute_query_with_error_handling]: a fault or a violated constraint is an
    [OperationFailed], and changes nothing. *)
Definition execute {A} (f : Tables → result string (A * Tables)) : query A := λ s,
  match sq_faults s with
  | true :: fs => (Err (OperationFailed "database error"), mkSqlite (sq_tables s) fs)
  | fs =>
      match f (sq_tables s) with
      | Ok (a, t) => (Ok a, mkSqlite t (tail fs))
      | Err e => (Err (OperationFailed e), mkSqlite (sq_tables s) (tail fs))
      end
  end.

Definition select {A} (f : Tables → A) : query A := execute (λ t, Ok (f t, t)).
(** A statement without effect on the tables: [BEGIN], [COMMIT], a checkpoint. *)
Definition control : query unit := select (λ _, tt).

(** [pool.begin()], the body, [tx.commit()]; dropping the transaction rolls back. *)
Definition transaction (body : query unit) : query unit := λ s,
  match (_ ← control; _ ← body; control) s with
  | (Ok a, s') => (Ok a, s')
  | (Err e, s') => (Err e, mkSqlite (sq_tables s) (sq_faults s'))
  end.

(** The identifier of a new row of an [AUTOINCREMENT] table. *)
Definition next_id (seq : Z) : result string Z :=
  if (i64_max <=? seq)%Z then Err "database or disk is full" else Ok (seq + 1)%Z.

(** What SQLite leaves to the implementation: how text compared with an integer
    column converts, and whether an ignored row uses up an identifier. *)
Class SqliteChoices := {
  integer_affinity : string → option Z;
  ignored_row_takes_id : bool
}.

(** ** Text ([LIKE], [parse], [replace]) *)

(** [str::parse::<i64>]. *)
Definition digit_value (c : Ascii.ascii) : option Z :=
  let n := Ascii.nat_of_ascii c in
  if (48 <=? n)%nat && (n <=? 57)%nat then Some (Z.of_nat n - 48)%Z else None.
Fixpoint parse_digits (acc : Z) (l : list Ascii.ascii) : option Z :=
  match l with
  | [] => Some acc
  | c :: l => d ← digit_value c; parse_digits (10 * acc + d) l
  end.
Definition in_i64 (z : Z) : option Z :=
  if (i64_min <=? z)%Z && (z <=? i64_max)%Z then Some z else None.
Definition parse_i64 (s : string) : option Z :=
  match chars s with
  | [] => None
  | c :: l =>
      if decide (c = dash) then
        match l with [] => None | _ => z ← parse_digits 0 l; in_i64 (- z) end
      else if decide (c = Ascii.ascii_of_nat 43) then
        match l with [] => None | _ => z ← parse_digits 0 l; in_i64 z end
      else z ← parse_digits 0 (c :: l); in_i64 z
  end.

(** [s.replace(c, with)]. *)
Fixpoint replace_char (c : Ascii.ascii) (new : list Ascii.ascii) (l : list Ascii.ascii) : list Ascii.ascii :=
  match l with
  | [] => []
  | d :: l => if decide (d = c) then new ++ replace_char c new l else d :: replace_char c new l
  end.

Notation percent := (Ascii.ascii_of_nat 37) (only parsing).
Notation underscore := (Ascii.ascii_of_nat 95) (only parsing).
Notation backslash := (Ascii.ascii_of_nat 92) (only parsing).
Notation dquote := (Ascii.ascii_of_nat 34) (only parsing).

Inductive like_token := LAny | LOne | LChar (c : Ascii.ascii).

(** The tokens of a [LIKE] pattern; [None] when it ends with the escape character. *)
Fixpoint like_tokens (escape : option Ascii.ascii) (p : list Ascii.ascii) : option (list like_token) :=
  match p with
  | [] => Some []
  | c :: p =>
      if decide (Some c = escape) then
        match p with
        | [] => None
        | d :: p => cons (LChar d) <$> like_tokens escape p
        end
      else
        cons (if decide (c = percent) then LAny else if decide (c = underscore) then LOne else LChar c)
          <$> like_tokens escape p
  end.

(** [LIKE] ignores the case of ASCII letters. *)
Fixpoint like_match (ts : list like_token) : list Ascii.ascii → bool :=
  match ts with
  | [] => λ s, match s with [] => true | _ => false end
  | LChar c :: ts => λ s,
      match s with
      | [] => false
      | d :: s => bool_decide (ascii_to_lower c = ascii_to_lower d) && like_match ts s
      end
  | LOne :: ts => λ s, match s with [] => false | _ :: s => like_match ts s end
  | LAny :: ts =>
      fix go s := like_match ts s || match s with [] => false | _ :: s => go s end
  end.

Definition like (escape : option Ascii.ascii) (p s : list Ascii.ascii) : bool :=
  match like_tokens escape p with Some ts => like_match ts s | None => false end.

Section Store.
Context `{DefaultHasher} `{SqliteChoices}.
Context `{Serde (list string)} `{Serde ActionConfig} `{Serde ActionPayload}.

Definition serialize {T} `{Serde T} (v : T) : query string :=
  lift_result (map_err SerializationError (to_string v)).
Definition deserialize {T} `{Serde T} (s : string) : result PersistenceError T :=
  map_err SerializationError (from_str s).

(** ** Progress *)

Definition sqlite_get_last_processed_block (network_id : NetworkId) : query (option Z) :=
  record ← select (λ t, processed_blocks t !! network_id);
  match record with
  | Some block_number =>
      match u64_try_from block_number with
      | Some b => mret (Some b)
      | None => throw (OperationFailed "out of range integral type conversion attempted")
      end
  | None => mret None
  end.

Definition sqlite_set_last_processed_block (network_id : NetworkId) (block_number : Z) : query unit :=
  match i64_try_from block_number with
  | None => throw (InvalidInput "out of range integral type conversion attempted")
  | Some b => execute (λ t, Ok (tt, set_processed_blocks (<[network_id := b]> (processed_blocks t)) t))
  end.

#[global] Instance sqlite_block_state : BlockStateRepository SqliteStateRepository := {|
  get_last_processed_block := sqlite_get_last_processed_block;
  set_last_processed_block := sqlite_set_last_processed_block
|}.

(** [checkpoint_wal] and [set_synchronous_mode]. *)
Definition checkpoint_wal (mode : string) : query unit :=
  if bool_decide (mode ∈ ["PASSIVE"; "TRUNCATE"; "RESTART"; "RESTART_OR_TRUNCATE"]) then control
  else throw (InvalidInput ("Invalid WAL checkpoint mode: " +:+ mode)).
Definition set_synchronous_mode (mode : string) : query unit :=
  if bool_decide (mode ∈ ["OFF"; "NORMAL"; "FULL"]) then execute (λ t, Ok (tt, set_synchronous mode t))
  else throw (InvalidInput ("Invalid synchronous mode: " +:+ mode)).

Definition cleanup : query unit := checkpoint_wal "TRUNCATE".
Definition flush : query unit :=
  _ ← set_synchronous_mode "FULL";
  _ ← checkpoint_wal "TRUNCATE";
  set_synchronous_mode "NORMAL".
Definition save_emergency_state (network_id : NetworkId) (block_number : Z) : query unit :=
  _ ← set_last_processed_block network_id block_number;
  flush.

(** ** Monitors *)

Definition monitor_of_row (row : MonitorRow) : result PersistenceError Monitor :=
  actions ← deserialize (mr_actions row);
  Ok (mkMonitor (mr_monitor_id row) (mr_name row) (mr_network row) (mr_address row) (mr_abi_name row)
        (mr_filter_script row) actions (mr_created_at row) (mr_updated_at row) (mr_status row)).

Definition get_monitors (network_id : NetworkId) : query (list Monitor) :=
  monitor_rows ← select (λ t, filter (λ r, mr_network r = network_id) (monitors t));
  lift_result (collect_result monitor_of_row monitor_rows).

Definition get_monitor_by_id (network_id : NetworkId) (monitor_id : string) : query (option Monitor) :=
  match parse_i64 monitor_id with
  | None => throw (InvalidInput ("Invalid monitor_id '" +:+ monitor_id +:+ "'"))
  | Some monitor_id_num =>
      monitor_row ← select (λ t,
        head (filter (λ r, mr_network r = network_id ∧ mr_monitor_id r = monitor_id_num) (monitors t)));
      match monitor_row with
      | Some row => lift_result (Some <$> monitor_of_row row)
      | None => mret None
      end
  end.

(** The foreign key of [abi_name] (a null reference is allowed). *)
Definition abi_exists (abi_name : option string) (t : Tables) : bool :=
  match abi_name with Some n => bool_decide (n ∈ ar_name <$> abis t) | None => true end.

Definition insert_monitor (m : MonitorConfig) (actions_str : string) (t : Tables)
    : result string (unit * Tables) :=
  if bool_decide ((mc_network m, mc_name m) ∈ (λ r, (mr_network r, mr_name r)) <$> monitors t)
  then Err "UNIQUE constraint failed: monitors.network, monitors.name"
  else if negb (abi_exists (mc_abi_name m) t) then Err "FOREIGN KEY constraint failed"
  else
    id ← next_id (monitors_seq t);
    Ok (tt, set_monitors
      (monitors t ++ [mkMonitorRow id (mc_name m) (mc_network m) (mc_address m) (mc_abi_name m)
         (mc_filter_script m) actions_str (current_timestamp t) (current_timestamp t) (mc_status m)]) id t).

Definition add_monitors (network_id : NetworkId) (ms : list MonitorConfig) : query unit :=
  match find (λ m, negb (bool_decide (mc_network m = network_id))) ms with
  | Some m =>
      throw (InvalidInput ("Monitor '" +:+ mc_name m +:+ "' has network '" +:+ mc_network m
               +:+ "' but expected '" +:+ network_id +:+ "'"))
  | None =>
      transaction (for_each (λ m,
        actions_str ← serialize (mc_actions m);
        execute (insert_monitor m actions_str)) ms)
  end.

Definition clear_monitors (network_id : NetworkId) : query unit :=
  execute (λ t, Ok (tt, set_monitors (filter (λ r, mr_network r ≠ network_id) (monitors t)) (monitors_seq t) t)).

(** The rows a monitor identifier given as text designates. *)
Definition is_monitor (network_id : NetworkId) (monitor_id : string) (r : MonitorRow) : bool :=
  bool_decide (mr_network r = network_id) && bool_decide (integer_affinity monitor_id = Some (mr_monitor_id r)).

(** [rows_affected() == 0] is [NotFound]. *)
Definition affecting (update : query nat) : query unit :=
  rows_affected ← update;
  match rows_affected with 0 => throw NotFound | _ => mret tt end.

Definition delete_monitor (network_id : NetworkId) (monitor_id : string) : query unit :=
  affecting (execute (λ t,
    Ok (length (filter (λ r, is_monitor network_id monitor_id r = true) (monitors t)),
        set_monitors (filter (λ r, is_monitor network_id monitor_id r = false) (monitors t)) (monitors_seq t) t))).

Definition update_monitor_rows (network_id : NetworkId) (monitor_id : string) (f : MonitorRow → MonitorRow)
    (t : Tables) : nat * Tables :=
  (length (filter (λ r, is_monitor network_id monitor_id r = true) (monitors t)),
   set_monitors ((λ r, if is_monitor network_id monitor_id r then f r else r) <$> monitors t) (monitors_seq t) t).

Definition update_monitor (network_id : NetworkId) (monitor_id : string) (m : MonitorConfig) : query unit :=
  actions_json ← serialize (mc_actions m);
  affecting (execute (λ t,
    let '(n, t') := update_monitor_rows network_id monitor_id (λ r,
      mkMonitorRow (mr_monitor_id r) (mr_name r) (mr_network r) (mc_address m) (mc_abi_name m)
        (mc_filter_script m) actions_json (mr_created_at r) (mr_updated_at r) (mr_status r)) t in
    if (0 <? n)%nat && negb (abi_exists (mc_abi_name m) t) then Err "FOREIGN KEY constraint failed"
    else Ok (n, t'))).

Definition update_monitor_status (network_id : NetworkId) (monitor_id : string) (status : MonitorStatus)
    : query unit :=
  affecting (execute (λ t, Ok (update_monitor_rows network_id monitor_id (λ r,
    mkMonitorRow (mr_monitor_id r) (mr_name r) (mr_network r) (mr_address r) (mr_abi_name r)
      (mr_filter_script r) (mr_actions r) (mr_created_at r) (mr_updated_at r) status) t))).

(** ** ABIs *)

Definition create_abi (name abi : string) : query unit :=
  execute (λ t,
    if bool_decide (name ∈ ar_name <$> abis t) then Err "UNIQUE constraint failed: abis.name"
    else Ok (tt, set_abis (abis t ++ [mkAbiRow name abi]) t)).

Definition get_abi (name : string) : query (option string) :=
  select (λ t, ar_abi <$> head (filter (λ r, ar_name r = name) (abis t))).

Definition list_abis : query (list string) := select (λ t, ar_name <$> abis t).

Definition monitors_using_abi (name : string) (t : Tables) : list string :=
  mr_name <$> filter (λ r, mr_abi_name r = Some name) (monitors t).

(** [DELETE FROM abis WHERE name = ?]. *)
Definition delete_abi_row (name : string) : query unit :=
  affecting (execute (λ t,
    let rows := filter (λ r, ar_name r = name) (abis t) in
    if (0 <? length rows)%nat && negb (bool_decide (monitors_using_abi name t = []))
    then Err "FOREIGN KEY constraint failed"
    else Ok (length rows, set_abis (filter (λ r, ar_name r ≠ name) (abis t)) t))).

Definition delete_abi (name : string) : query unit :=
  in_use ← select (monitors_using_abi name);
  match in_use with
  | [] => delete_abi_row name
  | _ => throw (AbiInUse in_use)
  end.

Definition get_all_abis : query (list (string * string)) :=
  select (λ t, (λ r, (ar_name r, ar_abi r)) <$> abis t).

(** ** Actions *)

Definition action_of_row (row : ActionRow) : result PersistenceError ActionConfig :=
  action ← deserialize (acr_config row);
  Ok (mkAction (Some (acr_action_id row)) (acr_name row) (ac_config action) (ac_policy action)).

Definition get_actions (network_id : NetworkId) : query (list ActionConfig) :=
  action_rows ← select (λ t, filter (λ r, acr_network_id r = network_id) (actions t));
  lift_result (collect_result action_of_row action_rows).

Definition get_action (p : ActionRow → bool) : query (option ActionConfig) :=
  action_row ← select (λ t, head (filter (λ r, p r = true) (actions t)));
  match action_row with
  | Some row => lift_result (Some <$> action_of_row row)
  | None => mret None
  end.
Definition get_action_by_id (network_id : NetworkId) (action_id : ActionId) : query (option ActionConfig) :=
  get_action (λ r, bool_decide (acr_network_id r = network_id) && bool_decide (acr_action_id r = action_id)).
Definition get_action_by_name (network_id : NetworkId) (name : string) : query (option ActionConfig) :=
  get_action (λ r, bool_decide (acr_network_id r = network_id) && bool_decide (acr_name r = name)).

Definition create_action (network_id : NetworkId) (action : ActionConfig) : query ActionConfig :=
  config ← serialize action;
  new_id ← execute (λ t,
    if bool_decide ((ac_name action, network_id) ∈ (λ r, (acr_name r, acr_network_id r)) <$> actions t)
    then Err "UNIQUE constraint failed: actions.name, actions.network_id"
    else
      id ← next_id (actions_seq t);
      Ok (id, set_actions (actions t ++ [mkActionRow id (ac_name action) network_id config]) id t));
  mret (mkAction (Some new_id) (ac_name action) (ac_config action) (ac_policy action)).

Definition clear_actions (network_id : NetworkId) : query unit :=
  execute (λ t, Ok (tt, set_actions (filter (λ r, acr_network_id r ≠ network_id) (actions t)) (actions_seq t) t)).

Definition is_action (network_id : NetworkId) (action_id : ActionId) (r : ActionRow) : bool :=
  bool_decide (acr_network_id r = network_id) && bool_decide (acr_action_id r = action_id).

Definition update_action (network_id : NetworkId) (action : ActionConfig) : query ActionConfig :=
  match ac_id action with
  | None => throw (InvalidInput "Action ID is required for update")
  | Some action_id =>
      config ← serialize action;
      _ ← affecting (execute (λ t,
        let hit := is_action network_id action_id in
        let n := length (filter (λ r, hit r = true) (actions t)) in
        if (0 <? n)%nat &&
           bool_decide ((ac_name action, network_id) ∈
             (λ r, (acr_name r, acr_network_id r)) <$> filter (λ r, hit r = false) (actions t))
        then Err "UNIQUE constraint failed: actions.name, actions.network_id"
        else Ok (n, set_actions ((λ r, if hit r then
               mkActionRow (acr_action_id r) (ac_name action) (acr_network_id r) config else r) <$> actions t)
               (actions_seq t) t)));
      mret action
  end.

Definition delete_action (network_id : NetworkId) (action_id : ActionId) : query unit :=
  affecting (execute (λ t,
    Ok (length (filter (λ r, is_action network_id action_id r = true) (actions t)),
        set_actions (filter (λ r, is_action network_id action_id r = false) (actions t)) (actions_seq t) t))).

(** The clause that looks an action name up in the JSON text of [actions]. *)
Definition like_clause (action_name : string) : list Ascii.ascii :=
  let escaped_action_name :=
    replace_char underscore [backslash; underscore] (replace_char percent [backslash; percent] (chars action_name)) in
  [percent; dquote] ++ escaped_action_name ++ [dquote; percent].

Definition monitor_config_of_row (row : MonitorRow) : result PersistenceError MonitorConfig :=
  actions ← deserialize (mr_actions row);
  Ok (mkMonitorConfig (mr_name row) (mr_network row) (mr_address row) (mr_abi_name row)
        (mr_filter_script row) actions (mr_status row)).

(** [SELECT ... WHERE network = ? AND actions LIKE ?]. *)
Definition monitors_naming (network_id : NetworkId) (action_name : string) : query (list MonitorConfig) :=
  monitor_rows ← select (λ t,
    filter (λ r, mr_network r = network_id ∧
                 like (Some backslash) (like_clause action_name) (chars (mr_actions r)) = true) (monitors t));
  lift_result (collect_result monitor_config_of_row monitor_rows).

Definition get_monitors_by_action_id (network_id : NetworkId) (action_id : ActionId) : query (list MonitorConfig) :=
  o ← get_action_by_id network_id action_id;
  action ← lift_result (ok_or o NotFound);
  monitors_naming network_id (ac_name action).

(** ** The outbox *)

Definition SQLITE_MAX_VARIABLES : nat := 999.
Definition OUTBOX_INSERT_COLUMNS : nat := 3.

(** [ORDER BY id ASC]. *)
Definition id_le (a b : OutboxRow) : Prop := (or_id a ≤ or_id b)%Z.
#[export] Instance id_le_dec : RelDecision id_le.
Proof. intros a b. unfold id_le. apply _. Defined.

(** [impl TryFrom<OutboxRow> for OutboxItem]. *)
Definition item_of_row (row : OutboxRow) : result PersistenceError OutboxItem :=
  payload ← deserialize (or_payload row);
  if (- 2 ^ 31 <=? or_retries row)%Z && (or_retries row <=? 2 ^ 31 - 1)%Z
  then Ok (mkOutboxItem (or_id row) (or_action_name row) payload (or_retries row))
  else Err (OperationFailed "invalid retries value (out of range for i32)").

(** One row of [INSERT OR IGNORE]. *)
Definition insert_or_ignore (t : Tables) (row : string * string * string) : result string Tables :=
  let '(name, json, key) := row in
  id ← next_id (outbox_seq t);
  if bool_decide (key ∈ or_idempotency_key <$> outbox_rows t)
  then Ok (set_outbox (outbox_rows t) (if ignored_row_takes_id then id else outbox_seq t) t)
  else Ok (set_outbox (outbox_rows t ++ [mkOutboxRow id name json 0 key]) id t).

Definition serialize_item (it : string * ActionPayload) : result PersistenceError (string * string * string) :=
  json ← map_err SerializationError (to_string it.2);
  Ok (it.1, json, idempotency_key it.2).

Definition enqueue_chunk (chunk : list (string * ActionPayload)) : query unit :=
  serialized_items ← lift_result (collect_result serialize_item chunk);
  execute (λ t, t' ← foldM insert_or_ignore serialized_items t; Ok (tt, t')).

Definition sqlite_enqueue_outbox_batch (items : list (string * ActionPayload)) : query unit :=
  match items with
  | [] => mret tt
  | _ => transaction (for_each enqueue_chunk (chunks (SQLITE_MAX_VARIABLES / OUTBOX_INSERT_COLUMNS) items))
  end.

Definition sqlite_get_pending_outbox (limit : Z) : query (list OutboxItem) :=
  rows ← select (λ t,
    let rows := merge_sort id_le (outbox_rows t) in
    if (limit <? 0)%Z then rows else take (Z.to_nat limit) rows);
  lift_result (collect_result item_of_row rows).

Definition sqlite_delete_outbox_items_batch (ids : list Z) : query unit :=
  match ids with
  | [] => mret tt
  | _ => transaction (for_each (λ chunk, execute (λ t,
      Ok (tt, set_outbox (filter (λ r, or_id r ∉ chunk) (outbox_rows t)) (outbox_seq t) t)))
      (chunks SQLITE_MAX_VARIABLES ids))
  end.

Definition sqlite_increment_outbox_retries (id : Z) : query unit :=
  execute (λ t, Ok (tt, set_outbox ((λ r, if decide (or_id r = id) then
    mkOutboxRow (or_id r) (or_action_name r) (or_payload r) (or_retries r + 1) (or_idempotency_key r) else r)
    <$> outbox_rows t) (outbox_seq t) t)).

#[global] Instance sqlite_outbox : OutboxRepository SqliteStateRepository := {|
  enqueue_outbox_batch := sqlite_enqueue_outbox_batch;
  get_pending_outbox := sqlite_get_pending_outbox;
  delete_outbox_items_batch := sqlite_delete_outbox_items_batch;
  increment_outbox_retries := sqlite_increment_outbox_retries
|}.

(** ** JSON states *)

Definition state_of_row {T} `{Serde T} (row : string * string) : result PersistenceError (string * T) :=
  value ← deserialize row.2;
  Ok (row.1, value).

Definition sqlite_get_json_state {T} `{Serde T} (key : string) : query (option T) :=
  record ← select (λ t, application_state t !! key);
  match record with
  | Some value_str => lift_result (Some <$> deserialize value_str)
  | None => mret None
  end.

Definition sqlite_set_json_state {T} `{Serde T} (key : string) (value : T) : query unit :=
  value_str ← serialize value;
  execute (λ t, Ok (tt, set_application_state (<[key := value_str]> (application_state t)) t)).

Definition sqlite_get_all_json_states_by_prefix {T} `{Serde T} (prefix : string) : query (list (string * T)) :=
  rows ← select (λ t,
    filter (λ p : string * string, like None (chars prefix ++ [percent]) (chars p.1) = true)
      (map_to_list (application_state t)));
  lift_result (collect_result state_of_row rows).

#[global] Instance sqlite_key_value : KeyValueStore SqliteStateRepository := {|
  get_json_state T _ := sqlite_get_json_state;
  set_json_state T _ := sqlite_set_json_state;
  get_all_json_states_by_prefix T _ := sqlite_get_all_json_states_by_prefix
|}.
End Store.

(** ** Invariants of the tables *)

(** A property of the tables a query keeps, whether it succeeds or fails. *)
Definition preserves {E A} (P : Tables → Prop) (m : eff SqliteStateRepository E A) : Prop :=
  ∀ s, P (sq_tables s) → P (sq_tables (m s).2).

Create HintDb store discriminated.

Section preserves_lemmas.
Context (P : Tables → Prop).

Lemma preserves_execute {A} (f : Tables → result string (A * Tables)) :
  (∀ t a t', P t → f t = Ok (a, t') → P t') → preserves P (execute f).
Proof.
  intros Hf s Hs. unfold execute. destruct (sq_faults s) as [|[] fs]; cbn; [|done|];
    (destruct (f (sq_tables s)) as [[a t]|e] eqn:E; cbn; [by eapply Hf|done]).
Qed.

Lemma preserves_select {A} (f : Tables → A) : preserves P (select f).
Proof. apply preserves_execute. by intros t a t' Ht [= _ <-]. Qed.
Lemma preserves_control : preserves P control.
Proof. apply preserves_select. Qed.
Lemma preserves_ret {E A} (a : A) : preserves P (mret a : eff SqliteStateRepository E A).
Proof. by intros s Hs. Qed.
Lemma preserves_throw {E A} e : preserves P (throw e : eff SqliteStateRepository E A).
Proof. by intros s Hs. Qed.
Lemma preserves_lift {E A} (r : result E A) : preserves P (lift_result r).
Proof. by intros s Hs. Qed.

Lemma preserves_map_err {E F A} (f : E → F) (m : eff SqliteStateRepository E A) :
  preserves P m → preserves P (eff_map_err f m).
Proof. intros Hm s Hs. specialize (Hm s Hs). unfold eff_map_err. by destruct (m s). Qed.

Lemma preserves_bind {E A B} (m : eff SqliteStateRepository E A) (f : A → eff SqliteStateRepository E B) :
  preserves P m → (∀ a, preserves P (f a)) → preserves P (m ≫= f).
Proof.
  intros Hm Hf s Hs. unfold mbind, eff_bind. specialize (Hm s Hs).
  destruct (m s) as [[a|e] s']; [by apply Hf|done].
Qed.

Lemma preserves_for_each {E A} (f : A → eff SqliteStateRepository E unit) l :
  (∀ a, preserves P (f a)) → preserves P (for_each f l).
Proof. intros Hf s Hs. apply (for_each_inv (λ s, P (sq_tables s))); [|done]. intros a s' _. apply Hf. Qed.

Lemma preserves_transaction (body : query unit) : preserves P body → preserves P (transaction body).
Proof.
  intros Hb s Hs. unfold transaction.
  assert (preserves P (_ ← control; _ ← body; control)) as Hall.
  { apply preserves_bind; [apply preserves_control|intros _].
    apply preserves_bind; [exact Hb|intros _; apply preserves_control]. }
  specialize (Hall s Hs). by repeat case_match.
Qed.

Lemma preserves_affecting (m : query nat) : preserves P m → preserves P (affecting m).
Proof.
  intros Hm. apply preserves_bind; [done|]. intros [|n]; [apply preserves_throw|apply preserves_ret].
Qed.
End preserves_lemmas.
#[export] Hint Resolve preserves_select preserves_control preserves_ret preserves_throw preserves_lift
  preserves_map_err preserves_bind preserves_for_each preserves_transaction preserves_affecting : store.

(** A transaction that fails changes no table. *)
Lemma transaction_rolls_back body s e s' :
  transaction body s = (Err e, s') → sq_tables s' = sq_tables s.
Proof. unfold transaction. repeat case_match; [done|]. by intros [= _ <-]. Qed.

Lemma execute_Ok {A} (f : Tables → result string (A * Tables)) s a s' :
  execute f s = (Ok a, s') → f (sq_tables s) = Ok (a, sq_tables s').
Proof.
  unfold execute. destruct (sq_faults s) as [|[] fs]; [|done|];
    by destruct (f (sq_tables s)) as [[a' t]|e]; intros [= <- <-].
Qed.

Lemma execute_Err {A} (f : Tables → result string (A * Tables)) s e s' :
  execute f s = (Err e, s') → sq_tables s' = sq_tables s.
Proof.
  unfold execute. destruct (sq_faults s) as [|[] fs]; [|by intros [= _ <-]|];
    by destruct (f (sq_tables s)) as [[a' t]|e']; intros [= _ <-].
Qed.

Lemma select_tables {A} (f : Tables → A) s r s' :
  select f s = (r, s') → sq_tables s' = sq_tables s ∧ ∀ a, r = Ok a → a = f (sq_tables s).
Proof.
  intros E. destruct r as [a|e].
  - apply execute_Ok in E. injection E as -> ->. split; [done|]. by intros a' [= ->].
  - split; [by eapply execute_Err|done].
Qed.

Lemma transaction_Ok body s u s' :
  transaction body s = (Ok u, s') →
  ∃ s1 s2 u', sq_tables s1 = sq_tables s ∧ body s1 = (Ok u', s2) ∧ sq_tables s' = sq_tables s2.
Proof.
  unfold transaction. case_match eqn:E. case_match; [|done]. subst. intros [= <- <-].
  apply eff_bind_Ok in E as (u1 & s1 & Ec & (u2 & s2 & Eb & Ec')%eff_bind_Ok).
  apply select_tables in Ec as [Ec _]. apply select_tables in Ec' as [Ec' _]. eauto 7.
Qed.

(** The tables after a loop of successful statements. *)
Lemma for_each_Ok {A T} (R : Tables → T → Prop) (f : A → query unit) (g : T → A → T) l s u s' t :
  (∀ a s u s' t, a ∈ l → R (sq_tables s) t → f a s = (Ok u, s') → R (sq_tables s') (g t a)) →
  R (sq_tables s) t → for_each f l s = (Ok u, s') → R (sq_tables s') (foldl g t l).
Proof.
  revert s t. induction l as [|a l IH]; intros s t Hf Hs; cbn.
  - by intros [= _ <-].
  - intros (u1 & s1 & Ea & El)%eff_bind_Ok. eapply IH; [|by eapply Hf; [left|..]|exact El].
    intros ????? Ha. apply Hf. by right.
Qed.

Section Invariants.
Context `{DefaultHasher} `{SqliteChoices}.
Context `{Serde (list string)} `{Serde ActionConfig} `{SerdeLaws ActionPayload}.

(** The rows of the outbox are what [enqueue_outbox_batch] writes. *)
Record outbox_wf (t : Tables) : Prop := {
  ow_ids : increasing or_id (outbox_seq t) (outbox_rows t);
  ow_keys : NoDup (or_idempotency_key <$> outbox_rows t);
  ow_payloads : Forall (λ r, ∃ p, from_str (or_payload r) = Ok p ∧ or_idempotency_key r = idempotency_key p)
                  (outbox_rows t)
}.

(** Keys are unique, references resolve, block numbers fit. *)
Record store_wf (t : Tables) : Prop := {
  wf_blocks n b : processed_blocks t !! n = Some b → (b ≤ i64_max)%Z;
  wf_monitor_ids : increasing mr_monitor_id (monitors_seq t) (monitors t);
  wf_monitor_names : NoDup ((λ r, (mr_network r, mr_name r)) <$> monitors t);
  wf_monitor_abis r n : r ∈ monitors t → mr_abi_name r = Some n → n ∈ ar_name <$> abis t;
  wf_abi_names : NoDup (ar_name <$> abis t);
  wf_action_ids : increasing acr_action_id (actions_seq t) (actions t);
  wf_action_names : NoDup ((λ r, (acr_name r, acr_network_id r)) <$> actions t);
  wf_outbox : outbox_wf t
}.

Lemma next_id_Ok seq id : next_id seq = Ok id → id = (seq + 1)%Z.
Proof. unfold next_id. case_match; [done|]. by intros [= <-]. Qed.

(** The statements of the outbox. *)
Lemma insert_or_ignore_wf t name p json t' :
  to_string p = Ok json → outbox_wf t →
  insert_or_ignore t (name, json, idempotency_key p) = Ok t' → outbox_wf t'.
Proof.
  intros Hjson [Hids Hkeys Hpay]. unfold insert_or_ignore.
  intros (id & ->%next_id_Ok & Ht')%bind_Ok. case_bool_decide as Hk; injection Ht' as <-.
  - split; [|done..]. cbn. destruct ignored_row_takes_id; [|done].
    eapply increasing_weaken; [done|lia].
  - split; cbn.
    + eapply increasing_snoc; [done|cbn; lia].
    + rewrite fmap_app. apply NoDup_app. split_and!; [done| |apply NoDup_singleton].
      intros k Hk1 ->%list_elem_of_singleton. done.
    + apply Forall_app. split; [done|]. constructor; [|done]. exists p. split; [|done].
      by apply from_to_string.
Qed.

(** What a chunk is serialised to. *)
Lemma serialize_items chunk rows :
  collect_result serialize_item chunk = Ok rows →
  Forall2 (λ it row, ∃ json, to_string it.2 = Ok json ∧ row = (it.1, json, idempotency_key it.2)) chunk rows.
Proof.
  rewrite collect_result_Ok. intros Hf. eapply Forall2_impl; [exact Hf|].
  intros it row Hrow. unfold serialize_item in Hrow. inv_ok. eauto.
Qed.

Lemma enqueue_chunk_wf chunk : preserves outbox_wf (enqueue_chunk chunk).
Proof.
  intros s Hs. unfold enqueue_chunk.
  destruct (collect_result serialize_item chunk) as [rows|e] eqn:Er; [|done].
  erewrite eff_bind_run by reflexivity. apply serialize_items in Er.
  apply preserves_execute; [|done]. intros t [] t' Ht (t1 & Hf & [= <-])%bind_Ok.
  clear s Hs. revert t Ht Hf. induction Er as [|it row chunk rows (json & Hj & ->) _ IH]; intros t Ht; cbn.
  - by intros [= <-].
  - intros (t2 & Hi & Hf)%bind_Ok. apply (IH t2); [|done]. by eapply insert_or_ignore_wf.
Qed.

(** ** The outbox as the services see it *)

Definition row_item (r : OutboxRow) : option OutboxItem :=
  p ← result_ok (from_str (or_payload r));
  Some (mkOutboxItem (or_id r) (or_action_name r) p (or_retries r)).
Definition view (t : Tables) : list OutboxItem := omap row_item (outbox_rows t).

(** In a well-formed table every row is an item, with its own key. *)
Lemma view_rows t :
  outbox_wf t →
  Forall2 (λ r i, row_item r = Some i ∧ or_id r = oi_id i ∧ or_idempotency_key r = item_key i)
    (outbox_rows t) (view t).
Proof.
  intros [_ _ Hp]. unfold view. induction Hp as [|r rows (p & Hr & Hk) _ IH]; [constructor|].
  cbn. unfold row_item at 2. rewrite Hr. cbn. constructor; [|done].
  unfold row_item. by rewrite Hr.
Qed.

Lemma view_ids t : outbox_wf t → oi_id <$> view t = or_id <$> outbox_rows t.
Proof. intros Hwf. induction (view_rows t Hwf) as [|r i rows items (_ & E & _) _ IH]; cbn; congruence. Qed.

Lemma view_keys t : outbox_wf t → item_key <$> view t = or_idempotency_key <$> outbox_rows t.
Proof. intros Hwf. induction (view_rows t Hwf) as [|r i rows items (_ & _ & E) _ IH]; cbn; congruence. Qed.

(** The tables after some of the items given have been enqueued since [t0]. *)
Definition enqueued_since (t0 t : Tables) (acc : list (string * ActionPayload)) : Prop :=
  outbox_wf t ∧ content <$> view t = acc ∧
  ∃ added, view t = view t0 ++ added ∧ Forall (λ i, oi_retries i = 0%Z) added.

Lemma insert_or_ignore_enqueued t0 t acc name p json t' :
  to_string p = Ok json → enqueued_since t0 t acc →
  insert_or_ignore t (name, json, idempotency_key p) = Ok t' →
  enqueued_since t0 t' (insert_new acc (name, p)).
Proof.
  intros Hj (Hwf & Hacc & added & Hadd & Hr) Hi.
  pose proof (insert_or_ignore_wf t name p json t' Hj Hwf Hi) as Hwf'.
  revert Hi. unfold insert_or_ignore. intros (id & _ & Ht')%bind_Ok.
  assert ((λ q : string * ActionPayload, idempotency_key q.2) <$> acc = or_idempotency_key <$> outbox_rows t) as Hkeys.
  { rewrite <- view_keys by done. rewrite <- Hacc, <- list_fmap_compose. done. }
  unfold insert_new. cbn. rewrite Hkeys. case_bool_decide as Hk; injection Ht' as <-.
  - rewrite decide_True by done. split; [done|]. split; [done|]. by exists added.
  - rewrite decide_False by done.
    assert (view (set_outbox (outbox_rows t ++ [mkOutboxRow id name json 0 (idempotency_key p)]) id t) =
      view t ++ [mkOutboxItem id name p 0]) as Hv.
    { unfold view. cbn. rewrite omap_app. cbn. unfold row_item at 2. cbn. by rewrite (from_to_string p json Hj). }
    split; [done|]. rewrite Hv, fmap_app, Hacc. split; [done|].
    exists (added ++ [mkOutboxItem id name p 0]). rewrite Hadd, app_assoc. split; [done|].
    apply Forall_app. split; [done|]. by repeat constructor.
Qed.

Lemma enqueue_chunk_enqueued t0 acc chunk s u s' :
  enqueued_since t0 (sq_tables s) acc → enqueue_chunk chunk s = (Ok u, s') →
  enqueued_since t0 (sq_tables s') (foldl insert_new acc chunk).
Proof.
  intros Hs. unfold enqueue_chunk. intros (rows & s1 & [= Er ->] & He)%eff_bind_Ok.
  apply serialize_items in Er. apply execute_Ok in He. apply bind_Ok in He as (t' & Hf & [= _ <-]).
  revert acc Hs Hf. generalize (sq_tables s1). clear s1.
  induction Er as [|[name p] row chunk rows (json & Hj & ->) _ IH]; intros t acc Hs; cbn.
  - by intros [= <-].
  - intros (t2 & Hi & Hf)%bind_Ok. apply (IH t2); [|done]. by eapply insert_or_ignore_enqueued.
Qed.

Lemma foldl_chunks {A B} (f : B → A → B) n b l :
  0 < n → foldl (foldl f) b (chunks n l) = foldl f b l.
Proof.
  intros Hn. rewrite <- (chunks_concat n l Hn) at 2. generalize (chunks n l). clear l. intros ls.
  revert b. induction ls as [|l ls IH]; intros b; cbn; [done|]. by rewrite foldl_app, IH.
Qed.

Lemma enqueue_enqueued items s u s' :
  outbox_wf (sq_tables s) → enqueue_outbox_batch items s = (Ok u, s') →
  enqueued_since (sq_tables s) (sq_tables s') (foldl insert_new (content <$> view (sq_tables s)) items).
Proof.
  intros Hwf. assert (enqueued_since (sq_tables s) (sq_tables s) (content <$> view (sq_tables s))) as H0'.
  { split; [done|]. split; [done|]. exists []. by rewrite app_nil_r. }
  destruct items as [|it items]; [by intros [= _ <-]|]. cbn [enqueue_outbox_batch sqlite_outbox]; unfold sqlite_enqueue_outbox_batch.
  intros (s1 & s2 & u' & E1 & Eb & ->)%transaction_Ok. rewrite <- E1 in H0' at 2.
  rewrite <- (foldl_chunks insert_new (SQLITE_MAX_VARIABLES / OUTBOX_INSERT_COLUMNS)); [|vm_compute; lia].
  eapply (for_each_Ok (enqueued_since (sq_tables s)) enqueue_chunk (foldl insert_new)); [|exact H0'|exact Eb].
  intros chunk s3 u3 s4 acc _. apply enqueue_chunk_enqueued.
Qed.

Lemma preserves_outbox_wf_enqueue items : preserves outbox_wf (enqueue_outbox_batch items).
Proof.
  destruct items; [apply preserves_ret|]. apply preserves_transaction, preserves_for_each, enqueue_chunk_wf.
Qed.

Lemma enqueue_Err items s e s' : enqueue_outbox_batch items s = (Err e, s') → sq_tables s' = sq_tables s.
Proof. destruct items; [done|]. apply transaction_rolls_back. Qed.

(** Reading: the rows are already in the order of their identifiers. *)
Lemma sorted_rows t : outbox_wf t → merge_sort id_le (outbox_rows t) = outbox_rows t.
Proof.
  intros [Hids _ _]. pose proof (increasing_NoDup _ _ _ Hids) as Hnd. destruct Hids as [Hs _].
  assert (StronglySorted id_le (outbox_rows t)) as Hle.
  { clear Hnd. induction (outbox_rows t) as [|r rows IH]; [constructor|]. rewrite fmap_cons in Hs.
    apply StronglySorted_inv in Hs as [Hs Hr]. constructor; [by apply IH|].
    rewrite Forall_forall in Hr. apply Forall_forall. intros r' Hr'. unfold id_le.
    specialize (Hr (or_id r') ltac:(by apply list_elem_of_fmap_2)). lia. }
  assert (Transitive id_le) by (intros a b c; unfold id_le; lia).
  assert (Total id_le) by (intros a b; unfold id_le; lia).
  apply (StronglySorted_unique_strong id_le); [|by apply StronglySorted_merge_sort|done|apply merge_sort_Permutation].
  intros r1 r2 Hr1 Hr2 H12 H21. rewrite merge_sort_Permutation in Hr1.
  apply list_elem_of_lookup in Hr1 as [i1 Hi1]. apply list_elem_of_lookup in Hr2 as [i2 Hi2].
  assert (i1 = i2) as ->.
  { eapply NoDup_lookup; [exact Hnd|..]; rewrite list_lookup_fmap, ?Hi1, ?Hi2; cbn; [reflexivity|].
    unfold id_le in *. f_equal. lia. }
  congruence.
Qed.

Lemma item_of_row_Ok r i : item_of_row r = Ok i → row_item r = Some i.
Proof.
  unfold item_of_row, row_item, deserialize. intros (p & Hp%map_err_Ok & Hi)%bind_Ok. rewrite Hp. cbn.
  by case_match; [injection Hi as <-|].
Qed.

Lemma pending_take limit s r s' :
  outbox_wf (sq_tables s) → get_pending_outbox limit s = (r, s') →
  sq_tables s' = sq_tables s ∧
  (∀ l, r = Ok l → (0 ≤ limit)%Z → l = take (Z.to_nat limit) (view (sq_tables s))).
Proof.
  intros Hwf. cbn [get_pending_outbox sqlite_outbox]; unfold sqlite_get_pending_outbox. unfold mbind, eff_bind.
  destruct (select _ s) as [[rows|e] s1] eqn:Es; apply select_tables in Es as [Et Erows].
  - unfold lift_result. intros [= <- <-]. split; [done|]. intros l Hl Hlim.
    specialize (Erows rows eq_refl). cbn in Erows. rewrite (proj2 (Z.ltb_ge _ _)), sorted_rows in Erows by done.
    subst rows. rewrite collect_result_Ok in Hl. clear Et.
    pose proof (view_rows _ Hwf) as Hv. apply (Forall2_take _ _ _ (Z.to_nat limit)) in Hv.
    revert Hl Hv. generalize (take (Z.to_nat limit) (view (sq_tables s))). intros l' Hl. revert l'.
    induction Hl as [|r i rows l Hi%item_of_row_Ok _ IH]; intros l'; [by inversion 1|].
    inversion 1 as [|? i' ? l'' (Hi' & _) Hv']; subst. f_equal; [congruence|by apply IH].
  - intros [= <- <-]. done.
Qed.

Definition drop_ids (ids : list Z) (t : Tables) : Tables :=
  set_outbox (filter (λ r, or_id r ∉ ids) (outbox_rows t)) (outbox_seq t) t.

Lemma drop_ids_wf ids t : outbox_wf t → outbox_wf (drop_ids ids t).
Proof.
  intros [Hids Hkeys Hp]. split; cbn.
  - by apply increasing_filter.
  - by apply NoDup_fmap_filter.
  - rewrite Forall_forall in Hp |- *. intros r [_ Hr]%list_elem_of_filter. by apply Hp.
Qed.

Lemma drop_ids_view ids t : outbox_wf t → view (drop_ids ids t) = filter (λ i, oi_id i ∉ ids) (view t).
Proof.
  intros Hwf. unfold view at 1. cbn.
  induction (view_rows t Hwf) as [|r i rows items (Hi & E & _) _ IH]; [done|].
  rewrite !filter_cons. rewrite E. case_decide; [|exact IH]. cbn. rewrite Hi. by rewrite IH.
Qed.

Lemma delete_preserves ids : preserves outbox_wf (delete_outbox_items_batch ids).
Proof.
  destruct ids; [apply preserves_ret|]. apply preserves_transaction, preserves_for_each. intros chunk.
  apply preserves_execute. intros t a t' Ht [= _ <-]. by apply drop_ids_wf.
Qed.

Lemma foldl_filter (cs : list (list Z)) (l : list OutboxItem) :
  foldl (λ l chunk, filter (λ i, oi_id i ∉ chunk) l) l cs = filter (λ i, oi_id i ∉ concat cs) l.
Proof.
  revert l. induction cs as [|c cs IH]; intros l; cbn.
  - symmetry. apply filter_all, Forall_forall. intros. apply not_elem_of_nil.
  - rewrite IH, list_filter_filter. apply list_filter_iff. intros i. set_solver.
Qed.

Lemma delete_Ok ids s u s' :
  outbox_wf (sq_tables s) → delete_outbox_items_batch ids s = (Ok u, s') →
  view (sq_tables s') = filter (λ i, oi_id i ∉ ids) (view (sq_tables s)).
Proof.
  intros Hwf. destruct ids as [|id ids].
  { intros [= _ <-]. symmetry. apply filter_all, Forall_forall. intros. apply not_elem_of_nil. }
  cbn [delete_outbox_items_batch sqlite_outbox]; unfold sqlite_delete_outbox_items_batch. intros (s1 & s2 & u' & E1 & Eb & ->)%transaction_Ok.
  assert (filter (λ i, oi_id i ∉ id :: ids) (view (sq_tables s)) =
    foldl (λ l chunk, filter (λ i, oi_id i ∉ chunk) l) (view (sq_tables s))
      (chunks SQLITE_MAX_VARIABLES (id :: ids))) as ->.
  { rewrite foldl_filter, chunks_concat by (vm_compute; lia). done. }
  refine (proj2 (for_each_Ok (λ t l, outbox_wf t ∧ view t = l) _ _ _ _ _ _ (view (sq_tables s)) _ _ Eb)).
  - intros chunk s3 u3 s4 l _ [Hwf3 Hv3] Ex. apply execute_Ok in Ex. injection Ex as _ Ex. rewrite <- Ex.
    fold (drop_ids chunk (sq_tables s3)). split; [by apply drop_ids_wf|]. by rewrite drop_ids_view, Hv3.
  - by rewrite E1.
Qed.

Lemma increment_spec id s r s' :
  outbox_wf (sq_tables s) → increment_outbox_retries id s = (r, s') →
  outbox_wf (sq_tables s') ∧
  view (sq_tables s') = match r with Ok _ => retried id <$> view (sq_tables s) | Err _ => view (sq_tables s) end.
Proof.
  intros Hwf E. cbn [increment_outbox_retries sqlite_outbox] in E; unfold sqlite_increment_outbox_retries in E. destruct r as [u|e].
  2:{ apply execute_Err in E as ->. done. }
  apply execute_Ok in E. injection E as _ <-.
  set (f := λ r, if decide (or_id r = id) then
      mkOutboxRow (or_id r) (or_action_name r) (or_payload r) (or_retries r + 1) (or_idempotency_key r) else r).
  assert (∀ r, or_id (f r) = or_id r ∧ or_idempotency_key (f r) = or_idempotency_key r ∧
    or_payload (f r) = or_payload r) as Hf by (intros r; unfold f; by case_decide).
  split.
  - destruct Hwf as [Hids Hkeys Hp]. split; cbn.
    + eapply increasing_key_eq; [|exact Hids]. rewrite <- list_fmap_compose.
      apply list_fmap_ext. intros i r _. cbn. symmetry. apply Hf.
    + rewrite <- list_fmap_compose. erewrite list_fmap_ext; [exact Hkeys|]. intros i r _. apply Hf.
    + apply Forall_fmap. eapply Forall_impl; [exact Hp|]. intros r (p & Hr & Hk). exists p. cbn.
      destruct (Hf r) as (_ & -> & ->). done.
  - unfold view at 1. cbn.
    induction (view_rows _ Hwf) as [|r i rows items (Hi & E & _) _ IH]; [done|]. cbn.
    assert (row_item (f r) = Some (retried id i)) as ->; [|by rewrite IH].
    unfold row_item in Hi |- *. destruct (Hf r) as (-> & _ & ->).
    destruct (result_ok (from_str (or_payload r))) as [p|]; [|done]. injection Hi as <-. cbn.
    unfold f, retried. cbn. by case_decide.
Qed.

#[export] Instance sqlite_block_laws : BlockStateLaws SqliteStateRepository.
Proof.
  refine {| last_block := λ s n, processed_blocks (sq_tables s) !! n |}.
  - intros n s r s'. cbn [get_last_processed_block sqlite_block_state]; unfold sqlite_get_last_processed_block. unfold mbind, eff_bind.
    destruct (select _ s) as [[o|e] s1] eqn:Es; apply select_tables in Es as [Et Eo]; [|intros [= <- <-]; by rewrite Et].
    rewrite (Eo o eq_refl). clear Eo.
    destruct (processed_blocks (sq_tables s) !! n) as [b|] eqn:Eb; [unfold u64_try_from; destruct (0 <=? b)%Z|];
      intros [= <- <-]; rewrite Et, ?Eb; (split; [done|]); naive_solver.
  - intros n b s r s'. cbn [set_last_processed_block sqlite_block_state]; unfold sqlite_set_last_processed_block. unfold i64_try_from.
    destruct (b <=? i64_max)%Z; [|by intros [= <- <-]]. intros E. destruct r as [u|e].
    + apply execute_Ok in E. injection E as _ <-. cbn. split; [apply lookup_insert_eq|].
      intros n' Hn'. by apply lookup_insert_ne.
    + by apply execute_Err in E as ->.
Defined.

#[export] Instance sqlite_outbox_laws : OutboxLaws SqliteStateRepository.
Proof.
  refine {| outbox := λ s, view (sq_tables s); outbox_ok := λ s, outbox_wf (sq_tables s) |}.
  - intros s Hwf. rewrite view_ids by done. eapply increasing_NoDup, ow_ids, Hwf.
  - intros s Hwf. rewrite view_keys by done. apply ow_keys, Hwf.
  - intros items s r s' Hwf E. split.
    + pose proof (preserves_outbox_wf_enqueue items s Hwf) as Hp. by rewrite E in Hp.
    + destruct r as [u|e]; [|by apply enqueue_Err in E as ->].
      destruct (enqueue_enqueued items s u s' Hwf E) as (_ & Hc & added & ? & ?). eauto.
  - intros limit s r s' Hwf E. destruct (pending_take limit s r s' Hwf E) as [-> Hl]. done.
  - intros ids s r s' Hwf E. split.
    + pose proof (delete_preserves ids s Hwf) as Hp. by rewrite E in Hp.
    + destruct r as [u|e]; [by eapply delete_Ok|].
      destruct ids; [done|]. by apply transaction_rolls_back in E as ->.
  - intros id s r s'. apply increment_spec.
Defined.

(** A key with the prefix is matched by the pattern of the prefix, even when the
    prefix contains wildcards. *)
Lemma like_any s : like_match [LAny] s = true.
Proof. induction s as [|c s IH]; [done|]. cbn in *. by rewrite IH. Qed.

Lemma like_any_here ts s : like_match ts s = true → like_match (LAny :: ts) s = true.
Proof. intros Hm. destruct s; cbn [like_match]; by rewrite Hm. Qed.

Lemma like_prefix (p : list Ascii.ascii) s : like None (p ++ [percent]) (p ++ s) = true.
Proof.
  assert (∃ ts, like_tokens None (p ++ [percent]) = Some ts ∧ like_match ts (p ++ s) = true) as (ts & E & Hm).
  { induction p as [|c p (ts & E & Hm)]; [exists [LAny]; split; [done|apply like_any]|].
    cbn [app like_tokens]. rewrite decide_False by done. rewrite E. eexists. split; [reflexivity|].
    case_decide; [|case_decide].
    - apply orb_true_iff. right. exact (like_any_here ts (p ++ s) Hm).
    - exact Hm.
    - cbn. by rewrite bool_decide_true. }
  unfold like. by rewrite E.
Qed.

(** A pattern [%"name"%] with its escapes finds the quoted name anywhere in a text. *)
Lemma like_skip ts pre s : like_match (LAny :: ts) s = true → like_match (LAny :: ts) (pre ++ s) = true.
Proof.
  intros Hm. induction pre as [|c pre IH]; [done|]. change (like_match (LAny :: ts) ((c :: pre) ++ s)) with
    (like_match ts ((c :: pre) ++ s) || like_match (LAny :: ts) (pre ++ s)). rewrite IH. apply orb_true_r.
Qed.

Lemma like_chars l ts s : like_match ts s = true → like_match ((LChar <$> l) ++ ts) (l ++ s) = true.
Proof.
  intros Hm. induction l as [|c l IH]; [done|]. cbn. by rewrite bool_decide_true.
Qed.

Lemma like_tokens_escaped l k ts :
  backslash ∉ l → like_tokens (Some backslash) k = Some ts →
  like_tokens (Some backslash)
    (replace_char underscore [backslash; underscore] (replace_char percent [backslash; percent] l) ++ k) =
  Some ((LChar <$> l) ++ ts).
Proof.
  intros Hl Hk. induction l as [|c l IH]; [done|].
  apply not_elem_of_cons in Hl as [Hc Hl]. specialize (IH Hl). cbn [replace_char].
  destruct (decide (c = percent)) as [->|Hp].
  { cbn [app replace_char]. rewrite !decide_False by done. cbn [app like_tokens].
    rewrite decide_True by done. by rewrite IH. }
  cbn [replace_char]. destruct (decide (c = underscore)) as [->|Hu].
  { cbn [app like_tokens]. rewrite decide_True by done. by rewrite IH. }
  cbn [app like_tokens]. rewrite decide_False by congruence. rewrite IH. cbn.
  by rewrite !decide_False by done.
Qed.

Lemma like_quoted n pre post :
  backslash ∉ chars n →
  like (Some backslash) (like_clause n) (pre ++ [dquote] ++ chars n ++ [dquote] ++ post) = true.
Proof.
  intros Hn. unfold like, like_clause.
  pose proof (like_tokens_escaped (chars n) [dquote; percent] [LChar dquote; LAny] Hn ltac:(reflexivity)) as Ht.
  cbn [app like_tokens]. rewrite !decide_False by done. cbn in Ht |- *. rewrite Ht. cbn [fmap option_fmap option_map].
  apply like_skip, like_any_here. rewrite !decide_False by done.
  cbn [like_match]. rewrite bool_decide_true by done. apply like_chars. cbn [like_match].
  rewrite bool_decide_true by done. apply like_any.
Qed.

Lemma prefix_chars p k : String.prefix p k = true → ∃ s, chars k = chars p ++ s.
Proof.
  revert k. induction p as [|c p IH]; intros k; [by exists (chars k)|].
  destruct k as [|d k]; [done|]. cbn [String.prefix]. destruct (Ascii.ascii_dec c d) as [->|]; [|done].
  intros (s & E)%IH. exists s. cbn. by rewrite E.
Qed.

Lemma state_of_row_Ok {T} `{Serde T} row (kv : string * T) :
  state_of_row row = Ok kv → kv.1 = row.1 ∧ from_str row.2 = Ok kv.2.
Proof. unfold state_of_row, deserialize. intros Hr. inv_ok. done. Qed.

#[export] Instance sqlite_key_value_laws : KeyValueLaws SqliteStateRepository.
Proof.
  refine {| kv := λ s, application_state (sq_tables s) |}.
  - intros T ? k s r s'. cbn [get_json_state sqlite_key_value]; unfold sqlite_get_json_state. unfold mbind, eff_bind.
    destruct (select _ s) as [[o|e] s1] eqn:Es; apply select_tables in Es as [Et Eo]; [|intros [= <- <-]; by rewrite Et].
    rewrite (Eo o eq_refl). clear Eo.
    destruct (application_state (sq_tables s) !! k) as [str|]; unfold lift_result, deserialize;
      intros [= <- <-]; rewrite Et; (split; [done|]); intros o'; [|by intros [= <-]].
    destruct (from_str str) as [v|]; [|done]. intros [= <-]. by exists v.
  - intros T ? k v s r s'. cbn [set_json_state sqlite_key_value]; unfold sqlite_set_json_state. unfold serialize.
    destruct (to_string v) as [str|e] eqn:Ev; [|by intros [= <- <-]].
    erewrite eff_bind_run by reflexivity. intros E. destruct r as [u|e].
    + apply execute_Ok in E. injection E as _ <-. by exists str.
    + by apply execute_Err in E as ->.
  - intros T ? p s r s'. cbn [get_all_json_states_by_prefix sqlite_key_value]; unfold sqlite_get_all_json_states_by_prefix. unfold mbind, eff_bind.
    destruct (select _ s) as [[rows|e] s1] eqn:Es; apply select_tables in Es as [Et Eo]; [|intros [= <- <-]; by rewrite Et].
    specialize (Eo rows eq_refl). cbn in Eo. unfold lift_result. intros [= <- <-]. rewrite Et. split; [done|].
    intros l Hl%collect_result_Ok. set (m := application_state (sq_tables s)) in *.
    assert (l.*1 = rows.*1) as Hfst.
    { clear Eo. induction Hl as [|row kv rows l Hkv _ IH]; [done|]. cbn. rewrite IH. f_equal.
    by apply state_of_row_Ok in Hkv as [-> _]. }
    rewrite Hfst. split_and!.
    + rewrite Eo. apply NoDup_fmap_filter, NoDup_fst_map_to_list.
    + intros k v Hkv. apply list_elem_of_lookup in Hkv as [i Hi].
      destruct (Forall2_lookup_r _ _ _ _ _ Hl Hi) as ([k' str] & Hr & [E Hd]%state_of_row_Ok).
      exists str. split; [|done]. apply list_elem_of_lookup_2 in Hr. rewrite Eo in Hr.
      apply list_elem_of_filter in Hr as [_ Hr%elem_of_map_to_list]. cbn in E. by rewrite E.
    + intros k [str Hk] (tl & Htl)%prefix_chars. rewrite Eo.
      apply list_elem_of_fmap. exists (k, str). split; [done|]. apply list_elem_of_filter.
      split; [|by apply elem_of_map_to_list]. cbn. rewrite Htl. apply like_prefix.
Defined.

#[export] Instance sqlite_alert_laws : AlertStoreLaws SqliteStateRepository.
Proof.
  split.
  - intros items s.
    assert (preserves (λ t, application_state t = kv s) (enqueue_outbox_batch items)) as Hp; [|by apply Hp].
    destruct items; [apply preserves_ret|]. apply preserves_transaction, preserves_for_each.
    intros chunk. apply preserves_bind; [apply preserves_lift|]. intros rows. apply preserves_execute.
    intros t [] t' Ht (t1 & Hf & [= <-])%bind_Ok.
    eapply (foldM_inv (λ t, application_state t = kv s)); [|exact Ht|exact Hf].
    intros t2 [[name json] key] t3 _ Ht2. unfold insert_or_ignore. intros (id & _ & Ht3)%bind_Ok.
    case_bool_decide; injection Ht3 as <-; exact Ht2.
  - intros T ? k v s Hok. cbn [set_json_state sqlite_key_value]; unfold sqlite_set_json_state.
    assert (preserves (λ t, outbox_rows t = outbox_rows (sq_tables s) ∧ outbox_seq t = outbox_seq (sq_tables s))
      (set_json_state k v)) as Hp.
    { apply preserves_bind; [apply preserves_lift|]. intros str. apply preserves_execute.
      intros t [] t' Ht [= <-]. exact Ht. }
    destruct (Hp s (conj eq_refl eq_refl)) as [Hr Hq]. cbn [set_json_state sqlite_key_value] in Hr, Hq; unfold sqlite_set_json_state in Hr, Hq.
    cbn [outbox outbox_ok sqlite_outbox_laws]. unfold view. rewrite Hr. split; [|done].
    destruct Hok. by split; rewrite ?Hr, ?Hq.
Defined.

(** ** Every operation keeps the tables consistent *)

(** The operations that change the tables. *)
Inductive store_op :=
| OpSetLastBlock (n : NetworkId) (b : Z)
| OpFlush
| OpSaveEmergency (n : NetworkId) (b : Z)
| OpAddMonitors (n : NetworkId) (ms : list MonitorConfig)
| OpClearMonitors (n : NetworkId)
| OpDeleteMonitor (n : NetworkId) (id : string)
| OpUpdateMonitor (n : NetworkId) (id : string) (m : MonitorConfig)
| OpUpdateMonitorStatus (n : NetworkId) (id : string) (st : MonitorStatus)
| OpCreateAbi (name abi : string)
| OpDeleteAbi (name : string)
| OpCreateAction (n : NetworkId) (a : ActionConfig)
| OpClearActions (n : NetworkId)
| OpUpdateAction (n : NetworkId) (a : ActionConfig)
| OpDeleteAction (n : NetworkId) (id : ActionId)
| OpEnqueue (items : list (string * ActionPayload))
| OpDeleteOutbox (ids : list Z)
| OpIncrementRetries (id : Z)
| OpSetJson (key : string) (T : Type) (serde : Serde T) (v : T).

Definition run_op (op : store_op) : query unit :=
  match op with
  | OpSetLastBlock n b => set_last_processed_block n b
  | OpFlush => flush
  | OpSaveEmergency n b => save_emergency_state n b
  | OpAddMonitors n ms => add_monitors n ms
  | OpClearMonitors n => clear_monitors n
  | OpDeleteMonitor n id => delete_monitor n id
  | OpUpdateMonitor n id m => update_monitor n id m
  | OpUpdateMonitorStatus n id st => update_monitor_status n id st
  | OpCreateAbi name abi => create_abi name abi
  | OpDeleteAbi name => delete_abi name
  | OpCreateAction n a => _ ← create_action n a; mret tt
  | OpClearActions n => clear_actions n
  | OpUpdateAction n a => _ ← update_action n a; mret tt
  | OpDeleteAction n id => delete_action n id
  | OpEnqueue items => enqueue_outbox_batch items
  | OpDeleteOutbox ids => delete_outbox_items_batch ids
  | OpIncrementRetries id => increment_outbox_retries id
  | OpSetJson key T serde v => set_json_state key v
  end.

(** [store_wf] looks at four groups of tables, each changed by its own operations. *)
Lemma store_wf_outbox t rows seq :
  store_wf t → outbox_wf (set_outbox rows seq t) → store_wf (set_outbox rows seq t).
Proof. intros [] Ho. by split. Qed.

Lemma outbox_wf_same t t' :
  outbox_rows t' = outbox_rows t → outbox_seq t' = outbox_seq t → outbox_wf t → outbox_wf t'.
Proof. intros Hr Hq []. by split; rewrite ?Hr, ?Hq. Qed.

(** The groups an operation does not touch. *)
Ltac untouched :=
  cbn; try assumption;
  match goal with
  | H : outbox_wf _ |- outbox_wf _ => refine (outbox_wf_same _ _ _ _ H); reflexivity
  | _ => idtac
  end.

Lemma set_blocks_wf n b t : store_wf t → (b ≤ i64_max)%Z → store_wf (set_processed_blocks (<[n := b]> (processed_blocks t)) t).
Proof.
  intros Hwf Hb. destruct Hwf as [Hblocks]. split; untouched. intros n' b'.
  destruct (decide (n = n')) as [->|]; [rewrite lookup_insert_eq; congruence|].
  rewrite lookup_insert_ne by done. apply Hblocks.
Qed.

Lemma set_last_wf n b : preserves store_wf (set_last_processed_block n b).
Proof.
  cbn [set_last_processed_block sqlite_block_state]; unfold sqlite_set_last_processed_block. unfold i64_try_from.
  destruct (Z.leb_spec b i64_max); [|apply preserves_throw].
  apply preserves_execute. intros t a t' Ht [= _ <-]. by apply set_blocks_wf.
Qed.

Lemma set_synchronous_wf mode : preserves store_wf (set_synchronous_mode mode).
Proof.
  unfold set_synchronous_mode. case_bool_decide; [|apply preserves_throw].
  apply preserves_execute. intros t a t' Ht [= _ <-]. destruct Ht. split; untouched.
Qed.

Lemma flush_wf : preserves store_wf flush.
Proof.
  apply preserves_bind; [apply set_synchronous_wf|intros _].
  apply preserves_bind; [|intros _; apply set_synchronous_wf].
  unfold checkpoint_wal. case_bool_decide; auto with store.
Qed.

(** Removing monitors, or changing them without touching their keys. *)
Lemma filter_monitors_wf (P : MonitorRow → Prop) `{∀ r, Decision (P r)} t :
  store_wf t → store_wf (set_monitors (filter P (monitors t)) (monitors_seq t) t).
Proof.
  intros [? Hids Hnames Habis]. split; untouched.
  - by apply increasing_filter.
  - by apply NoDup_fmap_filter.
  - intros r n [_ Hr]%list_elem_of_filter. by apply Habis.
Qed.

Lemma update_monitors_wf n id f t :
  store_wf t →
  (∀ r, mr_monitor_id (f r) = mr_monitor_id r ∧ mr_network (f r) = mr_network r ∧ mr_name (f r) = mr_name r) →
  (0 < (update_monitor_rows n id f t).1 →
     ∀ r a, r ∈ monitors t → mr_abi_name (f r) = Some a → a ∈ ar_name <$> abis t) →
  store_wf (update_monitor_rows n id f t).2.
Proof.
  intros Hwf Hf Habi. destruct Hwf as [? Hids Hnames Habis]. unfold update_monitor_rows in *.
  split; untouched.
  - eapply increasing_key_eq; [|exact Hids]. symmetry. apply fmap_key_update. apply Hf.
  - rewrite (fmap_key_update (λ r, (mr_network r, mr_name r))); [done|].
    intros r. by destruct (Hf r) as (_ & -> & ->).
  - intros r' a (r & -> & Hr)%list_elem_of_fmap. cbn in Habi.
    destruct (is_monitor n id r) eqn:Eh; [|by apply Habis]. apply Habi; [|done].
    destruct (filter (λ r, is_monitor n id r = true) (monitors t)) as [|r0 rs] eqn:Ef; cbn; [|lia].
    exfalso. eapply not_elem_of_nil. rewrite <- Ef. apply list_elem_of_filter. by split.
Qed.

Lemma abi_exists_elem o t : abi_exists o t = true → ∀ a, o = Some a → a ∈ ar_name <$> abis t.
Proof. intros Ho a ->. by apply bool_decide_eq_true in Ho. Qed.

Lemma insert_monitor_wf m str t u t' : store_wf t → insert_monitor m str t = Ok (u, t') → store_wf t'.
Proof.
  intros Hwf. unfold insert_monitor. case_bool_decide as Hn; [done|].
  destruct (abi_exists _ t) eqn:Ea; cbn [negb]; [|done]. intros (id & ->%next_id_Ok & [= _ <-])%bind_Ok.
  destruct Hwf as [? Hids Hnames Habis]. split; untouched.
  - eapply increasing_snoc; [done|cbn; lia].
  - rewrite fmap_app. apply NoDup_app. split_and!; [done| |apply NoDup_singleton].
    intros k Hk ->%list_elem_of_singleton. done.
  - intros r a [Hr| ->%list_elem_of_singleton]%elem_of_app; [by apply Habis|].
    cbn. by apply abi_exists_elem.
Qed.

Lemma add_monitors_wf n ms : preserves store_wf (add_monitors n ms).
Proof.
  unfold add_monitors. case_match; [apply preserves_throw|].
  apply preserves_transaction, preserves_for_each. intros m. apply preserves_bind; [apply preserves_lift|].
  intros str. apply preserves_execute. intros t u t'. apply insert_monitor_wf.
Qed.

Lemma update_monitor_wf n id m : preserves store_wf (update_monitor n id m).
Proof.
  apply preserves_bind; [apply preserves_lift|]. intros str. apply preserves_affecting, preserves_execute.
  intros t k t' Ht. destruct (update_monitor_rows n id _ t) as [k' t1] eqn:Eu.
  destruct ((0 <? k')%nat && _) eqn:Eg; [done|]. intros [= _ <-].
  change t1 with (k', t1).2. rewrite <- Eu. apply update_monitors_wf; [done|done|].
  rewrite Eu. cbn. intros Hk r a _ Ha. apply andb_false_iff in Eg as [Eg|Eg].
  - apply Nat.ltb_ge in Eg. lia.
  - apply negb_false_iff in Eg. by eapply abi_exists_elem.
Qed.

Lemma update_status_wf n id st : preserves store_wf (update_monitor_status n id st).
Proof.
  apply preserves_affecting, preserves_execute. intros t k t' Ht Hu.
  change (store_wf (k, t').2). injection Hu as Hk Ht'. rewrite <- Hk, <- Ht'.
  apply (update_monitors_wf n id (λ r, mkMonitorRow (mr_monitor_id r) (mr_name r) (mr_network r)
    (mr_address r) (mr_abi_name r) (mr_filter_script r) (mr_actions r) (mr_created_at r) (mr_updated_at r) st));
    [done|done|]. intros _ r a Hr Ha. exact (wf_monitor_abis t Ht r a Hr Ha).
Qed.

Lemma create_abi_wf name abi : preserves store_wf (create_abi name abi).
Proof.
  apply preserves_execute. intros t u t' Ht. case_bool_decide as Hn; [done|]. intros [= _ <-].
  destruct Ht as [? ? ? Habis Hnames]. split; untouched.
  - intros r a Hr Ha. rewrite fmap_app. apply elem_of_app. left. by eapply Habis.
  - rewrite fmap_app. apply NoDup_app. split_and!; [done| |apply NoDup_singleton].
    intros k Hk ->%list_elem_of_singleton. done.
Qed.

Lemma delete_abi_row_wf name : preserves store_wf (delete_abi_row name).
Proof.
  apply preserves_affecting, preserves_execute. intros t u t' Ht.
  cbv zeta. case_match eqn:Eg; [done|]. intros [= _ <-].
  destruct Ht as [? ? ? Habis Hnames]. split; untouched.
  - intros r a Hr Ha. pose proof (Habis r a Hr Ha) as (row & -> & Hrow)%list_elem_of_fmap.
    apply list_elem_of_fmap. exists row. split; [done|]. apply list_elem_of_filter. split; [|done].
    intros <-. apply andb_false_iff in Eg as [Eg|Eg].
    + apply Nat.ltb_ge in Eg.
      assert (row ∈ filter (λ r, ar_name r = ar_name row) (abis t)) as Hin by (by apply list_elem_of_filter).
      destruct (filter _ (abis t)); [by apply not_elem_of_nil in Hin|cbn in Eg; lia].
    + apply negb_false_iff, bool_decide_eq_true in Eg. unfold monitors_using_abi in Eg.
      apply fmap_nil_inv in Eg. eapply not_elem_of_nil. rewrite <- Eg. by apply list_elem_of_filter.
  - by apply NoDup_fmap_filter.
Qed.

Lemma create_action_wf n a : preserves store_wf (create_action n a).
Proof.
  apply preserves_bind; [apply preserves_lift|]. intros config.
  apply preserves_bind; [|intros; apply preserves_ret].
  apply preserves_execute. intros t u t' Ht. case_bool_decide as Hn; [done|].
  intros (id & ->%next_id_Ok & [= _ <-])%bind_Ok.
  destruct Ht as [? ? ? ? ? Hids Hnames]. split; untouched.
  - eapply increasing_snoc; [done|cbn; lia].
  - rewrite fmap_app. apply NoDup_app. split_and!; [done| |apply NoDup_singleton].
    intros k Hk ->%list_elem_of_singleton. done.
Qed.

Lemma filter_actions_wf (P : ActionRow → Prop) `{∀ r, Decision (P r)} t :
  store_wf t → store_wf (set_actions (filter P (actions t)) (actions_seq t) t).
Proof.
  intros [? ? ? ? ? Hids Hnames]. split; untouched.
  - by apply increasing_filter.
  - by apply NoDup_fmap_filter.
Qed.

(** Renaming the row of an identifier to a name no other row has. *)
Lemma rename_NoDup {A B} (f : A → B) (hit : A → bool) (g : A → A) (b : B) (l : list A) :
  NoDup (f <$> l) → (∀ a, hit a = true → f (g a) = b) → length (filter (λ a, hit a = true) l) ≤ 1 →
  (0 < length (filter (λ a, hit a = true) l) → b ∉ f <$> filter (λ a, hit a = false) l) →
  NoDup (f <$> ((λ a, if hit a then g a else a) <$> l)).
Proof.
  intros Hnd Hg Hone Hb. rewrite <- list_fmap_compose.
  assert (∀ l, length (filter (λ a, hit a = true) l) = 0 →
    (f ∘ (λ a, if hit a then g a else a)) <$> l = f <$> l ∧ filter (λ a, hit a = false) l = l) as Hnone.
  { clear. induction l as [|a l IH]; [done|]. rewrite !filter_cons, !fmap_cons. cbn.
    destruct (hit a); [done|]. rewrite decide_False, decide_True by done. intros [-> ->]%IH. done. }
  induction l as [|a l IH]; [constructor|]. rewrite fmap_cons in *. apply NoDup_cons in Hnd as [Ha Hnd].
  rewrite filter_cons in Hone. rewrite !filter_cons in Hb. cbn. destruct (hit a) eqn:Eh.
  - rewrite decide_True in Hone by done. rewrite decide_True, decide_False in Hb by done. cbn in Hone, Hb.
    destruct (Hnone l ltac:(lia)) as [-> Hl]. rewrite Hl in Hb. rewrite Hg by done.
    apply NoDup_cons. split; [apply Hb; lia|done].
  - rewrite decide_False in Hone by done. rewrite decide_False, decide_True in Hb by done. rewrite fmap_cons in Hb.
    apply NoDup_cons. split; [|apply IH; [done..|set_solver]].
    intros (a' & Ea & Ha')%list_elem_of_fmap. cbn in Ea. destruct (hit a') eqn:Eh'.
    + rewrite Hg in Ea by done. apply Hb; [|set_solver].
      destruct (filter (λ a, hit a = true) l) eqn:Ef; cbn; [|lia].
      exfalso. eapply not_elem_of_nil. rewrite <- Ef. by apply list_elem_of_filter.
    + apply Ha, list_elem_of_fmap. by exists a'.
Qed.

(** At most one row has a given identifier. *)
Lemma is_action_once n id t : store_wf t → length (filter (λ r, is_action n id r = true) (actions t)) ≤ 1.
Proof.
  intros Hwf. pose proof (increasing_NoDup _ _ _ (wf_action_ids t Hwf)) as Hnd.
  induction (actions t) as [|r rows IH]; [cbn; lia|]. rewrite filter_cons.
  rewrite fmap_cons in Hnd. apply NoDup_cons in Hnd as [Hr Hnd].
  destruct (is_action n id r) eqn:Er; [|rewrite decide_False by done; by apply IH].
  rewrite decide_True by done. cbn.
  enough (filter (λ r, is_action n id r = true) rows = []) as -> by (cbn; lia).
  apply filter_none, Forall_forall. intros r' Hr' E'. apply Hr, list_elem_of_fmap. exists r'.
  unfold is_action in *. bool_to_prop. split; [congruence|done].
Qed.

Lemma update_action_wf n a : preserves store_wf (update_action n a).
Proof.
  unfold update_action. destruct (ac_id a) as [id|]; [|apply preserves_throw].
  apply preserves_bind; [apply preserves_lift|]. intros config.
  apply preserves_bind; [|intros; apply preserves_ret].
  apply preserves_affecting, preserves_execute. intros t k t' Ht.
  cbv zeta. case_match eqn:Eg; [done|]. intros [= _ <-].
  pose proof (is_action_once n id t Ht) as Honce. destruct Ht as [? ? ? ? ? Hids Hnames]. split; untouched.
  - eapply increasing_key_eq; [|exact Hids]. symmetry. by apply fmap_key_update.
  - eapply (rename_NoDup _ _ _ (ac_name a, n)); [done| |done|].
    + intros r Hr. cbn. unfold is_action in Hr. bool_to_prop. by subst.
    + intros Hk. apply andb_false_iff in Eg as [Eg|Eg]; [apply Nat.ltb_ge in Eg; lia|].
      by apply bool_decide_eq_false in Eg.
Qed.

Lemma clear_monitors_wf n : preserves store_wf (clear_monitors n).
Proof. apply preserves_execute. intros t u t' Ht [= _ <-]. by apply filter_monitors_wf. Qed.
Lemma delete_monitor_wf n id : preserves store_wf (delete_monitor n id).
Proof. apply preserves_affecting, preserves_execute. intros t k t' Ht [= _ <-]. by apply filter_monitors_wf. Qed.
Lemma clear_actions_wf n : preserves store_wf (clear_actions n).
Proof. apply preserves_execute. intros t u t' Ht [= _ <-]. by apply filter_actions_wf. Qed.
Lemma delete_action_wf n id : preserves store_wf (delete_action n id).
Proof. apply preserves_affecting, preserves_execute. intros t k t' Ht [= _ <-]. by apply filter_actions_wf. Qed.

Lemma outbox_op_wf (m : query unit) :
  preserves outbox_wf m →
  (∀ t0, preserves (λ t, ∃ rows seq, t = set_outbox rows seq t0) m) →
  preserves store_wf m.
Proof.
  intros Hm Hs s Hwf.
  destruct (Hs (sq_tables s) s) as (rows & seq & E).
  { exists (outbox_rows (sq_tables s)), (outbox_seq (sq_tables s)). by destruct (sq_tables s). }
  specialize (Hm s (wf_outbox _ Hwf)). rewrite E in *. by apply store_wf_outbox.
Qed.

Lemma only_outbox_execute t0 (f : Tables → result string (unit * Tables)) :
  (∀ t u t', f t = Ok (u, t') → ∃ rows seq, t' = set_outbox rows seq t) →
  preserves (λ t, ∃ rows seq, t = set_outbox rows seq t0) (execute f).
Proof. intros Hf. apply preserves_execute. intros t u t' (rows & seq & ->) (rows' & seq' & ->)%Hf. by eexists _, _. Qed.

Lemma insert_rows_only_outbox rows t t' :
  foldM insert_or_ignore rows t = Ok t' → ∃ rows seq, t' = set_outbox rows seq t.
Proof.
  revert t. induction rows as [|[[name json] key] rows IH]; intros t; cbn.
  - intros [= <-]. exists (outbox_rows t), (outbox_seq t). by destruct t.
  - intros (t1 & Hi & (rows' & seq' & ->)%IH)%bind_Ok. unfold insert_or_ignore in Hi.
    apply bind_Ok in Hi as (id & _ & Hi). case_bool_decide; injection Hi as <-; by eexists _, _.
Qed.

Lemma run_op_wf op : preserves store_wf (run_op op).
Proof.
  destruct op; cbn [run_op].
  - apply set_last_wf.
  - apply flush_wf.
  - apply preserves_bind; [apply set_last_wf|intros _; apply flush_wf].
  - apply add_monitors_wf.
  - apply clear_monitors_wf.
  - apply delete_monitor_wf.
  - apply update_monitor_wf.
  - apply update_status_wf.
  - apply create_abi_wf.
  - apply preserves_bind; [apply preserves_select|]. intros [|? ?]; [apply delete_abi_row_wf|apply preserves_throw].
  - apply preserves_bind; [apply create_action_wf|intros; apply preserves_ret].
  - apply clear_actions_wf.
  - apply preserves_bind; [apply update_action_wf|intros; apply preserves_ret].
  - apply delete_action_wf.
  - apply outbox_op_wf; [apply preserves_outbox_wf_enqueue|]. intros t0.
    destruct items; [apply preserves_ret|]. apply preserves_transaction, preserves_for_each. intros chunk.
    apply preserves_bind; [apply preserves_lift|]. intros rows. apply only_outbox_execute.
    intros t u t' (t1 & Hf & [= _ <-])%bind_Ok. by eapply insert_rows_only_outbox.
  - apply outbox_op_wf; [apply delete_preserves|]. intros t0.
    destruct ids; [apply preserves_ret|]. apply preserves_transaction, preserves_for_each. intros chunk.
    apply only_outbox_execute. intros t u t' [= _ <-]. by eexists _, _.
  - apply outbox_op_wf.
    + intros s Hs. by eapply increment_spec; [|apply surjective_pairing].
    + intros t0. apply only_outbox_execute. intros t u t' [= _ <-]. by eexists _, _.
  - apply preserves_bind; [apply preserves_lift|]. intros str.
    apply preserves_execute. intros t u t' Ht [= _ <-]. destruct Ht. split; untouched.
Qed.

Lemma empty_store_wf : store_wf empty_tables.
Proof.
  split; cbn; try done; try constructor; try constructor; cbn; try constructor; try done.
  intros r n Hr. by apply not_elem_of_nil in Hr.
Qed.

(** C31: Whatever operations are run on a new database, in whatever order and whatever
    statements fail, the tables stay consistent: identifiers and names are unique,
    every monitor's ABI exists, block numbers fit their column, and the outbox holds
    readable payloads under their own, distinct idempotency keys. *)
Theorem store_reachable_wf ops faults :
  store_wf (sq_tables (foldl (λ s op, (run_op op s).2) (mkSqlite empty_tables faults) ops)).
Proof.
  induction ops as [|op ops IH] using rev_ind; [apply empty_store_wf|].
  rewrite foldl_app. cbn. by apply run_op_wf.
Qed.

(** ** Enqueuing succeeds when the database does *)

Definition healthy (s : SqliteStateRepository) : Prop := Forall (λ b, b = false) (sq_faults s).

Lemma execute_healthy {A} (f : Tables → result string (A * Tables)) s a t :
  healthy s → f (sq_tables s) = Ok (a, t) →
  ∃ s', execute f s = (Ok a, s') ∧ sq_tables s' = t ∧ healthy s'.
Proof.
  unfold healthy, execute. intros Hs Hf. destruct Hs as [|b fs -> Hs]; rewrite Hf; eexists; by split_and!.
Qed.

Lemma execute_healthy_Err {A} (f : Tables → result string (A * Tables)) s e :
  healthy s → f (sq_tables s) = Err e →
  ∃ s', execute f s = (Err (OperationFailed e), s') ∧ sq_tables s' = sq_tables s ∧ healthy s'.
Proof.
  unfold healthy, execute. intros Hs Hf. destruct Hs as [|b fs -> Hs]; rewrite Hf; eexists; by split_and!.
Qed.

Lemma control_healthy s : healthy s → ∃ s', control s = (Ok tt, s') ∧ sq_tables s' = sq_tables s ∧ healthy s'.
Proof. intros Hs. by apply (execute_healthy _ _ tt (sq_tables s)). Qed.

(** A loop of statements on a healthy database, with a budget [cost]. *)
Lemma for_each_healthy {A} (f : A → query unit) (cost : A → Z) l s :
  (∀ a s, a ∈ l → healthy s → (0 ≤ outbox_seq (sq_tables s))%Z →
     (outbox_seq (sq_tables s) + cost a ≤ i64_max)%Z →
     ∃ s', f a s = (Ok tt, s') ∧ healthy s' ∧
       (0 ≤ outbox_seq (sq_tables s') ≤ outbox_seq (sq_tables s) + cost a)%Z) →
  (∀ a, a ∈ l → 0 ≤ cost a)%Z →
  healthy s → (0 ≤ outbox_seq (sq_tables s))%Z →
  (outbox_seq (sq_tables s) + foldr (λ a z, cost a + z)%Z 0%Z l ≤ i64_max)%Z →
  ∃ s', for_each f l s = (Ok tt, s') ∧ healthy s'.
Proof.
  revert s. induction l as [|a l IH]; intros s Hf Hc Hs H0' Hb; cbn in *; [by exists s|].
  assert (0 ≤ foldr (λ a z, cost a + z) 0 l)%Z.
  { clear -Hc. assert (∀ a, a ∈ l → (0 ≤ cost a)%Z) as Hl by (intros; apply Hc; by right).
    clear Hc. induction l as [|b l IH]; cbn; [lia|].
    pose proof (Hl b ltac:(by left)). specialize (IH ltac:(intros; apply Hl; by right)). lia. }
  destruct (Hf a s ltac:(by left) Hs H0' ltac:(lia)) as (s1 & E & Hs1 & Hq).
  rewrite (eff_bind_run _ _ _ _ _ E).
  apply IH; [|intros; apply Hc; by right|done|lia|lia]. intros ?? Ha. apply Hf. by right.
Qed.

Lemma enqueue_chunk_healthy chunk s :
  Forall (λ it : string * ActionPayload, is_ok (to_string it.2) = true) chunk →
  healthy s → (0 ≤ outbox_seq (sq_tables s))%Z →
  (outbox_seq (sq_tables s) + Z.of_nat (length chunk) ≤ i64_max)%Z →
  ∃ s', enqueue_chunk chunk s = (Ok tt, s') ∧ healthy s' ∧
    (0 ≤ outbox_seq (sq_tables s') ≤ outbox_seq (sq_tables s) + Z.of_nat (length chunk))%Z.
Proof.
  intros Hok Hs H0' Hb.
  assert (∃ rows, collect_result serialize_item chunk = Ok rows ∧ length rows = length chunk) as (rows & Er & Hlen).
  { clear -Hok. induction Hok as [|it chunk Hit _ (rows & E & Hl)]; [by exists []|].
    cbn [collect_result]. destruct (serialize_item it) as [row|] eqn:Ei.
    - exists (row :: rows). cbn. rewrite E, Hl. done.
    - unfold serialize_item in Ei. by destruct (to_string it.2). }
  assert (∃ t, foldM insert_or_ignore rows (sq_tables s) = Ok t ∧
    (0 ≤ outbox_seq t ≤ outbox_seq (sq_tables s) + Z.of_nat (length chunk))%Z) as (t & Ef & Hq).
  { rewrite <- Hlen in *. clear -Hb H0'. revert H0' Hb. generalize (sq_tables s).
    induction rows as [|[[name json] key] rows IH]; intros t H0' Hb; cbn in *; [exists t; split; [done|lia]|].
    unfold insert_or_ignore at 1, next_id. destruct (Z.leb_spec i64_max (outbox_seq t)); [lia|]. cbn.
    case_bool_decide; cbn.
    - destruct (IH (set_outbox (outbox_rows t) (if ignored_row_takes_id then outbox_seq t + 1 else outbox_seq t)%Z t))
        as (t' & E & Hq); [cbn; destruct ignored_row_takes_id; lia..|].
      exists t'. split; [done|]. cbn in Hq. destruct ignored_row_takes_id; lia.
    - edestruct IH as (t' & E & Hq); [| |exists t'; split; [exact E|]]; cbn in *; lia. }
  destruct (execute_healthy (λ t, t' ← foldM insert_or_ignore rows t; Ok (tt, t')) s tt t Hs) as (s' & E & Et & Hs');
    [by rewrite Ef|].
  exists s'. unfold enqueue_chunk. erewrite eff_bind_run by (unfold lift_result; rewrite Er; reflexivity).
  rewrite E, Et. done.
Qed.

Lemma enqueue_healthy items s :
  Forall (λ it : string * ActionPayload, is_ok (to_string it.2) = true) items →
  healthy s → (0 ≤ outbox_seq (sq_tables s))%Z →
  (outbox_seq (sq_tables s) + Z.of_nat (length items) ≤ i64_max)%Z →
  ∃ s', enqueue_outbox_batch items s = (Ok tt, s').
Proof.
  intros Hok Hs H0' Hb. destruct items as [|it items]; [by eexists|].
  cbn [enqueue_outbox_batch sqlite_outbox]; unfold sqlite_enqueue_outbox_batch. unfold transaction.
  destruct (control_healthy s Hs) as (s1 & E1 & Et1 & Hs1). rewrite (eff_bind_run _ _ _ _ _ E1).
  set (n := SQLITE_MAX_VARIABLES / OUTBOX_INSERT_COLUMNS).
  assert (0 < n) by (vm_compute; lia).
  destruct (for_each_healthy enqueue_chunk (λ c, Z.of_nat (length c)) (chunks n (it :: items)) s1) as (s2 & E2 & Hs2).
  - intros c s3 Hc. apply enqueue_chunk_healthy. rewrite <- (chunks_concat n) in Hok by done.
    rewrite Forall_concat in Hok. rewrite Forall_forall in Hok. by apply Hok.
  - lia.
  - done.
  - by rewrite Et1.
  - rewrite Et1. etrans; [|exact Hb]. apply Zplus_le_compat_l.
    rewrite <- (chunks_concat n (it :: items)) at 2 by done.
    generalize (chunks n (it :: items)). clear. intros cs. induction cs as [|c cs IH]; cbn; [lia|].
    rewrite length_app. lia.
  - rewrite (eff_bind_run _ _ _ _ _ E2). destruct (control_healthy s2 Hs2) as (s3 & E3 & _). rewrite E3. by eexists.
Qed.

(** C15: Enqueuing a batch is atomic and idempotent: on any failure (a fault of the
    database in the middle of the batch included) the tables are as before; on
    success the outbox has grown by exactly the items whose idempotency key was not
    there yet, in order, once each, with no retry, however the batch is split into
    statements; and it succeeds when the payloads can be serialised, the database has
    no fault and identifiers are left. *)
Theorem enqueue_outbox_batch_correct items s r s' :
  outbox_ok s → enqueue_outbox_batch items s = (r, s') →
  match r with
  | Err _ => sq_tables s' = sq_tables s
  | Ok _ =>
      content <$> outbox s' = foldl insert_new (content <$> outbox s) items ∧
      (∃ added, outbox s' = outbox s ++ added ∧ Forall (λ i, oi_retries i = 0%Z) added) ∧
      NoDup (item_key <$> outbox s') ∧
      (∀ it, it ∈ items → idempotency_key it.2 ∈ item_key <$> outbox s')
  end ∧
  (Forall (λ it : string * ActionPayload, is_ok (to_string it.2) = true) items → healthy s →
   (0 ≤ outbox_seq (sq_tables s))%Z →
   (outbox_seq (sq_tables s) + Z.of_nat (length items) ≤ i64_max)%Z → r = Ok tt).
Proof.
  intros Hok E. split.
  - destruct r as [u|e]; [|by eapply enqueue_Err].
    destruct (enqueue_enqueued items s u s' Hok E) as (Hwf & Hc & Hadd).
    split; [exact Hc|]. split; [exact Hadd|]. split; [by apply (outbox_keys s')|].
    intros it Hit.
    assert (item_key <$> outbox s' = (λ p, idempotency_key p.2) <$> (content <$> view (sq_tables s'))) as ->
      by by rewrite <- list_fmap_compose.
    rewrite Hc. apply insert_new_keys. right. by apply (list_elem_of_fmap_2 (λ p, idempotency_key p.2)).
  - intros Hs Hh H0' Hb. destruct (enqueue_healthy items s Hs Hh H0' Hb) as (s'' & E').
    rewrite E in E'. by injection E' as ->.
Qed.
End Invariants.

(** ** Monitors are read back as they were added *)

Section Monitors.
Context `{SqliteChoices} `{SerdeLaws (list string)}.

(** What [get_monitors] answers when no statement fails. *)
Definition listed_monitors (n : NetworkId) (t : Tables) : result PersistenceError (list Monitor) :=
  (get_monitors n (mkSqlite t [])).1.

Definition config_of (m : Monitor) : MonitorConfig :=
  mkMonitorConfig (m_name m) (m_network m) (m_address m) (m_abi_name m) (m_filter_script m)
    (m_actions m) (m_status m).

Lemma listed_monitors_eq n t :
  listed_monitors n t = collect_result monitor_of_row (filter (λ r, mr_network r = n) (monitors t)).
Proof. reflexivity. Qed.

(** The rows added for a list of configurations. *)
Definition row_of (m : MonitorConfig) (r : MonitorRow) : Prop :=
  mr_name r = mc_name m ∧ mr_network r = mc_network m ∧ mr_address r = mc_address m ∧
  mr_abi_name r = mc_abi_name m ∧ mr_filter_script r = mc_filter_script m ∧ mr_status r = mc_status m ∧
  to_string (mc_actions m) = Ok (mr_actions r).

Lemma row_of_monitor m r : row_of m r → ∃ mon, monitor_of_row r = Ok mon ∧ config_of mon = m.
Proof.
  intros (E1 & E2 & E3 & E4 & E5 & E6 & Ha%from_to_string). unfold monitor_of_row, deserialize. rewrite Ha. cbn.
  eexists. split; [done|]. unfold config_of. cbn. destruct m; cbn in *. congruence.
Qed.

Lemma rows_monitors ms rows :
  Forall2 row_of ms rows →
  ∃ added, Forall2 (λ r mon, monitor_of_row r = Ok mon) rows added ∧ config_of <$> added = ms.
Proof.
  induction 1 as [|m r ms rows Hrow _ (added & Ha & Hc)]; [by exists []|].
  destruct (row_of_monitor m r Hrow) as (mon & Hm & Ec). exists (mon :: added). split; [by constructor|].
  cbn. by rewrite Ec, Hc.
Qed.

Lemma insert_monitor_rows m str t u t' :
  to_string (mc_actions m) = Ok str → insert_monitor m str t = Ok (u, t') →
  ∃ r, monitors t' = monitors t ++ [r] ∧ row_of m r.
Proof.
  intros Hs. unfold insert_monitor. case_bool_decide; [done|]. case_match; [done|].
  intros (id & _ & [= _ <-])%bind_Ok. eexists. split; [reflexivity|]. by repeat split.
Qed.

Lemma foldl_snoc {A} (l l' : list A) : foldl (λ done a, done ++ [a]) l l' = l ++ l'.
Proof.
  revert l. induction l' as [|a l' IH]; intros l; cbn; [by rewrite app_nil_r|]. by rewrite IH, <- app_assoc.
Qed.

Lemma add_monitors_rows n ms s u s' :
  add_monitors n ms s = (Ok u, s') →
  Forall (λ m, mc_network m = n) ms ∧
  ∃ rows, monitors (sq_tables s') = monitors (sq_tables s) ++ rows ∧ Forall2 row_of ms rows.
Proof.
  unfold add_monitors. destruct (find _ ms) as [|] eqn:Ef; [done|].
  intros (s1 & s2 & u' & E1 & Eb & E2)%transaction_Ok. split.
  { apply Forall_forall. intros m Hm%list_elem_of_In. apply (find_none _ _ Ef) in Hm.
    by apply negb_false_iff, bool_decide_eq_true in Hm. }
  rewrite E2, <- E1.
  assert (foldl (λ done m, done ++ [m]) [] ms = ms) as Hms.
  { apply (foldl_snoc [] ms). }
  enough (∃ rows, monitors (sq_tables s2) = monitors (sq_tables s1) ++ rows ∧
    Forall2 row_of (foldl (λ done m, done ++ [m]) [] ms) rows) as Hrows by by rewrite Hms in Hrows.
  refine (for_each_Ok (λ t done, ∃ rows, monitors t = monitors (sq_tables s1) ++ rows ∧ Forall2 row_of done rows)
    _ (λ done m, done ++ [m]) ms s1 u' s2 [] _ _ Eb); [|exists []; by rewrite app_nil_r].
  intros m s3 u3 s4 done _ (rows & Hr & Hf) (str & s5 & [= Es ->] & Ex)%eff_bind_Ok.
  apply execute_Ok in Ex. apply map_err_Ok in Es.
  destruct (insert_monitor_rows m str _ _ _ Es Ex) as (r & -> & Hrow).
  exists (rows ++ [r]). split; [by rewrite Hr, app_assoc|]. by apply Forall2_app; [|constructor].
Qed.

Lemma add_monitors_Err n ms s e s' : add_monitors n ms s = (Err e, s') → sq_tables s' = sq_tables s.
Proof.
  unfold add_monitors. destruct (find _ ms); [by intros [= _ <-]|]. apply transaction_rolls_back.
Qed.

Lemma add_monitors_read_back n ms s u s' :
  add_monitors n ms s = (Ok u, s') →
  Forall (λ m, mc_network m = n) ms ∧
  (∀ l, listed_monitors n (sq_tables s) = Ok l →
     ∃ added, listed_monitors n (sq_tables s') = Ok (l ++ added) ∧ config_of <$> added = ms) ∧
  (∀ n', n' ≠ n → listed_monitors n' (sq_tables s') = listed_monitors n' (sq_tables s)).
Proof.
  intros E.
  destruct (add_monitors_rows n ms s u s' E) as (Hn & rows & Hr & Hrows). split; [done|].
  assert (Forall (λ r, mr_network r = n) rows) as Hnet.
  { clear -Hn Hrows. induction Hrows as [|m r ms rows (_ & E & _) _ IH]; [constructor|].
    apply Forall_cons in Hn as [Hm Hn]. constructor; [congruence|by apply IH]. }
  split.
  - intros l. rewrite !listed_monitors_eq, Hr, filter_app. rewrite (filter_all _ rows) by done.
    rewrite !collect_result_Ok. intros Hl.
    destruct (rows_monitors ms rows Hrows) as (added & Ha & Hc).
    exists added. split; [|done]. apply collect_result_Ok. by apply Forall2_app.
  - intros n' Hn'. rewrite !listed_monitors_eq, Hr, filter_app. rewrite (filter_none _ rows); [by rewrite app_nil_r|].
    eapply Forall_impl; [exact Hnet|]. cbn. congruence.
Qed.

Lemma listed_monitors_names n t l :
  listed_monitors n t = Ok l → m_name <$> l = mr_name <$> filter (λ r, mr_network r = n) (monitors t).
Proof.
  rewrite listed_monitors_eq, collect_result_Ok. induction 1 as [|r m rows l Hr _ IH]; [done|].
  rewrite !fmap_cons, IH. f_equal. unfold monitor_of_row in Hr. by apply bind_Ok in Hr as (? & _ & [= <-]).
Qed.

Lemma get_monitors_healthy n s l :
  healthy s → listed_monitors n (sq_tables s) = Ok l →
  ∃ s', get_monitors n s = (Ok l, s') ∧ sq_tables s' = sq_tables s ∧ healthy s'.
Proof.
  intros Hs Hl. unfold get_monitors.
  destruct (execute_healthy (λ t, Ok (filter (λ r, mr_network r = n) (monitors t), t)) s _ _ Hs eq_refl) as (s' & E & Et & Hs').
  exists s'. unfold select. erewrite eff_bind_run by exact E. unfold lift_result. rewrite <- listed_monitors_eq, Hl. done.
Qed.

(** Adding one monitor with a new name succeeds exactly when its ABI exists. *)
Lemma add_monitor_healthy n m str s :
  healthy s → to_string (mc_actions m) = Ok str → mc_network m = n → (monitors_seq (sq_tables s) < i64_max)%Z →
  (mc_network m, mc_name m) ∉ (λ r, (mr_network r, mr_name r)) <$> monitors (sq_tables s) →
  if abi_exists (mc_abi_name m) (sq_tables s) then (add_monitors n [m] s).1 = Ok tt
  else ∃ e, (add_monitors n [m] s).1 = Err (OperationFailed e).
Proof.
  intros Hs Hstr Hn Hseq Hname. unfold add_monitors. cbn [find].
  rewrite bool_decide_eq_true_2 by done. cbn [negb for_each]. unfold transaction.
  destruct (control_healthy s Hs) as (s1 & E1 & Et1 & Hs1). rewrite (eff_bind_run _ _ _ _ _ E1).
  unfold serialize. rewrite Hstr. cbn [map_err]. rewrite <- Et1 in *.
  destruct (abi_exists (mc_abi_name m) (sq_tables s1)) eqn:Ea.
  - assert (∃ t, insert_monitor m str (sq_tables s1) = Ok (tt, t)) as [t Hins].
    { unfold insert_monitor. rewrite bool_decide_eq_false_2, Ea by done. cbn [negb]. unfold next_id.
      rewrite (proj2 (Z.leb_gt _ _)) by lia. by eexists. }
    destruct (execute_healthy _ s1 tt t Hs1 Hins) as (s2 & E2 & _ & Hs2).
    destruct (control_healthy s2 Hs2) as (s3 & E3 & _ & _).
    unfold mbind, eff_bind, lift_result, mret, eff_ret. rewrite E2, E3. done.
  - destruct (execute_healthy_Err (insert_monitor m str) s1 "FOREIGN KEY constraint failed" Hs1) as (s2 & E2 & _ & Hs2).
    { unfold insert_monitor. by rewrite bool_decide_eq_false_2, Ea. }
    unfold mbind, eff_bind, lift_result. rewrite E2. by eexists.
Qed.

(** Adding monitors changes nothing but the monitors. *)
Lemma add_monitors_only (P : Tables → Prop) n ms :
  (∀ t rows seq, P t → P (set_monitors rows seq t)) → preserves P (add_monitors n ms).
Proof.
  intros HP. unfold add_monitors. case_match; [apply preserves_throw|].
  apply preserves_transaction, preserves_for_each. intros m. apply preserves_bind; [apply preserves_lift|].
  intros str. apply preserves_execute. intros t u t' Ht. unfold insert_monitor. case_bool_decide; [done|].
  case_match; [done|]. intros (? & _ & [= _ <-])%bind_Ok. by apply HP.
Qed.

(** C32: Adding monitors is atomic and reads back: on success every configuration was of
    the given network, and listing the monitors of the network gives the old ones
    followed by the new ones with the fields of their configurations, in order, while
    other networks are untouched; on any failure the tables are as before. *)
Theorem add_monitors_listed n ms s r s' :
  add_monitors n ms s = (r, s') →
  match r with
  | Err _ => sq_tables s' = sq_tables s
  | Ok _ =>
      Forall (λ m, mc_network m = n) ms ∧
      (∀ l, listed_monitors n (sq_tables s) = Ok l →
         ∃ added, listed_monitors n (sq_tables s') = Ok (l ++ added) ∧ config_of <$> added = ms) ∧
      (∀ n', n' ≠ n → listed_monitors n' (sq_tables s') = listed_monitors n' (sq_tables s))
  end.
Proof.
  intros E. destruct r as [u|e]; [by eapply add_monitors_read_back|by eapply add_monitors_Err].
Qed.
End Monitors.

(** ** A concrete database *)

Import MonitorMatch.Demo Interfaces.SerdeDemo.

Module StoreDemo.
#[export] Instance demo_choices : SqliteChoices :=
  {| integer_affinity := parse_i64; ignored_row_takes_id := true |}.
(** Only the name and the identifier of an action are written. *)
#[export] Instance demo_action_serde : Serde ActionConfig := {|
  to_string a :=
    match ac_config a with
    | Stdout (mkStdout None) => to_string (ac_id a, ac_name a)
    | _ => Err "unsupported"
    end;
  from_str s := p ← from_str s; Ok (mkAction p.1 p.2 (Stdout (mkStdout None)) None)
|}.

Definition demo_db (faults : list bool) : SqliteStateRepository := mkSqlite empty_tables faults.
Definition m1 : MonitorMatch := build demo_builder.
Definition m2 : MonitorMatch := build demo_tx_builder.
Definition demo_items : list (string * ActionPayload) := [("hook", Single m1); ("hook", Single m2); ("hook", Single m1)].

Definition demo_config (name : string) : MonitorConfig :=
  mkMonitorConfig name "net" None None "true" ["hook"; "log"] Active.
End StoreDemo.
Import StoreDemo.

Lemma enqueue_outbox_batch_correct_witness :
  let '(r, s') := enqueue_outbox_batch demo_items (demo_db []) in
  r = Ok tt ∧ content <$> outbox s' = [("hook", Single m1); ("hook", Single m2)] ∧
  NoDup (item_key <$> outbox s').
Proof.
  destruct (enqueue_outbox_batch demo_items (demo_db [])) as [r s'] eqn:E.
  destruct (enqueue_outbox_batch_correct demo_items (demo_db []) r s' (wf_outbox _ empty_store_wf) E) as [Hr Hok].
  assert (r = Ok tt) as ->.
  { apply Hok; [repeat constructor|constructor|vm_compute; discriminate|vm_compute; discriminate]. }
  destruct Hr as (Hc & _ & Hnd & _). split; [reflexivity|]. split; [|exact Hnd].
  rewrite Hc. vm_compute. reflexivity.
Defined.

(** A run in which one statement (the recording of the block) fails. *)
Lemma store_reachable_wf_witness :
  let ops := [OpAddMonitors "net" [demo_config "a"; demo_config "b"]; OpDeleteMonitor "net" "1";
              OpSetLastBlock "net" 7; OpEnqueue demo_items; OpIncrementRetries 1; OpDeleteOutbox [2%Z]] in
  let t := sq_tables (foldl (λ s op, (run_op op s).2) (mkSqlite empty_tables [false; false; false; false; false; true]) ops) in
  store_wf t ∧ mr_name <$> monitors t = ["b"] ∧ processed_blocks t !! "net" = None ∧ length (outbox_rows t) = 1.
Proof.
  cbv zeta. split; [apply store_reachable_wf|]. vm_compute. repeat split; reflexivity.
Defined.

(** The third statement (the insertion) fails: the transaction is rolled back. *)
Lemma enqueue_rolls_back :
  let '(r, s') := enqueue_outbox_batch demo_items (demo_db [false; true]) in
  r = Err (OperationFailed "database error") ∧ outbox s' = [].
Proof. vm_compute. by split. Qed.

Lemma add_monitors_listed_witness :
  let ms := [demo_config "a"; demo_config "b"] in
  let '(r, s') := add_monitors "net" ms (demo_db []) in
  r = Ok tt ∧
  ∃ added, listed_monitors "net" (sq_tables s') = Ok added ∧ config_of <$> added = ms.
Proof.
  cbv zeta. set (ms := [demo_config "a"; demo_config "b"]).
  assert ((add_monitors "net" ms (demo_db [])).1 = Ok tt) as Hr by (vm_compute; reflexivity).
  destruct (add_monitors "net" ms (demo_db [])) as [r s'] eqn:E. cbn in Hr. subst r.
  split; [reflexivity|].
  destruct (add_monitors_listed "net" ms (demo_db []) _ s' E) as (_ & Hl & _).
  destruct (Hl [] eq_refl) as (added & Ha & Hc). exists added. split; [exact Ha|exact Hc].
Defined.

(** A second monitor of the same name violates the unique index. *)
Lemma duplicate_monitor_rejected :
  (add_monitors "net" [demo_config "a"; demo_config "a"] (demo_db [])).1 =
    Err (OperationFailed "UNIQUE constraint failed: monitors.network, monitors.name").
Proof. vm_compute. reflexivity. Qed.

(** The monitors of an action are looked up without regard to case: those of the
    action [slack] are given for the action [Slack]. *)
Lemma action_lookup_ignores_case :
  like (Some backslash) (like_clause "Slack") ([dquote] ++ chars "slack" ++ [dquote]) = true.
Proof. vm_compute. reflexivity. Qed.
