(* ===== verification/Migrations.v ===== *)
(** * The migrations of the database and its opening ([migrations/], [argus-store/src/lib.rs])

    Each migration is a change of the database as an earlier version of the program left
    it; the runner of [sqlx] is a parameter with its documented behaviour.  From every
    version an upgrade ends in the tables of [Store], and nothing of the progress, the saved
    states, the ABIs, the actions and the alerts is lost, also when it stops half-way. *)
From S2P Require Import Prelude Models MonitorMatch Interfaces Store.

(** ** The database of any version *)

(** The rows before [20251031120000] and before [20260801000000]. *)
Record OldMonitorRow := mkOldMonitorRow {
  om_monitor_id : Z;
  om_name : string;
  om_network : string;
  om_address : option string;
  om_abi_name : option string;
  om_filter_script : string;
  om_actions : string;
  om_created_at : DateTime;
  om_updated_at : DateTime
}.
Record OldOutboxRow := mkOldOutboxRow { oo_id : Z; oo_action_name : string; oo_payload : string; oo_retries : Z }.

(** A table with its rows and its [AUTOINCREMENT] counter. *)
Inductive MonitorsTable :=
| MonitorsV1 (rows : list OldMonitorRow) (seq : Z)
| MonitorsV2 (rows : list MonitorRow) (seq : Z).
Inductive OutboxTable :=
| OutboxV1 (rows : list OldOutboxRow) (seq : Z)
| OutboxV2 (rows : list OutboxRow) (seq : Z).

Record Database := mkDatabase {
  db_processed_blocks : option (gmap NetworkId Z);
  db_actions : option (list ActionRow * Z);
  db_application_state : option (gmap string string);
  db_abis : option (list AbiRow);
  db_monitors : option MonitorsTable;
  db_outbox : option OutboxTable
}.

Definition with_blocks x db :=
  mkDatabase x (db_actions db) (db_application_state db) (db_abis db) (db_monitors db) (db_outbox db).
Definition with_actions x db :=
  mkDatabase (db_processed_blocks db) x (db_application_state db) (db_abis db) (db_monitors db) (db_outbox db).
Definition with_state x db :=
  mkDatabase (db_processed_blocks db) (db_actions db) x (db_abis db) (db_monitors db) (db_outbox db).
Definition with_abis x db :=
  mkDatabase (db_processed_blocks db) (db_actions db) (db_application_state db) x (db_monitors db) (db_outbox db).
Definition with_monitors x db :=
  mkDatabase (db_processed_blocks db) (db_actions db) (db_application_state db) (db_abis db) x (db_outbox db).
Definition with_outbox x db :=
  mkDatabase (db_processed_blocks db) (db_actions db) (db_application_state db) (db_abis db) (db_monitors db) x.

(** ** The migrations *)

Notation Migration := (Database → result string Database).

(** [CREATE TABLE IF NOT EXISTS]. *)
Definition create_if_not_exists {A} (t : option A) (empty : A) : option A := Some (default empty t).

(** [CREATE UNIQUE INDEX] on what [key] reads of the rows. *)
Definition unique_index {A K} `{EqDecision K} (key : A → K) (rows : list A) : result string unit :=
  if decide (NoDup (key <$> rows)) then Ok tt else Err "UNIQUE constraint failed".

Definition create_processed_blocks_table : Migration := λ db,
  Ok (with_blocks (create_if_not_exists (db_processed_blocks db) ∅) db).

Definition create_actions_table : Migration := λ db,
  Ok (with_actions (create_if_not_exists (db_actions db) ([], 0%Z)) db).

Definition create_application_state_table : Migration := λ db,
  Ok (with_state (create_if_not_exists (db_application_state db) ∅) db).

(** The rows are copied without their [action_id]: the new table numbers them again. *)
Definition renumbered (rows : list ActionRow) : list ActionRow :=
  imap (λ i r, mkActionRow (Z.of_nat i + 1) (acr_name r) (acr_network_id r) (acr_config r)) rows.
Definition add_id_to_actions_table : Migration := λ db,
  match db_actions db with
  | None => Err "no such table: actions"
  | Some (rows, _) =>
      let actions_new := renumbered rows in
      _ ← unique_index (λ r, (acr_name r, acr_network_id r)) actions_new;
      Ok (with_actions (Some (actions_new, Z.of_nat (length rows))) db)
  end.

Definition create_abis_table : Migration := λ db,
  Ok (with_abis (create_if_not_exists (db_abis db) []) db).

(** [DROP TABLE IF EXISTS monitors], and an empty one. *)
Definition recreate_monitors_table_with_abi_fk : Migration := λ db,
  Ok (with_monitors (Some (MonitorsV1 [] 0)) db).

Definition add_status (r : OldMonitorRow) : MonitorRow :=
  mkMonitorRow (om_monitor_id r) (om_name r) (om_network r) (om_address r) (om_abi_name r) (om_filter_script r)
    (om_actions r) (om_created_at r) (om_updated_at r) Active.
Definition add_monitor_constraints_and_status : Migration := λ db,
  match db_monitors db with
  | None => Err "no such table: monitors"
  | Some (MonitorsV2 _ _) => Err "duplicate column name: status"
  | Some (MonitorsV1 rows seq) =>
      _ ← unique_index (λ r, (om_network r, om_name r)) rows;
      Ok (with_monitors (Some (MonitorsV2 (add_status <$> rows) seq)) db)
  end.

Definition create_outbox : Migration := λ db,
  match db_outbox db with
  | None => Ok (with_outbox (Some (OutboxV1 [] 0)) db)
  | Some _ => Err "table outbox already exists"
  end.

(** ['legacy-' || CAST(id AS TEXT)]. *)
Definition legacy_row (r : OldOutboxRow) : OutboxRow :=
  mkOutboxRow (oo_id r) (oo_action_name r) (oo_payload r) (oo_retries r) ("legacy-" +:+ pretty (oo_id r)).
Definition add_outbox_idempotency_key : Migration := λ db,
  match db_outbox db with
  | None => Err "no such table: outbox"
  | Some (OutboxV2 _ _) => Err "duplicate column name: idempotency_key"
  | Some (OutboxV1 rows seq) =>
      _ ← unique_index or_idempotency_key (legacy_row <$> rows);
      Ok (with_outbox (Some (OutboxV2 (legacy_row <$> rows) seq)) db)
  end.

(** The directory, by the versions in the names of the files. *)
Definition MIGRATIONS : list (Z * Migration) :=
  [(20250731010038%Z, create_processed_blocks_table);
   (20250812120000%Z, create_actions_table);
   (20250827120000%Z, create_application_state_table);
   (20251007030154%Z, add_id_to_actions_table);
   (20251029120000%Z, create_abis_table);
   (20251029120100%Z, recreate_monitors_table_with_abi_fk);
   (20251031120000%Z, add_monitor_constraints_and_status);
   (20260305043209%Z, create_outbox);
   (20260801000000%Z, add_outbox_idempotency_key)].

(** ** Running them ([run_migrations]) *)

(** The file: the migrations recorded as applied, and the tables. *)
Record Disk := mkDisk { applied : list Z; schema : Database }.

(** A migration and its record are one transaction. *)
Definition apply_migration (d : Disk) (m : Z * Migration) : result string Disk :=
  db ← m.2 (schema d); Ok (mkDisk (applied d ++ [m.1]) db).
Definition pending (ms : list (Z * Migration)) (d : Disk) : list (Z * Migration) :=
  filter (λ m, m.1 ∉ applied d) ms.

(** [sqlx::migrate::Migrator::run]. *)
Class Migrator := migrator_run : list (Z * Migration) → Disk → result string unit * Disk.

(** Its documentation: the pending migrations are applied in order, each in a transaction,
    until one fails; when it returns without error there is none left. *)
Class MigratorLaws `{Migrator} := {
  migrator_applies ms d r d' : migrator_run ms d = (r, d') →
    ∃ k, foldM apply_migration (take k (pending ms d)) d = Ok d' ∧ (r = Ok tt → length (pending ms d) ≤ k)
}.

(** [SqliteConnectOptions] and [SqlitePool::connect_with]. *)
Record SqliteDriver := mkDriver {
  ConnectOptions : Type;
  options_from_str : string → result string ConnectOptions;
  create_if_missing : ConnectOptions → ConnectOptions;
  connect_with : ConnectOptions → result string Disk
}.

Definition SqliteStateRepository_new (driver : SqliteDriver) (database_url : string) : result PersistenceError Disk :=
  options ← map_err InvalidInput (options_from_str driver database_url);
  map_err (λ e, OperationFailed ("Failed to connect to database: " +:+ e))
    (connect_with driver (create_if_missing driver options)).

Definition run_migrations `{Migrator} : eff Disk PersistenceError unit :=
  eff_map_err MigrationError (migrator_run MIGRATIONS).

(** The tables of [Store], when they are all there in their last form. *)
Definition tables_of_schema (now : DateTime) (db : Database) : option Tables :=
  match db with
  | mkDatabase (Some blocks) (Some (actions, actions_seq)) (Some state) (Some abis) (Some (MonitorsV2 monitors monitors_seq))
      (Some (OutboxV2 outbox outbox_seq)) =>
      Some (mkTables blocks monitors monitors_seq abis actions actions_seq outbox outbox_seq state "FULL" now)
  | _ => None
  end.

(** ** The versions *)

Definition version_number (m : Z * Migration) : Z := m.1.
Definition versions : list Z := version_number <$> MIGRATIONS.

(** What the program of version [n] may have left in each table: it is there from its
    migration on, with what its constraints ensure. *)
Definition blocks_at (n : nat) (t : option (gmap NetworkId Z)) : Prop :=
  match t with
  | Some m => 1 ≤ n ∧ ∀ name b, m !! name = Some b → (b ≤ i64_max)%Z
  | None => n < 1
  end.
Definition actions_at (n : nat) (t : option (list ActionRow * Z)) : Prop :=
  match t with
  | Some (rows, seq) => 2 ≤ n ∧ increasing acr_action_id seq rows ∧ NoDup ((λ r, (acr_name r, acr_network_id r)) <$> rows)
  | None => n < 2
  end.
Definition state_at (n : nat) (t : option (gmap string string)) : Prop :=
  match t with Some _ => 3 ≤ n | None => n < 3 end.
Definition abis_at (n : nat) (t : option (list AbiRow)) : Prop :=
  match t with Some rows => 5 ≤ n ∧ NoDup (ar_name <$> rows) | None => n < 5 end.
Definition monitors_at (n : nat) (abis : option (list AbiRow)) (t : option MonitorsTable) : Prop :=
  let references {A} (abi_name : A → option string) (rows : list A) :=
    ∀ r a, r ∈ rows → abi_name r = Some a → a ∈ ar_name <$> default [] abis in
  match t with
  | Some (MonitorsV2 rows seq) =>
      7 ≤ n ∧ increasing mr_monitor_id seq rows ∧ NoDup ((λ r, (mr_network r, mr_name r)) <$> rows) ∧ references mr_abi_name rows
  | Some (MonitorsV1 rows seq) => n ≤ 6 ∧ (n = 6 → increasing om_monitor_id seq rows ∧ references om_abi_name rows)
  | None => n < 6
  end.
Definition outbox_at (n : nat) (t : option OutboxTable) : Prop :=
  match t with
  | Some (OutboxV2 rows seq) => 9 ≤ n ∧ increasing or_id seq rows ∧ NoDup (or_idempotency_key <$> rows)
  | Some (OutboxV1 rows seq) => n = 8 ∧ increasing oo_id seq rows
  | None => n < 8
  end.

Record version_wf (n : nat) (db : Database) : Prop := {
  vw_blocks : blocks_at n (db_processed_blocks db);
  vw_actions : actions_at n (db_actions db);
  vw_state : state_at n (db_application_state db);
  vw_abis : abis_at n (db_abis db);
  vw_monitors : monitors_at n (db_abis db) (db_monitors db);
  vw_outbox : outbox_at n (db_outbox db)
}.

Definition at_version (n : nat) (d : Disk) : Prop :=
  n ≤ 9 ∧ applied d = take n versions ∧ version_wf n (schema d).

(** What an upgrade from version [n] leaves of the data.  The monitors of a version before
    the sixth migration are dropped by it; the actions are numbered again by the fourth. *)
Record upgraded (n : nat) (db db' : Database) : Prop := {
  up_blocks m : db_processed_blocks db = Some m → db_processed_blocks db' = Some m;
  up_actions rows seq : db_actions db = Some (rows, seq) → ∃ rows' seq', db_actions db' = Some (rows', seq') ∧
    ((λ r, (acr_name r, acr_network_id r, acr_config r)) <$> rows') = ((λ r, (acr_name r, acr_network_id r, acr_config r)) <$> rows) ∧
    (4 ≤ n → rows' = rows ∧ seq' = seq);
  up_state m : db_application_state db = Some m → db_application_state db' = Some m;
  up_abis rows : db_abis db = Some rows → db_abis db' = Some rows;
  up_monitors t : 6 ≤ n → db_monitors db = Some t → db_monitors db' = Some t ∨
    ∃ rows seq, t = MonitorsV1 rows seq ∧ db_monitors db' = Some (MonitorsV2 (add_status <$> rows) seq);
  up_outbox t : db_outbox db = Some t → db_outbox db' = Some t ∨
    ∃ rows seq, t = OutboxV1 rows seq ∧ db_outbox db' = Some (OutboxV2 (legacy_row <$> rows) seq);
  up_new_outbox : db_outbox db = None → db_outbox db' ∈ [None; Some (OutboxV1 [] 0); Some (OutboxV2 [] 0)]
}.

Lemma upgraded_refl n db : upgraded n db db.
Proof. split; eauto 10. intros ->. by left. Qed.

Lemma upgraded_trans n db1 db2 db3 : upgraded n db1 db2 → upgraded (S n) db2 db3 → upgraded n db1 db3.
Proof.
  intros [B A C D M O N] [B' A' C' D' M' O' N']. split; eauto.
  - intros rows seq (rows1 & seq1 & H1 & E1 & K1)%A. destruct (A' _ _ H1) as (rows2 & seq2 & H2 & E2 & K2).
    exists rows2, seq2. split; [done|]. split; [congruence|]. intros Hn.
    destruct (K1 Hn) as [-> ->]. apply K2. lia.
  - intros t Hn Ht. destruct (M t Hn Ht) as [Ht'|(rows & seq & -> & Ht')]; [apply M'; [lia|done]|].
    destruct (M' _ ltac:(lia) Ht') as [Ht2|(? & ? & [=] & _)]. right. eauto.
  - intros t [Ht|(rows & seq & -> & Ht)]%O; [by apply O'|].
    apply O' in Ht as [Ht|(? & ? & [=] & _)]. right. eauto.
  - intros Hn%N. rewrite !elem_of_cons, elem_of_nil in Hn. destruct Hn as [Ht|[Ht|[Ht|[]]]]; [auto|..];
      apply O' in Ht as [Ht|(? & ? & [= <- <-] & Ht)]; rewrite Ht; rewrite !elem_of_cons; auto.
Qed.

(** The alerts of an outbox: identifier, action, payload and retries. *)
Definition stored_alerts (t : option OutboxTable) : list (Z * string * string * Z) :=
  match t with
  | Some (OutboxV2 rows _) => (λ r, (or_id r, or_action_name r, or_payload r, or_retries r)) <$> rows
  | Some (OutboxV1 rows _) => (λ r, (oo_id r, oo_action_name r, oo_payload r, oo_retries r)) <$> rows
  | None => []
  end.

Lemma upgraded_alerts n db db' : upgraded n db db' → stored_alerts (db_outbox db') = stored_alerts (db_outbox db).
Proof.
  intros [_ _ _ _ _ Ho Hnew]. destruct (db_outbox db) as [t|].
  - destruct (Ho t eq_refl) as [->|(rows & seq & -> & ->)]; [done|]. cbn. by rewrite <- list_fmap_compose.
  - specialize (Hnew eq_refl). rewrite !elem_of_cons, elem_of_nil in Hnew. by destruct Hnew as [->|[->|[->|[]]]].
Qed.

(** ** Each migration *)

Lemma unique_index_Ok {A K} `{EqDecision K} (key : A → K) rows :
  unique_index key rows = Ok tt ↔ NoDup (key <$> rows).
Proof. unfold unique_index. by case_decide. Qed.

Lemma renumbered_contents {B} (f : string → string → string → B) rows :
  ((λ r, f (acr_name r) (acr_network_id r) (acr_config r)) <$> renumbered rows) =
  ((λ r, f (acr_name r) (acr_network_id r) (acr_config r)) <$> rows).
Proof.
  unfold renumbered. rewrite fmap_imap. generalize 0. intros _.
  rewrite <- (imap_const (λ r, f (acr_name r) (acr_network_id r) (acr_config r)) rows). by apply imap_ext.
Qed.

Lemma imap_increasing {A B} (key : B → Z) (f : nat → A → B) rows i :
  (∀ j a, key (f j a) = Z.of_nat j + 1)%Z →
  increasing key (Z.of_nat (i + length rows)) (imap (λ j, f (i + j)) rows).
Proof.
  intros Hf. revert i. induction rows as [|a rows IH]; intros i; [by repeat constructor|].
  cbn [imap]. specialize (IH (S i)). destruct IH as [Hs Hb].
  assert (imap ((λ j, f (i + j)) ∘ S) rows = imap (λ j, f (S i + j)) rows) as E.
  { apply imap_ext. intros j b _. cbn. f_equal. lia. }
  unfold increasing. rewrite E, fmap_cons. cbn [length]. split.
  - constructor; [done|]. rewrite Forall_fmap, Forall_forall. intros b (j & c & -> & _)%elem_of_lookup_imap.
    cbn. rewrite !Hf. lia.
  - constructor; [rewrite Hf; lia|]. eapply Forall_impl; [exact Hb|]. cbn. lia.
Qed.

Lemma increasing_fmap {A B} (key : A → Z) (key' : B → Z) (f : A → B) seq rows :
  (∀ a, key' (f a) = key a) → increasing key seq rows → increasing key' seq (f <$> rows).
Proof.
  intros Hf [Hs Hb]. split.
  - rewrite <- list_fmap_compose. by rewrite (list_fmap_ext _ key rows) by (intros ? a _; apply Hf).
  - rewrite Forall_fmap. eapply Forall_impl; [exact Hb|]. cbn. intros a Ha. by rewrite Hf.
Qed.

Lemma renumbered_increasing rows : increasing acr_action_id (Z.of_nat (length rows)) (renumbered rows).
Proof. by apply (imap_increasing acr_action_id (λ i r, mkActionRow (Z.of_nat i + 1) _ _ _) rows 0). Qed.

#[export] Instance string_app_inj (p : string) : Inj (=) (=) (String.append p).
Proof. induction p as [|c p IH]; intros s1 s2; [done|]. cbn. by intros [= ?%IH]. Qed.

(** The keys given to the alerts of before are distinct. *)
Lemma legacy_keys_NoDup rows seq : increasing oo_id seq rows → NoDup (or_idempotency_key <$> (legacy_row <$> rows)).
Proof.
  intros Hi. rewrite <- list_fmap_compose.
  change (or_idempotency_key ∘ legacy_row) with ((λ id : Z, "legacy-" +:+ pretty id) ∘ oo_id).
  rewrite list_fmap_compose. apply NoDup_fmap_2; [|by eapply increasing_NoDup].
  intros id1 id2 H%string_app_inj. by apply pretty_Z_inj.
Qed.

(** Two monitors of a network with the same name, which version 6 allowed. *)
Definition monitor_names_clash (db : Database) : Prop :=
  ∃ rows seq, db_monitors db = Some (MonitorsV1 rows seq) ∧ ¬ NoDup ((λ r, (om_network r, om_name r)) <$> rows).

(** The migration from version [n] leads to the next, with the data kept; only the unique
    names of monitors can stop it. *)
Definition migrates (n : nat) (m : Migration) : Prop := ∀ db,
  version_wf n db →
  match m db with
  | Ok db' => version_wf (S n) db' ∧ upgraded n db db'
  | Err _ => n = 6 ∧ monitor_names_clash db
  end.

(** A table is of the next version too, unless the migration is the one that changes it. *)
Lemma blocks_next n t : n ≠ 0 → blocks_at n t → blocks_at (S n) t.
Proof. intros Hn. destruct t; cbn; [intros [? ?]; split; [lia|done]|lia]. Qed.
Lemma actions_next n t : n ≠ 1 → actions_at n t → actions_at (S n) t.
Proof. intros Hn. destruct t as [[rows seq]|]; cbn; [intros [? ?]; split; [lia|done]|lia]. Qed.
Lemma state_next n t : n ≠ 2 → state_at n t → state_at (S n) t.
Proof. intros Hn. destruct t; cbn; lia. Qed.
Lemma abis_next n t : n ≠ 4 → abis_at n t → abis_at (S n) t.
Proof. intros Hn. destruct t; cbn; [intros [? ?]; split; [lia|done]|lia]. Qed.
Lemma monitors_next n abis t : n ≠ 5 → n ≠ 6 → monitors_at n abis t → monitors_at (S n) abis t.
Proof. intros H5 H6. destruct t as [[rows seq|rows seq]|]; cbn; [|intros [? ?]; split; [lia|done]|lia]. intros [? _]. split; [lia|intros; lia]. Qed.
Lemma outbox_next n t : n ≠ 7 → n ≠ 8 → outbox_at n t → outbox_at (S n) t.
Proof. intros H7 H8. destruct t as [[rows seq|rows seq]|]; cbn; [lia|intros [? ?]; split; [lia|done]|lia]. Qed.

Create HintDb migrations.
#[local] Hint Resolve blocks_next actions_next state_next abis_next monitors_next outbox_next : migrations.

#[local] Hint Extern 1 (_ ≠ _) => discriminate : migrations.

(** The tables by themselves; then those a migration does not touch. *)
Ltac tables_in_goal :=
  intros [blocks acts st abis mons out] [Hb Ha Hs Hc Hm Ho];
  cbn [db_processed_blocks db_actions db_application_state db_abis db_monitors db_outbox] in *.
Ltac next_version :=
  split; [split|split];
  cbn [with_blocks with_actions with_state with_abis with_monitors with_outbox
       db_processed_blocks db_actions db_application_state db_abis db_monitors db_outbox];
  try solve [auto with migrations|eauto 10|done|intros ->; by left|intros _; by right; left].

Lemma migrates_processed_blocks : migrates 0 create_processed_blocks_table.
Proof.
  tables_in_goal. destruct blocks; [destruct Hb; lia|]. next_version.
Qed.

Lemma migrates_actions : migrates 1 create_actions_table.
Proof.
  tables_in_goal. destruct acts as [[]|]; [destruct Ha; lia|]. next_version.
  split; [done|]. split; [by repeat constructor|constructor].
Qed.

Lemma migrates_application_state : migrates 2 create_application_state_table.
Proof.
  tables_in_goal. destruct st; [cbn in Hs; lia|]. next_version.
Qed.

Lemma migrates_action_ids : migrates 3 add_id_to_actions_table.
Proof.
  tables_in_goal. unfold add_id_to_actions_table. cbn [db_processed_blocks db_actions db_application_state db_abis db_monitors db_outbox].
  destruct acts as [[rows seq]|]; [|cbn in Ha; lia]. destruct Ha as (_ & _ & Hnd).
  rewrite <- (renumbered_contents (λ n w _, (n, w))) in Hnd. rewrite (proj2 (unique_index_Ok _ _) Hnd). next_version.
  - split; [lia|]. split; [apply renumbered_increasing|done].
  - intros ?? [= <- <-]. do 2 eexists. split; [done|]. split; [apply (renumbered_contents (λ n w c, (n, w, c)))|lia].
Qed.

Lemma migrates_abis : migrates 4 create_abis_table.
Proof.
  tables_in_goal. destruct abis; [destruct Hc; lia|]. next_version.
  split; [lia|constructor].
Qed.

Lemma migrates_monitors : migrates 5 recreate_monitors_table_with_abi_fk.
Proof.
  tables_in_goal. next_version; [|lia].
  split; [lia|]. intros _. split; [by repeat constructor|]. by intros ?? ?%elem_of_nil.
Qed.

Lemma migrates_status : migrates 6 add_monitor_constraints_and_status.
Proof.
  tables_in_goal. unfold add_monitor_constraints_and_status. cbn [db_processed_blocks db_actions db_application_state db_abis db_monitors db_outbox].
  destruct mons as [[rows seq|rows seq]|]; [|destruct Hm; lia|cbn in Hm; lia]. destruct Hm as [_ [Hi Hfk]]; [done|].
  unfold unique_index. case_decide as Hnd; cbn; [|split; [done|by do 2 eexists]]. next_version.
  - split; [lia|]. split; [by eapply increasing_fmap, Hi|].
    split; [by rewrite <- list_fmap_compose|]. intros ? a (r & -> & Hr)%list_elem_of_fmap. by apply (Hfk r a).
  - intros t _ [= <-]. right. eauto.
Qed.

Lemma migrates_outbox : migrates 7 create_outbox.
Proof.
  tables_in_goal. destruct out as [[]|]; [destruct Ho; lia..|]. cbn [create_outbox db_outbox]. next_version.
  split; [lia|by repeat constructor].
Qed.

Lemma migrates_keys : migrates 8 add_outbox_idempotency_key.
Proof.
  tables_in_goal. unfold add_outbox_idempotency_key. cbn [db_processed_blocks db_actions db_application_state db_abis db_monitors db_outbox].
  destruct out as [[rows seq|rows seq]|]; [|destruct Ho; lia|cbn in Ho; lia]. destruct Ho as [_ Hi].
  pose proof (legacy_keys_NoDup _ _ Hi) as Hk. rewrite (proj2 (unique_index_Ok _ _) Hk). next_version.
  - split; [lia|]. split; [|done]. by eapply increasing_fmap, Hi.
  - intros t [= <-]. right. eauto.
Qed.

Lemma all_migrate n m : MIGRATIONS !! n = Some m → migrates n m.2.
Proof.
  do 9 (destruct n as [|n]; [intros [= <-]; eauto using migrates_processed_blocks, migrates_actions,
    migrates_application_state, migrates_action_ids, migrates_abis, migrates_monitors, migrates_status,
    migrates_outbox, migrates_keys|]). done.
Qed.

(** ** Upgrades *)

Lemma pending_at_version n d : at_version n d → pending MIGRATIONS d = drop n MIGRATIONS.
Proof.
  intros (Hn & Ha & _). unfold pending. rewrite Ha. clear Ha.
  do 10 (destruct n as [|n]; [reflexivity|]). lia.
Qed.

Lemma upgrade_step n d d' m :
  at_version n d → MIGRATIONS !! n = Some m → apply_migration d m = Ok d' →
  at_version (S n) d' ∧ upgraded n (schema d) (schema d').
Proof.
  intros (Hn & Ha & Hwf) Hm (db & Hdb & [= <-])%bind_Ok. cbn [applied schema].
  pose proof (all_migrate n m Hm _ Hwf) as Hs. rewrite Hdb in Hs. destruct Hs as [Hwf' Hup].
  split; [|done]. split; [|split; [|done]].
  - apply lookup_lt_Some in Hm. cbn in Hm. lia.
  - cbn [applied]. rewrite Ha. symmetry. apply take_S_r. unfold versions. by rewrite list_lookup_fmap, Hm.
Qed.

Lemma upgrade_steps k n d d' :
  at_version n d → foldM apply_migration (take k (drop n MIGRATIONS)) d = Ok d' →
  ∃ n', n ≤ n' ≤ 9 ∧ (9 ≤ n + k → n' = 9) ∧ at_version n' d' ∧ upgraded n (schema d) (schema d').
Proof.
  revert n d. induction k as [|k IH]; intros n d Hd; cbn.
  - intros [= <-]. exists n. pose proof Hd as (? & _). split_and!; [lia..|done|apply upgraded_refl].
  - destruct (MIGRATIONS !! n) as [m|] eqn:Em.
    + rewrite (drop_S _ m) by done. cbn. intros (d1 & H1 & Hrun)%bind_Ok.
      destruct (upgrade_step _ _ _ _ Hd Em H1) as [Hd1 Hup1].
      destruct (IH (S n) d1 Hd1 Hrun) as (n' & Hn' & Hall & Hd' & Hup).
      exists n'. split_and!; [lia..|done|by eapply upgraded_trans].
    + apply lookup_ge_None in Em. rewrite drop_ge by done. intros [= <-]. exists n.
      pose proof Hd as (? & _). cbn in Em. split_and!; [lia..|done|apply upgraded_refl].
Qed.

(** No migration fails on the data it finds, but for two monitors of the same name. *)
Lemma upgrade_possible n d :
  at_version n d → (n = 6 → ¬ monitor_names_clash (schema d)) → ∃ d', foldM apply_migration (pending MIGRATIONS d) d = Ok d'.
Proof.
  intros Hd. rewrite (pending_at_version n) by done. assert (n ≤ 9) as Hn by apply Hd.
  revert d Hd. remember (9 - n) as k eqn:Ek. revert n Hn Ek. induction k as [|k IH]; intros n Hn Ek d Hd Hc.
  - rewrite drop_ge by (cbn; lia). by eexists.
  - destruct (lookup_lt_is_Some_2 MIGRATIONS n) as [m Em]; [cbn; lia|]. rewrite (drop_S _ m) by done. cbn.
    destruct (apply_migration d m) as [d1|e] eqn:E1; cbn.
    + destruct (upgrade_step _ _ _ _ Hd Em E1) as [Hd1 _]. apply (IH (S n)); [lia|lia|done|].
      intros [= ->] (rows & seq & Hm & Hnd). unfold apply_migration in E1. cbn in Em. injection Em as <-.
      injection E1 as <-. cbn in Hm. injection Hm as <- <-. by apply Hnd; constructor.
    + destruct Hd as (_ & _ & Hwf). pose proof (all_migrate n m Em _ Hwf) as Hs. unfold apply_migration in E1.
      destruct (m.2 (schema d)); [discriminate E1|]. destruct Hs as [-> Hclash]. by destruct (Hc eq_refl).
Qed.

Section Upgrade.
Context `{DefaultHasher} `{SqliteChoices} `{Serde (list string)} `{Serde ActionConfig} `{SerdeLaws ActionPayload}.
Context `{MigratorLaws}.

(** The keys of the outbox are those of its payloads, as [enqueue_outbox_batch] writes them;
    those of the alerts of version 8 are not. *)
Definition keyed (t : Tables) : Prop :=
  Forall (λ r, ∃ p, from_str (or_payload r) = Ok p ∧ or_idempotency_key r = idempotency_key p) (outbox_rows t).

(** They are, in a database whose alerts of before version 9 were delivered. *)
Definition alerts_keyed (t : option OutboxTable) : Prop :=
  match t with
  | Some (OutboxV2 rows _) =>
      Forall (λ r, ∃ p, from_str (or_payload r) = Ok p ∧ or_idempotency_key r = idempotency_key p) rows
  | Some (OutboxV1 rows _) => rows = []
  | None => True
  end.

Lemma upgraded_keyed n db db' : upgraded n db db' → alerts_keyed (db_outbox db) → alerts_keyed (db_outbox db').
Proof.
  intros [_ _ _ _ _ Ho Hnew]. destruct (db_outbox db) as [t|].
  - by destruct (Ho t eq_refl) as [->|(rows & seq & -> & ->)]; [|cbn; intros ->].
  - specialize (Hnew eq_refl). rewrite !elem_of_cons, elem_of_nil in Hnew. destruct Hnew as [->|[->|[->|[]]]]; cbn; auto.
Qed.

Lemma last_version_tables now db :
  version_wf 9 db → ∃ t, tables_of_schema now db = Some t ∧ (keyed t → store_wf t) ∧
    Some (processed_blocks t) = db_processed_blocks db ∧ Some (OutboxV2 (outbox_rows t) (outbox_seq t)) = db_outbox db.
Proof.
  destruct db as [[blocks|] [[acts aseq]|] [st|] [abis|] [[]|] [[]|]]; intros [Hb Ha Hs Hc Hm Ho];
    cbn in Hb, Ha, Hs, Hc, Hm, Ho; try lia.
  eexists. split; [reflexivity|]. split; [|by split]. intros Hk.
  split; cbn; [naive_solver..|]. split; cbn; naive_solver.
Qed.

(** An upgrade from any version: whether it ends or stops half-way, the database is
    that of a version again, with the recorded progress, the saved states, the ABIs and the
    actions of before, the outbox and, from version 6 on, the monitors.  When it ends without error it is the last version: the tables are
    those of [Store], consistent when the keys of the outbox are those of its payloads.
    A database of the last version is not changed. *)
Lemma upgrade_keeps_data n d r d' now :
  at_version n d → run_migrations d = (r, d') →
  ∃ n', n ≤ n' ≤ 9 ∧ at_version n' d' ∧ upgraded n (schema d) (schema d') ∧ (n = 9 → d' = d) ∧
    (r = Ok tt → n' = 9 ∧ ∃ t, tables_of_schema now (schema d') = Some t ∧ (keyed t → store_wf t) ∧
       Some (processed_blocks t) = db_processed_blocks (schema d') ∧
       Some (OutboxV2 (outbox_rows t) (outbox_seq t)) = db_outbox (schema d')).
Proof.
  intros Hd. unfold run_migrations, eff_map_err. destruct (migrator_run MIGRATIONS d) as [r0 d0] eqn:Hrun.
  intros [= <- <-]. destruct (migrator_applies _ _ _ _ Hrun) as (k & Hk & Hall).
  rewrite (pending_at_version n) in Hk, Hall by done.
  destruct (upgrade_steps k n d d0 Hd Hk) as (n' & Hn' & Hlast & Hd' & Hup).
  exists n'. split_and!; [lia..|done|done| |].
  - intros ->. rewrite drop_ge in Hk by (cbn; lia). rewrite take_nil in Hk. by injection Hk.
  - intros Hr. destruct r0 as [[]|]; [|discriminate Hr]. rewrite length_drop in Hall. specialize (Hall eq_refl).
    cbn in Hall. rewrite Hlast in Hd' by lia. split; [lia|]. apply last_version_tables, Hd'.
Qed.
End Upgrade.

(** ** A concrete upgrade *)

Import MonitorMatch.Demo Interfaces.SerdeDemo InterfacesDemo StoreDemo.

Module MigrationsDemo.
(** Applies the pending migrations one after the other; the list says which of them fail. *)
Fixpoint run_pending (faults : list bool) (ms : list (Z * Migration)) (d : Disk) : result string unit * Disk :=
  match ms, faults with
  | [], _ => (Ok tt, d)
  | _, true :: _ => (Err "database is locked", d)
  | m :: ms, _ =>
      match apply_migration d m with
      | Ok d => run_pending (tail faults) ms d
      | Err e => (Err e, d)
      end
  end.
Definition demo_migrator (faults : list bool) : Migrator := λ ms d, run_pending faults (pending ms d) d.

Lemma run_pending_applies faults ms d r d' :
  run_pending faults ms d = (r, d') →
  ∃ k, foldM apply_migration (take k ms) d = Ok d' ∧ (r = Ok tt → length ms ≤ k).
Proof.
  revert faults d. induction ms as [|m ms IH]; intros faults d; cbn.
  - intros [= <- <-]. by exists 0.
  - destruct faults as [|[] fs]; [|by intros [= <- <-]; exists 0|];
      (destruct (apply_migration d m) as [d1|e] eqn:E1; [|by intros [= <- <-]; exists 0]);
      intros (k & Hk & Hall)%IH; exists (S k); cbn; rewrite E1; (split; [done|]); intros Hr; specialize (Hall Hr); lia.
Qed.
#[export] Instance demo_migrator_laws faults : @MigratorLaws (demo_migrator faults).
Proof. split. intros ms d r d'. apply run_pending_applies. Qed.

#[export] Instance no_fault : Migrator := demo_migrator [].

(** A database of version 8, with an alert that was not delivered. *)
Definition version8 : Disk :=
  mkDisk (take 8 versions)
    (mkDatabase (Some {["net" := 41%Z]}) (Some ([mkActionRow 3 "out" "net" "{}"], 3%Z)) (Some {["k" := "v"]})
       (Some [mkAbiRow "erc20" "[]"])
       (Some (MonitorsV2 [mkMonitorRow 1 "m" "net" None (Some "erc20") "true" "[]" 0 0 Active] 1))
       (Some (OutboxV1 [mkOldOutboxRow 7 "out" "payload" 2] 7))).
Lemma version8_wf : at_version 8 version8.
Proof.
  split; [lia|]. split; [done|]. split; cbn.
  - split; [lia|]. intros name b. rewrite lookup_singleton_Some. intros [_ <-]. done.
  - split; [lia|]. split; [by repeat constructor|]. apply NoDup_singleton.
  - lia.
  - split; [lia|apply NoDup_singleton].
  - split; [lia|]. split; [by repeat constructor|]. split; [apply NoDup_singleton|].
    intros r a ->%list_elem_of_singleton [= <-]. by left.
  - split; [done|]. by repeat constructor.
Qed.
End MigrationsDemo.
Import MigrationsDemo.

(** An upgrade that stops at its fourth migration, and the next one that ends it. *)
Lemma upgrade_resumes :
  let empty := mkDisk [] (mkDatabase None None None None None None) in
  let '(r1, d1) := run_pending [false; false; false; true] (pending MIGRATIONS empty) empty in
  let '(r2, d2) := run_pending [] (pending MIGRATIONS d1) d1 in
  is_ok r1 = false ∧ length (applied d1) = 3 ∧ r2 = Ok tt ∧ applied d2 = versions ∧
  tables_of_schema 0 (schema d2) = Some empty_tables.
Proof. vm_compute. by split_and!. Qed.

(** The fourth migration says it adds an identifier to the actions; they had one since the
    second, and get another. *)
Lemma actions_renumbered :
  let row id name := mkActionRow id name "net" "{}" in
  renumbered [row 3%Z "out"; row 8%Z "hook"] = [row 1%Z "out"; row 2%Z "hook"].
Proof. reflexivity. Qed.

(** The key given to an alert of before is not that of its payload: when its block is fetched
    again, the same match is enqueued a second time. *)
Lemma legacy_alert_enqueued_again :
  let item := ("hook", Single m1) in
  let row id := mkOldOutboxRow id "hook" (default "" (result_ok (to_string (Single m1)))) 0 in
  let '(_, d) := run_migrations (mkDisk (applied version8) (with_outbox (Some (OutboxV1 [row 7%Z] 7)) (schema version8))) in
  ∃ t, tables_of_schema 0 (schema d) = Some t ∧
    let '(r, s) := enqueue_outbox_batch [item] (mkSqlite t []) in
    r = Ok tt ∧ (or_id <$> outbox_rows (sq_tables s)) = [7; 8]%Z ∧
    (or_payload <$> outbox_rows (sq_tables s)) = [or_payload (legacy_row (row 7%Z)); or_payload (legacy_row (row 7%Z))].
Proof. eexists. split; [vm_compute; reflexivity|]. vm_compute. by split_and!. Qed.

(** Two monitors with the same name stop the upgrade of a database of version 6, at every start. *)
Lemma clash_stops_upgrade :
  let row id := mkOldMonitorRow id "m" "net" None None "true" "[]" 0 0 in
  let d := mkDisk (take 6 versions)
             (mkDatabase (Some ∅) (Some ([], 0%Z)) (Some ∅) (Some []) (Some (MonitorsV1 [row 1%Z; row 2%Z] 2)) None) in
  run_migrations d = (Err (MigrationError "UNIQUE constraint failed"), d).
Proof. vm_compute. reflexivity. Qed.
