(* ===== verification/AlertManager.v ===== *)
(** * The alert manager ([crates/argus-engine/src/alert_manager.rs])

    Matches are enqueued for delivery at once, throttled, or collected in windows,
    according to the policy of their action.  The locks and concurrent maps of the
    source make each call atomic for its action; a call is a step of the model and
    is given the instants its calls of [Utc::now] return. *)
From S2P Require Import Prelude Models MonitorMatch Interfaces Store.

Section AlertManager.
Context {S : Type} `{OutboxRepository S} `{KeyValueStore S}.
Context `{Serde ThrottleState} `{Serde AggregationState}.
Context (actions : gmap string ActionConfig).

Record AlertManager := mkAlertManager {
  am_state_repository : S;
  am_generated_alerts : gmap string nat;
  am_throttle_states : gmap string ThrottleState;
  am_aggregation_states : gmap string AggregationState
}.

(** [AlertManagerError]: only the repository's errors occur here. *)
Inductive AlertManagerError := StateRepositoryError (e : PersistenceError).
Notation am A := (eff AlertManager AlertManagerError A).

(** A call of the repository, with [?]. *)
Definition on_repository {A} (m : eff S PersistenceError A) : am A := λ a,
  let '(r, db) := m (am_state_repository a) in
  (map_err StateRepositoryError r,
   mkAlertManager db (am_generated_alerts a) (am_throttle_states a) (am_aggregation_states a)).

(** [key.strip_prefix(p)]. *)
Fixpoint strip_prefix (p k : string) : option string :=
  match p, k with
  | EmptyString, _ => Some k
  | String c p, String d k => if decide (c = d) then strip_prefix p k else None
  | String _ _, EmptyString => None
  end.

Definition throttle_prefix : string := "throttle_state:".
Definition aggregation_prefix : string := "aggregation_state:".

(** The loops of [new] over the saved states. *)
Definition load_states {T} (p : string) (saved : list (string * T)) : gmap string T :=
  foldl (λ m kv, match strip_prefix p kv.1 with Some n => <[n := kv.2]> m | None => m end) ∅ saved.

(** [AlertManager::new]: the repository is left in its last state when it fails. *)
Definition AlertManager_new (db : S) : result AlertManagerError AlertManager * S :=
  match get_all_json_states_by_prefix throttle_prefix db with
  | (Err e, db) => (Err (StateRepositoryError e), db)
  | (Ok saved_throttles, db) =>
      match get_all_json_states_by_prefix aggregation_prefix db with
      | (Err e, db) => (Err (StateRepositoryError e), db)
      | (Ok saved_aggs, db) =>
          (Ok (mkAlertManager db ∅ (load_states throttle_prefix saved_throttles)
                 (load_states aggregation_prefix saved_aggs)), db)
      end
  end.

(** ** Dispatching *)

Definition count_generated (m : gmap string nat) (name : string) : gmap string nat :=
  <[name := Datatypes.S (default 0 (m !! name))]> m.

Definition dispatch_payloads_batch (payloads : list ActionPayload) : am unit :=
  match payloads with
  | [] => mret tt
  | _ =>
      _ ← on_repository (enqueue_outbox_batch ((λ p, (action_name p, p)) <$> payloads));
      modify (λ a, mkAlertManager (am_state_repository a)
        (foldl count_generated (am_generated_alerts a) (action_name <$> payloads))
        (am_throttle_states a) (am_aggregation_states a))
  end.

Definition dispatch_payload (payload : ActionPayload) : am unit := dispatch_payloads_batch [payload].

(** ** Throttling *)

(** The decision for one match, and the new state of its action. *)
Definition throttle_step (policy : ThrottlePolicy) (current_time : DateTime) (o : option ThrottleState)
    : bool * ThrottleState :=
  let st := default (mkThrottleState 0 current_time) o in
  let st :=
    if (ts_window_start_time st + thr_time_window_secs policy <? current_time)%Z
    then mkThrottleState 0 current_time else st in
  if (ts_count st <? thr_max_count policy)%Z
  then (true, mkThrottleState (ts_count st + 1) (ts_window_start_time st))
  else (false, st).

(** An error of the dispatch is only logged. *)
Definition handle_throttle (current_time : DateTime) (m : MonitorMatch) (policy : ThrottlePolicy) : am unit := λ a,
  let name := mm_action_name m in
  let '(should_dispatch, st) := throttle_step policy current_time (am_throttle_states a !! name) in
  let a := mkAlertManager (am_state_repository a) (am_generated_alerts a)
             (<[name := st]> (am_throttle_states a)) (am_aggregation_states a) in
  if should_dispatch : bool then (Ok tt, (dispatch_payload (Single m) a).2) else (Ok tt, a).

(** ** Aggregation *)

Definition aggregation_add (now : DateTime) (m : MonitorMatch) (st : AggregationState) : AggregationState :=
  if existsb (λ m', bool_decide (mm_id m' = mm_id m)) (as_matches st) then st
  else mkAggregationState (as_matches st ++ [m])
         (match as_matches st with [] => now | _ => as_window_start_time st end).

Definition handle_aggregation (now : DateTime) (m : MonitorMatch) : am unit :=
  modify (λ a,
    let name := mm_action_name m in
    let st := default AggregationState_default (am_aggregation_states a !! name) in
    mkAlertManager (am_state_repository a) (am_generated_alerts a) (am_throttle_states a)
      (<[name := aggregation_add now m st]> (am_aggregation_states a))).

(** The loop of [process_matches_batch], each match with the instant it is
    handled; the payloads without policy are collected. *)
Fixpoint handle_matches (matches : list (DateTime * MonitorMatch)) (immediate_payloads : list ActionPayload)
    : am (list ActionPayload) :=
  match matches with
  | [] => mret immediate_payloads
  | (now, m) :: matches =>
      match actions !! mm_action_name m with
      | None => handle_matches matches immediate_payloads
      | Some action_config =>
          match ac_policy action_config with
          | Some (Throttle throttle_policy) =>
              _ ← handle_throttle now m throttle_policy; handle_matches matches immediate_payloads
          | Some (Aggregation _) =>
              _ ← handle_aggregation now m; handle_matches matches immediate_payloads
          | None => handle_matches matches (immediate_payloads ++ [Single m])
          end
      end
  end.

Definition process_matches_batch (matches : list (DateTime * MonitorMatch)) : am unit :=
  match matches with
  | [] => mret tt
  | _ =>
      immediate_payloads ← handle_matches matches [];
      match immediate_payloads with
      | [] => mret tt
      | _ => dispatch_payloads_batch immediate_payloads
      end
  end.

(** ** Expired windows *)

(** What the scan does to the entry of an action, and the payload it takes. *)
Definition take_window (force : bool) (current_time : DateTime) (name : string) (st : AggregationState)
    : AggregationState * option ActionPayload :=
  match as_matches st with
  | [] => (st, None)
  | _ =>
      match actions !! name with
      | Some action_config =>
          match ac_policy action_config with
          | Some (Aggregation policy) =>
              if force || (as_window_start_time st + agg_window_secs policy <? current_time)%Z
              then (mkAggregationState [] (as_window_start_time st),
                    Some (Aggregated name (as_matches st) (agg_template policy)))
              else (st, None)
          | _ => (mkAggregationState [] (as_window_start_time st), None)
          end
      | None => (mkAggregationState [] (as_window_start_time st), None)
      end
  end.

Definition sync_states_to_db : am unit := λ a,
  (_ ← for_each (λ kv : string * ThrottleState,
         on_repository (set_json_state (throttle_prefix +:+ kv.1) kv.2)) (map_to_list (am_throttle_states a));
   for_each (λ kv : string * AggregationState,
     on_repository (set_json_state (aggregation_prefix +:+ kv.1) kv.2)) (map_to_list (am_aggregation_states a))) a.

(** The payloads taken by a scan; the order of the map's iteration is arbitrary. *)
Definition expired_payloads (force : bool) (current_time : DateTime) (m : gmap string AggregationState)
    : list ActionPayload :=
  omap (λ kv, (take_window force current_time kv.1 kv.2).2) (map_to_list m).

(** The states are emptied before the payloads are enqueued, and an error of the
    dispatch is only logged. *)
Definition check_and_dispatch_expired_windows (force : bool) (current_time : DateTime) : am unit := λ a,
  let payloads_to_dispatch := expired_payloads force current_time (am_aggregation_states a) in
  let a := mkAlertManager (am_state_repository a) (am_generated_alerts a) (am_throttle_states a)
             (map_imap (λ k st, Some (take_window force current_time k st).1) (am_aggregation_states a)) in
  let a := (dispatch_payloads_batch payloads_to_dispatch a).2 in
  sync_states_to_db a.

Definition flush (now : DateTime) : am unit := check_and_dispatch_expired_windows true now.

(** [shutdown] only logs the error. *)
Definition shutdown (now : DateTime) (a : AlertManager) : AlertManager := (flush now a).2.

(** Matches with the readings of the clock from the [start]-th on. *)
Definition stamped (clock : nat → DateTime) (start : nat) (ms : list MonitorMatch) : list (DateTime * MonitorMatch) :=
  imap (λ i m, (clock (start + i), m)) ms.
End AlertManager.

Lemma length_stamped clock start ms : length (stamped clock start ms) = length ms.
Proof. apply length_imap. Qed.

Lemma stamped_elem clock start ms p : p ∈ stamped clock start ms → p.2 ∈ ms.
Proof. intros (i & m & -> & Hm)%elem_of_lookup_imap. by eapply list_elem_of_lookup_2. Qed.

Lemma stamped_elem_2 clock start ms m : m ∈ ms → ∃ t, (t, m) ∈ stamped clock start ms.
Proof.
  intros [i Hi]%list_elem_of_lookup. exists (clock (start + i)). apply elem_of_lookup_imap. by exists i, m.
Qed.

(** ** The range of the instants

    The comparisons above add a window to an instant as integers; [chrono] panics when the
    window is not one of its durations or the sum not one of its instants. *)

(** [DateTime::MAX_UTC], the end of the year 262142; [TimeDelta::MAX] is [i64_max] milliseconds. *)
Definition datetime_max : DateTime := 8210266876799999.

(** [window_start_time + window]: [None] is the panic. *)
Definition window_end (window_start_time : DateTime) (window : Duration) : option DateTime :=
  if (window <=? i64_max)%Z && (window_start_time + window <=? datetime_max)%Z
  then Some (window_start_time + window)%Z else None.

(** A match is throttled without a panic at all later times when the window fits the
    calendar from now on, and then compares with the sum above. *)
Lemma throttle_in_range policy now o :
  (thr_time_window_secs policy ≤ datetime_max - now)%Z → (0 ≤ now)%Z →
  (∀ st, o = Some st → (ts_window_start_time st ≤ now)%Z) →
  let st := default (mkThrottleState 0 now) o in
  let st' := (throttle_step policy now o).2 in
  window_end (ts_window_start_time st) (thr_time_window_secs policy) = Some (ts_window_start_time st + thr_time_window_secs policy)%Z ∧
  (ts_window_start_time st' ≤ now)%Z.
Proof.
  intros Hw Hnow Ho st st'.
  assert (ts_window_start_time st ≤ now)%Z as Hst by (destruct o; [by apply Ho|reflexivity]).
  unfold window_end. assert (datetime_max ≤ i64_max)%Z by (vm_compute; discriminate).
  rewrite (proj2 (Z.leb_le _ i64_max)) by lia. rewrite (proj2 (Z.leb_le _ datetime_max)) by lia. split; [done|].
  unfold st', throttle_step. fold st. destruct (_ <? now)%Z; cbn; destruct (_ <? _)%Z; cbn; lia.
Qed.

(** The policies accept windows of any [u64] of seconds: the longest panics on its first match. *)
Lemma long_window_panics start : (0 ≤ start)%Z → window_end start (u64_max * 1000) = None.
Proof. intros Hs. unfold window_end. by rewrite (proj2 (Z.leb_gt _ _)) by (vm_compute; reflexivity). Qed.

(** ** The rate of throttled actions *)

Section Throttling.
Context {S : Type} `{OutboxRepository S} `{KeyValueStore S}.
Context `{Serde ThrottleState} `{Serde AggregationState}.
Implicit Types (a : AlertManager (S := S)) (policy : ThrottlePolicy).

(** The alerts generated so far for an action. *)
Definition generated (name : string) a : Z := Z.of_nat (default 0 (am_generated_alerts a !! name)).

(** A sequence of calls for matches of throttled actions. *)
Definition throttle_calls policy (l : list (DateTime * MonitorMatch)) a : AlertManager :=
  foldl (λ a p, (handle_throttle p.1 p.2 policy a).2) a l.

Lemma throttle_calls_cons policy p l a :
  throttle_calls policy (p :: l) a = throttle_calls policy l (handle_throttle p.1 p.2 policy a).2.
Proof. done. Qed.

Lemma dispatch_payload_states p a :
  am_throttle_states (dispatch_payload p a).2 = am_throttle_states a ∧
  am_aggregation_states (dispatch_payload p a).2 = am_aggregation_states a.
Proof.
  unfold dispatch_payload, dispatch_payloads_batch, on_repository, modify, mbind, eff_bind.
  by destruct (enqueue_outbox_batch _ _) as [[]].
Qed.

Lemma dispatch_payload_generated p a :
  generated (action_name p) (dispatch_payload p a).2 =
    (generated (action_name p) a +
     if is_ok (enqueue_outbox_batch [(action_name p, p)] (am_state_repository a)).1 then 1 else 0)%Z.
Proof.
  unfold dispatch_payload, dispatch_payloads_batch, on_repository, modify, mbind, eff_bind, generated.
  cbn. destruct (enqueue_outbox_batch _ _) as [[]]; cbn; [|lia].
  unfold count_generated. rewrite lookup_insert_eq. cbn. lia.
Qed.

(** One call: what is decided and what is counted. *)
Lemma handle_throttle_step policy t m a :
  let '(d, st) := throttle_step policy t (am_throttle_states a !! mm_action_name m) in
  let a' := (handle_throttle t m policy a).2 in
  am_throttle_states a' !! mm_action_name m = Some st ∧
  ∃ ok, generated (mm_action_name m) a' =
      (generated (mm_action_name m) a + (if (d : bool) && ok then 1 else 0))%Z ∧
    ((∀ items s, is_ok (enqueue_outbox_batch items s).1 = true) → ok = true).
Proof.
  unfold handle_throttle. destruct (throttle_step _ _ _) as [[] st]; cbn [snd].
  - rewrite (proj1 (dispatch_payload_states _ _)). cbn. split; [apply lookup_insert_eq|].
    set (a1 := mkAlertManager _ _ _ _). eexists. split; [apply (dispatch_payload_generated (Single m) a1)|].
    intros Hok. apply Hok.
  - split; [apply lookup_insert_eq|]. exists true. split; [|done]. unfold generated. cbn. lia.
Qed.

(** How many alerts an action may still have up to [t0 + window]. *)
Definition budget policy (t0 : DateTime) (o : option ThrottleState) : Z :=
  match o with
  | None => thr_max_count policy
  | Some st =>
      Z.max 0 (thr_max_count policy - ts_count st) +
      (if ts_window_start_time st <? t0 then thr_max_count policy else 0)
  end%Z.

Lemma throttle_step_budget policy t0 t o :
  (0 ≤ thr_max_count policy)%Z → (t0 ≤ t ≤ t0 + thr_time_window_secs policy)%Z →
  let '(d, st) := throttle_step policy t o in
  ((if d : bool then 1 else 0) + budget policy t0 (Some st) ≤ budget policy t0 o)%Z.
Proof.
  intros Hmax Ht. unfold throttle_step, budget.
  destruct o as [[c w]|]; cbn -[Z.ltb Z.add Z.max];
    repeat match goal with
    | |- context [(?x <? ?y)%Z] => destruct (Z.ltb_spec x y); cbn -[Z.ltb Z.add Z.max]
    end; cbn [ts_count ts_window_start_time] in *; lia.
Qed.

Lemma throttle_calls_budget policy t0 name l a :
  (0 ≤ thr_max_count policy)%Z →
  Forall (λ p, (t0 ≤ p.1 ≤ t0 + thr_time_window_secs policy)%Z ∧ mm_action_name p.2 = name) l →
  (generated name (throttle_calls policy l a) ≤
     generated name a + budget policy t0 (am_throttle_states a !! name))%Z.
Proof.
  intros Hmax Hl. revert a. induction Hl as [|[t m] l [Ht <-] _ IH]; intros a; cbn in *.
  - unfold budget. destruct (am_throttle_states a !! name); [case_match; lia|lia].
  - pose proof (throttle_step_budget policy t0 t (am_throttle_states a !! mm_action_name m) Hmax Ht) as Hb.
    pose proof (handle_throttle_step policy t m a) as Hs.
    destruct (throttle_step policy t _) as [d st]. destruct Hs as (Est & ok & Eg & _).
    specialize (IH (handle_throttle t m policy a).2). rewrite Est, Eg in IH.
    etrans; [exact IH|]. destruct d, ok; cbn [andb]; lia.
Qed.

(** A window that started at [t0] or later does not restart before its end. *)
Lemma throttle_calls_exact policy t0 name l a st :
  (∀ items s, is_ok (enqueue_outbox_batch items s).1 = true) →
  Forall (λ p, (t0 ≤ p.1 ≤ t0 + thr_time_window_secs policy)%Z ∧ mm_action_name p.2 = name) l →
  am_throttle_states a !! name = Some st → (t0 ≤ ts_window_start_time st)%Z →
  generated name (throttle_calls policy l a) =
    (generated name a + Z.min (Z.of_nat (length l)) (Z.max 0 (thr_max_count policy - ts_count st)))%Z.
Proof.
  intros Hok Hl. revert a st. induction Hl as [|[t m] l [Ht <-] _ IH]; intros a st Hst Hw; [cbn; lia|].
  rewrite throttle_calls_cons. cbn [fst snd] in *.
  pose proof (handle_throttle_step policy t m a) as Hs. rewrite Hst in Hs.
  destruct (throttle_step policy t _) as [d st'] eqn:Ed. destruct Hs as (Est & ok & Eg & Hok').
  rewrite (Hok' Hok) in Eg. unfold throttle_step in Ed. cbn in Ed.
  rewrite (proj2 (Z.ltb_ge _ t)) in Ed by lia.
  destruct (Z.ltb_spec (ts_count st) (thr_max_count policy)); injection Ed as <- <-;
    rewrite (IH _ _ Est ltac:(cbn; lia)), Eg; cbn; lia.
Qed.

(** C28: A throttled action is never alerted more than twice its maximum within any
    period of the length of its window, whatever happened before, whatever the clock
    does within the period and whether or not the outbox fails; and an action used for
    the first time is alerted for exactly its first matches up to the maximum, when
    the outbox does not fail. *)
Theorem throttle_rate policy t0 name l a :
  (0 ≤ thr_max_count policy)%Z →
  Forall (λ p, (t0 ≤ p.1 ≤ t0 + thr_time_window_secs policy)%Z ∧ mm_action_name p.2 = name) l →
  (∀ st, am_throttle_states a !! name = Some st → 0 ≤ ts_count st)%Z →
  (generated name (throttle_calls policy l a) ≤ generated name a + 2 * thr_max_count policy)%Z ∧
  ((∀ items s, is_ok (enqueue_outbox_batch items s).1 = true) →
   am_throttle_states a !! name = None → l ≠ [] →
   (∀ t m, head l = Some (t, m) → t = t0) →
   generated name (throttle_calls policy l a) =
     (generated name a + Z.min (Z.of_nat (length l)) (thr_max_count policy))%Z).
Proof.
  intros Hmax Hl Hcount. split.
  - etrans; [by apply throttle_calls_budget|]. unfold budget.
    destruct (am_throttle_states a !! name) as [st|]; [|lia].
    specialize (Hcount st eq_refl). case_match; lia.
  - intros Hok Hnone Hne Hhead. destruct l as [|[t m] l]; [done|]. specialize (Hhead t m eq_refl) as ->.
    inversion Hl as [|? ? [Ht Hm] Hl']; subst. cbn [fst snd] in *.
    rewrite throttle_calls_cons. cbn [fst snd].
    pose proof (handle_throttle_step policy t0 m a) as Hs. rewrite Hnone in Hs.
    destruct (throttle_step policy t0 None) as [d st] eqn:Ed. destruct Hs as (Est & ok & Eg & Hok').
    rewrite (Hok' Hok) in Eg. unfold throttle_step in Ed. cbn in Ed.
    rewrite (proj2 (Z.ltb_ge _ t0)) in Ed by lia. cbn in Ed.
    destruct (Z.ltb_spec 0 (thr_max_count policy)); injection Ed as <- <-;
      rewrite (throttle_calls_exact policy t0 _ l _ _ Hok Hl' Est ltac:(cbn; lia)), Eg; cbn; lia.
Qed.
End Throttling.

(** ** No match is lost *)

Section Accounting.
Context {S : Type} `{DefaultHasher} `{OutboxRepository S} `{!OutboxLaws S} `{KeyValueStore S} `{!KeyValueLaws S}.
Context `{!AlertStoreLaws S} `{Serde ThrottleState} `{Serde AggregationState}.
Context (actions : gmap string ActionConfig).
Context (reliable : ∀ items (s : S), is_ok (enqueue_outbox_batch items s).1 = true).
Implicit Types (a : AlertManager (S := S)).

(** The idempotency keys in the outbox. *)
Definition keys a : list string := item_key <$> outbox (am_state_repository a).
Definition ids (st : AggregationState) : list string := mm_id <$> as_matches st.
Definition am_ok a : Prop := outbox_ok (am_state_repository a).

(** A match is accounted for: its alert is in the outbox, or it waits in the window
    of its action, or it is in an aggregated alert of the outbox.  Throttled actions
    and unknown ones may drop it. *)
Definition accounted a (m : MonitorMatch) : Prop :=
  match actions !! mm_action_name m with
  | None => True
  | Some c =>
      match ac_policy c with
      | None => mm_id m ∈ keys a
      | Some (Throttle _) => True
      | Some (Aggregation p) =>
          (∃ st, am_aggregation_states a !! mm_action_name m = Some st ∧ mm_id m ∈ ids st) ∨
          (∃ ms, mm_id m ∈ mm_id <$> ms ∧
             idempotency_key (Aggregated (mm_action_name m) ms (agg_template p)) ∈ keys a)
      end
  end.

(** What every call but the scan does: keys and waiting matches are only added. *)
Record grows a a' : Prop := {
  gr_ok : am_ok a';
  gr_keys k : k ∈ keys a → k ∈ keys a';
  gr_ids n st : am_aggregation_states a !! n = Some st →
    ∃ st', am_aggregation_states a' !! n = Some st' ∧ ∀ i, i ∈ ids st → i ∈ ids st'
}.

Lemma grows_same a a' :
  am_ok a → am_state_repository a' = am_state_repository a →
  am_aggregation_states a' = am_aggregation_states a → grows a a'.
Proof. intros Hok Hs Ha. split; unfold am_ok, keys; rewrite ?Hs, ?Ha; eauto. Qed.

Lemma grows_refl a : am_ok a → grows a a.
Proof. intros Hok. split; [done|done|eauto]. Qed.

Lemma grows_trans a1 a2 a3 : grows a1 a2 → grows a2 a3 → grows a1 a3.
Proof.
  intros [_ Hk12 Hi12] [Hok Hk23 Hi23]. split; [done|auto|]. intros n st Hst.
  destruct (Hi12 n st Hst) as (st' & Hst' & Hi). destruct (Hi23 n st' Hst') as (st'' & ? & ?). eauto.
Qed.

Lemma accounted_grows a a' m : grows a a' → accounted a m → accounted a' m.
Proof.
  intros [_ Hk Hi]. unfold accounted. destruct (actions !! _) as [c|]; [|done].
  destruct (ac_policy c) as [[p|p]|]; [|done|by apply Hk].
  intros [(st & Hst & Hm)|(ms & Hm & Hms)]; [left|right; eauto].
  destruct (Hi _ _ Hst) as (st' & ? & Hsub). eauto.
Qed.

(** Dispatching succeeds, and all payloads are in the outbox. *)
Lemma dispatch_grows ps a :
  am_ok a → ∃ a', dispatch_payloads_batch ps a = (Ok tt, a') ∧ grows a a' ∧
    am_aggregation_states a' = am_aggregation_states a ∧
    ∀ p, p ∈ ps → idempotency_key p ∈ keys a'.
Proof.
  intros Hok. destruct ps as [|p ps].
  { exists a. split; [done|]. split; [by apply grows_refl|]. split; [done|]. intros p Hp. by apply not_elem_of_nil in Hp. }
  unfold dispatch_payloads_batch, on_repository, modify, mbind, eff_bind.
  pose proof (reliable ((λ p, (action_name p, p)) <$> p :: ps) (am_state_repository a)) as Hr.
  destruct (enqueue_outbox_batch _ _) as [[[]|] s'] eqn:Ee; [|done].
  destruct (enqueue_view _ _ _ _ Hok Ee) as (Hok' & added & Ho & _ & Hc).
  eexists. split; [reflexivity|]. split; [split; [done| |eauto]|split; [done|]].
  - unfold keys. cbn. rewrite Ho, fmap_app. set_solver.
  - intros q Hq. unfold keys. cbn [am_state_repository].
    assert (item_key <$> outbox s' = (λ p, idempotency_key p.2) <$> (content <$> outbox s')) as ->
      by by rewrite <- list_fmap_compose.
    rewrite Hc. apply insert_new_keys. right. rewrite <- list_fmap_compose.
    by apply (list_elem_of_fmap_2 idempotency_key).
Qed.

Lemma throttle_grows t m policy a :
  am_ok a → ∃ a', handle_throttle t m policy a = (Ok tt, a') ∧ grows a a'.
Proof.
  intros Hok. unfold handle_throttle. destruct (throttle_step _ _ _) as [d st].
  set (a1 := mkAlertManager _ _ _ _). destruct d; [|exists a1; split; [done|by apply grows_same]].
  unfold dispatch_payload. destruct (dispatch_grows [Single m] a1 Hok) as (a' & -> & Hg & _). exists a'.
  split; [done|]. apply (grows_trans _ a1); [by apply grows_same|exact Hg].
Qed.

Lemma aggregation_add_ids t m st :
  mm_id m ∈ ids (aggregation_add t m st) ∧ ∀ i, i ∈ ids st → i ∈ ids (aggregation_add t m st).
Proof.
  unfold aggregation_add. destruct (existsb _ _) eqn:Ee.
  - split; [|done]. apply existsb_exists in Ee as (m' & Hm' & <-%bool_decide_eq_true).
    apply list_elem_of_fmap_2. by apply list_elem_of_In.
  - unfold ids. cbn. rewrite fmap_app. set_solver.
Qed.

Lemma aggregation_grows t m a :
  am_ok a → ∃ a', handle_aggregation t m a = (Ok tt, a') ∧ grows a a' ∧
    ∃ st, am_aggregation_states a' !! mm_action_name m = Some st ∧ mm_id m ∈ ids st.
Proof.
  intros Hok. unfold handle_aggregation, modify. eexists. split; [reflexivity|].
  set (st0 := default AggregationState_default (am_aggregation_states a !! mm_action_name m)).
  destruct (aggregation_add_ids t m st0) as [Hm Hsub]. split.
  - split; [done|done|]. cbn. intros n st Hst. destruct (decide (mm_action_name m = n)) as [<-|].
    + rewrite lookup_insert_eq. eexists. split; [done|].
      assert (st0 = st) as E by (unfold st0; by rewrite Hst). by rewrite <- E.
    + rewrite lookup_insert_ne by done. eauto.
  - cbn. rewrite lookup_insert_eq. eauto.
Qed.

(** The loop over a batch: every match is accounted for, or collected. *)
Lemma handle_matches_spec l imm a :
  am_ok a → ∃ imm' a', handle_matches actions l imm a = (Ok (imm ++ imm'), a') ∧ grows a a' ∧
    ∀ t m, (t, m) ∈ l → accounted a' m ∨
      (Single m ∈ imm' ∧ ∃ c, actions !! mm_action_name m = Some c ∧ ac_policy c = None).
Proof.
  revert imm a. induction l as [|[t m] l IH]; intros imm a Hok; cbn [handle_matches].
  { exists [], a. rewrite app_nil_r. split; [done|]. split; [by apply grows_refl|].
    intros ?? Hin. by apply not_elem_of_nil in Hin. }
  assert (∀ a1 imm1 collected, grows a a1 → imm1 = imm ++ collected →
    (accounted a1 m ∨ (Single m ∈ collected ∧ ∃ c, actions !! mm_action_name m = Some c ∧ ac_policy c = None)) →
    ∃ imm' a', handle_matches actions l imm1 a1 = (Ok (imm ++ imm'), a') ∧ grows a a' ∧
      ∀ t' m', (t', m') ∈ (t, m) :: l → accounted a' m' ∨
        (Single m' ∈ imm' ∧ ∃ c, actions !! mm_action_name m' = Some c ∧ ac_policy c = None)) as Hrest.
  { intros a1 imm1 collected Hg -> Hm. destruct (IH (imm ++ collected) a1 (gr_ok _ _ Hg)) as (imm' & a' & -> & Hg' & Hl).
    exists (collected ++ imm'), a'. rewrite app_assoc. split; [done|]. split; [by eapply grows_trans|].
    intros t' m' [[= -> ->]|Hin]%elem_of_cons.
    - destruct Hm as [Hm|[Hm Hc]]; [left; by eapply accounted_grows|right]. split; [set_solver|done].
    - destruct (Hl t' m' Hin) as [|[Hs Hc]]; [by left|right]. split; [set_solver|done]. }
  destruct (actions !! mm_action_name m) as [c|] eqn:Ec.
  - destruct (ac_policy c) as [[p|p]|] eqn:Ep.
    + destruct (aggregation_grows t m a Hok) as (a1 & E & Hg & Hst).
      rewrite (eff_bind_run _ _ _ _ _ E). apply (Hrest a1 imm []); [done|by rewrite app_nil_r|].
      left. unfold accounted. rewrite Ec, Ep. by left.
    + destruct (throttle_grows t m p a Hok) as (a1 & E & Hg).
      rewrite (eff_bind_run _ _ _ _ _ E). apply (Hrest a1 imm []); [done|by rewrite app_nil_r|].
      left. unfold accounted. by rewrite Ec, Ep.
    + apply (Hrest a (imm ++ [Single m]) [Single m]); [by apply grows_refl|done|].
      right. split; [set_solver|eauto].
  - apply (Hrest a imm []); [by apply grows_refl|by rewrite app_nil_r|].
    left. unfold accounted. by rewrite Ec.
Qed.

Lemma process_batch_accounted l a :
  am_ok a → ∃ a', process_matches_batch actions l a = (Ok tt, a') ∧ grows a a' ∧
    ∀ t m, (t, m) ∈ l → accounted a' m.
Proof.
  intros Hok. unfold process_matches_batch. destruct l as [|p l].
  { exists a. split; [done|]. split; [by apply grows_refl|]. intros ?? Hin. by apply not_elem_of_nil in Hin. }
  destruct (handle_matches_spec (p :: l) [] a Hok) as (imm & a1 & E & Hg & Hl).
  rewrite (eff_bind_run _ _ _ _ _ E). cbn [app].
  destruct (dispatch_grows imm a1 (gr_ok _ _ Hg)) as (a2 & E2 & Hg2 & _ & Hk).
  exists a2. split; [|split; [by eapply grows_trans|]].
  { destruct imm; [|exact E2]. cbn in E2. by injection E2 as <-. }
  intros t m Hin. destruct (Hl t m Hin) as [Hm|[Hs (c & Ec & Ep)]]; [by eapply accounted_grows|].
  unfold accounted. rewrite Ec, Ep. by apply (Hk (Single m)).
Qed.

(** Saving the states leaves the outbox and the waiting matches. *)
Lemma sync_outbox a :
  am_ok a → let a' := (sync_states_to_db a).2 in
  am_ok a' ∧ outbox (am_state_repository a') = outbox (am_state_repository a) ∧
  am_aggregation_states a' = am_aggregation_states a.
Proof.
  intros Hok. unfold sync_states_to_db.
  set (P := λ a', am_ok a' ∧ outbox (am_state_repository a') = outbox (am_state_repository a) ∧
    am_aggregation_states a' = am_aggregation_states a).
  assert (∀ T (sT : Serde T) k (v : T) a', P a' → P (on_repository (set_json_state k v) a').2) as Hset.
  { intros T sT k v a' (Hok' & Hk & Hs). unfold on_repository.
    destruct (set_json_outbox k v (am_state_repository a') Hok') as [Hok'' Ho].
    destruct (set_json_state k v (am_state_repository a')) as [r s']. cbn in *. split; [done|]. cbn. by rewrite Ho. }
  assert (∀ T (sT : Serde T) (p : string) (l : list (string * T)) a', P a' →
    P (for_each (λ kv, on_repository (set_json_state (p +:+ kv.1) kv.2)) l a').2) as Hloop.
  { intros T sT p l a' Ha'. apply (for_each_inv P); [|done]. intros kv a2 _. apply Hset. }
  unfold mbind, eff_bind.
  pose proof (Hloop _ _ throttle_prefix (map_to_list (am_throttle_states a)) a ltac:(done)) as Ht.
  destruct (for_each _ _ a) as [[u|e] a1]; [|done]. by apply Hloop.
Qed.

Lemma sync_same a :
  am_ok a → let a' := (sync_states_to_db a).2 in
  am_ok a' ∧ keys a' = keys a ∧ am_aggregation_states a' = am_aggregation_states a.
Proof. intros Hok. destruct (sync_outbox a Hok) as (? & Ho & ?). cbv zeta. unfold keys. by rewrite Ho. Qed.

Lemma check_accounted force t a m :
  am_ok a → accounted a m →
  let a' := (check_and_dispatch_expired_windows actions force t a).2 in am_ok a' ∧ accounted a' m.
Proof.
  intros Hok Hm. unfold check_and_dispatch_expired_windows.
  set (ps := expired_payloads _ _ _ _). set (a1 := mkAlertManager _ _ _ _).
  destruct (dispatch_grows ps a1 Hok) as (a2 & -> & Hg & Hs & Hk). cbn [snd].
  destruct (sync_same a2 (gr_ok _ _ Hg)) as (Hok3 & Hk3 & Hs3). split; [done|].
  revert Hm. unfold accounted. destruct (actions !! mm_action_name m) as [c|] eqn:Ec; [|done].
  destruct (ac_policy c) as [[p|p]|] eqn:Ep; [|done|].
  2:{ rewrite Hk3. apply (gr_keys _ _ Hg). }
  intros [(st & Hst & Hin)|(ms & Hin & Hms)]; [|right; exists ms; rewrite Hk3; split; [done|]; by apply (gr_keys _ _ Hg)].
  pose proof (eq_refl (take_window actions force t (mm_action_name m) st)) as Et.
  unfold take_window at 2 in Et. rewrite Ec, Ep in Et.
  destruct (as_matches st) as [|m0 ms0] eqn:Ems; [unfold ids in Hin; rewrite Ems in Hin; by apply not_elem_of_nil in Hin|].
  destruct (force || _).
  - right. exists (m0 :: ms0). unfold ids in Hin. rewrite Ems in Hin. split; [done|]. rewrite Hk3. apply Hk.
    apply list_elem_of_omap. exists (mm_action_name m, st). split; [by apply elem_of_map_to_list|]. cbn. by rewrite Et.
  - left. exists st. split; [|done]. rewrite Hs3, Hs. cbn. rewrite map_lookup_imap, Hst. cbn. by rewrite Et.
Qed.

(** The calls made on the manager by the application. *)
Inductive alert_op :=
| ProcessBatch (l : list (DateTime * MonitorMatch))
| CheckWindows (force : bool) (now : DateTime).

Definition run_alert_op a (op : alert_op) : AlertManager :=
  match op with
  | ProcessBatch l => (process_matches_batch actions l a).2
  | CheckWindows force now => (check_and_dispatch_expired_windows actions force now a).2
  end.

Lemma check_ok force t a : am_ok a → am_ok (check_and_dispatch_expired_windows actions force t a).2.
Proof.
  intros Hok. unfold check_and_dispatch_expired_windows.
  set (ps := expired_payloads _ _ _ _). set (a1 := mkAlertManager _ _ _ _).
  destruct (dispatch_grows ps a1 Hok) as (a2 & -> & Hg & _). cbn [snd]. by apply sync_same, (gr_ok _ _ Hg).
Qed.

(** A scan keeps the keys; a forced one empties the windows. *)
Lemma check_keeps_keys force t a k : am_ok a → k ∈ keys a → k ∈ keys (check_and_dispatch_expired_windows actions force t a).2.
Proof.
  intros Hok Hk. unfold check_and_dispatch_expired_windows.
  set (ps := expired_payloads _ _ _ _). set (a1 := mkAlertManager _ _ _ _).
  destruct (dispatch_grows ps a1 Hok) as (a2 & -> & Hg & _). cbn [snd].
  destruct (sync_same a2 (gr_ok _ _ Hg)) as (_ & -> & _). by apply (gr_keys _ _ Hg).
Qed.

Lemma forced_empties t a n st :
  am_ok a → am_aggregation_states (check_and_dispatch_expired_windows actions true t a).2 !! n = Some st → as_matches st = [].
Proof.
  intros Hok. unfold check_and_dispatch_expired_windows.
  set (ps := expired_payloads _ _ _ _). set (a1 := mkAlertManager _ _ _ _).
  destruct (dispatch_grows ps a1 Hok) as (a2 & -> & Hg & Hs & _). cbn [snd].
  destruct (sync_same a2 (gr_ok _ _ Hg)) as (_ & _ & ->). rewrite Hs. cbn. rewrite map_lookup_imap.
  destruct (am_aggregation_states a !! n) as [st0|]; [|done]. cbn. intros [= <-]. unfold take_window.
  destruct (as_matches st0) eqn:Em; [done|]. by repeat case_match.
Qed.

Lemma run_alert_op_keeps a op : am_ok a → am_ok (run_alert_op a op) ∧ ∀ m, accounted a m → accounted (run_alert_op a op) m.
Proof.
  intros Hok. destruct op as [l|force t]; cbn.
  - destruct (process_batch_accounted l a Hok) as (a' & -> & Hg & _). split; [by apply (gr_ok _ _ Hg)|].
    intros m. by apply accounted_grows.
  - split; [by apply check_ok|]. intros m Hm. by apply check_accounted.
Qed.

(** No match is ever lost while the outbox accepts what is given to it: after any
    sequence of batches and scans, a match that was processed for an action without
    policy is in the outbox under its own key, and one processed for an aggregating
    action waits in the window of the action or is part of an aggregated alert of
    the outbox. *)
Theorem alerts_accounted a ops l t m :
  am_ok a → ProcessBatch l ∈ ops → (t, m) ∈ l → accounted (foldl run_alert_op a ops) m.
Proof.
  intros Hok Hl Hm. assert (am_ok (foldl run_alert_op a ops) ∧
    (ProcessBatch l ∈ ops → accounted (foldl run_alert_op a ops) m)) as [_ Hacc]; [|by apply Hacc].
  clear Hl. induction ops as [|op ops IH] using rev_ind; [split; [done|intros Hin; by apply not_elem_of_nil in Hin]|].
  destruct IH as [Hok' IH]. rewrite foldl_app. cbn. destruct (run_alert_op_keeps _ op Hok') as [Hok'' Hkeep].
  split; [done|]. intros [Hin|Hin%list_elem_of_singleton]%elem_of_app; [by apply Hkeep, IH|].
  subst op. cbn. destruct (process_batch_accounted l _ Hok') as (a' & -> & _ & Hall). by eapply Hall.
Qed.
End Accounting.

(** ** The states survive a restart *)

Section Restart.
Context {S : Type} `{DefaultHasher} `{OutboxRepository S} `{!OutboxLaws S} `{KeyValueStore S} `{!KeyValueLaws S}.
Context `{!AlertStoreLaws S} `{SerdeLaws ThrottleState} `{SerdeLaws AggregationState}.
Context (actions : gmap string ActionConfig).
Implicit Types (a b : AlertManager (S := S)).

Lemma strip_prefix_spec p k n : strip_prefix p k = Some n ↔ k = p +:+ n.
Proof.
  revert k. induction p as [|c p IH]; intros k; cbn.
  - split; intros E; [by injection E as ->|by subst].
  - destruct k as [|d k]; cbn; [split; intros E; discriminate E|].
    case_decide as Hc; [|split; intros E; [discriminate E|by injection E as ->]].
    subst. rewrite IH. split; intros E; [by subst|by injection E].
Qed.

Lemma app_string_inj (p n n' : string) : p +:+ n = p +:+ n' → n = n'.
Proof. induction p as [|c p IH]; cbn; [done|]. by intros [= E%IH]. Qed.

Lemma prefix_app_string (p n : string) : String.prefix p (p +:+ n) = true.
Proof.
  induction p as [|c p IH]; [by destruct n|].
  change (String c p +:+ n) with (String c (p +:+ n)). cbn [String.prefix].
  destruct (Ascii.ascii_dec c c) as [_|Hc]; [exact IH|by destruct Hc].
Qed.

(** Each saved key with the prefix gives its state. *)
Lemma load_states_lookup {T} p (saved : list (string * T)) n v :
  NoDup saved.*1 → load_states p saved !! n = Some v ↔ (p +:+ n, v) ∈ saved.
Proof.
  unfold load_states. induction saved as [|[k w] saved IH] using rev_ind.
  - intros _. cbn. rewrite lookup_empty. split; [done|]. intros Hin. by apply not_elem_of_nil in Hin.
  - rewrite fmap_app. cbn. intros Hnd. rewrite foldl_app. cbn. apply NoDup_app in Hnd as (Hnd & Hk & _).
    specialize (IH Hnd). rewrite elem_of_app, list_elem_of_singleton.
    assert ((p +:+ n, v) ∈ saved → k ≠ p +:+ n) as Hne.
    { intros Hin ->. apply (Hk (p +:+ n)); [|by apply list_elem_of_singleton].
      change (p +:+ n) with ((p +:+ n, v).1). by apply list_elem_of_fmap_2. }
    destruct (strip_prefix p k) as [n'|] eqn:Es.
    + apply strip_prefix_spec in Es as ->. destruct (decide (n' = n)) as [->|Hn].
      * rewrite lookup_insert_eq. split; [intros [= ->]; by right|]. intros [Hin|[= ->]]; [|done].
        by destruct (Hne Hin).
      * rewrite lookup_insert_ne by done. rewrite IH. split; [by left|].
        intros [|[= E _]]; [done|]. by apply app_string_inj in E.
    + rewrite IH. split; [by left|]. intros [|[= <- <-]]; [done|].
      by rewrite (proj2 (strip_prefix_spec p _ n)) in Es.
Qed.

(** Loading gives exactly the decodable states of the keys with the prefix. *)
Lemma loaded {T} `{Serde T} p (s : S) saved s' n v :
  get_all_json_states_by_prefix p s = (Ok saved, s') →
  load_states p saved !! n = Some v ↔ ∃ str, kv s !! (p +:+ n) = Some str ∧ from_str str = Ok v.
Proof.
  intros E. destruct (prefix_view p s _ s' E) as [_ Hv].
  destruct (Hv saved eq_refl) as (Hnd & Hsound & Hcomplete). rewrite load_states_lookup by done. split.
  - apply Hsound.
  - intros (str & Hk & Hd). specialize (Hcomplete (p +:+ n) ltac:(eauto) (prefix_app_string p n)).
    apply list_elem_of_fmap in Hcomplete as ([k w] & Ek & Hin). cbn in Ek. subst k.
    destruct (Hsound _ _ Hin) as (str' & Hk' & Hd'). assert (v = w) as -> by congruence. done.
Qed.

Lemma loaded_dom {T} `{Serde T} p (s : S) saved s' n str :
  get_all_json_states_by_prefix (T := T) p s = (Ok saved, s') →
  kv s !! (p +:+ n) = Some str → is_Some (load_states p saved !! n).
Proof.
  intros E Hk. destruct (prefix_view p s _ s' E) as [_ Hv].
  destruct (Hv saved eq_refl) as (Hnd & _ & Hcomplete).
  specialize (Hcomplete (p +:+ n) ltac:(eauto) (prefix_app_string p n)).
  apply list_elem_of_fmap in Hcomplete as ([k w] & Ek & Hin). cbn in Ek. subst k.
  exists w. by apply load_states_lookup.
Qed.

(** A loop that writes the states of a map under a prefix. *)
Definition put_states {T} `{Serde T} (p : string) (m : gmap string T) (store : gmap string string) : Prop :=
  ∀ n v, m !! n = Some v → ∃ str, to_string v = Ok str ∧ store !! (p +:+ n) = Some str.

Lemma put_loop {T} `{Serde T} p (l : list (string * T)) a a' :
  NoDup l.*1 →
  for_each (λ x, on_repository (set_json_state (p +:+ x.1) x.2)) l a = (Ok tt, a') →
  am_throttle_states a' = am_throttle_states a ∧ am_aggregation_states a' = am_aggregation_states a ∧
  (∀ n v, (n, v) ∈ l → ∃ str, to_string v = Ok str ∧ kv (am_state_repository a') !! (p +:+ n) = Some str) ∧
  (∀ k, (∀ n, n ∈ l.*1 → k ≠ p +:+ n) → kv (am_state_repository a') !! k = kv (am_state_repository a) !! k).
Proof.
  revert a. induction l as [|[n v] l IH]; intros a Hnd; cbn [for_each].
  { intros [= <-]. split_and!; try done. intros n v Hin. by apply not_elem_of_nil in Hin. }
  intros ([] & a1 & E1 & E)%eff_bind_Ok. rewrite fmap_cons in Hnd. apply NoDup_cons in Hnd as [Hn Hnd].
  destruct (IH a1 Hnd E) as (Ht & Ha & Hin & Hout). clear IH E.
  unfold on_repository in E1. cbn [fst snd] in E1.
  destruct (set_json_state (p +:+ n) v (am_state_repository a)) as [[u|e] s1] eqn:Es; [|done].
  apply set_json_view in Es as (str & Hstr & Hkv). injection E1 as _ <-. cbn in *.
  assert (∀ n', n' ∈ l.*1 → p +:+ n ≠ p +:+ n') as Hfresh by (intros n' Hn' E%app_string_inj; by subst).
  split_and!; [done|done| |].
  - intros n' v' [[= -> ->]|Hl]%elem_of_cons; [|by apply Hin].
    exists str. split; [done|]. rewrite Hout by done. by rewrite Hkv, lookup_insert_eq.
  - intros k Hk. rewrite Hout by (intros n' Hn'; apply Hk; by right).
    rewrite Hkv, lookup_insert_ne; [done|]. intros <-. by apply (Hk n ltac:(by left)).
Qed.

Lemma prefixes_differ n n' : throttle_prefix +:+ n ≠ aggregation_prefix +:+ n'.
Proof. done. Qed.

Lemma sync_spec a a' :
  sync_states_to_db a = (Ok tt, a') →
  am_throttle_states a' = am_throttle_states a ∧ am_aggregation_states a' = am_aggregation_states a ∧
  put_states throttle_prefix (am_throttle_states a) (kv (am_state_repository a')) ∧
  put_states aggregation_prefix (am_aggregation_states a) (kv (am_state_repository a')) ∧
  (∀ k, (∀ n, is_Some (am_throttle_states a !! n) → k ≠ throttle_prefix +:+ n) →
        (∀ n, is_Some (am_aggregation_states a !! n) → k ≠ aggregation_prefix +:+ n) →
        kv (am_state_repository a') !! k = kv (am_state_repository a) !! k).
Proof.
  unfold sync_states_to_db. intros ([] & a1 & E1 & E2)%eff_bind_Ok.
  destruct (put_loop _ _ _ _ (NoDup_fst_map_to_list _) E1) as (Ht1 & Ha1 & Hin1 & Hout1).
  destruct (put_loop _ _ _ _ (NoDup_fst_map_to_list _) E2) as (Ht2 & Ha2 & Hin2 & Hout2).
  assert (∀ T (m : gmap string T) n, n ∈ (map_to_list m).*1 → is_Some (m !! n)) as Hdom.
  { intros T m n ([n' v] & -> & Hv%elem_of_map_to_list)%list_elem_of_fmap. by exists v. }
  split_and!; [congruence|congruence| | |].
  - intros n v Hv%elem_of_map_to_list. destruct (Hin1 n v Hv) as (str & ? & ?). exists str. split; [done|].
    rewrite Hout2; [done|]. intros n' _. apply prefixes_differ.
  - intros n v Hv%elem_of_map_to_list. by apply Hin2.
  - intros k Hk1 Hk2. rewrite Hout2, Hout1; [done|intros n Hn; by apply Hk1, Hdom|intros n Hn; by apply Hk2, Hdom].
Qed.

(** The saved keys are those of actions in memory. *)
Definition saved_within a : Prop :=
  (∀ n, is_Some (kv (am_state_repository a) !! (throttle_prefix +:+ n)) → is_Some (am_throttle_states a !! n)) ∧
  (∀ n, is_Some (kv (am_state_repository a) !! (aggregation_prefix +:+ n)) → is_Some (am_aggregation_states a !! n)).

(** Calls change the saved keys only for actions in memory, and forget no action. *)
Record extends a a' : Prop := {
  ex_throttle n : is_Some (am_throttle_states a !! n) → is_Some (am_throttle_states a' !! n);
  ex_aggregation n : is_Some (am_aggregation_states a !! n) → is_Some (am_aggregation_states a' !! n);
  ex_saved : saved_within a → saved_within a'
}.

Lemma saved_extends_trans a1 a2 a3 : extends a1 a2 → extends a2 a3 → extends a1 a3.
Proof. intros [] []. split; auto. Qed.

Lemma extends_states a a' :
  kv (am_state_repository a') = kv (am_state_repository a) →
  (∀ n, is_Some (am_throttle_states a !! n) → is_Some (am_throttle_states a' !! n)) →
  (∀ n, is_Some (am_aggregation_states a !! n) → is_Some (am_aggregation_states a' !! n)) →
  extends a a'.
Proof. intros Hkv Ht Ha. split; [done|done|]. intros [H1' H2']. split; intros n; rewrite Hkv; auto. Qed.

Lemma saved_extends_refl a : extends a a.
Proof. by apply extends_states. Qed.

Lemma dispatch_extends ps a : extends a (dispatch_payloads_batch ps a).2.
Proof.
  unfold dispatch_payloads_batch. destruct ps as [|p ps]; [apply saved_extends_refl|].
  unfold on_repository, modify, mbind, eff_bind.
  pose proof (enqueue_kv ((λ p, (action_name p, p)) <$> p :: ps) (am_state_repository a)) as Hkv.
  destruct (enqueue_outbox_batch _ _) as [[u|e] s']; by apply extends_states.
Qed.

Lemma is_Some_insert {T} (m : gmap string T) k v n : is_Some (m !! n) → is_Some (<[k := v]> m !! n).
Proof. intros Hn. destruct (decide (k = n)) as [->|]; [rewrite lookup_insert_eq; eauto|by rewrite lookup_insert_ne]. Qed.

Lemma throttle_extends t m policy a : extends a (handle_throttle t m policy a).2.
Proof.
  unfold handle_throttle. destruct (throttle_step _ _ _) as [d st]. set (a1 := mkAlertManager _ _ _ _).
  assert (extends a a1) as H1' by (apply extends_states; [done| |done]; intros n; apply is_Some_insert).
  destruct d; [|done]. eapply saved_extends_trans; [exact H1'|]. apply dispatch_extends.
Qed.

Lemma aggregation_extends t m a : extends a (handle_aggregation t m a).2.
Proof. apply extends_states; [done..|]. intros n. apply is_Some_insert. Qed.

Lemma handle_matches_extends l imm a : extends a (handle_matches actions l imm a).2.
Proof.
  revert imm a. induction l as [|[t m] l IH]; intros imm a; cbn [handle_matches]; [apply saved_extends_refl|].
  destruct (actions !! mm_action_name m) as [c|]; [|apply IH].
  destruct (ac_policy c) as [[p|p]|]; [| |apply IH]; unfold mbind, eff_bind.
  - pose proof (aggregation_extends t m a) as Hg. destruct (handle_aggregation t m a) as [[u|e] a1]; [|done].
    eapply saved_extends_trans; [exact Hg|apply IH].
  - pose proof (throttle_extends t m p a) as Hg. destruct (handle_throttle t m p a) as [[u|e] a1]; [|done].
    eapply saved_extends_trans; [exact Hg|apply IH].
Qed.

Lemma put_loop_extends {T} `{Serde T} (p : string) (l : list (string * T)) a :
  (∀ n v a', (n, v) ∈ l → am_throttle_states a' = am_throttle_states a →
     am_aggregation_states a' = am_aggregation_states a → extends a' (on_repository (set_json_state (p +:+ n) v) a').2) →
  let a' := (for_each (λ x, on_repository (set_json_state (p +:+ x.1) x.2)) l a).2 in
  extends a a' ∧ am_throttle_states a' = am_throttle_states a ∧ am_aggregation_states a' = am_aggregation_states a.
Proof.
  intros Hput. apply (for_each_inv (λ a', extends a a' ∧ am_throttle_states a' = am_throttle_states a ∧
    am_aggregation_states a' = am_aggregation_states a)); [|split; [apply saved_extends_refl|done]].
  intros [n v] a' Hl (He & Ht & Ha). split; [eapply saved_extends_trans; [exact He|by apply Hput]|].
  unfold on_repository. by destruct (set_json_state _ _ _) as [r s'].
Qed.

Lemma sync_extends a : extends a (sync_states_to_db a).2.
Proof.
  unfold sync_states_to_db, mbind, eff_bind.
  assert (∀ T (sT : Serde T) (p : string) n (v : T) a',
    (∀ n', p +:+ n = throttle_prefix +:+ n' → is_Some (am_throttle_states a' !! n')) →
    (∀ n', p +:+ n = aggregation_prefix +:+ n' → is_Some (am_aggregation_states a' !! n')) →
    extends a' (on_repository (set_json_state (p +:+ n) v) a').2) as Hput.
  { intros T sT p n v a' Ht Ha. unfold on_repository.
    destruct (set_json_state (p +:+ n) v (am_state_repository a')) as [r s'] eqn:Es.
    apply set_json_view in Es. split; [done|done|]. intros [Hst Hsa]. unfold saved_within. cbn.
    destruct r as [u|e]; [|by rewrite Es]. destruct Es as (str & _ & ->).
    split; intros n' Hn'.
    - destruct (decide (p +:+ n = throttle_prefix +:+ n')) as [E|E]; [by apply Ht|].
      apply Hst. by rewrite lookup_insert_ne in Hn'.
    - destruct (decide (p +:+ n = aggregation_prefix +:+ n')) as [E|E]; [by apply Ha|].
      apply Hsa. by rewrite lookup_insert_ne in Hn'. }
  destruct (put_loop_extends throttle_prefix (map_to_list (am_throttle_states a)) a) as (He1 & Ht1 & Ha1).
  { intros n v a' Hv%elem_of_map_to_list Ht Ha. apply Hput.
    - intros n' E%app_string_inj. subst n'. rewrite Ht. eauto.
    - intros n' E. by apply prefixes_differ in E. }
  destruct (for_each _ (map_to_list (am_throttle_states a)) a) as [[u|e] a1]; [|done]. cbn [snd] in *.
  destruct (put_loop_extends aggregation_prefix (map_to_list (am_aggregation_states a)) a1) as (He2 & _).
  { intros n v a' Hv%elem_of_map_to_list Ht Ha. apply Hput.
    - intros n' E. symmetry in E. by apply prefixes_differ in E.
    - intros n' E%app_string_inj. subst n'. rewrite Ha, Ha1. eauto. }
  by eapply saved_extends_trans.
Qed.

Lemma run_alert_op_extends a op : extends a (run_alert_op actions a op).
Proof.
  destruct op as [l|force t]; cbn.
  - unfold process_matches_batch. destruct l as [|p l]; [apply saved_extends_refl|].
    unfold mbind, eff_bind. pose proof (handle_matches_extends (p :: l) [] a) as Hg.
    destruct (handle_matches actions (p :: l) [] a) as [[imm|e] a1]; [|done]. cbn [snd] in Hg.
    eapply saved_extends_trans; [exact Hg|]. destruct imm; [apply saved_extends_refl|apply dispatch_extends].
  - unfold check_and_dispatch_expired_windows. set (a1 := mkAlertManager _ _ _ _).
    assert (extends a a1) as H1'.
    { apply extends_states; [done|done|]. intros n [st Hst]. cbn. rewrite map_lookup_imap, Hst. cbn. eauto. }
    eapply saved_extends_trans; [exact H1'|]. eapply saved_extends_trans; [apply dispatch_extends|apply sync_extends].
Qed.

Lemma AlertManager_new_repository db a s : AlertManager_new db = (Ok a, s) → am_state_repository a = s.
Proof. unfold AlertManager_new. repeat case_match; intros [=]; by subst. Qed.

Lemma new_saved_within db a s : AlertManager_new db = (Ok a, s) → saved_within a.
Proof.
  unfold AlertManager_new.
  destruct (get_all_json_states_by_prefix throttle_prefix db) as [[saved1|] s1] eqn:E1; [|done].
  destruct (get_all_json_states_by_prefix aggregation_prefix s1) as [[saved2|] s2] eqn:E2; [|done].
  intros [= <- <-]. destruct (prefix_view _ _ _ _ E1) as [K1 _]. destruct (prefix_view _ _ _ _ E2) as [K2 _].
  unfold saved_within. cbn. rewrite K2. split; intros n [str Hn].
  - rewrite K1 in Hn. by eapply loaded_dom.
  - by eapply loaded_dom.
Qed.

(** A new manager has exactly the saved states. *)
Lemma new_states db a s n :
  AlertManager_new db = (Ok a, s) →
  (∀ st, am_throttle_states a !! n = Some st ↔
     ∃ str, kv db !! (throttle_prefix +:+ n) = Some str ∧ from_str str = Ok st) ∧
  (∀ st, am_aggregation_states a !! n = Some st ↔
     ∃ str, kv db !! (aggregation_prefix +:+ n) = Some str ∧ from_str str = Ok st).
Proof.
  unfold AlertManager_new.
  destruct (get_all_json_states_by_prefix throttle_prefix db) as [[saved1|] s1] eqn:E1; [|done].
  destruct (get_all_json_states_by_prefix aggregation_prefix s1) as [[saved2|] s2] eqn:E2; [|done].
  intros [= <- _]. cbn. destruct (prefix_view _ _ _ _ E1) as [K1 _]. split; intros st.
  - by eapply loaded.
  - rewrite <- K1. by eapply loaded.
Qed.

(** The states loaded from a store in which those of [m] have been put. *)
Lemma loaded_put {T} `{SerdeLaws T} p (m : gmap string T) (s : S) saved s' :
  get_all_json_states_by_prefix p s = (Ok saved, s') →
  put_states p m (kv s) → (∀ n, is_Some (kv s !! (p +:+ n)) → is_Some (m !! n)) →
  load_states p saved = m.
Proof.
  intros E Hput Hdom. apply map_eq. intros n. apply option_eq. intros v. rewrite (loaded p s saved s' n v E). split.
  - intros (str & Hk & Hd). destruct (Hdom n ltac:(eauto)) as [w Hw]. rewrite Hw. f_equal.
    destruct (Hput n w Hw) as (str' & Hs & Hk'). apply from_to_string in Hs. congruence.
  - intros Hv. destruct (Hput n v Hv) as (str & Hs & Hk). exists str. split; [done|]. by apply from_to_string.
Qed.

(** C30: The throttling and aggregation states survive a restart: once the states have
    been saved, a manager created on the same store has exactly the same states, so
    that no waiting match and no used-up quota is forgotten, whatever batches and scans
    were run since the first manager was created. *)
Theorem alert_states_restored db a s1 ops a' b s2 :
  AlertManager_new db = (Ok a, s1) →
  sync_states_to_db (foldl (run_alert_op actions) a ops) = (Ok tt, a') →
  AlertManager_new (am_state_repository a') = (Ok b, s2) →
  am_throttle_states b = am_throttle_states (foldl (run_alert_op actions) a ops) ∧
  am_aggregation_states b = am_aggregation_states (foldl (run_alert_op actions) a ops).
Proof.
  intros Hnew Hsync Hnew'. set (a1 := foldl (run_alert_op actions) a ops) in *.
  assert (saved_within a1) as [Hw1 Hw2].
  { unfold a1. clear Hsync. induction ops as [|op ops IH] using rev_ind; [by eapply new_saved_within|].
    rewrite foldl_app. cbn. apply run_alert_op_extends, IH. }
  destruct (sync_spec a1 a' Hsync) as (_ & _ & Hp1 & Hp2 & Hout).
  revert Hnew'. unfold AlertManager_new.
  destruct (get_all_json_states_by_prefix throttle_prefix (am_state_repository a')) as [[saved1|] s3] eqn:E1; [|done].
  destruct (get_all_json_states_by_prefix aggregation_prefix s3) as [[saved2|] s4] eqn:E2; [|done].
  intros [= <- _]. cbn. destruct (prefix_view _ _ _ _ E1) as [K1 _]. split.
  - eapply loaded_put; [exact E1|exact Hp1|]. intros n [str Hn].
    destruct (am_throttle_states a1 !! n) as [st|] eqn:Est; [eauto|].
    rewrite Hout in Hn; [rewrite <- Est; eauto| |intros n' _; apply prefixes_differ].
    intros n' [st Hst] <-%app_string_inj. congruence.
  - eapply loaded_put; [exact E2|by rewrite K1|]. rewrite K1. intros n [str Hn].
    destruct (am_aggregation_states a1 !! n) as [st|] eqn:Est; [eauto|].
    rewrite Hout in Hn; [rewrite <- Est; eauto|intros n' _ E; symmetry in E; by apply prefixes_differ in E|].
    intros n' [st Hst] <-%app_string_inj. congruence.
Qed.
End Restart.

(** ** Concrete runs *)

Import MonitorMatch.Demo Interfaces.SerdeDemo Interfaces.InterfacesDemo Store.StoreDemo.

Module AlertDemo.
Definition stdout_action (name : string) (policy : option ActionPolicy) : string * ActionConfig :=
  (name, mkAction None name (Stdout (mkStdout None)) policy).
Definition demo_throttle : ThrottlePolicy := mkThrottle 2 60000.
Definition demo_template : NotificationMessage := mkMessage "t" "b".
Definition demo_actions : gmap string ActionConfig := list_to_map
  [stdout_action "now" None;
   stdout_action "agg" (Some (Aggregation (mkAggregation 60000 demo_template)));
   stdout_action "thr" (Some (Throttle demo_throttle))].
Definition demo_match (action : string) (tx : Z) : MonitorMatch :=
  build (transaction_match (builder 1 "m" action 10 tx) JNull).
Definition demo_manager : AlertManager (S := MemStore) := mkAlertManager mem_empty ∅ ∅ ∅.
Definition throttled : list (DateTime * MonitorMatch) :=
  [(0%Z, demo_match "thr" 7); (10%Z, demo_match "thr" 8); (20%Z, demo_match "thr" 9)].
Definition demo_ops : list alert_op :=
  [ProcessBatch [(0%Z, demo_match "now" 7); (1%Z, demo_match "agg" 7)];
   ProcessBatch [(2%Z, demo_match "agg" 8)]; CheckWindows false 70000; ProcessBatch [(70001%Z, demo_match "agg" 9)]].
End AlertDemo.
Import AlertDemo.

Lemma throttle_rate_witness :
  generated "thr" (throttle_calls demo_throttle throttled demo_manager) = 2%Z ∧
  (generated "thr" (throttle_calls demo_throttle throttled demo_manager) ≤ generated "thr" demo_manager + 4)%Z.
Proof.
  destruct (throttle_rate demo_throttle 0 "thr" throttled demo_manager) as [Hle Hexact].
  - vm_compute. discriminate.
  - repeat constructor; vm_compute; discriminate.
  - intros st [=].
  - split; [|exact Hle]. rewrite Hexact; [vm_compute; reflexivity|reflexivity|reflexivity|discriminate|].
    by intros t m [= <- _].
Defined.

Lemma alerts_accounted_witness :
  let a := foldl (run_alert_op demo_actions) demo_manager demo_ops in
  accounted demo_actions a (demo_match "agg" 8) ∧
  oi_payload <$> outbox (am_state_repository a) =
    [Single (demo_match "now" 7); Aggregated "agg" [demo_match "agg" 7; demo_match "agg" 8] demo_template].
Proof.
  cbv zeta. split; [|vm_compute; reflexivity].
  assert (∀ items (s : MemStore), is_ok (enqueue_outbox_batch items s).1 = true) as Hr by reflexivity.
  apply (alerts_accounted demo_actions Hr demo_manager demo_ops
    [(2%Z, demo_match "agg" 8)] 2%Z (demo_match "agg" 8)).
  - exact mem_empty_ok.
  - right. left.
  - left.
Defined.

Lemma alert_states_restored_witness :
  let a1 := foldl (run_alert_op demo_actions) demo_manager (demo_ops ++ [ProcessBatch throttled]) in
  let s := am_state_repository (sync_states_to_db a1).2 in
  ∃ b, (AlertManager_new s).1 = Ok b ∧ am_throttle_states b = am_throttle_states a1 ∧
    am_aggregation_states b = am_aggregation_states a1.
Proof.
  cbv zeta. set (a1 := foldl _ _ _).
  assert ((sync_states_to_db a1).1 = Ok tt) as H1 by (vm_compute; reflexivity).
  assert (is_ok (AlertManager_new (am_state_repository (sync_states_to_db a1).2)).1 = true) as H2
    by (vm_compute; reflexivity).
  destruct (sync_states_to_db a1) as [r a'] eqn:E1. cbn [fst snd] in *. subst r.
  destruct (AlertManager_new (am_state_repository a')) as [[b|] s2] eqn:E2; [|discriminate H2].
  exists b. split; [reflexivity|].
  apply (alert_states_restored demo_actions mem_empty demo_manager mem_empty
    (demo_ops ++ [ProcessBatch throttled]) a' b s2); [reflexivity|exact E1|exact E2].
Defined.

(** When the outbox fails during a scan, the matches of the expired windows are
    lost: they are neither in memory nor in the outbox nor in the saved states. *)
Lemma expired_window_lost :
  let st := mkAggregationState [demo_match "agg" 7] 0 in
  let a := mkAlertManager (demo_db [true]) ∅ ∅ {["agg" := st]} in
  let '(r, a') := check_and_dispatch_expired_windows demo_actions false 70000 a in
  r = Ok tt ∧ outbox (am_state_repository a') = [] ∧
  as_matches <$> (am_aggregation_states a' !! "agg") = Some [] ∧
  (result_ok (AlertManager_new (am_state_repository a')).1 ≫= λ b, as_matches <$> (am_aggregation_states b !! "agg")) = Some [].
Proof. vm_compute. by repeat split. Qed.

(** A throttled alert whose enqueuing fails still uses up the quota of its window. *)
Lemma throttle_quota_used_by_failure :
  let a := mkAlertManager (demo_db [true; true]) ∅ ∅ ∅ in
  let a' := throttle_calls demo_throttle throttled a in
  generated "thr" a' = 0%Z ∧ outbox (am_state_repository a') = [] ∧
  ts_count <$> (am_throttle_states a' !! "thr") = Some 2%Z.
Proof. vm_compute. by repeat split. Qed.
