(* ===== verification/AlertTasks.v ===== *)
(** * The tasks of the alert manager, await by await ([crates/argus-engine/src/alert_manager.rs])

    The loop over the matches and the aggregation dispatcher share the maps in memory and
    the repository.  Each turn of a task goes from one await (or one entry of a shared
    map) to the next, so the two interleave in the middle of a batch and of a scan, and
    the outbox processor removes what it delivers at any moment. *)
From S2P Require Import Prelude Models MonitorMatch Interfaces Store AlertManager.

Section AlertTasks.
Context {S : Type} `{DefaultHasher} `{OutboxRepository S} `{!OutboxLaws S} `{KeyValueStore S}.
Context `{Serde ThrottleState} `{Serde AggregationState}.
Context (actions : gmap string ActionConfig).

Notation Manager := (AlertManager (S := S)).

(** In [recv]; before a match of the batch, with the payloads collected; at the enqueuing of
    a throttled match; at the enqueuing of the collected payloads. *)
Inductive LoopTask :=
| LoopReceive
| LoopHandle (matches : list MonitorMatch) (immediate_payloads : list ActionPayload)
| LoopThrottled (m : MonitorMatch) (matches : list MonitorMatch) (immediate_payloads : list ActionPayload)
| LoopDispatch (immediate_payloads : list ActionPayload).

(** At the interval's tick; before an entry of the map of the windows; at the enqueuing of
    the payloads taken; saving the states copied after it. *)
Inductive ScanTask :=
| ScanWait
| ScanVisit (force : bool) (current_time : DateTime) (names : list string) (payloads : list ActionPayload)
| ScanDispatch (payloads : list ActionPayload)
| ScanSync (throttles : list (string * ThrottleState)) (aggs : list (string * AggregationState)).

Definition with_throttle (name : string) (st : ThrottleState) (a : Manager) : Manager :=
  mkAlertManager (am_state_repository a) (am_generated_alerts a) (<[name := st]> (am_throttle_states a)) (am_aggregation_states a).
Definition with_window (name : string) (st : AggregationState) (a : Manager) : Manager :=
  mkAlertManager (am_state_repository a) (am_generated_alerts a) (am_throttle_states a) (<[name := st]> (am_aggregation_states a)).
Definition with_repository (s : S) (a : Manager) : Manager :=
  mkAlertManager s (am_generated_alerts a) (am_throttle_states a) (am_aggregation_states a).

(** The next match of the batch. *)
Definition handle_match (now : DateTime) (m : MonitorMatch) matches immediate_payloads (a : Manager) : Manager * LoopTask :=
  let name := mm_action_name m in
  match actions !! name with
  | None => (a, LoopHandle matches immediate_payloads)
  | Some action_config =>
      match ac_policy action_config with
      | Some (Throttle policy) =>
          let '(should_dispatch, st) := throttle_step policy now (am_throttle_states a !! name) in
          (with_throttle name st a,
           if should_dispatch then LoopThrottled m matches immediate_payloads else LoopHandle matches immediate_payloads)
      | Some (Aggregation _) => ((handle_aggregation now m a).2, LoopHandle matches immediate_payloads)
      | None => (a, LoopHandle matches (immediate_payloads ++ [Single m]))
      end
  end.

Definition loop_turn (now : DateTime) (a : Manager) (l : LoopTask) : option (Manager * LoopTask) :=
  match l with
  | LoopReceive => None
  | LoopHandle (m :: matches) immediate_payloads => Some (handle_match now m matches immediate_payloads a)
  | LoopHandle [] [] => Some (a, LoopReceive)
  | LoopHandle [] immediate_payloads => Some (a, LoopDispatch immediate_payloads)
  | LoopThrottled m matches immediate_payloads =>
      Some ((dispatch_payload (Single m) a).2, LoopHandle matches immediate_payloads)
  | LoopDispatch immediate_payloads => Some ((dispatch_payloads_batch immediate_payloads a).2, LoopReceive)
  end.

(** The entry of an action in the scan. *)
Definition visit_window (force : bool) (current_time : DateTime) (name : string) (a : Manager) : Manager * list ActionPayload :=
  match am_aggregation_states a !! name with
  | None => (a, [])
  | Some st =>
      let '(st, payload) := take_window actions force current_time name st in (with_window name st a, option_list payload)
  end.

(** A saved state; an error ends the scan. *)
Definition save {T} `{Serde T} (key : string) (value : T) (next : ScanTask) (a : Manager) : Manager * ScanTask :=
  match on_repository (set_json_state key value) a with
  | (Ok _, a) => (a, next)
  | (Err _, a) => (a, ScanWait)
  end.

Definition scanner_turn (a : Manager) (s : ScanTask) : option (Manager * ScanTask) :=
  match s with
  | ScanWait => None
  | ScanVisit force current_time (name :: names) payloads =>
      let '(a, taken) := visit_window force current_time name a in
      Some (a, ScanVisit force current_time names (payloads ++ taken))
  | ScanVisit _ _ [] payloads => Some (a, ScanDispatch payloads)
  | ScanDispatch payloads =>
      let a := (dispatch_payloads_batch payloads a).2 in
      Some (a, ScanSync (map_to_list (am_throttle_states a)) (map_to_list (am_aggregation_states a)))
  | ScanSync ((name, st) :: throttles) aggs => Some (save (throttle_prefix +:+ name) st (ScanSync throttles aggs) a)
  | ScanSync [] ((name, st) :: aggs) => Some (save (aggregation_prefix +:+ name) st (ScanSync [] aggs) a)
  | ScanSync [] [] => Some (a, ScanWait)
  end.

(** [at_given] and [at_gone] are history: the matches taken from the channel, and the keys
    that others removed from the outbox. *)
Record AlertTasks := mkAlertTasks {
  at_manager : Manager;
  at_loop : LoopTask;
  at_scan : ScanTask;
  at_given : list MonitorMatch;
  at_gone : list string
}.
Implicit Types (t : AlertTasks).

(** Any interleaving of the two tasks and of the other users of the outbox.  The tick finds
    the actions of the map, in any order. *)
Inductive alert_task_step t : AlertTasks → Prop :=
| alert_receives matches :
    at_loop t = LoopReceive →
    alert_task_step t (mkAlertTasks (at_manager t) (LoopHandle matches []) (at_scan t) (at_given t ++ matches) (at_gone t))
| alert_loop now a l :
    loop_turn now (at_manager t) (at_loop t) = Some (a, l) →
    alert_task_step t (mkAlertTasks a l (at_scan t) (at_given t) (at_gone t))
| alert_ticks force now names :
    at_scan t = ScanWait → (∀ n, n ∈ names ↔ is_Some (am_aggregation_states (at_manager t) !! n)) →
    alert_task_step t (mkAlertTasks (at_manager t) (at_loop t) (ScanVisit force now names []) (at_given t) (at_gone t))
| alert_scan a s :
    scanner_turn (at_manager t) (at_scan t) = Some (a, s) →
    alert_task_step t (mkAlertTasks a (at_loop t) s (at_given t) (at_gone t))
| alert_others s removed :
    outbox_ok s →
    (∀ k, k ∈ item_key <$> outbox (am_state_repository (at_manager t)) → k ∈ (item_key <$> outbox s) ++ removed) →
    alert_task_step t (mkAlertTasks (with_repository s (at_manager t)) (at_loop t) (at_scan t) (at_given t) (at_gone t ++ removed)).
End AlertTasks.

(** ** No match is lost between the tasks *)

Section Accounting.
Context {S : Type} `{DefaultHasher} `{OutboxRepository S} `{!OutboxLaws S} `{KeyValueStore S} `{!KeyValueLaws S}.
Context `{!AlertStoreLaws S} `{Serde ThrottleState} `{Serde AggregationState}.
Context (actions : gmap string ActionConfig).
Context (reliable : ∀ items (s : S), is_ok (enqueue_outbox_batch items s).1 = true).

Notation Manager := (AlertManager (S := S)).
Notation turn := (alert_task_step actions).
Implicit Types (a : Manager) (t : AlertTasks (S := S)).

(** What the tasks hold: the matches not handled yet, and the payloads on their way. *)
Definition loop_matches (l : LoopTask) : list MonitorMatch :=
  match l with LoopHandle matches _ | LoopThrottled _ matches _ => matches | _ => [] end.
Definition loop_payloads (l : LoopTask) : list ActionPayload :=
  match l with LoopReceive => [] | LoopHandle _ ps | LoopThrottled _ _ ps | LoopDispatch ps => ps end.
Definition scan_payloads (s : ScanTask) : list ActionPayload :=
  match s with ScanVisit _ _ _ ps | ScanDispatch ps => ps | _ => [] end.

(** A match was reported under one of the keys [ks], or it waits: collected by the loop, in
    the window of its action, or taken by the scan. *)
Definition held (a : Manager) (l : LoopTask) (s : ScanTask) (ks : list string) (m : MonitorMatch) : Prop :=
  match actions !! mm_action_name m with
  | None => True
  | Some c =>
      match ac_policy c with
      | None => Single m ∈ loop_payloads l ∨ mm_id m ∈ ks
      | Some (Throttle _) => True
      | Some (Aggregation p) =>
          (∃ st, am_aggregation_states a !! mm_action_name m = Some st ∧ mm_id m ∈ ids st) ∨
          (∃ ms, mm_id m ∈ mm_id <$> ms ∧
             let payload := Aggregated (mm_action_name m) ms (agg_template p) in
             (payload ∈ scan_payloads s ∨ idempotency_key payload ∈ ks))
      end
  end.

(** The keys that are or were in the outbox. *)
Definition known_keys t : list string := keys (at_manager t) ++ at_gone t.

Record tasks_account t : Prop := {
  ta_ok : am_ok (at_manager t);
  ta_given m : m ∈ at_given t →
    m ∈ loop_matches (at_loop t) ∨ held (at_manager t) (at_loop t) (at_scan t) (known_keys t) m
}.

Definition windows_grow a a' : Prop :=
  ∀ n st, am_aggregation_states a !! n = Some st →
    ∃ st', am_aggregation_states a' !! n = Some st' ∧ ∀ i, i ∈ ids st → i ∈ ids st'.

Lemma windows_refl a a' : am_aggregation_states a' = am_aggregation_states a → windows_grow a a'.
Proof. intros E n st Hst. rewrite E. eauto. Qed.

(** What moves payloads on keeps a match held. *)
Lemma held_mono a a' l l' s s' ks ks' m :
  windows_grow a a' →
  (Single m ∈ loop_payloads l → Single m ∈ loop_payloads l' ∨ mm_id m ∈ ks') →
  (∀ p, p ∈ scan_payloads s → p ∈ scan_payloads s' ∨ idempotency_key p ∈ ks') →
  (∀ k, k ∈ ks → k ∈ ks') → held a l s ks m → held a' l' s' ks' m.
Proof.
  intros Hw Hl Hs Hk. unfold held. destruct (actions !! _) as [c|]; [|done].
  destruct (ac_policy c) as [[p|p]|]; [|done|].
  - intros [(st & Hst & Hm)|(ms & Hm & [Hp|Hp])].
    + left. destruct (Hw _ _ Hst) as (st' & ? & Hsub). eauto.
    + right. exists ms. split; [done|]. by apply Hs.
    + right. exists ms. split; [done|]. right. by apply Hk.
  - intros [Hm|Hm]; [by apply Hl|right; by apply Hk].
Qed.

(** A dispatch: what it is given is in the outbox. *)
Lemma dispatched ps a :
  am_ok a → let a' := (dispatch_payloads_batch ps a).2 in
  am_ok a' ∧ windows_grow a a' ∧ (∀ k, k ∈ keys a → k ∈ keys a') ∧ ∀ p, p ∈ ps → idempotency_key p ∈ keys a'.
Proof.
  intros Hok. destruct (dispatch_grows reliable ps a Hok) as (a' & -> & [Hok' Hk Hw] & _ & Hp). by split_and!.
Qed.

Lemma loop_accounts now t a l :
  tasks_account t → loop_turn actions now (at_manager t) (at_loop t) = Some (a, l) →
  tasks_account (mkAlertTasks a l (at_scan t) (at_given t) (at_gone t)).
Proof.
  destruct t as [a0 l0 s given gone]. cbn. intros [Hok Hg] E. cbn in Hok, Hg.
  assert (∀ a' l', am_ok a' → windows_grow a0 a' → (∀ k, k ∈ keys a0 → k ∈ keys a') →
    (∀ m, m ∈ loop_matches l0 → m ∈ loop_matches l' ∨ held a' l' s (keys a' ++ gone) m) →
    (∀ m, Single m ∈ loop_payloads l0 → Single m ∈ loop_payloads l' ∨ mm_id m ∈ keys a') →
    tasks_account (mkAlertTasks a' l' s given gone)) as Hstep.
  { intros a' l' Hok' Hw Hk Hm Hp. split; [done|]. cbn. intros m Hin. destruct (Hg m Hin) as [Hl|Hh]; [by apply Hm|right].
    eapply held_mono; [exact Hw| |by left| |exact Hh]; unfold known_keys; cbn.
    - intros Hs. destruct (Hp m Hs); [by left|right; set_solver].
    - set_solver. }
  destruct l0 as [|[|m matches] imm|m matches imm|imm]; [done| | | |]; cbn [loop_turn] in E.
  - destruct imm; injection E as <- <-; apply Hstep; try done; try (by apply windows_refl); cbn; auto.
  - injection E as E. unfold handle_match in E.
    assert (∀ a' l', (a', l') = (a, l) → am_ok a' → keys a' = keys a0 → windows_grow a0 a' → loop_matches l' = matches →
      (∀ p, p ∈ imm → p ∈ loop_payloads l') → held a' l' s (keys a' ++ gone) m →
      tasks_account (mkAlertTasks a l s given gone)) as Hone.
    { intros a' l' [= <- <-] Hok' Hk Hw El Himm Hm. apply Hstep; [done|done|by rewrite Hk| |].
      - intros m' [-> |Hin]%elem_of_cons; [by right|left]. by rewrite El.
      - intros m' Hin. left. by apply Himm. }
    destruct (actions !! mm_action_name m) as [c|] eqn:Ec.
    2: { eapply Hone; [exact E|done|done|by apply windows_refl|done|done|]. unfold held. by rewrite Ec. }
    destruct (ac_policy c) as [[p|p]|] eqn:Ep.
    + destruct (aggregation_grows reliable now m a0 Hok) as (a1 & Ea & [Hok1 _ Hw1] & Hst).
      assert (a1 = (handle_aggregation now m a0).2) as Ea1 by by rewrite Ea.
      eapply Hone; [exact E|by rewrite <- Ea1|done|by rewrite <- Ea1|done|done|]. unfold held. rewrite Ec, Ep. left. by rewrite <- Ea1.
    + destruct (throttle_step _ _ _) as [send st]. destruct send;
        (eapply Hone; [exact E|done|done|by apply windows_refl|done|done|]; unfold held; by rewrite Ec, Ep).
    + eapply Hone; [exact E|done|done|by apply windows_refl|done|cbn; set_solver|]. unfold held. rewrite Ec, Ep. left. cbn. set_solver.
  - injection E as <- <-. destruct (dispatched [Single m] a0 Hok) as (Hok' & Hw & Hk & Hp).
    apply Hstep; [done|done|done| |]; cbn; auto.
  - injection E as <- <-. destruct (dispatched imm a0 Hok) as (Hok' & Hw & Hk & Hp).
    apply Hstep; [done|done|done| |]; cbn.
    + by intros m ?%elem_of_nil.
    + intros m Hin. right. by apply (Hp (Single m)).
Qed.

Lemma visit_repository force now name a :
  am_state_repository (visit_window actions force now name a).1 = am_state_repository a.
Proof. unfold visit_window. destruct (_ !! name); [|done]. by destruct (take_window _ _ _ _ _). Qed.

(** What a scan does to an entry: its matches stay, or they are in the payload it takes. *)
Lemma visit_accounts force now name a m l ps ks :
  let '(a', taken) := visit_window actions force now name a in
  held a l (ScanDispatch ps) ks m → held a' l (ScanDispatch (ps ++ taken)) ks m.
Proof.
  unfold visit_window. destruct (am_aggregation_states a !! name) as [st|] eqn:Est.
  2: { apply held_mono; [by apply windows_refl|by left|cbn; set_solver|done]. }
  destruct (take_window actions force now name st) as [st' o] eqn:Et.
  unfold held. destruct (actions !! mm_action_name m) as [c|] eqn:Ec; [|done].
  destruct (ac_policy c) as [[p|p]|] eqn:Ep; [|done|done]. cbn [with_window am_aggregation_states scan_payloads].
  intros [(st0 & Hst0 & Hm)|(ms & Hm & Hp)]; [|right; exists ms; split; [done|]; destruct Hp; [left; set_solver|by right]].
  destruct (decide (name = mm_action_name m)) as [->|Hne]; [|left; exists st0; by rewrite lookup_insert_ne].
  rewrite Est in Hst0. injection Hst0 as ->. revert Et. unfold take_window. rewrite Ec, Ep. unfold ids in Hm.
  destruct (as_matches st0) as [|m0 ms0] eqn:Em; [by apply elem_of_nil in Hm|].
  destruct (force || _); intros [= <- <-].
  - right. exists (m0 :: ms0). split; [done|]. left. cbn. set_solver.
  - left. exists st0. rewrite lookup_insert_eq. split; [done|]. unfold ids. by rewrite Em.
Qed.

Lemma save_accounts {T} `{Serde T} key (value : T) next a :
  am_ok a → let '(a', s') := save key value next a in
  am_ok a' ∧ keys a' = keys a ∧ am_aggregation_states a' = am_aggregation_states a ∧ (s' = next ∨ s' = ScanWait).
Proof.
  intros Hok. unfold save, on_repository. destruct (set_json_outbox key value (am_state_repository a) Hok) as [Hok' Ho].
  destruct (set_json_state key value (am_state_repository a)) as [r s']. cbn [snd] in *.
  destruct r; cbn; (split; [done|]); (split; [unfold keys; cbn; by rewrite Ho|]); split; auto.
Qed.

Lemma scan_accounts t a s :
  tasks_account t → scanner_turn actions (at_manager t) (at_scan t) = Some (a, s) →
  tasks_account (mkAlertTasks a (at_loop t) s (at_given t) (at_gone t)).
Proof.
  destruct t as [a0 l s0 given gone]. cbn. intros [Hok Hg] E. cbn in Hok, Hg.
  assert (∀ a' s', am_ok a' → (∀ m, held a0 l s0 (keys a0 ++ gone) m → held a' l s' (keys a' ++ gone) m) →
    tasks_account (mkAlertTasks a' l s' given gone)) as Hstep.
  { intros a' s' Hok' Hh. split; [done|]. cbn. intros m Hin. destruct (Hg m Hin); [by left|right; by apply Hh]. }
  assert (∀ T (sT : Serde T) key (v : T) next, scan_payloads s0 = [] → scan_payloads next = [] →
    save key v next a0 = (a, s) → tasks_account (mkAlertTasks a l s given gone)) as Hsave.
  { intros T sT key v next E0 En Es. pose proof (save_accounts key v next a0 Hok) as Ha. rewrite Es in Ha.
    destruct Ha as (Hok' & Hk & Hw & Hs). apply Hstep; [done|]. intros m. rewrite Hk.
    apply held_mono; [by apply windows_refl|by left|rewrite E0; by intros p ?%elem_of_nil|done]. }
  destruct s0 as [|force now [|name names] ps|ps|[|[name st] throttles] aggs]; [done| | | |destruct aggs as [|[name st] aggs]|].
  - injection E as <- <-. by apply Hstep.
  - cbn [scanner_turn] in E. destruct (visit_window actions force now name a0) as [a' taken] eqn:Ev. injection E as <- <-.
    assert (am_state_repository a' = am_state_repository a0) as Er.
    { pose proof (visit_repository force now name a0) as Hv. by rewrite Ev in Hv. }
    apply Hstep; [unfold am_ok; by rewrite Er|]. intros m Hh. unfold keys. rewrite Er.
    pose proof (visit_accounts force now name a0 m l ps (keys a0 ++ gone)) as Hv. rewrite Ev in Hv. by apply Hv.
  - injection E as <- <-. destruct (dispatched ps a0 Hok) as (Hok' & Hw & Hk & Hp). apply Hstep; [done|]. intros m.
    apply held_mono; [done|by left| |set_solver]. cbn. intros p Hin. right. apply elem_of_app. left. by apply Hp.
  - injection E as <- <-. apply Hstep; [done|]. intros m. apply held_mono; [by apply windows_refl|by left|by intros p ?%elem_of_nil|done].
  - injection E as E. exact (Hsave _ _ _ _ (ScanSync [] aggs) eq_refl eq_refl E).
  - injection E as E. exact (Hsave _ _ _ _ (ScanSync throttles aggs) eq_refl eq_refl E).
Qed.

Lemma step_accounts t t' : turn t t' → tasks_account t → tasks_account t'.
Proof.
  intros [matches El|now a l E|force now names Es Hn|a s E|s removed Hs Hk] Ht;
    [|by apply (loop_accounts now)| |by apply scan_accounts|]; destruct Ht as [Hok Hg]; split; cbn; try done.
  - intros m [Hm|Hm]%elem_of_app; [right|by left]. destruct (Hg m Hm) as [Hl|Hh]; rewrite El in *; [by apply elem_of_nil in Hl|].
    eapply held_mono; [by apply windows_refl|..|exact Hh]; [by intros ?%elem_of_nil|by left|done].
  - intros m Hm. destruct (Hg m Hm) as [Hl|Hh]; [by left|right]. rewrite Es in Hh.
    eapply held_mono; [by apply windows_refl|..|exact Hh]; [by left|by intros p ?%elem_of_nil|done].
  - intros m Hm. destruct (Hg m Hm) as [Hl|Hh]; [by left|right].
    eapply held_mono; [by apply windows_refl|..|exact Hh]; [by left|by left|]. unfold known_keys, keys. cbn.
    intros k [Hin%Hk|Hin]%elem_of_app; set_solver.
Qed.

End Accounting.

(** ** The calls are the uninterrupted runs of the tasks *)

Section Uninterrupted.
Context {S : Type} `{DefaultHasher} `{OutboxRepository S} `{KeyValueStore S}.
Context `{Serde ThrottleState} `{Serde AggregationState}.
Context (actions : gmap string ActionConfig).

Notation Manager := (AlertManager (S := S)).
Implicit Types (a : Manager).

Definition loop_run : relation (Manager * LoopTask) := λ x y, ∃ now, loop_turn actions now x.1 x.2 = Some y.
Definition scan_run : relation (Manager * ScanTask) := λ x y, scanner_turn actions x.1 x.2 = Some y.

Lemma handle_matches_run l imm a :
  ∃ imm' a', handle_matches actions l imm a = (Ok imm', a') ∧
    rtc loop_run (a, LoopHandle l.*2 imm) (a', LoopHandle [] imm').
Proof.
  revert imm a. induction l as [|[now m] l IH]; intros imm a; cbn [handle_matches]; [by exists imm, a|].
  change (((now, m) :: l).*2) with (m :: l.*2).
  assert (∀ x, handle_match actions now m l.*2 imm a = x → loop_run (a, LoopHandle (m :: l.*2) imm) x) as Hone.
  { intros x Hx. exists now. cbn. by rewrite Hx. }
  unfold handle_match in Hone. destruct (actions !! mm_action_name m) as [c|].
  2: { destruct (IH imm a) as (imm' & a' & E & Hrun). exists imm', a'. split; [exact E|]. eapply rtc_l; [by apply Hone|done]. }
  destruct (ac_policy c) as [[p|p]|].
  - destruct (IH imm (handle_aggregation now m a).2) as (imm' & a' & E & Hrun). exists imm', a'. split; [exact E|].
    eapply rtc_l; [by apply Hone|done].
  - unfold mbind, eff_bind, handle_throttle.
    destruct (throttle_step p now (am_throttle_states a !! mm_action_name m)) as [send st].
    set (a1 := mkAlertManager _ _ _ _). change (with_throttle _ st a) with a1 in Hone. destruct send.
    + destruct (IH imm (dispatch_payload (Single m) a1).2) as (imm' & a' & E & Hrun). exists imm', a'. split; [exact E|].
      eapply rtc_l; [by apply Hone|]. eapply rtc_l; [by exists now|done].
    + destruct (IH imm a1) as (imm' & a' & E & Hrun). exists imm', a'. split; [exact E|]. eapply rtc_l; [by apply Hone|done].
  - destruct (IH (imm ++ [Single m]) a) as (imm' & a' & E & Hrun). exists imm', a'. split; [exact E|].
    eapply rtc_l; [by apply Hone|done].
Qed.

(** A batch handled without interruption. *)
Lemma process_batch_run l a :
  rtc loop_run (a, LoopHandle l.*2 []) ((process_matches_batch actions l a).2, LoopReceive).
Proof.
  destruct (handle_matches_run l [] a) as (imm & a' & E & Hrun).
  assert ((process_matches_batch actions l a).2 = match imm with [] => a' | _ => (dispatch_payloads_batch imm a').2 end) as ->.
  { unfold process_matches_batch. destruct l as [|p l].
    - cbn in E. by injection E as <- <-.
    - rewrite (eff_bind_run _ _ _ _ _ E). by destruct imm. }
  etrans; [exact Hrun|]. destruct imm as [|p imm]; [apply rtc_once; by exists 0%Z|].
  eapply rtc_l; [by exists 0%Z|]. apply rtc_once. by exists 0%Z.
Qed.

(** The entries of the map, one after the other. *)
Lemma visits_run force now (kvs : list (string * AggregationState)) ps a :
  NoDup kvs.*1 → (∀ n st, (n, st) ∈ kvs → am_aggregation_states a !! n = Some st) →
  ∃ a', rtc scan_run (a, ScanVisit force now kvs.*1 ps)
      (a', ScanVisit force now [] (ps ++ omap (λ kv, (take_window actions force now kv.1 kv.2).2) kvs)) ∧
    am_state_repository a' = am_state_repository a ∧ am_generated_alerts a' = am_generated_alerts a ∧
    am_throttle_states a' = am_throttle_states a ∧
    (∀ n st, (n, st) ∈ kvs → am_aggregation_states a' !! n = Some (take_window actions force now n st).1) ∧
    (∀ n, n ∉ kvs.*1 → am_aggregation_states a' !! n = am_aggregation_states a !! n).
Proof.
  revert ps a. induction kvs as [|[n st] kvs IH]; intros ps a Hnd Hin.
  { exists a. rewrite app_nil_r. split_and!; try done. by intros ? ? ?%elem_of_nil. }
  rewrite fmap_cons in Hnd. apply NoDup_cons in Hnd as [Hn Hnd].
  set (a1 := with_window n (take_window actions force now n st).1 a).
  destruct (IH (ps ++ option_list (take_window actions force now n st).2) a1 Hnd) as (a' & Hrun & Er & Eg & Et & Hs & Ho).
  { intros n' st' Hin'. cbn. rewrite lookup_insert_ne; [by apply Hin; right|]. intros <-. by apply Hn, (list_elem_of_fmap_2 fst _ (n, st')). }
  exists a'. split_and!; [|done|done|done| |].
  - eapply rtc_l; [|replace (ps ++ _) with
      ((ps ++ option_list (take_window actions force now n st).2) ++ omap (λ kv, (take_window actions force now kv.1 kv.2).2) kvs);
      [exact Hrun|]].
    + unfold scan_run. cbn. unfold visit_window. rewrite (Hin n st) by by left. subst a1.
      by destruct (take_window actions force now n st) as [st' o].
    + rewrite <- app_assoc. f_equal. cbn. by destruct (take_window actions force now n st).2.
  - intros n' st' [[= -> ->]|Hin']%elem_of_cons; [|by apply Hs]. rewrite Ho by done. cbn. by rewrite lookup_insert_eq.
  - intros n' Hn'. rewrite fmap_cons, not_elem_of_cons in Hn'. destruct Hn' as [Hne Hn']. rewrite Ho by done. cbn.
    by rewrite lookup_insert_ne.
Qed.

(** Saving the states. *)
Lemma saves_run {T} `{Serde T} (p : string) (next : list (string * T) → ScanTask) l a :
  (∀ n v l a, scanner_turn actions a (next ((n, v) :: l)) = Some (save (p +:+ n) v (next l) a)) →
  let '(r, a') := for_each (λ kv : string * T, on_repository (set_json_state (p +:+ kv.1) kv.2)) l a in
  rtc scan_run (a, next l) (a', if is_ok r then next [] else ScanWait).
Proof.
  intros Hnext. revert a. induction l as [|[n v] l IH]; intros a; cbn [for_each]; [constructor|].
  unfold mbind, eff_bind. specialize (Hnext n v l a). unfold save in Hnext. cbn [fst snd].
  destruct (on_repository (set_json_state (p +:+ n) v) a) as [[u|e] a1].
  - specialize (IH a1). destruct (for_each _ l a1) as [r a']. by eapply rtc_l.
  - by apply rtc_once.
Qed.

(** A scan without interruption. *)
Lemma scan_uninterrupted force now a :
  rtc scan_run (a, ScanVisit force now (map_to_list (am_aggregation_states a)).*1 [])
    ((check_and_dispatch_expired_windows actions force now a).2, ScanWait).
Proof.
  destruct (visits_run force now (map_to_list (am_aggregation_states a)) [] a) as (a1 & Hrun & Er & Eg & Et & Hs & Ho).
  { apply NoDup_fst_map_to_list. }
  { intros n st. apply elem_of_map_to_list. }
  etrans; [exact Hrun|]. eapply rtc_l; [reflexivity|]. cbn [app].
  unfold check_and_dispatch_expired_windows. fold (expired_payloads actions force now (am_aggregation_states a)).
  assert (a1 = mkAlertManager (am_state_repository a) (am_generated_alerts a) (am_throttle_states a)
    (map_imap (λ k st, Some (take_window actions force now k st).1) (am_aggregation_states a))) as ->.
  { destruct a1 as [s1 g1 t1 m1]. cbn in *. subst. f_equal. apply map_eq. intros n. rewrite map_lookup_imap.
    destruct (am_aggregation_states a !! n) as [st|] eqn:E; cbn; [by apply Hs, elem_of_map_to_list|]. rewrite Ho, E; [done|].
    intros ([n' st] & -> & Hin%elem_of_map_to_list)%list_elem_of_fmap. cbn in E. congruence. }
  eapply rtc_l; [reflexivity|]. set (a2 := (dispatch_payloads_batch _ _).2). unfold sync_states_to_db, mbind, eff_bind.
  pose proof (saves_run throttle_prefix (λ l, ScanSync l (map_to_list (am_aggregation_states a2)))
    (map_to_list (am_throttle_states a2)) a2 (λ n v l a, eq_refl)) as H1'.
  destruct (for_each _ (map_to_list (am_throttle_states a2)) a2) as [[u|e] a3]; [|done].
  pose proof (saves_run aggregation_prefix (λ l, ScanSync [] l) (map_to_list (am_aggregation_states a2)) a3 (λ n v l a, eq_refl)) as H2'.
  destruct (for_each _ (map_to_list (am_aggregation_states a2)) a3) as [[u'|e] a4]; (etrans; [exact H1'|]); [|done].
  eapply rtc_r; [exact H2'|reflexivity].
Qed.
End Uninterrupted.


(** ** A concrete interleaving *)

Import MonitorMatch.Demo Interfaces.SerdeDemo Interfaces.InterfacesDemo AlertDemo.

Module AlertTasksDemo.
Notation Tasks := (AlertTasks (S := MemStore)).
Notation turn := (alert_task_step demo_actions).

Definition loop1 (t : Tasks) : Tasks :=
  match loop_turn demo_actions 0 (at_manager t) (at_loop t) with
  | Some (a, l) => mkAlertTasks a l (at_scan t) (at_given t) (at_gone t)
  | None => t
  end.
Definition scan1 (t : Tasks) : Tasks :=
  match scanner_turn demo_actions (at_manager t) (at_scan t) with
  | Some (a, s) => mkAlertTasks a (at_loop t) s (at_given t) (at_gone t)
  | None => t
  end.

Lemma loop1_turn t : is_Some (loop_turn demo_actions 0 (at_manager t) (at_loop t)) → turn t (loop1 t).
Proof. intros [[a l] E]. unfold loop1. rewrite E. by eapply alert_loop. Qed.
Lemma scan1_turn t : is_Some (scanner_turn demo_actions (at_manager t) (at_scan t)) → turn t (scan1 t).
Proof. intros [[a s] E]. unfold scan1. rewrite E. by apply alert_scan. Qed.

(** Two matches to aggregate and one to deliver; the scan takes the window after the first. *)
Definition idle : Tasks := mkAlertTasks demo_manager LoopReceive ScanWait [] [].
Definition batch : list MonitorMatch := [demo_match "agg" 7; demo_match "agg" 8; demo_match "now" 9].
Definition started : Tasks := mkAlertTasks demo_manager (LoopHandle batch []) ScanWait batch [].
Definition collected : Tasks := loop1 started.
Definition ticked : Tasks :=
  mkAlertTasks (at_manager collected) (at_loop collected) (ScanVisit true 1 ["agg"] []) (at_given collected) (at_gone collected).
Definition window_taken : Tasks := scan1 ticked.
Definition second_added : Tasks := loop1 window_taken.
Definition third_collected : Tasks := loop1 second_added.
Definition visited : Tasks := scan1 third_collected.
Definition enqueued : Tasks := scan1 visited.
Definition batch_over : Tasks := loop1 enqueued.
Definition dispatched_now : Tasks := loop1 batch_over.
Definition saved : Tasks := scan1 dispatched_now.
Definition quiet : Tasks := scan1 saved.

Ltac runs := apply (bool_decide_unpack _); vm_compute; exact I.

Lemma demo_interleaving : rtc turn idle quiet.
Proof.
  eapply rtc_l; [by apply (alert_receives _ idle batch)|]. eapply (rtc_l _ started collected); [apply loop1_turn; runs|].
  eapply (rtc_l _ collected ticked).
  { apply (alert_ticks _ collected true 1 ["agg"]); [reflexivity|]. intros n.
    assert (am_aggregation_states (at_manager collected) = {["agg" := mkAggregationState [demo_match "agg" 7] 0]}) as ->
      by (vm_compute; reflexivity).
    rewrite lookup_singleton_is_Some, list_elem_of_singleton. split; by intros ->. }
  eapply (rtc_l _ ticked window_taken); [apply scan1_turn; runs|].
  apply (rtc_l _ window_taken second_added); [apply loop1_turn; runs|].
  apply (rtc_l _ second_added third_collected); [apply loop1_turn; runs|].
  apply (rtc_l _ third_collected visited); [apply scan1_turn; runs|].
  apply (rtc_l _ visited enqueued); [apply scan1_turn; runs|].
  apply (rtc_l _ enqueued batch_over); [apply loop1_turn; runs|].
  apply (rtc_l _ batch_over dispatched_now); [apply loop1_turn; runs|].
  apply (rtc_l _ dispatched_now saved); [apply scan1_turn; runs|].
  apply (rtc_l _ saved quiet); [apply scan1_turn; runs|]. constructor.
Qed.
End AlertTasksDemo.
Import AlertTasksDemo.


(** A shutdown that aborts the scan when it has taken a window and not yet enqueued it loses
    its matches: the flush finds the window empty. *)
Lemma aborted_scan_loses_window :
  let a := AlertManager.shutdown demo_actions 2 (at_manager window_taken) in
  ids <$> (am_aggregation_states (at_manager collected) !! "agg") = Some [mm_id (demo_match "agg" 7)] ∧
  keys a = [] ∧ ids <$> (am_aggregation_states a !! "agg") = Some [].
Proof. vm_compute. by split_and!. Qed.
