(* ===== verification/OutboxProcessor.v ===== *)
(** * The outbox processor ([crates/argus-engine/src/outbox_processor.rs])

    Items are fetched in batches, executed concurrently by the dispatcher, deleted
    when their execution succeeded and counted as retried otherwise.  The
    dispatcher is an operation on the state [W] of the outside world; executions
    take effect in the order in which they complete. *)
From S2P Require Import Prelude Models MonitorMatch Interfaces Providers.

Section OutboxProcessor.
Context {S W DE : Type} `{OutboxRepository S} `{CompletionOrder}.
Context (execute : ActionPayload → eff W DE unit) (config : OutboxConfig).

Record OutboxState := mkOutboxState { os_state : S; os_world : W }.
Notation op A := (eff OutboxState PersistenceError A).

Definition on_state {A} (m : eff S PersistenceError A) : op A := λ o,
  let '(r, s) := m (os_state o) in (r, mkOutboxState s (os_world o)).

(** [results.next()]: the result of an execution. *)
Definition execute_item (item : OutboxItem) : op bool := λ o,
  let '(r, w) := execute (oi_payload item) (os_world o) in (Ok (is_ok r), mkOutboxState (os_state o) w).

(** The loop over the results; errors of the retry count are ignored. *)
Fixpoint collect_results (items : list OutboxItem) (successful_ids : list Z) : op (list Z) :=
  match items with
  | [] => mret successful_ids
  | item :: items =>
      ok ← execute_item item;
      if ok : bool then collect_results items (successful_ids ++ [oi_id item])
      else λ o, collect_results items successful_ids (on_state (increment_outbox_retries (oi_id item)) o).2
  end.

(** The per-identifier deletion after a failed batch deletion. *)
Fixpoint delete_one_by_one (ids : list Z) (deleted_count : nat) : op nat :=
  match ids with
  | [] => mret deleted_count
  | id :: ids => λ o,
      match on_state (delete_outbox_items_batch [id]) o with
      | (Ok _, o) => delete_one_by_one ids (Datatypes.S deleted_count) o
      | (Err _, o) => delete_one_by_one ids deleted_count o
      end
  end.

(** The results of a batch, in the order in which the executions complete. *)
Definition process_in_order (items : list OutboxItem) : op nat :=
  successful_ids ← collect_results items [];
  match successful_ids with
  | [] => mret 0
  | _ => λ o,
      match on_state (delete_outbox_items_batch successful_ids) o with
      | (Ok _, o) => (Ok (length successful_ids), o)
      | (Err _, o) => delete_one_by_one successful_ids 0 o
      end
  end.

Definition process_batch_items (items : list OutboxItem) : op nat := process_in_order (unordered items).

Definition process_batch : op unit :=
  items ← on_state (get_pending_outbox (ob_batch_size config));
  match items with
  | [] => mret tt
  | _ => _ ← process_batch_items items; mret tt
  end.

(** [drain_queue]: at most [fuel] batches; [None] when the queue is not empty by then. *)
Fixpoint drain_queue (fuel : nat) (total_successful : nat) : OutboxState → option (result PersistenceError nat * OutboxState) := λ o,
  match fuel with
  | 0 => None
  | Datatypes.S fuel =>
      match on_state (get_pending_outbox (ob_batch_size config)) o with
      | (Err e, o) => Some (Err e, o)
      | (Ok [], o) => Some (Ok total_successful, o)
      | (Ok items, o) =>
          match process_batch_items items o with
          | (Err e, o) => Some (Err e, o)
          | (Ok successful_count, o) => drain_queue fuel (total_successful + successful_count) o
          end
      end
  end.

(** [run]: a batch per poll until cancellation; errors are only logged. *)
Definition run_outbox (polls : nat) (o : OutboxState) : OutboxState := Nat.iter polls (λ o, (process_batch o).2) o.
End OutboxProcessor.

(** ** Delivery *)

Section Delivery.
Context {S W DE : Type} `{DefaultHasher} `{OutboxRepository S} `{!OutboxLaws S} `{CompletionOrder}.
Context (execute : ActionPayload → eff W DE unit) (config : OutboxConfig).
Implicit Types (o : OutboxState (S := S) (W := W)) (items : list OutboxItem).

Definition os_ok o : Prop := outbox_ok (os_state o).
Definition os_outbox o : list OutboxItem := outbox (os_state o).

(** The executions of a batch, in completion order: who succeeded, and the world. *)
Fixpoint executions (items : list OutboxItem) (w : W) : list Z * W :=
  match items with
  | [] => ([], w)
  | item :: items =>
      let '(r, w) := execute (oi_payload item) w in
      let '(ids, w) := executions items w in
      ((if is_ok r then oi_id item :: ids else ids), w)
  end.

(** The outbox where some items have been retried. *)
Definition identities (l : list OutboxItem) : list (Z * (string * ActionPayload)) :=
  (λ i, (oi_id i, content i)) <$> l.

(** The items left when some identifiers have been removed. *)
Definition remaining (ids : list Z) (l : list (Z * (string * ActionPayload))) : list (Z * (string * ActionPayload)) :=
  filter (λ p, p.1 ∉ ids) l.

Lemma identities_retried id l : identities (retried id <$> l) = identities l.
Proof.
  unfold identities. rewrite <- list_fmap_compose. apply list_fmap_ext. intros n i _. cbn.
  unfold retried. by case_decide.
Qed.

Lemma identities_filter ids l :
  identities (filter (λ i, oi_id i ∉ ids) l) = remaining ids (identities l).
Proof.
  unfold remaining. induction l as [|i l IH]; [done|]. unfold identities in *. rewrite filter_cons, fmap_cons, filter_cons. cbn.
  case_decide; cbn; by rewrite IH.
Qed.

Lemma collect_results_spec items done_ids o :
  os_ok o → ∃ o', collect_results execute items done_ids o = (Ok (done_ids ++ (executions items (os_world o)).1), o') ∧
    os_ok o' ∧ identities (os_outbox o') = identities (os_outbox o) ∧
    os_world o' = (executions items (os_world o)).2.
Proof.
  revert done_ids o. induction items as [|item items IH]; intros done_ids [s w] Hok; cbn [collect_results executions].
  { eexists. rewrite app_nil_r. by split_and!. }
  unfold mbind at 1, eff_bind at 1. unfold execute_item. cbn [os_world os_state].
  destruct (execute (oi_payload item) w) as [[u|e] w1]; cbn [is_ok].
  - destruct (IH (done_ids ++ [oi_id item]) (mkOutboxState s w1) Hok) as (o' & -> & Hok' & Hids & Hw).
    cbn [os_world] in *. destruct (executions items w1) as [ids w2]. exists o'. by rewrite <- app_assoc.
  - unfold on_state. cbn [os_state os_world].
    destruct (increment_outbox_retries (oi_id item) s) as [r s'] eqn:Ei. cbn [snd].
    destruct (increment_view _ _ _ _ Hok Ei) as [Hok1 Ho1].
    destruct (IH done_ids (mkOutboxState s' w1) Hok1) as (o' & -> & Hok' & Hids & Hw).
    cbn [os_world] in *. destruct (executions items w1) as [ids w2]. exists o'. split_and!; [done|done| |done].
    rewrite Hids. unfold os_outbox. cbn. rewrite Ho1. destruct r; [apply identities_retried|done].
Qed.

Lemma delete_one_by_one_spec ids n o :
  os_ok o → ∃ deleted o', delete_one_by_one ids n o = (Ok (n + length deleted), o') ∧ deleted `sublist_of` ids ∧
    os_ok o' ∧ os_world o' = os_world o ∧ os_outbox o' = filter (λ i, oi_id i ∉ deleted) (os_outbox o).
Proof.
  revert n o. induction ids as [|id ids IH]; intros n [s w] Hok; cbn [delete_one_by_one].
  { exists [], (mkOutboxState s w). rewrite Nat.add_0_r. split_and!; try done.
    symmetry. apply filter_all, Forall_forall. intros. apply not_elem_of_nil. }
  unfold on_state. cbn [os_state os_world].
  destruct (delete_outbox_items_batch [id] s) as [[u|e] s'] eqn:Ed;
    destruct (delete_view _ _ _ _ Hok Ed) as [Hok' Ho'].
  - destruct (IH (Datatypes.S n) (mkOutboxState s' w) Hok') as (deleted & o' & -> & Hsub & Hok'' & Hw & Ho).
    exists (id :: deleted), o'. split_and!; [f_equal; f_equal; cbn; lia|by apply sublist_skip|done|done|].
    rewrite Ho. unfold os_outbox. cbn. rewrite Ho', list_filter_filter. apply list_filter_iff. intros i. set_solver.
  - destruct (IH n (mkOutboxState s' w) Hok') as (deleted & o' & -> & Hsub & Hok'' & Hw & Ho).
    exists deleted, o'. split_and!; [done|by apply sublist_cons|done|done|].
    rewrite Ho. unfold os_outbox. cbn. by rewrite Ho'.
Qed.

Lemma process_batch_items_spec items o :
  os_ok o → ∃ deleted o', process_batch_items execute items o = (Ok (length deleted), o') ∧
    deleted `sublist_of` (executions (unordered items) (os_world o)).1 ∧ os_ok o' ∧
    os_world o' = (executions (unordered items) (os_world o)).2 ∧
    identities (os_outbox o') = remaining deleted (identities (os_outbox o)) ∧
    ((∀ ids s, is_ok (delete_outbox_items_batch ids s).1 = true) →
       deleted = (executions (unordered items) (os_world o)).1).
Proof.
  intros Hok. unfold process_batch_items, process_in_order.
  destruct (collect_results_spec (unordered items) [] o Hok) as (o1 & E & Hok1 & Hids1 & Hw1).
  rewrite (eff_bind_run _ _ _ _ _ E). cbn [app]. clear E.
  destruct (executions (unordered items) (os_world o)) as [ids w]. cbn [fst snd] in *.
  destruct ids as [|id ids].
  { exists [], o1. split_and!; try done. rewrite Hids1. symmetry. apply filter_all, Forall_forall.
    intros. apply not_elem_of_nil. }
  unfold on_state. destruct (delete_outbox_items_batch (id :: ids) (os_state o1)) as [[u|e] s'] eqn:Ed;
    destruct (delete_view _ _ _ _ Hok1 Ed) as [Hok' Ho'].
  - exists (id :: ids). eexists. split; [reflexivity|]. split_and!; try done.
    unfold os_outbox at 1. cbn [os_state]. rewrite Ho', identities_filter. unfold os_outbox in Hids1. by rewrite Hids1.
  - destruct (delete_one_by_one_spec (id :: ids) 0 (mkOutboxState s' (os_world o1)) Hok')
      as (deleted & o' & -> & Hsub & Hok'' & Hw & Ho). exists deleted, o'.
    split_and!; [done|done|done|by rewrite Hw| |].
    + rewrite Ho, identities_filter. unfold os_outbox at 1. cbn [os_state]. rewrite Ho'.
      unfold os_outbox in Hids1. by rewrite Hids1.
    + intros Hdel. specialize (Hdel (id :: ids) (os_state o1)). by rewrite Ed in Hdel.
Qed.

Lemma executions_succeeded items w id :
  id ∈ (executions items w).1 → ∃ i w1 w2 u, i ∈ items ∧ oi_id i = id ∧ execute (oi_payload i) w1 = (Ok u, w2).
Proof.
  revert w. induction items as [|item items IH]; intros w; cbn; [intros Hin; by apply not_elem_of_nil in Hin|].
  destruct (execute (oi_payload item) w) as [[u|e] w1] eqn:Ee; specialize (IH w1);
    destruct (executions items w1) as [ids w2]; cbn [is_ok fst] in *.
  - intros [->|(i & ? & ? & ? & ? & ? & ?)%IH]%elem_of_cons; [|set_solver].
    exists item, w, w1, u. split_and!; [by left|done|done].
  - intros (i & ? & ? & ? & ? & ? & ?)%IH. set_solver.
Qed.


(** ** Draining *)

Lemma executions_all items w :
  (∀ p w, is_ok (execute p w).1 = true) → (executions items w).1 = oi_id <$> items.
Proof.
  intros Hok. revert w. induction items as [|item items IH]; intros w; [done|]. cbn.
  specialize (Hok (oi_payload item) w). destruct (execute (oi_payload item) w) as [r w1]. cbn in Hok. rewrite Hok.
  specialize (IH w1). destruct (executions items w1). cbn in *. by rewrite IH.
Qed.

Lemma identities_length l : length (identities l) = length l.
Proof. apply length_fmap. Qed.

Lemma filter_prefix_ids (l : list (Z * (string * ActionPayload))) n ids :
  NoDup l.*1 → ids ≡ₚ take n l.*1 → remaining ids l = drop n l.
Proof.
  intros Hnd Hids. unfold remaining. rewrite <- (take_drop n l) at 1. rewrite filter_app.
  rewrite <- (take_drop n l), fmap_app, NoDup_app in Hnd. destruct Hnd as (_ & Hd & _).
  rewrite filter_none, filter_all; [done| |].
  - apply Forall_forall. intros p Hp Hin. rewrite Hids, <- fmap_take in Hin.
    apply (Hd _ Hin). by apply list_elem_of_fmap_2.
  - apply Forall_forall. intros p Hp Hin. apply Hin. rewrite Hids, <- fmap_take. by apply list_elem_of_fmap_2.
Qed.

(** Draining ends and empties the outbox when executions and the repository do not
    fail: after at most one batch per item and a last, empty one, it returns the
    number of items the outbox had, each of which was executed. *)
Theorem drain_queue_empties fuel total o :
  os_ok o → (0 < ob_batch_size config)%Z →
  (∀ p w, is_ok (execute p w).1 = true) →
  (∀ ids s, is_ok (delete_outbox_items_batch ids s).1 = true) →
  (∀ limit s, outbox_ok s → is_ok (get_pending_outbox limit s).1 = true) →
  length (os_outbox o) < fuel →
  ∃ o', drain_queue execute config fuel total o = Some (Ok (total + length (os_outbox o)), o') ∧ os_outbox o' = [].
Proof.
  intros Hok Hbatch Hex Hdel Hget. revert total o Hok.
  induction fuel as [|fuel IH]; intros total o Hok Hfuel; [lia|]. cbn [drain_queue].
  unfold on_state. specialize (Hget (ob_batch_size config) (os_state o) Hok) as Hget1.
  destruct (get_pending_outbox (ob_batch_size config) (os_state o)) as [[items|e] s1] eqn:Eg; [|done].
  destruct (pending_view _ _ _ _ Hok Eg) as (Hok1 & Ho1 & Hitems). specialize (Hitems items eq_refl ltac:(lia)).
  set (o1 := mkOutboxState s1 (os_world o)).
  assert (os_outbox o1 = os_outbox o) as Eo by exact Ho1.
  destruct items as [|item items].
  { exists o1. symmetry in Hitems. apply take_nil_inv in Hitems.
    assert (os_outbox o = []) as E by (destruct Hitems as [?|?]; [lia|done]). rewrite Eo, E. by rewrite Nat.add_0_r. }
  destruct (process_batch_items_spec (item :: items) o1 Hok1) as (deleted & o2 & -> & _ & Hok2 & _ & Hids & Hall).
  specialize (Hall Hdel). rewrite executions_all in Hall by done.
  assert (deleted ≡ₚ take (Z.to_nat (ob_batch_size config)) (identities (os_outbox o1)).*1) as Hperm.
  { rewrite Hall, (unordered_perm (item :: items)), Hitems, Eo. unfold identities.
    rewrite <- list_fmap_compose, fmap_take. done. }
  assert (NoDup (identities (os_outbox o1)).*1) as Hnd.
  { unfold identities. rewrite <- list_fmap_compose. by apply outbox_ids. }
  rewrite (filter_prefix_ids _ _ _ Hnd Hperm) in Hids. clear Hall.
  assert (length (os_outbox o2) = length (os_outbox o) - Z.to_nat (ob_batch_size config)) as Hlen2.
  { rewrite <- identities_length, Hids, length_drop, identities_length, Eo. done. }
  assert (length deleted = Nat.min (Z.to_nat (ob_batch_size config)) (length (os_outbox o))) as Hlend.
  { rewrite Hperm, length_take, length_fmap, identities_length, Eo. done. }
  assert (0 < length (os_outbox o)) as Hpos.
  { unfold os_outbox. destruct (outbox (os_state o)); [|cbn; lia]. by rewrite take_nil in Hitems. }
  destruct (IH (total + length deleted) o2 Hok2 ltac:(lia)) as (o' & -> & Hemp).
  exists o'. split; [|done]. do 3 f_equal. lia.
Qed.

(** A drain that ends has delivered and removed every item. *)
Lemma remaining_length ids (l : list (Z * (string * ActionPayload))) :
  NoDup l.*1 → NoDup ids → (∀ id, id ∈ ids → id ∈ l.*1) → length (remaining ids l) + length ids = length l.
Proof.
  intros Hl Hids Hin. unfold remaining.
  assert ((filter (λ p : Z * (string * ActionPayload), p.1 ∈ ids) l).*1 ≡ₚ ids) as Hp.
  { apply NoDup_Permutation; [by apply NoDup_fmap_filter|done|]. intros id. split.
    - intros ([id' c] & -> & [Hi _]%list_elem_of_filter)%list_elem_of_fmap. exact Hi.
    - intros Hi. pose proof (Hin id Hi) as Hp. apply list_elem_of_fmap in Hp as (p & -> & Hp). apply list_elem_of_fmap. exists p.
      split; [done|]. by apply list_elem_of_filter. }
  apply Permutation_length in Hp. rewrite length_fmap in Hp.
  pose proof (filter_app_complement (λ p : Z * (string * ActionPayload), p.1 ∈ ids) l) as Hc.
  apply Permutation_length in Hc. rewrite length_app in Hc. lia.
Qed.

Lemma executions_sublist items w : (executions items w).1 `sublist_of` oi_id <$> items.
Proof.
  revert w. induction items as [|item items IH]; intros w; [done|]. cbn.
  destruct (execute (oi_payload item) w) as [r w1]. specialize (IH w1).
  destruct (executions items w1) as [ids w2]. cbn in *. destruct (is_ok r); [by apply sublist_skip|by apply sublist_cons].
Qed.

Lemma drain_queue_Ok fuel total o n o' :
  os_ok o → (0 < ob_batch_size config)%Z → drain_queue execute config fuel total o = Some (Ok n, o') →
  os_ok o' ∧ os_outbox o' = [] ∧ n = total + length (os_outbox o).
Proof.
  intros Hok Hbatch. revert total o Hok. induction fuel as [|fuel IH]; intros total o Hok; [done|]. cbn [drain_queue].
  unfold on_state. destruct (get_pending_outbox (ob_batch_size config) (os_state o)) as [[items|e] s1] eqn:Eg; [|done].
  destruct (pending_view _ _ _ _ Hok Eg) as (Hok1 & Ho1 & Hitems). specialize (Hitems items eq_refl ltac:(lia)).
  set (o1 := mkOutboxState s1 (os_world o)). assert (os_outbox o1 = os_outbox o) as Eo by exact Ho1.
  destruct items as [|item items].
  { intros [= <- <-]. symmetry in Hitems. apply take_nil_inv in Hitems as [?|Hnil]; [lia|].
    rewrite Eo. unfold os_outbox. rewrite Hnil. cbn. by rewrite Nat.add_0_r. }
  destruct (process_batch_items_spec (item :: items) o1 Hok1) as (deleted & o2 & -> & Hsub & Hok2 & _ & Hids & _).
  intros (Hok' & Hnil & ->)%IH; [|done]. split_and!; [done|done|].
  assert (NoDup (identities (os_outbox o)).*1 ∧ ∀ id, id ∈ deleted → id ∈ (identities (os_outbox o)).*1) as [Hnd Hin].
  { unfold identities. rewrite <- list_fmap_compose. split; [by apply outbox_ids|].
    intros id Hid. eapply elem_of_sublist in Hid; [|exact Hsub]. eapply elem_of_sublist in Hid; [|apply executions_sublist].
    apply list_elem_of_fmap in Hid as (i & -> & Hi). rewrite (unordered_perm (item :: items)), Hitems in Hi.
    apply (list_elem_of_fmap_2 (fst ∘ (λ i, (oi_id i, content i)))). by eapply elem_of_sublist; [exact Hi|apply sublist_take]. }
  assert (NoDup deleted) as Hdd.
  { eapply sublist_NoDup; [|exact Hsub]. eapply sublist_NoDup; [|apply executions_sublist].
    rewrite (unordered_perm (item :: items)), Hitems. eapply sublist_NoDup; [|apply fmap_sublist, sublist_take].
    by apply outbox_ids. }
  pose proof (remaining_length deleted _ Hnd Hdd Hin) as Hlen. rewrite <- Eo, <- Hids, !identities_length in Hlen.
  rewrite <- Eo. lia.
Qed.

Lemma executions_none items w :
  (∀ p w, is_ok (execute p w).1 = false) → (executions items w).1 = [].
Proof.
  intros Hfail. revert w. induction items as [|item items IH]; intros w; [done|]. cbn.
  specialize (Hfail (oi_payload item) w). destruct (execute (oi_payload item) w) as [r w1]. cbn in Hfail. rewrite Hfail.
  specialize (IH w1). by destruct (executions items w1).
Qed.

(** Draining never ends while deliveries keep failing: no number of batches is
    enough. *)
Lemma drain_queue_diverges fuel total o :
  os_ok o → (0 < ob_batch_size config)%Z → os_outbox o ≠ [] →
  (∀ p w, is_ok (execute p w).1 = false) →
  (∀ limit s, outbox_ok s → is_ok (get_pending_outbox limit s).1 = true) →
  drain_queue execute config fuel total o = None.
Proof.
  intros Hok Hbatch Hne Hex Hget. revert total o Hok Hne.
  induction fuel as [|fuel IH]; intros total o Hok Hne; [done|]. cbn [drain_queue]. unfold on_state.
  specialize (Hget (ob_batch_size config) (os_state o) Hok) as Hget1.
  destruct (get_pending_outbox (ob_batch_size config) (os_state o)) as [[items|e] s1] eqn:Eg; [|done].
  destruct (pending_view _ _ _ _ Hok Eg) as (Hok1 & Ho1 & Hitems). specialize (Hitems items eq_refl ltac:(lia)).
  set (o1 := mkOutboxState s1 (os_world o)).
  destruct items as [|item items].
  { symmetry in Hitems. apply take_nil_inv in Hitems. destruct Hitems as [?|?]; [lia|done]. }
  destruct (process_batch_items_spec (item :: items) o1 Hok1) as (deleted & o2 & -> & Hsub & Hok2 & _ & Hids & _).
  rewrite executions_none in Hsub by done. apply sublist_nil_r in Hsub as ->. apply IH; [done|].
  intros E. apply (f_equal length) in Hids. unfold remaining in Hids.
  rewrite filter_all in Hids by (apply Forall_forall; intros; apply not_elem_of_nil).
  rewrite !identities_length, E in Hids. apply Hne, nil_length_inv. unfold os_outbox at 1. by rewrite <- Ho1.
Qed.
Lemma executions_refused items w :
  (∀ i w, i ∈ items → is_ok (execute (oi_payload i) w).1 = false) → (executions items w).1 = [].
Proof.
  revert w. induction items as [|item items IH]; intros w Hfail; [done|]. cbn.
  pose proof (Hfail item w ltac:(by left)) as Hi. destruct (execute (oi_payload item) w) as [r w1]. cbn in Hi. rewrite Hi.
  specialize (IH w1 ltac:(intros; apply Hfail; by right)). by destruct (executions items w1).
Qed.

(** The items fetched first are always the oldest: when their executions keep failing, no
    poll ever gets to the items behind them, and nothing leaves the outbox. *)
Lemma failing_items_starve_others polls o :
  os_ok o → (0 ≤ ob_batch_size config)%Z →
  (∀ c w, c ∈ take (Z.to_nat (ob_batch_size config)) (content <$> os_outbox o) → is_ok (execute c.2 w).1 = false) →
  os_ok (run_outbox execute config polls o) ∧
  identities (os_outbox (run_outbox execute config polls o)) = identities (os_outbox o).
Proof.
  intros Hok Hbatch Hfail. unfold run_outbox. induction polls as [|n [IHok IH]]; [done|]. rewrite Nat.iter_succ.
  set (o1 := Nat.iter n _ o) in *. unfold process_batch, mbind, eff_bind, on_state.
  destruct (get_pending_outbox (ob_batch_size config) (os_state o1)) as [r s] eqn:Eg.
  destruct (pending_view _ _ _ _ IHok Eg) as (Hok1 & Ho1 & Hitems).
  assert (os_ok (mkOutboxState s (os_world o1)) ∧
    identities (os_outbox (mkOutboxState s (os_world o1))) = identities (os_outbox o)) as Hsame.
  { split; [done|]. rewrite <- IH. unfold os_outbox. cbn. by rewrite Ho1. }
  destruct r as [items|e]; [|exact Hsame]. specialize (Hitems items eq_refl Hbatch).
  destruct items as [|item items]; [exact Hsame|]. clear Hsame. cbn.
  set (o2 := mkOutboxState s (os_world o1)). assert (os_outbox o2 = os_outbox o1) as Eo by exact Ho1.
  destruct (process_batch_items_spec (item :: items) o2 Hok1) as (deleted & o3 & -> & Hsub & Hok3 & _ & Hids & _).
  rewrite executions_refused in Hsub.
  - apply sublist_nil_r in Hsub as ->. cbn. split; [done|]. unfold remaining in Hids.
    rewrite filter_all in Hids by (apply Forall_forall; intros; apply not_elem_of_nil). by rewrite Hids, Eo.
  - intros i w Hi. rewrite (unordered_perm (item :: items)), Hitems in Hi. apply (Hfail (content i)).
    apply (f_equal (fmap snd)) in IH. unfold identities in IH. rewrite <- !list_fmap_compose in IH.
    change (content <$> os_outbox o1 = content <$> os_outbox o) in IH. rewrite <- IH, <- fmap_take.
    by apply (list_elem_of_fmap_2 content).
Qed.
End Delivery.

(** ** Concrete deliveries *)

Import MonitorMatch.Demo Interfaces.InterfacesDemo Providers.ProvidersDemo.

Module OutboxDemo.
Definition demo_match (tx : Z) : MonitorMatch := build (transaction_match (builder 1 "m" "hook" 10 tx) JNull).
Definition demo_payload (tx : Z) : string * ActionPayload := ("hook", Single (demo_match tx)).
(** The world records what was delivered; transaction 8 cannot be delivered. *)
Definition demo_execute (p : ActionPayload) : eff (list string) string unit := λ w,
  match p with
  | Single m => if decide (mm_transaction_hash m = 8%Z) then (Err "refused", w) else (Ok tt, w ++ [mm_id m])
  | _ => (Ok tt, w)
  end.
Definition always (p : ActionPayload) : eff (list string) string unit := λ w, (Ok tt, w ++ [idempotency_key p]).
Definition never (p : ActionPayload) : eff (list string) string unit := λ w, (Err "refused", w).
Definition demo_config : OutboxConfig := mkOutboxConfig 2 10 500.
Definition demo_state : OutboxState :=
  mkOutboxState (enqueue_outbox_batch [demo_payload 7; demo_payload 8; demo_payload 9] mem_empty).2 ([] : list string).
Lemma demo_state_ok : os_ok demo_state.
Proof. apply (mem_enqueue_ok _ mem_empty mem_empty_ok). Qed.
End OutboxDemo.
Import OutboxDemo.


Lemma drain_queue_empties_witness :
  ∃ o', drain_queue always demo_config 4 0 demo_state = Some (Ok 3, o') ∧ os_outbox o' = [].
Proof.
  assert (length (os_outbox demo_state) = 3) as Hlen by (vm_compute; reflexivity).
  destruct (drain_queue_empties always demo_config 4 0 demo_state) as (o' & E & Ho); try reflexivity.
  - exact demo_state_ok.
  - rewrite Hlen. lia.
  - exists o'. rewrite E, Hlen. split; [reflexivity|exact Ho].
Defined.

Lemma drain_queue_diverges_witness : ∀ fuel, drain_queue never demo_config fuel 0 demo_state = None.
Proof.
  intros fuel. apply (drain_queue_diverges never demo_config fuel 0 demo_state); try reflexivity.
  - exact demo_state_ok.
  - vm_compute. discriminate.
Defined.
