(* ===== verification/Frames.v ===== *)
(** * Who writes what in the database

    The services write the progress, the outbox and the saved states; the API and the
    start-up write the monitors, the ABIs and the actions.  A property of the tables
    that looks at one half is kept by everything that writes the other, and the
    engine's components keep whatever the operations they call keep. *)
From S2P Require Import Prelude Models MonitorMatch Interfaces Providers Store AlertManager OutboxProcessor.

Section Operations.
Context `{DefaultHasher} `{SqliteChoices}.
Context `{Serde (list string)} `{Serde ActionConfig} `{Serde ActionPayload}.
Context (P : Tables → Prop).

(** The operations of the API and of the start-up keep [P]. *)
Record admin_keeps : Prop := {
  ak_add_monitors n ms : preserves P (add_monitors n ms);
  ak_clear_monitors n : preserves P (clear_monitors n);
  ak_delete_monitor n id : preserves P (delete_monitor n id);
  ak_update_monitor n id m : preserves P (update_monitor n id m);
  ak_update_status n id st : preserves P (update_monitor_status n id st);
  ak_create_abi name abi : preserves P (create_abi name abi);
  ak_delete_abi_row name : preserves P (delete_abi_row name);
  ak_create_action n a : preserves P (create_action n a);
  ak_update_action n a : preserves P (update_action n a);
  ak_delete_action n i : preserves P (delete_action n i);
  ak_clear_actions n : preserves P (clear_actions n)
}.

(** The operations of the services keep [P]. *)
Record service_keeps : Prop := {
  sk_set_last n b : preserves P (set_last_processed_block n b);
  sk_enqueue items : preserves P (enqueue_outbox_batch items);
  sk_pending limit : preserves P (get_pending_outbox limit);
  sk_delete ids : preserves P (delete_outbox_items_batch ids);
  sk_increment id : preserves P (increment_outbox_retries id);
  sk_set_json {T} `{Serde T} key (value : T) : preserves P (set_json_state key value);
  sk_flush : preserves P Store.flush;
  sk_cleanup : preserves P cleanup
}.

(** [P] does not look at the monitors, the ABIs and the actions. *)
Record admin_blind : Prop := {
  ab_monitors t rows seq : P t → P (set_monitors rows seq t);
  ab_abis t rows : P t → P (set_abis rows t);
  ab_actions t rows seq : P t → P (set_actions rows seq t)
}.

(** [P] looks only at them. *)
Record service_blind : Prop := {
  sb_blocks t m : P t → P (set_processed_blocks m t);
  sb_outbox t rows seq : P t → P (set_outbox rows seq t);
  sb_states t m : P t → P (set_application_state m t);
  sb_synchronous t mode : P t → P (set_synchronous mode t)
}.

(** What each group of operations needs. *)
Section Actions.
Hypothesis actions_blind : ∀ t rows seq, P t → P (set_actions rows seq t).

Lemma create_action_only n a : preserves P (create_action n a).
Proof.
  apply preserves_bind; [apply preserves_lift|]. intros str. apply preserves_bind; [|auto with store].
  apply preserves_execute. intros t u t' Ht. case_bool_decide; [done|]. intros (? & _ & [= _ <-])%bind_Ok.
  by apply actions_blind.
Qed.
Lemma update_action_only n a : preserves P (update_action n a).
Proof.
  unfold update_action. destruct (ac_id a); [|apply preserves_throw]. apply preserves_bind; [apply preserves_lift|].
  intros str. apply preserves_bind; [|auto with store]. apply preserves_affecting, preserves_execute.
  intros t u t' Ht. cbv zeta. destruct (_ && _); [done|]. intros [= _ <-]. by apply actions_blind.
Qed.
Lemma delete_action_only n i : preserves P (delete_action n i).
Proof. apply preserves_affecting, preserves_execute. intros t u t' Ht [= _ <-]. by apply actions_blind. Qed.
Lemma clear_actions_only n : preserves P (clear_actions n).
Proof. apply preserves_execute. intros t u t' Ht [= _ <-]. by apply actions_blind. Qed.
End Actions.

Section Abis.
Hypothesis abis_blind : ∀ t rows, P t → P (set_abis rows t).

Lemma create_abi_only name abi : preserves P (create_abi name abi).
Proof. apply preserves_execute. intros t u t' Ht. case_bool_decide; [done|]. intros [= _ <-]. by apply abis_blind. Qed.
Lemma delete_abi_row_only name : preserves P (delete_abi_row name).
Proof.
  apply preserves_affecting, preserves_execute. intros t u t' Ht. cbv zeta. destruct (_ && _); [done|].
  intros [= _ <-]. by apply abis_blind.
Qed.
End Abis.

Section Monitors.
Hypothesis monitors_blind : ∀ t rows seq, P t → P (set_monitors rows seq t).

Lemma clear_monitors_only n : preserves P (clear_monitors n).
Proof. apply preserves_execute. intros t u t' Ht [= _ <-]. by apply monitors_blind. Qed.
Lemma delete_monitor_only n id : preserves P (delete_monitor n id).
Proof. apply preserves_affecting, preserves_execute. intros t u t' Ht [= _ <-]. by apply monitors_blind. Qed.
Lemma update_rows_only n id g t k t' : P t → update_monitor_rows n id g t = (k, t') → P t'.
Proof. unfold update_monitor_rows. intros Ht [= _ <-]. by apply monitors_blind. Qed.
Lemma update_monitor_only n id m : preserves P (update_monitor n id m).
Proof.
  unfold update_monitor, serialize. apply preserves_bind; [apply preserves_lift|]. intros str.
  apply preserves_affecting, preserves_execute. intros t k t' Ht.
  destruct (update_monitor_rows _ _ _ t) as [k' t1] eqn:Eu. destruct (_ && _); [done|]. intros [= _ <-].
  by eapply update_rows_only.
Qed.
Lemma update_status_only n id st : preserves P (update_monitor_status n id st).
Proof.
  apply preserves_affecting, preserves_execute. intros t k t' Ht Hu.
  apply (f_equal (λ r, match r with Ok x => x | Err _ => (0, t) end)) in Hu. by eapply update_rows_only.
Qed.
End Monitors.

Lemma ak_delete_abi name : admin_keeps → preserves P (delete_abi name).
Proof.
  intros Had. apply preserves_bind; [apply preserves_select|].
  intros [|? ?]; [by apply ak_delete_abi_row|apply preserves_throw].
Qed.

Lemma admin_blind_keeps : admin_blind → admin_keeps.
Proof.
  intros [Hm Ha Hc]. split; intros; auto using add_monitors_only, clear_monitors_only, delete_monitor_only,
    update_monitor_only, update_status_only, create_abi_only, delete_abi_row_only, create_action_only, update_action_only,
    delete_action_only, clear_actions_only.
Qed.

Section Outbox.
Hypothesis outbox_blind : ∀ t rows seq, P t → P (set_outbox rows seq t).

Lemma insert_or_ignore_only rows t t' : P t → foldM insert_or_ignore rows t = Ok t' → P t'.
Proof.
  revert t. induction rows as [|[[name json] key] rows IH]; intros t Ht; cbn; [by intros [= <-]|].
  intros (t1 & Hi & Hf)%bind_Ok. apply (IH t1); [|done]. unfold insert_or_ignore in Hi.
  apply bind_Ok in Hi as (id & _ & Hi). case_bool_decide; injection Hi as <-; by apply outbox_blind.
Qed.
Lemma enqueue_only items : preserves P (enqueue_outbox_batch items).
Proof.
  destruct items; [apply preserves_ret|]. apply preserves_transaction, preserves_for_each. intros chunk.
  apply preserves_bind; [apply preserves_lift|]. intros rows. apply preserves_execute.
  intros t u t' Ht (t1 & Hf & [= _ <-])%bind_Ok. by eapply insert_or_ignore_only.
Qed.
Lemma delete_outbox_only ids : preserves P (delete_outbox_items_batch ids).
Proof.
  destruct ids; [apply preserves_ret|]. apply preserves_transaction, preserves_for_each. intros chunk.
  apply preserves_execute. intros t u t' Ht [= _ <-]. by apply outbox_blind.
Qed.
Lemma increment_only id : preserves P (increment_outbox_retries id).
Proof. apply preserves_execute. intros t u t' Ht [= _ <-]. by apply outbox_blind. Qed.
End Outbox.

Lemma pending_reads limit : preserves P (get_pending_outbox limit).
Proof. apply preserves_bind; auto with store. Qed.

Lemma set_last_only n b :
  (∀ t m, P t → P (set_processed_blocks m t)) → preserves P (set_last_processed_block n b).
Proof.
  intros HP. cbn [set_last_processed_block sqlite_block_state]. unfold sqlite_set_last_processed_block.
  case_match; [|apply preserves_throw]. apply preserves_execute. intros t u t' Ht [= _ <-]. by apply HP.
Qed.

Lemma set_json_only {T} `{Serde T} key (value : T) :
  (∀ t m, P t → P (set_application_state m t)) → preserves P (set_json_state key value).
Proof.
  intros HP. apply preserves_bind; [apply preserves_lift|]. intros str. apply preserves_execute.
  intros t u t' Ht [= _ <-]. by apply HP.
Qed.

Section Pragmas.
Hypothesis synchronous_blind : ∀ t mode, P t → P (set_synchronous mode t).

Lemma checkpoint_only mode : preserves P (checkpoint_wal mode).
Proof. unfold checkpoint_wal. case_bool_decide; auto with store. Qed.
Lemma synchronous_only mode : preserves P (set_synchronous_mode mode).
Proof.
  unfold set_synchronous_mode. case_bool_decide; [|apply preserves_throw].
  apply preserves_execute. intros t a t' Ht [= _ <-]. by apply synchronous_blind.
Qed.
Lemma flush_only : preserves P Store.flush.
Proof.
  apply preserves_bind; [apply synchronous_only|]. intros _. apply preserves_bind; [apply checkpoint_only|].
  intros _. apply synchronous_only.
Qed.
End Pragmas.

Lemma service_blind_keeps : service_blind → service_keeps.
Proof.
  intros [Hb Ho Hs Hsy]. split; intros; auto using set_last_only, enqueue_only, pending_reads, delete_outbox_only,
    increment_only, set_json_only, flush_only. apply checkpoint_only.
Qed.
End Operations.

Section StoreWf.
Context `{DefaultHasher} `{SqliteChoices}.
Context `{Serde (list string)} `{Serde ActionConfig} `{SerdeLaws ActionPayload}.

Lemma store_wf_admin : admin_keeps store_wf.
Proof.
  split; intros; [apply add_monitors_wf|apply clear_monitors_wf|apply delete_monitor_wf|apply update_monitor_wf
    |apply update_status_wf|apply create_abi_wf|apply delete_abi_row_wf|apply create_action_wf|apply update_action_wf
    |apply delete_action_wf|apply clear_actions_wf].
Qed.

Lemma store_wf_service : service_keeps store_wf.
Proof.
  split; intros.
  - apply set_last_wf.
  - apply (run_op_wf (OpEnqueue items)).
  - apply pending_reads.
  - apply (run_op_wf (OpDeleteOutbox ids)).
  - apply (run_op_wf (OpIncrementRetries id)).
  - apply (run_op_wf (OpSetJson key T _ value)).
  - apply flush_wf.
  - apply checkpoint_only.
Qed.
End StoreWf.

(** ** The alert manager keeps what its repository's operations keep *)

Section AlertFrame.
Context {S : Type} `{OutboxRepository S} `{KeyValueStore S} `{Serde ThrottleState} `{Serde AggregationState}.
Context (actions : gmap string ActionConfig) (inv : S → Prop).
Context (inv_enqueue : ∀ items, keeps inv (enqueue_outbox_batch items)).
Context (inv_set_json : ∀ T (ST : Serde T) key (value : T), keeps inv (set_json_state key value)).

Definition am_keeps (a : AlertManager (S := S)) : Prop := inv (am_state_repository a).

Lemma keeps_on_repository {A} (m : eff S PersistenceError A) : keeps inv m → keeps am_keeps (on_repository m).
Proof.
  intros Hm a Ha. unfold on_repository. specialize (Hm (am_state_repository a) Ha).
  by destruct (m (am_state_repository a)).
Qed.

Lemma keeps_dispatch ps : keeps am_keeps (dispatch_payloads_batch ps).
Proof.
  destruct ps as [|p ps]; [apply keeps_ret|]. apply keeps_bind; [apply keeps_on_repository, inv_enqueue|].
  intros _ a Ha. exact Ha.
Qed.

Lemma keeps_throttle now m policy : keeps am_keeps (handle_throttle now m policy).
Proof.
  intros a Ha. unfold handle_throttle. destruct (throttle_step _ _ _) as [[] st]; [|exact Ha]. by apply (keeps_dispatch [Single m]).
Qed.

Lemma keeps_handle_matches l imm : keeps am_keeps (handle_matches actions l imm).
Proof.
  revert imm. induction l as [|[now m] l IH]; intros imm; cbn [handle_matches]; [apply keeps_ret|].
  destruct (actions !! _) as [c|]; [|apply IH]. destruct (ac_policy c) as [[p|p]|]; [| |apply IH].
  - apply keeps_bind; [intros a Ha; exact Ha|]. intros _. apply IH.
  - apply keeps_bind; [apply keeps_throttle|]. intros _. apply IH.
Qed.

Lemma keeps_matches_batch l : keeps am_keeps (process_matches_batch actions l).
Proof.
  unfold process_matches_batch. destruct l; [apply keeps_ret|]. apply keeps_bind; [apply keeps_handle_matches|].
  intros imm. destruct imm; [apply keeps_ret|apply keeps_dispatch].
Qed.

Lemma keeps_sync_states : keeps am_keeps sync_states_to_db.
Proof.
  intros a Ha. apply (keeps_bind am_keeps); [..|exact Ha]; intros; intros a1 Ha1.
  - apply for_each_inv; [|exact Ha1]. intros [k v] a2 _. apply keeps_on_repository, inv_set_json.
  - apply for_each_inv; [|exact Ha1]. intros [k v] a2 _. apply keeps_on_repository, inv_set_json.
Qed.

Lemma keeps_scan force now : keeps am_keeps (check_and_dispatch_expired_windows actions force now).
Proof. intros a Ha. apply keeps_sync_states, keeps_dispatch. exact Ha. Qed.
End AlertFrame.

(** ** The outbox processor keeps what its repository's operations keep *)

Section OutboxFrame.
Context {S W DE : Type} `{OutboxRepository S} `{CompletionOrder}.
Context (execute : ActionPayload → eff W DE unit) (config : OutboxConfig) (inv : S → Prop).
Context (inv_pending : ∀ limit, keeps inv (get_pending_outbox limit)).
Context (inv_delete : ∀ ids, keeps inv (delete_outbox_items_batch ids)).
Context (inv_increment : ∀ id, keeps inv (increment_outbox_retries id)).

Definition os_keeps (o : OutboxState (S := S) (W := W)) : Prop := inv (os_state o).

Lemma keeps_on_state {A} (m : eff S PersistenceError A) : keeps inv m → keeps os_keeps (on_state m).
Proof. intros Hm o Ho. unfold on_state. specialize (Hm (os_state o) Ho). by destruct (m (os_state o)). Qed.

Lemma keeps_collect items ids : keeps os_keeps (collect_results execute items ids).
Proof.
  revert ids. induction items as [|i items IH]; intros ids; cbn [collect_results]; [apply keeps_ret|].
  apply keeps_bind; [intros o Ho; unfold execute_item; by destruct (execute _ _)|]. intros [|]; [apply IH|].
  intros o Ho. by apply IH, keeps_on_state.
Qed.

Lemma keeps_one_by_one ids n : keeps os_keeps (delete_one_by_one ids n).
Proof.
  revert n. induction ids as [|id ids IH]; intros n; cbn [delete_one_by_one]; [apply keeps_ret|]. intros o Ho.
  pose proof (keeps_on_state _ (inv_delete [id]) o Ho) as Hd.
  destruct (on_state (delete_outbox_items_batch [id]) o) as [[u|e] o1]; by apply IH.
Qed.

Lemma keeps_batch_items items : keeps os_keeps (process_batch_items execute items).
Proof.
  apply keeps_bind; [apply keeps_collect|]. intros [|id ids]; [apply keeps_ret|]. intros o Ho.
  pose proof (keeps_on_state _ (inv_delete (id :: ids)) o Ho) as Hd.
  destruct (on_state (delete_outbox_items_batch (id :: ids)) o) as [[u|e] o1]; [exact Hd|]. by apply keeps_one_by_one.
Qed.

Lemma keeps_batch : keeps os_keeps (process_batch execute config).
Proof.
  apply keeps_bind; [apply keeps_on_state, inv_pending|]. intros [|i items]; [apply keeps_ret|].
  apply keeps_bind; [apply keeps_batch_items|]. intros n. apply keeps_ret.
Qed.

Lemma keeps_drain fuel total o r o' :
  drain_queue execute config fuel total o = Some (r, o') → os_keeps o → os_keeps o'.
Proof.
  revert total o. induction fuel as [|fuel IH]; intros total o; [done|]. cbn [drain_queue]. intros E Ho.
  pose proof (keeps_on_state _ (inv_pending (ob_batch_size config)) o Ho) as Hp.
  destruct (on_state (get_pending_outbox _) o) as [[[|i items]|e] o1]; [by injection E as _ <-| |by injection E as _ <-].
  pose proof (keeps_batch_items (i :: items) o1 Hp) as Hb.
  destruct (process_batch_items execute (i :: items) o1) as [[n|e] o2]; [by eapply IH|by injection E as _ <-].
Qed.
End OutboxFrame.
