(* ===== verification/BlockProcessor.v ===== *)
(** * The block processor ([crates/argus-engine/src/block_processor.rs])

    Batches of raw blocks are correlated with their logs and receipts, sent to
    the filtering engine, and the progress of the network is recorded after a
    batch has been sent. *)
From S2P Require Import Prelude Models MonitorMatch Abi Conversions RhaiScript Registry Manager Interfaces.

Section BlockProcessor.
Context `{AlloyPrimitives} `{DynAbi} `{RhaiEngine}.

(** ** Correlating one block *)

(** The maps of the block, from which entries are removed. *)
Definition logs_and_receipts : Type := gmap TxHash (list Log) * gmap TxHash TransactionReceipt.

(** Fast path: every transaction becomes an item. *)
Fixpoint items_of_all (txs : list Transaction) (m : logs_and_receipts) : list CorrelatedBlockItem :=
  match txs with
  | [] => []
  | tx :: txs =>
      let h := tx_hash tx in
      mkItem tx (default [] (m.1 !! h)) (m.2 !! h) :: items_of_all txs (delete h m.1, delete h m.2)
  end.

(** The test of the optimized path. *)
Definition is_potentially_matchable (reg : InterestRegistry) (tx : Transaction) (logs : list Log) : bool :=
  negb (bool_decide (logs = []))
  || match tx_to tx with Some to_addr => bool_decide (to_addr ∈ calldata_addresses reg) | None => false end.

(** Optimized path: the receipts of skipped transactions stay in the map. *)
Fixpoint items_of_matchable (reg : InterestRegistry) (txs : list Transaction) (m : logs_and_receipts)
    : list CorrelatedBlockItem :=
  match txs with
  | [] => []
  | tx :: txs =>
      let h := tx_hash tx in
      let logs := default [] (m.1 !! h) in
      if is_potentially_matchable reg tx logs
      then mkItem tx logs (m.2 !! h) :: items_of_matchable reg txs (delete h m.1, delete h m.2)
      else items_of_matchable reg txs (delete h m.1, m.2)
  end.

Definition process_block (st : MonitorAssetState) (block_data : BlockData) : CorrelatedBlockData :=
  let m := (bd_logs block_data, bd_receipts block_data) in
  let items :=
    match block_transactions (bd_block block_data) with
    | FullTxs transactions =>
        if has_transaction_only_monitors st then items_of_all transactions m
        else items_of_matchable (interest_registry st) transactions m
    | HashesOnly _ => []
    end in
  {| cb_block_number := block_number (bd_block block_data); cb_items := items |}.

(** [process_blocks_batch]: [None] when the blocking task panics. *)
Definition process_blocks_batch (st : MonitorAssetState) (panics : list BlockData → bool)
    (blocks : list BlockData) : option (list CorrelatedBlockData) :=
  match blocks with
  | [] => Some []
  | _ => if panics blocks then None else Some (process_block st <$> blocks)
  end.

(** ** The service *)

Section Service.
Context {S : Type} `{BlockStateRepository S}.
Context (cfg : AppConfig) (snapshot : MonitorAssetState) (panics : list BlockData → bool).

(** What the service acts on: the repository and the channel to the filtering engine. *)
Record Output := mkOutput { out_db : S; out_channel : Channel CorrelatedBlockData }.

(** The loop that sends the blocks: [None] when the receiver is gone. *)
Fixpoint send_blocks (blocks : list CorrelatedBlockData) (last_processed : option Z)
    (ch : Channel CorrelatedBlockData) : option (option Z) * Channel CorrelatedBlockData :=
  match blocks with
  | [] => (Some last_processed, ch)
  | b :: blocks =>
      let '(sent, ch) := ch_send b ch in
      if sent : bool then send_blocks blocks (Some (cb_block_number b)) ch else (None, ch)
  end.

Definition process_and_dispatch (blocks : list BlockData) (o : Output) : Output :=
  match process_blocks_batch snapshot panics blocks with
  | Some correlated_blocks =>
      let '(r, ch) := send_blocks correlated_blocks None (out_channel o) in
      match r with
      | Some (Some valid_last_processed) =>
          mkOutput (set_last_processed_block (cfg_network_id cfg) valid_last_processed (out_db o)).2 ch
      | _ => mkOutput (out_db o) ch
      end
  | None => o
  end.

(** One received block: the buffer is processed when it is full. *)
Definition recv_block (st : list BlockData * Output) (block_data : BlockData) : list BlockData * Output :=
  let block_buffer := st.1 ++ [block_data] in
  if (cfg_block_chunk_size cfg <=? Z.of_nat (length block_buffer))%Z
  then ([], process_and_dispatch block_buffer st.2)
  else (block_buffer, st.2).

(** [run]: the blocks received before cancellation, then the remaining buffer. *)
Definition run_processor (blocks : list BlockData) (o : Output) : Output :=
  let '(block_buffer, o) := foldl recv_block ([], o) blocks in
  match block_buffer with [] => o | _ => process_and_dispatch block_buffer o end.
End Service.

(** ** What correlation promises *)

(** The item of a transaction with its own logs and receipt. *)
Definition item_of (bd : BlockData) (tx : Transaction) : CorrelatedBlockItem :=
  mkItem tx (default [] (bd_logs bd !! tx_hash tx)) (bd_receipts bd !! tx_hash tx).

(** The transactions that become items. *)
Definition kept (st : MonitorAssetState) (bd : BlockData) (tx : Transaction) : bool :=
  has_transaction_only_monitors st
  || is_potentially_matchable (interest_registry st) tx (default [] (bd_logs bd !! tx_hash tx)).

Lemma items_of_all_spec txs m :
  NoDup (tx_hash <$> txs) →
  items_of_all txs m = (λ tx, mkItem tx (default [] (m.1 !! tx_hash tx)) (m.2 !! tx_hash tx)) <$> txs.
Proof.
  revert m. induction txs as [|tx txs IH]; intros m; [done|].
  rewrite fmap_cons, NoDup_cons. intros [Hn Hnd]. cbn. f_equal. rewrite IH by done.
  apply list_fmap_ext. intros i tx' Htx'%list_elem_of_lookup_2. cbn.
  assert (tx_hash tx ≠ tx_hash tx') by (intros E; apply Hn; rewrite E; by apply list_elem_of_fmap_2).
  by rewrite !lookup_delete_ne.
Qed.

Lemma items_of_matchable_spec reg txs m :
  NoDup (tx_hash <$> txs) →
  items_of_matchable reg txs m =
  (λ tx, mkItem tx (default [] (m.1 !! tx_hash tx)) (m.2 !! tx_hash tx)) <$>
    filter (λ tx, is_potentially_matchable reg tx (default [] (m.1 !! tx_hash tx)) = true) txs.
Proof.
  revert m. induction txs as [|tx txs IH]; intros m; [done|].
  rewrite fmap_cons, NoDup_cons. intros [Hn Hnd]. cbn [items_of_matchable]. rewrite filter_cons.
  assert (∀ rs, items_of_matchable reg txs (delete (tx_hash tx) m.1, rs) =
    (λ tx, mkItem tx (default [] (m.1 !! tx_hash tx)) (rs !! tx_hash tx)) <$>
    filter (λ tx, is_potentially_matchable reg tx (default [] (m.1 !! tx_hash tx)) = true) txs) as Hrest.
  { intros rs. rewrite IH by done. cbn [fst snd].
    assert (∀ tx', tx' ∈ txs → tx_hash tx ≠ tx_hash tx') as Hne
      by (intros tx' Htx' E; apply Hn; rewrite E; by apply list_elem_of_fmap_2).
    rewrite (list_filter_iff_in _ (λ tx, is_potentially_matchable reg tx (default [] (m.1 !! tx_hash tx)) = true))
      by (intros tx' Htx'; by rewrite lookup_delete_ne by auto).
    apply list_fmap_ext. intros i tx' Htx'%list_elem_of_lookup_2%list_elem_of_filter.
    by rewrite lookup_delete_ne by (apply Hne, Htx'). }
  destruct (is_potentially_matchable reg tx _) eqn:Ep; rewrite Hrest.
  - rewrite decide_True by done. cbn. f_equal. apply list_fmap_ext.
    intros i tx' [_ Htx']%list_elem_of_lookup_2%list_elem_of_filter.
    assert (tx_hash tx ≠ tx_hash tx') by (intros E; apply Hn; rewrite E; by apply list_elem_of_fmap_2).
    by rewrite lookup_delete_ne.
  - by rewrite decide_False.
Qed.


(** ** Progress *)

Section Progress.
Context {S : Type} `{BlockStateLaws S}.
Context (cfg : AppConfig) (snapshot : MonitorAssetState) (panics : list BlockData → bool).

Lemma send_blocks_spec bs lp ch :
  ∃ k, k ≤ length bs ∧
    ch_sent (send_blocks bs lp ch).2 = ch_sent ch ++ take k bs ∧
    match (send_blocks bs lp ch).1 with
    | Some lp' => k = length bs ∧ lp' = match last bs with Some b => Some (cb_block_number b) | None => lp end
    | None => k < length bs ∧ ch_open (send_blocks bs lp ch).2 = Some 0
    end ∧ (ch_open ch = None → ch_open (send_blocks bs lp ch).2 = None) ∧
    (ch_open ch = Some 0 → ch_open (send_blocks bs lp ch).2 = Some 0 ∧ k = 0).
Proof.
  revert lp ch. induction bs as [|b bs IH]; intros lp [sent op]; cbn [send_blocks].
  - exists 0. cbn. rewrite app_nil_r. split_and!; naive_solver lia.
  - unfold ch_send. cbn [ch_open ch_sent]. destruct op as [[|n]|]; cbn.
    + exists 0. cbn. rewrite app_nil_r. split_and!; naive_solver lia.
    + destruct (IH (Some (cb_block_number b)) (mkChannel (sent ++ [b]) (Some n))) as (k & Hk & Hs & Hr & _).
      exists (Datatypes.S k). cbn in *. rewrite Hs, <- app_assoc. split_and!; [lia|done| |done|done].
      destruct (send_blocks bs _ _).1; [|intuition lia]. destruct Hr as [-> ->]. split; [done|].
      rewrite last_cons. by destruct (last bs).
    + destruct (IH (Some (cb_block_number b)) (mkChannel (sent ++ [b]) None)) as (k & Hk & Hs & Hr & Hn & _).
      exists (Datatypes.S k). cbn in *. rewrite Hs, <- app_assoc. split_and!; [lia|done| |auto|done].
      destruct (send_blocks bs _ _).1; [|intuition lia]. destruct Hr as [-> ->]. split; [done|].
      rewrite last_cons. by destruct (last bs).
Qed.

(** The invariant of the service after [done] blocks have been taken from the
    buffer: what was sent is a prefix of them, all of them while the channel is
    open, and the recorded block is one that was sent. *)
Record progress (o0 : Output) (processed : list BlockData) (o : Output) : Prop := {
  pg_sent : ∃ m, m ≤ length processed ∧
    ch_sent (out_channel o) = ch_sent (out_channel o0) ++ take m (process_block snapshot <$> processed) ∧
    (m < length processed → ch_open (out_channel o) = Some 0) ∧
    (last_block (out_db o) (cfg_network_id cfg) = last_block (out_db o0) (cfg_network_id cfg) ∨
     ∃ j bd, j < m ∧ processed !! j = Some bd ∧
       last_block (out_db o) (cfg_network_id cfg) = Some (block_number (bd_block bd)));
  pg_open : ch_open (out_channel o0) = None → ch_open (out_channel o) = None
}.

(** The first [m] of what was processed, then the first [k] of a batch: only a batch that
    follows everything sends anything. *)
Lemma sent_prefix {A B} (f : A → B) (processed bs : list A) m k :
  m ≤ length processed → m = length processed ∨ k = 0 →
  take m (f <$> processed) ++ take k (f <$> bs) = take (m + k) (f <$> (processed ++ bs)).
Proof.
  intros Hm Hmk. rewrite fmap_app. destruct Hmk as [->| ->].
  - rewrite take_app_add' by by rewrite length_fmap. f_equal. apply take_ge. rewrite length_fmap. lia.
  - cbn. rewrite app_nil_r, Nat.add_0_r, take_app_le; [done|]. rewrite length_fmap. lia.
Qed.

(** The state after a batch of which [k] blocks were sent, whether its last block was
    recorded or not. *)
Lemma progress_extended o0 processed bs m k (ch : Channel CorrelatedBlockData) db db' :
  m ≤ length processed → k ≤ length bs →
  ch_sent ch = ch_sent (out_channel o0) ++ take (m + k) (process_block snapshot <$> (processed ++ bs)) →
  (m + k < length (processed ++ bs) → ch_open ch = Some 0) →
  (ch_open (out_channel o0) = None → ch_open ch = None) →
  (last_block db (cfg_network_id cfg) = last_block (out_db o0) (cfg_network_id cfg) ∨
   ∃ j bd, j < m ∧ processed !! j = Some bd ∧
     last_block db (cfg_network_id cfg) = Some (block_number (bd_block bd))) →
  last_block db' (cfg_network_id cfg) = last_block db (cfg_network_id cfg) ∨
    (∃ bd, last bs = Some bd ∧ m = length processed ∧ k = length bs ∧
       last_block db' (cfg_network_id cfg) = Some (block_number (bd_block bd))) →
  progress o0 (processed ++ bs) (mkOutput db' ch).
Proof.
  intros Hm Hk Hsent Hcl Hopen Hlast Hdb. split; [|done]. exists (m + k). cbn.
  split_and!; [rewrite length_app; lia|done|done|]. destruct Hdb as [->|(bd & Hbd & -> & -> & ->)].
  - destruct Hlast as [?|(j & bd & Hj & Hbd & ?)]; [auto|]. right. exists j, bd.
    split_and!; [lia| |done]. by apply lookup_app_l_Some.
  - right. rewrite last_lookup in Hbd. assert (0 < length bs) by (destruct bs; cbn in *; [done|lia]).
    exists (length processed + Nat.pred (length bs)), bd. split_and!; [lia| |done].
    rewrite lookup_app_r by lia. rewrite <- Hbd. f_equal. lia.
Qed.

Lemma process_and_dispatch_progress o0 processed bs o :
  (∀ l, panics l = false) →
  progress o0 processed o →
  progress o0 (processed ++ bs) (process_and_dispatch cfg snapshot panics bs o).
Proof.
  intros Hp [(m & Hm & Hsent & Hclosed & Hlast) Hopen].
  assert (process_blocks_batch snapshot panics bs = Some (process_block snapshot <$> bs)) as Hb.
  { unfold process_blocks_batch. destruct bs; [done|]. by rewrite Hp. }
  unfold process_and_dispatch. rewrite Hb.
  destruct (send_blocks_spec (process_block snapshot <$> bs) None (out_channel o))
    as (k & Hk & Hs & Hr & Hn & H0'). rewrite length_fmap in *.
  destruct (send_blocks _ _ _) as [r ch]. cbn [fst snd] in *.
  assert (m = length processed ∨ k = 0 ∧ ch_open ch = Some 0) as Hmk.
  { destruct (decide (m < length processed)) as [Hlt|]; [right|left; lia].
    destruct (H0' (Hclosed Hlt)); auto. }
  rewrite Hsent, <- app_assoc, sent_prefix in Hs by (tauto || lia).
  assert (m + k < length (processed ++ bs) → k = length bs → ch_open ch = Some 0) as Hcl.
  { rewrite length_app. destruct Hmk as [|[_ ?]]; [lia|done]. }
  destruct r as [[lp|]|].
  - destruct Hr as [-> Hlp]. apply (progress_extended _ _ _ m (length bs) _ (out_db o)); auto.
    pose proof (set_last_block_view (cfg_network_id cfg) lp (out_db o)) as Hset.
    destruct (set_last_processed_block _ lp (out_db o)) as [[u|e] db'] eqn:Eset; cbn;
      specialize (Hset _ _ eq_refl); cbn in Hset; [right|left; by rewrite Hset].
    destruct Hset as [Hset _]. rewrite fmap_last in Hlp.
    destruct (last bs) as [bd|] eqn:El; [|done]. injection Hlp as ->. exists bd.
    split_and!; [done| |done|done]. destruct Hmk as [|[Hk0 _]]; [done|].
    apply last_Some in El as [l' ->]. rewrite length_app in Hk0. cbn in Hk0. lia.
  - destruct Hr as [-> _]. apply (progress_extended _ _ _ m (length bs) _ (out_db o)); auto.
  - destruct Hr as [Hlt Hc]. apply (progress_extended _ _ _ m k _ (out_db o)); auto.
Qed.

(** With a repository that does not fail and an open channel, the last block of
    each batch is recorded. *)
Lemma process_and_dispatch_records bs o :
  (∀ l, panics l = false) → ch_open (out_channel o) = None →
  (∀ n b s, is_ok (set_last_processed_block n b s).1 = true) →
  ∀ bd, last bs = Some bd →
  last_block (out_db (process_and_dispatch cfg snapshot panics bs o)) (cfg_network_id cfg) =
    Some (block_number (bd_block bd)).
Proof.
  intros Hp Hopen Hset bd Hlast. unfold process_and_dispatch, process_blocks_batch.
  destruct bs as [|b bs]; [done|]. rewrite Hp.
  destruct (send_blocks_spec (process_block snapshot <$> b :: bs) None (out_channel o))
    as (k & _ & _ & Hr & Hn & _). specialize (Hn Hopen).
  destruct (send_blocks _ _ _) as [r ch]. cbn [fst snd] in *.
  destruct r as [lp|]; [|destruct Hr; congruence]. destruct Hr as [_ ->].
  rewrite fmap_last, Hlast. cbn.
  pose proof (set_last_block_view (cfg_network_id cfg) (block_number (bd_block bd)) (out_db o)) as Hv.
  specialize (Hset (cfg_network_id cfg) (block_number (bd_block bd)) (out_db o)).
  destruct (set_last_processed_block _ _ (out_db o)) as [[u|e] db']; [|done].
  by destruct (Hv _ _ eq_refl).
Qed.

Lemma recv_blocks_progress blocks o0 :
  (∀ l, panics l = false) →
  let st := foldl (recv_block cfg snapshot panics) ([], o0) blocks in
  ∃ processed, blocks = processed ++ st.1 ∧ progress o0 processed st.2.
Proof.
  intros Hp. induction blocks as [|bd blocks IH] using rev_ind; cbn.
  - exists []. split; [done|]. split; [|done]. exists 0. cbn. rewrite app_nil_r. split_and!; auto with lia.
  - rewrite foldl_app. cbn. destruct IH as (processed & Hb & Hpr). unfold recv_block at 1 3.
    destruct (Z.leb_spec (cfg_block_chunk_size cfg) (Z.of_nat (length ((foldl (recv_block cfg snapshot panics) ([], o0) blocks).1 ++ [bd]))));
      cbn [fst snd].
    + exists (processed ++ ((foldl (recv_block cfg snapshot panics) ([], o0) blocks).1 ++ [bd])).
      split; [by rewrite app_nil_r, app_assoc, <- Hb|]. by apply process_and_dispatch_progress.
    + exists processed. split; [by rewrite app_assoc, <- Hb|done].
Qed.

Lemma run_processor_invariant blocks o0 :
  (∀ l, panics l = false) → progress o0 blocks (run_processor cfg snapshot panics blocks o0).
Proof.
  intros Hp. destruct (recv_blocks_progress blocks o0 Hp) as (processed & Hb & Hpr).
  unfold run_processor. destruct (foldl _ _ blocks) as [buffer o]. cbn [fst snd] in *. subst.
  destruct buffer as [|bd buffer]; [by rewrite app_nil_r|]. by apply process_and_dispatch_progress.
Qed.

Lemma run_processor_records blocks o0 :
  (∀ l, panics l = false) → ch_open (out_channel o0) = None →
  (∀ n b s, is_ok (set_last_processed_block n b s).1 = true) →
  ∀ bd, last blocks = Some bd →
  last_block (out_db (run_processor cfg snapshot panics blocks o0)) (cfg_network_id cfg) =
    Some (block_number (bd_block bd)).
Proof.
  intros Hp Ho Hset bd Hbd. destruct (recv_blocks_progress blocks o0 Hp) as (processed & Hb & Hpr).
  unfold run_processor. apply last_Some in Hbd as [l ->]. revert Hb Hpr. rewrite foldl_app. cbn.
  destruct (recv_blocks_progress l o0 Hp) as (processed' & _ & [_ Ho']). specialize (Ho' Ho).
  destruct (foldl (recv_block cfg snapshot panics) ([], o0) l) as [buffer o]. cbn [snd] in Ho'.
  unfold recv_block. cbn [fst snd].
  destruct (Z.leb_spec (cfg_block_chunk_size cfg) (Z.of_nat (length (buffer ++ [bd])))); cbn [fst snd]; intros _ _.
  - apply process_and_dispatch_records; [done..|]. apply last_snoc.
  - destruct (buffer ++ [bd]) as [|b' bs'] eqn:E; [by destruct buffer|]. rewrite <- E.
    apply process_and_dispatch_records; [done..|]. apply last_snoc.
Qed.

(** C14: The service never runs ahead of itself.  Whatever the batch size, however
    the repository fails and whenever the receiver disappears, the blocks sent are a
    prefix of the blocks received, in order, each correlated once; the recorded
    progress is either the old one or the number of a block that was sent.  While
    the receiver lives every block is sent, and when the repository does not fail
    the last one is recorded (no correlation task panics). *)
Theorem run_processor_progress blocks o0 :
  (∀ l, panics l = false) →
  let o := run_processor cfg snapshot panics blocks o0 in
  let recorded o := last_block (out_db o) (cfg_network_id cfg) in
  (∃ m, m ≤ length blocks ∧
     ch_sent (out_channel o) = ch_sent (out_channel o0) ++ take m (process_block snapshot <$> blocks) ∧
     (recorded o = recorded o0 ∨
      ∃ j bd, j < m ∧ blocks !! j = Some bd ∧ recorded o = Some (block_number (bd_block bd)))) ∧
  (ch_open (out_channel o0) = None →
     ch_sent (out_channel o) = ch_sent (out_channel o0) ++ (process_block snapshot <$> blocks) ∧
     ((∀ n b s, is_ok (set_last_processed_block n b s).1 = true) →
      ∀ bd, last blocks = Some bd → recorded o = Some (block_number (bd_block bd)))).
Proof.
  intros Hp o recorded.
  destruct (run_processor_invariant blocks o0 Hp) as [(m & Hm & Hsent & Hclosed & Hlast) Hopen].
  fold o in Hsent, Hclosed, Hlast, Hopen. split; [by exists m|]. intros Ho. specialize (Hopen Ho). split.
  - rewrite Hsent. f_equal. apply take_ge. rewrite length_fmap.
    destruct (decide (m < length blocks)) as [Hlt|]; [|lia]. specialize (Hclosed Hlt). congruence.
  - intros Hset bd Hbd. subst o. unfold recorded. by apply run_processor_records.
Qed.
End Progress.
End BlockProcessor.

(** ** Concrete blocks *)

Import MonitorMatch.Demo Abi.AbiDemo RhaiScript.RhaiDemo Interfaces.InterfacesDemo.

Module BlockProcessorDemo.
Definition demo_config : AppConfig := mkAppConfig "net" 2 0 4 1000 None 12 Latest None.
Definition demo_block_data (n : Z) : BlockData :=
  BlockData_from_raw_data
    (mkBlock n (1000 + n) [] (FullTxs [demo_tx (10 * n) (Some 1%Z) []; demo_tx (10 * n + 1) (Some 2%Z) []]))
    {[ (10 * n)%Z := mkReceipt 21000 true 7 ]}
    [mkLog 1 [50%Z] [] None (Some n) (Some (10 * n)%Z) (Some 0%Z) (Some 0%Z) false].
Definition demo_blocks : list BlockData := demo_block_data <$> [10; 11; 12]%Z.
Definition demo_output : Output := mkOutput (∅ : DemoDb) open_channel.
Definition no_panic (_ : list BlockData) : bool := false.
End BlockProcessorDemo.
Import BlockProcessorDemo.


(** Three blocks in batches of two: the last one is sent at shutdown. *)
Lemma run_processor_progress_witness :
  let o := run_processor demo_config MonitorAssetState_default no_panic demo_blocks demo_output in
  ch_sent (out_channel o) = process_block MonitorAssetState_default <$> demo_blocks ∧
  last_block (out_db o) "net" = Some 12%Z.
Proof.
  cbv zeta.
  destruct (run_processor_progress demo_config MonitorAssetState_default no_panic demo_blocks demo_output
    (λ l, eq_refl)) as [_ Hlive].
  destruct (Hlive eq_refl) as [Hsent Hrec]. split; [exact Hsent|].
  exact (Hrec (λ n b s, eq_refl) (demo_block_data 12) eq_refl).
Defined.

(** A batch whose correlation task panics is dropped: the next batch is sent and
    recorded, so the lost blocks are never processed again. *)
Lemma panicked_batch_is_lost :
  let panics l := bool_decide (block_number <$> (bd_block <$> l) = [10; 11]%Z) in
  let o := run_processor demo_config MonitorAssetState_default panics demo_blocks demo_output in
  cb_block_number <$> ch_sent (out_channel o) = [12]%Z ∧ last_block (out_db o) "net" = Some 12%Z.
Proof. split; vm_compute; reflexivity. Qed.
