(* ===== verification/Ingestor.v ===== *)
(** * The block ingestor ([crates/argus-engine/src/block_ingestor.rs], [polling.rs])

    Each cycle reads the recorded progress and the head of the chain, and sends
    the blocks up to the confirmed head to the block processor, chunk by chunk. *)
From S2P Require Import Prelude Models MonitorMatch Abi Conversions RhaiScript Registry Providers Interfaces.

Definition DEFAULT_BACKFILL_BLOCKS : Z := 100.
(** Milliseconds. *)
Definition MIN_LIVE_POLL_INTERVAL : Z := 250.
Definition CALIBRATION_MIN_BLOCKS : Z := 4.
Definition CALIBRATION_DIVERGENCE_FACTOR : Z := 2.

(** ** Polling ([polling.rs]) *)

Definition live_poll_interval (config : AppConfig) : Duration :=
  match cfg_expected_block_time_ms config with
  | Some block_time => Z.min (Z.max block_time MIN_LIVE_POLL_INTERVAL) (cfg_polling_interval_ms config)
  | None => cfg_polling_interval_ms config
  end.

(** Instants and durations in nanoseconds. *)
Record BlockTimeCalibrator := mkCalibrator {
  cal_expected : option Z;
  cal_sample : option (Z * Z);
  cal_warned : bool
}.
Definition BlockTimeCalibrator_new (expected : option Z) : BlockTimeCalibrator :=
  mkCalibrator expected None false.

(** [None] when the division by the truncated block count panics. *)
Definition observe (c : BlockTimeCalibrator) (now head : Z) : option BlockTimeCalibrator :=
  match cal_expected c with
  | None => Some c
  | Some expected =>
      match cal_sample c with
      | None => Some (mkCalibrator (cal_expected c) (Some (now, head)) (cal_warned c))
      | Some (t0, h0) =>
          let delta := u64_saturating_sub head h0 in
          if (delta <? CALIBRATION_MIN_BLOCKS)%Z then Some c
          else if (u64_as_u32 delta =? 0)%Z then None
          else
            let observed := (Z.max 0 (now - t0) / u64_as_u32 delta)%Z in
            let diverges :=
              (observed * CALIBRATION_DIVERGENCE_FACTOR <? expected)%Z
              || (expected * CALIBRATION_DIVERGENCE_FACTOR <? observed)%Z in
            Some (mkCalibrator (cal_expected c) (Some (now, head)) (cal_warned c || diverges))
      end
  end.

(** ** The service *)

(** A cycle ends with an error of the data source, or panics, or never ends. *)
Inductive ingest_fault := IngestErr (e : DataSourceError) | IngestPanic | IngestHangs.

Section Ingestor.
Context {S : Type} `{BlockStateRepository S} `{CompletionOrder}.
Context (config : AppConfig) (needs_receipts : bool).

(** The state of the service: [ing_cancel] is the number of checks of the
    cancellation token before it is set ([None]: never). *)
Record BlockIngestor := mkIngestor {
  ing_channel : Channel BlockData;
  ing_next_block : Z;
  ing_cancel : option nat;
  ing_latest : option (Z * Z);
  ing_calibrator : BlockTimeCalibrator
}.

Definition BlockIngestor_new : BlockIngestor :=
  mkIngestor open_channel 0 None None (BlockTimeCalibrator_new (cfg_expected_block_time_ms config)).

Definition next_poll_delay (backoff : bool) : Duration :=
  if backoff then cfg_polling_interval_ms config else live_poll_interval config.

Definition is_cancelled : eff BlockIngestor ingest_fault bool := λ i,
  match ing_cancel i with
  | Some 0 => (Ok true, i)
  | Some (Datatypes.S n) =>
      (Ok false, mkIngestor (ing_channel i) (ing_next_block i) (Some n) (ing_latest i) (ing_calibrator i))
  | None => (Ok false, i)
  end.

Definition observe_block_time (now head : Z) : eff BlockIngestor ingest_fault unit := λ i,
  match observe (ing_calibrator i) now head with
  | Some c => (Ok tt, mkIngestor (ing_channel i) (ing_next_block i) (ing_cancel i) (ing_latest i) c)
  | None => (Err IngestPanic, i)
  end.

(** Sending one block, and what is recorded after it. *)
Definition send_block (block_data : BlockData) : eff BlockIngestor ingest_fault unit := λ i,
  let block_num := block_number (bd_block block_data) in
  let '(sent, ch) := ch_send block_data (ing_channel i) in
  if sent : bool then
    (Ok tt, mkIngestor ch (u64_add block_num 1) (ing_cancel i)
              (Some (block_num, block_timestamp (bd_block block_data))) (ing_calibrator i))
  else (Err (IngestErr ChannelClosed), i).

(** The loop over the blocks of a chunk: [true] when it was cancelled. *)
Fixpoint send_batch (batch : list BlockData) : eff BlockIngestor ingest_fault bool :=
  match batch with
  | [] => mret false
  | block_data :: batch =>
      cancelled ← is_cancelled;
      if cancelled : bool then mret true
      else _ ← send_block block_data; send_batch batch
  end.

(** [while from_block <= safe_to_block]. *)
Fixpoint drain (fuel : nat) (ds : DataSource) (from_block safe_to_block : Z)
    : eff BlockIngestor ingest_fault unit :=
  match fuel with
  | 0 => mret tt
  | Datatypes.S fuel =>
      if (safe_to_block <? from_block)%Z then mret tt
      else
        cancelled ← is_cancelled;
        if cancelled : bool then mret tt
        else
          let to_block := Z.min (u64_add from_block (cfg_block_chunk_size config)) safe_to_block in
          batch ←
            match fetch_blocks_concurrent ds needs_receipts from_block to_block
                    (mkFetchConfig (Z.to_nat (cfg_concurrency config)) (cfg_log_chunk_size config)) with
            | Some fetched => lift_result (map_err IngestErr fetched)
            | None => lift_result (Err IngestHangs)
            end;
          cancelled ← send_batch batch;
          if cancelled : bool then mret tt
          else drain fuel ds (u64_add to_block 1) safe_to_block
  end.

(** The first block a cycle asks for. *)
Definition start_block (last_processed_block : option Z) (current_block next_block : Z) : Z :=
  let state_next :=
    match last_processed_block with
    | Some block => u64_add block 1
    | None => u64_saturating_sub current_block DEFAULT_BACKFILL_BLOCKS
    end in
  Z.max state_next next_block.

Definition safe_to_block (current_block : Z) : Z :=
  u64_saturating_sub current_block (cfg_confirmation_blocks config).

(** [BlockIngestor::ingest_blocks], on the state [db] of the repository. *)
Definition ingest_blocks (db : S) (ds : DataSource) (now : Z) : eff BlockIngestor ingest_fault unit :=
  last_processed_block ← lift_result (map_err (λ e, IngestErr (StateRepository e))
    (get_last_processed_block (cfg_network_id config) db).1);
  current_block ← lift_result (map_err IngestErr (get_current_block_number ds));
  _ ← observe_block_time now current_block;
  if (current_block <? cfg_confirmation_blocks config)%Z then mret tt
  else
    let safe := safe_to_block current_block in
    next_block ← gets ing_next_block;
    let from_block := start_block last_processed_block current_block next_block in
    if (safe <? from_block)%Z then mret tt
    else drain (Z.to_nat (safe - from_block + 1)) ds from_block safe.

(** [run]: a cycle per element of the environment; an error only delays the next
    cycle, a panic ends the service, and
    a cycle that never ends is its last. *)
Fixpoint run_ingestor (cycles : list (S * DataSource * Z)) (i : BlockIngestor) : BlockIngestor :=
  match cycles with
  | [] => i
  | (db, ds, now) :: cycles =>
      match ingest_blocks db ds now i with
      | (Err (IngestPanic | IngestHangs), i) => i
      | (_, i) =>
          match is_cancelled i with
          | (Ok true, i) => i
          | (_, i) => run_ingestor cycles i
          end
      end
  end.

(** ** What a cycle sends *)

Implicit Types (i : BlockIngestor).

(** The blocks sent so far, by number. *)
Definition sent_numbers i : list Z := bd_number <$> ch_sent (ing_channel i).

(** The service lives: no cancellation is pending and the receiver is there. *)
Definition undisturbed i : Prop := ing_cancel i = None ∧ ch_open (ing_channel i) = None.

Lemma is_cancelled_never i : ing_cancel i = None → is_cancelled i = (Ok false, i).
Proof. intros Hc. unfold is_cancelled. by rewrite Hc. Qed.

Lemma undisturbed_send_batch batch i :
  undisturbed i →
  Forall (λ bd, is_u64 (bd_number bd + 1)) batch →
  ∃ i', send_batch batch i = (Ok false, i') ∧ undisturbed i' ∧
    ch_sent (ing_channel i') = ch_sent (ing_channel i) ++ batch ∧
    ing_next_block i' = match last batch with Some bd => bd_number bd + 1 | None => ing_next_block i end%Z.
Proof.
  intros Hu Hb. revert i Hu. induction Hb as [|bd batch Hbd _ IH]; intros i [Hc Ho].
  - exists i. cbn. by rewrite app_nil_r.
  - cbn [send_batch]. rewrite (eff_bind_run _ _ _ _ _ (is_cancelled_never i Hc)).
    erewrite eff_bind_run by (unfold send_block, ch_send; rewrite Ho; reflexivity).
    match goal with |- context [send_batch batch ?j] =>
      destruct (IH j (conj Hc eq_refl)) as (i' & E & Hu' & Hs & Hn) end.
    exists i'. rewrite E. split_and!; [done|done| |].
    + rewrite Hs. cbn. by rewrite <- app_assoc.
    + rewrite Hn, last_cons. cbn. destruct (last batch); [done|].
      unfold u64_add, u64_wrap. apply Z.mod_small. revert Hbd. unfold bd_number. unfold_width. lia.
Qed.

Section OneCycle.
Context (from safe : Z) (chain : Z → Block) (logs : list Log) (receipts : gmap TxHash TransactionReceipt).
Context (ds : DataSource).
Context (Hserves : serves ds from safe chain logs receipts).
Context (Hnodup : NoDup (block_range from safe ≫= λ n, hashes_of (chain n))).
Context (Hconc : (0 < cfg_concurrency config)%Z).
Context (Hchunk : (0 ≤ cfg_block_chunk_size config)%Z) (Hlogs : (0 ≤ cfg_log_chunk_size config)%Z).
Context (Hfrom : (0 ≤ from)%Z).
Context (Hmax : (safe + 1 + cfg_block_chunk_size config + cfg_log_chunk_size config ≤ u64_max)%Z).

Notation data_of := (block_data_of chain logs receipts needs_receipts).

Lemma drain_complete fuel a i :
  undisturbed i → (from ≤ a)%Z → (safe - a < Z.of_nat fuel)%Z →
  ∃ i', drain fuel ds a safe i = (Ok tt, i') ∧ undisturbed i' ∧
    ch_sent (ing_channel i') = ch_sent (ing_channel i) ++ (data_of <$> block_range a safe) ∧
    ing_next_block i' = (if safe <? a then ing_next_block i else safe + 1)%Z.
Proof.
  revert a i. induction fuel as [|fuel IH]; intros a i Hu Ha Hf; cbn [drain].
  { exists i. rewrite block_range_nil by lia. cbn. rewrite app_nil_r.
    rewrite (proj2 (Z.ltb_lt _ _)) by lia. done. }
  destruct (Z.ltb_spec safe a) as [|Hle].
  { exists i. rewrite block_range_nil by done. by rewrite app_nil_r. }
  rewrite (u64_add_small a) by (unfold_width; lia).
  set (b := Z.min (a + cfg_block_chunk_size config) safe).
  assert (a ≤ b ≤ safe)%Z as Hb by lia. clearbody b.
  destruct Hu as [Hc Ho]. rewrite (eff_bind_run _ _ _ _ _ (is_cancelled_never i Hc)).
  rewrite (fetch_blocks_concurrent_spec ds a b chain logs receipts needs_receipts).
  2:{ cbn. lia. }
  2:{ apply (serves_sub ds from safe); [lia|lia|done]. }
  2:{ unfold_width. lia. }
  2:{ done. }
  2:{ cbn. lia. }
  2:{ revert Hnodup. rewrite (block_range_app from (a - 1) safe), (block_range_app (a - 1 + 1) b safe) by lia.
      rewrite !bind_app, !NoDup_app. replace (a - 1 + 1)%Z with a by lia. tauto. }
  erewrite eff_bind_run by reflexivity.
  destruct (undisturbed_send_batch (data_of <$> block_range a b) i (conj Hc Ho)) as (i1 & E & Hu1 & Hs1 & Hn1).
  { apply Forall_fmap, Forall_forall. intros n Hn%elem_of_seqZ. cbn. unfold bd_number. cbn.
    rewrite (proj2 (serves_block _ _ _ _ _ _ Hserves n ltac:(lia))). unfold_width. lia. }
  rewrite (eff_bind_run _ _ _ _ _ E), u64_add_small by (unfold_width; lia).
  destruct (IH (b + 1)%Z i1 Hu1 ltac:(lia) ltac:(lia)) as (i' & E' & Hu' & Hs' & Hn').
  exists i'. rewrite E'. split_and!; [done|done| |].
  - rewrite Hs', Hs1, <- app_assoc, <- fmap_app, <- block_range_app by lia. done.
  - rewrite Hn', Hn1. destruct (Z.ltb_spec safe (b + 1)); [|done].
    assert (b = safe) as -> by lia. rewrite fmap_last, last_block_range by lia. cbn.
    unfold bd_number. cbn. by rewrite (proj2 (serves_block _ _ _ _ _ _ Hserves safe ltac:(lia))).
Qed.
End OneCycle.


(** ** No gap and no repetition, over all cycles *)

Section NoGap.
Context `{!BlockStateLaws S}.

(** The steps of the service and of what surrounds it.  A cycle runs on any
    repository whose recorded progress is at most what was sent after [p0] (what
    the block processor guarantees), and on any honest data source, which may fail
    at any request; cancellation and the loss of the receiver come at any time. *)
Inductive ingest_step (p0 : Z) : BlockIngestor → BlockIngestor → Prop :=
| step_cycle i db ds now p :
    honest ds →
    (∀ cur, get_current_block_number ds = Ok cur →
       (0 ≤ cur)%Z ∧ (cur + 1 + cfg_block_chunk_size config ≤ u64_max)%Z) →
    last_block db (cfg_network_id config) = Some p →
    (p0 ≤ p ≤ p0 + Z.of_nat (length (sent_numbers i)))%Z →
    ingest_step p0 i (ingest_blocks db ds now i).2
| step_poll i : ingest_step p0 i (is_cancelled i).2
| step_cancel i n :
    ingest_step p0 i (mkIngestor (ing_channel i) (ing_next_block i) (Some n) (ing_latest i) (ing_calibrator i))
| step_receiver_gone i n :
    ingest_step p0 i (mkIngestor (mkChannel (ch_sent (ing_channel i)) (Some n)) (ing_next_block i)
                        (ing_cancel i) (ing_latest i) (ing_calibrator i)).

(** The invariant: the numbers sent are consecutive after [p0], and the high-water
    mark, once set, is the next one. *)
Record no_gap (p0 : Z) i : Prop := {
  ng_sent : sent_numbers i = seqZ (p0 + 1) (Z.of_nat (length (sent_numbers i)));
  ng_next : Z.max (p0 + 1) (ing_next_block i) = (p0 + 1 + Z.of_nat (length (sent_numbers i)))%Z;
  ng_bound : (p0 + 1 + Z.of_nat (length (sent_numbers i)) ≤ u64_max)%Z
}.

(** The next number to send. *)
Definition next_number (p0 : Z) i : Z := (p0 + 1 + Z.of_nat (length (sent_numbers i)))%Z.

Lemma no_gap_same p0 i i' :
  sent_numbers i' = sent_numbers i → ing_next_block i' = ing_next_block i → no_gap p0 i → no_gap p0 i'.
Proof. intros Hs Hn [Hs' Hn' Hb]. split; by rewrite ?Hs, ?Hn. Qed.

Lemma is_cancelled_same i :
  sent_numbers (is_cancelled i).2 = sent_numbers i ∧ ing_next_block (is_cancelled i).2 = ing_next_block i.
Proof. unfold is_cancelled. by destruct (ing_cancel i) as [[]|]. Qed.

Lemma send_block_no_gap p0 bd i :
  (0 ≤ p0)%Z → no_gap p0 i → bd_number bd = next_number p0 i → (bd_number bd + 1 ≤ u64_max)%Z →
  no_gap p0 (send_block bd i).2 ∧
  (∀ u i', send_block bd i = (Ok u, i') → next_number p0 i' = (bd_number bd + 1)%Z).
Proof.
  intros Hp0 Hi Hbd Hmax. unfold send_block.
  destruct (ch_send bd (ing_channel i)) as [[] ch] eqn:Ech; [|done].
  assert (ch_sent ch = ch_sent (ing_channel i) ++ [bd]) as Hch.
  { revert Ech. unfold ch_send. by destruct (ch_open _) as [[]|]; intros [=]; subst. }
  set (i' := mkIngestor ch _ _ _ _). cbn [snd].
  assert (sent_numbers i' = sent_numbers i ++ [bd_number bd]) as Hs
    by (unfold sent_numbers, i'; cbn; by rewrite Hch, fmap_app).
  assert (u64_add (block_number (bd_block bd)) 1 = bd_number bd + 1)%Z as Hadd.
  { unfold bd_number, next_number in *. apply u64_add_small; unfold_width; lia. }
  unfold next_number in *. split.
  - split; rewrite Hs, length_app; cbn [length].
    + rewrite Nat2Z.inj_add, seqZ_app by lia. rewrite <- (ng_sent _ _ Hi). f_equal.
      rewrite Hbd, seqZ_cons by lia. by rewrite seqZ_nil by lia.
    + cbn. rewrite Hadd, Hbd. lia.
    + lia.
  - intros [] i'' [= <-]. fold i'. rewrite Hs, length_app. cbn [length]. lia.
Qed.

Lemma send_batch_no_gap p0 batch k i :
  (0 ≤ p0)%Z → no_gap p0 i →
  bd_number <$> batch = seqZ (next_number p0 i) k → (next_number p0 i + k ≤ u64_max)%Z →
  no_gap p0 (send_batch batch i).2 ∧
  (∀ i', send_batch batch i = (Ok false, i') → next_number p0 i' = next_number p0 i + Z.max 0 k)%Z.
Proof.
  intros Hp0. revert k i. induction batch as [|bd batch IH]; intros k i Hi Hb Hmax.
  { split; [done|]. intros i' [= <-]. destruct (Z.lt_ge_cases 0 k); [|lia].
    by rewrite seqZ_cons in Hb by lia. }
  destruct (Z.lt_ge_cases 0 k); [|by rewrite seqZ_nil in Hb by lia].
  rewrite seqZ_cons in Hb by lia. injection Hb as Hbd Hb. cbn [send_batch].
  destruct (is_cancelled_same i) as [Hs Hn]. destruct (is_cancelled i) as [[c|e] i1] eqn:Ec.
  2:{ unfold mbind, eff_bind. rewrite Ec. split; [by eapply no_gap_same|done]. }
  rewrite (eff_bind_run _ _ _ _ _ Ec). cbn [snd] in *.
  pose proof (no_gap_same p0 i i1 Hs Hn Hi) as Hi1.
  assert (next_number p0 i1 = next_number p0 i) as Hnn by (unfold next_number; by rewrite Hs).
  destruct c; [done|].
  destruct (send_block_no_gap p0 bd i1 Hp0 Hi1 ltac:(congruence) ltac:(lia)) as [Hi2 Hnext].
  unfold mbind, eff_bind. destruct (send_block bd i1) as [[u|e] i2]; [|done].
  specialize (Hnext u i2 eq_refl). cbn [snd] in Hi2.
  destruct (IH (Z.pred k) i2 Hi2) as [Hi3 Hnext3].
  - etrans; [exact Hb|]. f_equal. lia.
  - lia.
  - split; [exact Hi3|]. intros i' Hi'. rewrite (Hnext3 i' Hi'). lia.
Qed.

Lemma drain_no_gap p0 fuel ds a safe i :
  (0 ≤ p0)%Z → honest ds → (safe + 1 + cfg_block_chunk_size config ≤ u64_max)%Z →
  (0 ≤ cfg_block_chunk_size config)%Z →
  no_gap p0 i → a = next_number p0 i → no_gap p0 (drain fuel ds a safe i).2.
Proof.
  intros Hp0 Hds Hmax Hchunk. revert a i. induction fuel as [|fuel IH]; intros a i Hi Ha; cbn [drain]; [done|].
  destruct (Z.ltb_spec safe a) as [|Hle]; [done|].
  assert (0 ≤ a)%Z by (unfold next_number in Ha; lia).
  rewrite (u64_add_small a) by (unfold_width; lia).
  set (b := Z.min (a + cfg_block_chunk_size config) safe).
  assert (a ≤ b ≤ safe)%Z as Hb by lia. clearbody b.
  destruct (is_cancelled_same i) as [Hs Hn]. destruct (is_cancelled i) as [[c|e] i1] eqn:Ec.
  2:{ unfold mbind, eff_bind. rewrite Ec. by eapply no_gap_same. }
  rewrite (eff_bind_run _ _ _ _ _ Ec). cbn [snd] in *.
  pose proof (no_gap_same p0 i i1 Hs Hn Hi) as Hi1.
  assert (next_number p0 i1 = a) as Hnn by (rewrite Ha; unfold next_number; by rewrite Hs).
  destruct c; [done|].
  destruct (fetch_blocks_concurrent ds needs_receipts a b _) as [[batch|e]|] eqn:Ef; [|done..].
  erewrite eff_bind_run by reflexivity.
  pose proof (fetch_blocks_concurrent_numbers ds _ _ _ _ _ Hds Ef) as Hnums. unfold block_range in Hnums.
  destruct (send_batch_no_gap p0 batch (b - a + 1) i1 Hp0 Hi1 ltac:(by rewrite Hnn) ltac:(lia)) as [Hi2 Hnext].
  unfold mbind, eff_bind. destruct (send_batch batch i1) as [[[]|e] i2]; [done| |done].
  rewrite u64_add_small by (unfold_width; lia).
  apply IH; [exact Hi2|]. rewrite (Hnext i2 eq_refl). lia.
Qed.

Lemma ingest_step_no_gap p0 i i' :
  (0 ≤ p0)%Z → (0 ≤ cfg_block_chunk_size config)%Z → (0 ≤ cfg_confirmation_blocks config)%Z →
  ingest_step p0 i i' → no_gap p0 i → no_gap p0 i'.
Proof.
  intros Hp0 Hchunk Hconf Hstep Hi. destruct Hstep as [i db ds now p Hds Hcur Hlast Hp| i |i n|i n].
  - pose proof (get_last_block_view (cfg_network_id config) db) as Hv. unfold ingest_blocks.
    destruct (get_last_processed_block (cfg_network_id config) db) as [[o|e] db'];
      [|unfold mbind, eff_bind; done]. destruct (Hv _ _ eq_refl) as [_ Ho]. cbn [fst].
    rewrite (Ho o eq_refl), Hlast. erewrite eff_bind_run by reflexivity.
    destruct (get_current_block_number ds) as [cur|e]; [|done]. specialize (Hcur cur eq_refl).
    erewrite eff_bind_run by reflexivity.
    unfold observe_block_time, mbind at 1, eff_bind at 1.
    destruct (observe (ing_calibrator i) now cur) as [c|]; [|done].
    set (i1 := mkIngestor _ _ _ _ c).
    assert (no_gap p0 i1) as Hi1 by exact (no_gap_same p0 i i1 eq_refl eq_refl Hi).
    destruct (Z.ltb_spec cur (cfg_confirmation_blocks config)); [done|].
    erewrite eff_bind_run by reflexivity.
    assert (start_block (Some p) cur (ing_next_block i1) = next_number p0 i1) as ->.
    { unfold start_block, next_number. destruct Hi1 as [Hs Hn Hb]. fold (sent_numbers i1) in *.
      change (sent_numbers i) with (sent_numbers i1) in Hp.
      rewrite u64_add_small by (unfold_width; lia). lia. }
    destruct (Z.ltb_spec (safe_to_block cur) (next_number p0 i1)); [done|].
    apply drain_no_gap; [done..| | | |]; try done.
    unfold safe_to_block, u64_saturating_sub. lia.
  - destruct (is_cancelled_same i). by eapply no_gap_same.
  - eapply (no_gap_same p0 i); [reflexivity..|exact Hi].
  - eapply (no_gap_same p0 i); [reflexivity..|exact Hi].
Qed.

(** The blocks sent never have a gap or a repetition.  From a recorded progress
    [p0], however cycles are repeated and interleaved with the block processor's
    progress, with failing requests, cancellation and the loss of the receiver, the
    numbers sent are consecutive from [p0 + 1], and the high-water mark is the next
    number as soon as one is sent. *)
Theorem ingestor_no_gap p0 i :
  (0 ≤ p0 < u64_max)%Z → (0 ≤ cfg_block_chunk_size config)%Z → (0 ≤ cfg_confirmation_blocks config)%Z →
  rtc (ingest_step p0) BlockIngestor_new i →
  sent_numbers i = seqZ (p0 + 1) (Z.of_nat (length (sent_numbers i))) ∧
  (sent_numbers i ≠ [] → ing_next_block i = (p0 + 1 + Z.of_nat (length (sent_numbers i)))%Z).
Proof.
  intros [Hp0 Hp0'] Hchunk Hconf Hi.
  assert (no_gap p0 i) as [Hs Hn _].
  { eapply (rtc_ind_l (λ i, no_gap p0 i → no_gap p0 _)); [by intros| |exact Hi|].
    - intros i1 i2 H12 _ IH H1. by eapply IH, ingest_step_no_gap.
    - split; cbn; [done|lia|lia]. }
  split; [done|]. intros Hne. destruct (sent_numbers i); [done|]. cbn [length] in *. lia.
Qed.
End NoGap.
End Ingestor.

(** ** A concrete run *)

Import Interfaces.InterfacesDemo Providers.ProvidersDemo.

Module IngestorDemo.
(** Chunks of three blocks, one confirmation. *)
Definition demo_config : AppConfig := mkAppConfig "net" 2 2 4 1000 (Some 2000)%Z 1 Latest None.
Definition demo_db : DemoDb := {["net" := 9%Z]}.
Definition demo_ingestor : BlockIngestor := BlockIngestor_new demo_config.
End IngestorDemo.
Import IngestorDemo.


(** A first cycle is cancelled after two blocks, the next one continues. *)
Lemma ingestor_no_gap_witness :
  let i1 := mkIngestor open_channel 0 (Some 3) None (BlockTimeCalibrator_new (Some 2000)%Z) in
  let i2 := (ingest_blocks demo_config true demo_db demo_ds 0 i1).2 in
  sent_numbers i2 = [10; 11]%Z ∧
  sent_numbers i2 = seqZ 10 (Z.of_nat (length (sent_numbers i2))).
Proof.
  cbv zeta. split; [vm_compute; reflexivity|].
  refine (proj1 (ingestor_no_gap demo_config true 9 _ _ _ _ _));
    [vm_compute; split; [discriminate|reflexivity]|vm_compute; discriminate..|].
  eapply rtc_l; [apply (step_cancel _ _ _ _ 3)|]. apply rtc_once.
  apply (step_cycle demo_config true 9 _ demo_db demo_ds 0 9).
  - intros n b [= <-]. reflexivity.
  - intros cur [= <-]. vm_compute. split; discriminate.
  - vm_compute; reflexivity.
  - vm_compute. split; discriminate.
Defined.

(** The division by the truncated block count panics when the head advanced by a
    multiple of [2 ^ 32] blocks between two samples. *)
Lemma calibrator_panics :
  observe (mkCalibrator (Some 2000%Z) (Some (0, 100)%Z) false) 10 (100 + 2 ^ 32) = None.
Proof. reflexivity. Qed.

(** Without recorded progress the high-water mark does not protect against a jump of
    the head: the blocks between them are skipped. *)
Lemma unrecorded_progress_skips :
  start_block None 114 14 = 14%Z ∧ start_block None 200 14 = 100%Z.
Proof. split; reflexivity. Qed.
