(* ===== verification/HttpPool.v ===== *)
(** * The pool of HTTP clients ([crates/argus-dispatch/src/http_client])

    One client per retry policy, shared by every action of that policy.  The two
    critical sections of [get_or_create] (under the read lock and under the write
    lock) are atomic; the tasks interleave between them.  Building the underlying
    client is the only step that can fail. *)
From S2P Require Import Prelude Models.

(** ** Clients ([http_client/client.rs], [config/http_base.rs]) *)

Record BaseHttpClientConfig := mkBaseHttp {
  max_idle_per_host : Z;
  idle_timeout : Duration;
  connect_timeout : Duration
}.
Definition BaseHttpClientConfig_default : BaseHttpClientConfig :=
  {| max_idle_per_host := 10; idle_timeout := 30000; connect_timeout := 10000 |}.

(** The arguments given to the builder of the retry policy. *)
Record ExponentialBackoff := mkBackoff {
  eb_jitter : JitterSetting;
  eb_base : Z;
  eb_min_interval : Duration;
  eb_max_interval : Duration;
  eb_max_n_retries : Z
}.

Record ClientWithMiddleware := mkClient {
  client_base : BaseHttpClientConfig;
  client_retries : ExponentialBackoff
}.

Definition retry_policy (config : HttpRetryConfig) : ExponentialBackoff :=
  {| eb_jitter := match jitter config with JitterNone => JitterNone | JitterFull => JitterFull end;
     eb_base := base_for_backoff config;
     eb_min_interval := initial_backoff_ms config;
     eb_max_interval := max_backoff_secs config;
     eb_max_n_retries := max_retry config |}.

Definition create_retryable_http_client (config : HttpRetryConfig) (base_client : BaseHttpClientConfig)
    : ClientWithMiddleware :=
  {| client_base := base_client; client_retries := retry_policy config |}.

#[export] Instance HttpRetryConfig_countable : Countable HttpRetryConfig.
Proof.
  apply (inj_countable'
    (λ c, (max_retry c, base_for_backoff c, initial_backoff_ms c, max_backoff_secs c,
           bool_decide (jitter c = JitterFull)))
    (λ p, let '(a, b, c, d, j) := p in mkRetry a b c d (if j : bool then JitterFull else JitterNone))).
  intros [a b c d []]; reflexivity.
Defined.

(** ** The pool ([http_client/pool.rs]) *)

Inductive HttpClientPoolError := HttpClientBuildError (e : string).

(** [next_ptr] is the address of the next allocation. *)
Record HttpClientPool := mkPool {
  clients : gmap HttpRetryConfig (Arc ClientWithMiddleware);
  base_client_config : BaseHttpClientConfig;
  next_ptr : Z
}.

Definition HttpClientPool_new (base : BaseHttpClientConfig) : HttpClientPool := mkPool ∅ base 0.

(** The section under the read lock. *)
Definition fast_path (policy : HttpRetryConfig) (pool : HttpClientPool) : option (Arc ClientWithMiddleware) :=
  clients pool !! policy.

(** The section under the write lock; [built] is the outcome of the builder. *)
Definition slow_path (built : result string unit) (policy : HttpRetryConfig)
    : eff HttpClientPool HttpClientPoolError (Arc ClientWithMiddleware) := λ pool,
  match clients pool !! policy with
  | Some client => (Ok client, pool)
  | None =>
      match built with
      | Err e => (Err (HttpClientBuildError e), pool)
      | Ok _ =>
          let new_client := mkArc (next_ptr pool) (create_retryable_http_client policy (base_client_config pool)) in
          (Ok new_client,
           mkPool (<[policy := new_client]> (clients pool)) (base_client_config pool) (next_ptr pool + 1))
      end
  end.

(** [HttpClientPool::get_or_create], when no other task comes in between. *)
Definition get_or_create (built : result string unit) (policy : HttpRetryConfig)
    : eff HttpClientPool HttpClientPoolError (Arc ClientWithMiddleware) := λ pool,
  match fast_path policy pool with
  | Some client => (Ok client, pool)
  | None => slow_path built policy pool
  end.

Definition get_active_client_count (pool : HttpClientPool) : nat := size (clients pool).

(** ** Concurrent callers *)

Inductive PoolTask :=
| Reading (policy : HttpRetryConfig)
| Writing (policy : HttpRetryConfig)
| Returned (policy : HttpRetryConfig) (r : result HttpClientPoolError (Arc ClientWithMiddleware)).

Record PoolSystem := mkPoolSystem { ps_pool : HttpClientPool; ps_tasks : list PoolTask }.

(** One task takes one lock; [built] is what the builder would answer now. *)
Inductive pool_step (built : result string unit) : PoolSystem → PoolSystem → Prop :=
| step_hit pool tasks i policy client :
    tasks !! i = Some (Reading policy) → fast_path policy pool = Some client →
    pool_step built (mkPoolSystem pool tasks) (mkPoolSystem pool (<[i := Returned policy (Ok client)]> tasks))
| step_miss pool tasks i policy :
    tasks !! i = Some (Reading policy) → fast_path policy pool = None →
    pool_step built (mkPoolSystem pool tasks) (mkPoolSystem pool (<[i := Writing policy]> tasks))
| step_write pool tasks i policy r pool' :
    tasks !! i = Some (Writing policy) → slow_path built policy pool = (r, pool') →
    pool_step built (mkPoolSystem pool tasks) (mkPoolSystem pool' (<[i := Returned policy r]> tasks)).

(** A step of some caller. *)
Definition schedule_step (s s' : PoolSystem) : Prop := ∃ built, pool_step built s s'.

(** The callers, before they start. *)
Definition callers (base : BaseHttpClientConfig) (policies : list HttpRetryConfig) : PoolSystem :=
  mkPoolSystem (HttpClientPool_new base) (Reading <$> policies).

(** ** One client per policy *)

(** Clients are numbered in order of creation and hold the policy of their key. *)
Record pool_ok (pool : HttpClientPool) : Prop := {
  pool_client policy c : clients pool !! policy = Some c →
    arc_val c = create_retryable_http_client policy (base_client_config pool) ∧
    (0 ≤ arc_ptr c < next_ptr pool)%Z;
  pool_inj p p' c c' : clients pool !! p = Some c → clients pool !! p' = Some c' → arc_ptr c = arc_ptr c' → p = p';
  pool_count : next_ptr pool = Z.of_nat (size (clients pool))
}.

(** Every client handed out is the one the pool holds for its policy. *)
Definition system_ok (s : PoolSystem) : Prop :=
  pool_ok (ps_pool s) ∧
  ∀ i policy c, ps_tasks s !! i = Some (Returned policy (Ok c)) → clients (ps_pool s) !! policy = Some c.

Lemma slow_path_ok built policy pool r pool' :
  pool_ok pool → slow_path built policy pool = (r, pool') →
  pool_ok pool' ∧ base_client_config pool' = base_client_config pool ∧
  clients pool ⊆ clients pool' ∧ (∀ c, r = Ok c → clients pool' !! policy = Some c).
Proof.
  intros Hok. unfold slow_path. destruct (clients pool !! policy) as [c|] eqn:Hp.
  { intros [= <- <-]. split_and!; [done..|]. by intros ? [= <-]. }
  destruct built as [u|e]; intros [= <- <-]; [|by split_and!].
  assert (∀ q c, clients pool !! q = Some c → arc_ptr c ≠ next_ptr pool) as Hfresh.
  { intros q c [_ ?]%(pool_client _ Hok). lia. }
  split_and!; [|done|by apply insert_subseteq|intros ? [= <-]; apply lookup_insert_eq].
  split; cbn.
  - intros q c. rewrite lookup_insert. case_decide as Hd.
    + subst q. intros [= <-]. cbn. split; [done|]. rewrite (pool_count _ Hok). lia.
    + intros [? ?]%(pool_client _ Hok). split; [done|lia].
  - intros p p' c c'. rewrite !lookup_insert. repeat case_decide; subst; [done| | |by eapply pool_inj].
    + intros [= <-] ?%Hfresh. cbn. congruence.
    + intros ?%Hfresh [= <-]. cbn. congruence.
  - rewrite map_size_insert_None, (pool_count _ Hok) by done. lia.
Qed.

Lemma pool_step_ok built s s' : system_ok s → pool_step built s s' → system_ok s'.
Proof.
  intros [Hok Ht] Hs. destruct Hs as [pool tasks i policy client Hi Hf|pool tasks i policy Hi Hf|pool tasks i policy r pool' Hi Hw]; cbn in *.
  - split; [done|]. cbn. intros j q c. rewrite list_lookup_insert. case_decide; [|by apply Ht].
    by intros [= <- <-].
  - split; [done|]. cbn. intros j q c. rewrite list_lookup_insert. case_decide; [done|by apply Ht].
  - destruct (slow_path_ok _ _ _ _ _ Hok Hw) as (Hok' & _ & Hsub & Hr). split; [done|]. cbn.
    intros j q c. rewrite list_lookup_insert. case_decide.
    + intros [= <- ->]. by apply Hr.
    + intros Hj. eapply lookup_weaken; [by eapply Ht|done].
Qed.

Lemma callers_ok base policies : system_ok (callers base policies).
Proof.
  split; cbn.
  - split; cbn; [by intros ?? ?%lookup_empty_Some|by intros ??? ? ?%lookup_empty_Some|].
    by rewrite map_size_empty.
  - intros i policy c. rewrite list_lookup_fmap. by destruct (policies !! i).
Qed.

Lemma pool_reachable_ok s s' : system_ok s → rtc schedule_step s s' → system_ok s'.
Proof. intros Hs Hr. induction Hr as [|s s1 s' [built Hb]]; [done|]. eauto using pool_step_ok. Qed.

(** ** Progress *)

Definition task_cost (t : PoolTask) : nat :=
  match t with Reading _ => 2 | Writing _ => 1 | Returned _ _ => 0 end.
Definition system_cost (s : PoolSystem) : nat := sum_list (task_cost <$> ps_tasks s).

Lemma sum_list_insert (l : list nat) i x y :
  l !! i = Some x → sum_list (<[i := y]> l) + x = sum_list l + y.
Proof.
  revert i. induction l as [|a l IH]; intros [|i]; cbn; [done..| |].
  - intros [= ->]. lia.
  - intros Hi. specialize (IH i Hi). rewrite <- !Nat.add_assoc. by f_equal.
Qed.

Lemma pool_step_cost built s s' : pool_step built s s' → system_cost s' < system_cost s.
Proof.
  assert (∀ (tasks : list PoolTask) i t t', tasks !! i = Some t → task_cost t' < task_cost t →
    sum_list (task_cost <$> <[i := t']> tasks) < sum_list (task_cost <$> tasks)) as Hc.
  { intros tasks i t t' Hi Hlt. rewrite list_fmap_insert.
    pose proof (sum_list_insert (task_cost <$> tasks) i (task_cost t) (task_cost t')) as E.
    rewrite list_lookup_fmap, Hi in E. specialize (E eq_refl). lia. }
  destruct 1; unfold system_cost; cbn; eapply Hc; try done; cbn; lia.
Qed.

Lemma pool_steps_cost n s s' : nsteps schedule_step n s s' → n + system_cost s' ≤ system_cost s.
Proof. induction 1 as [|n x y z [built Hs] _ IH]; [lia|]. apply pool_step_cost in Hs. lia. Qed.

Lemma callers_cost base policies : system_cost (callers base policies) = 2 * length policies.
Proof. unfold system_cost, callers; cbn. induction policies; cbn in *; lia. Qed.

(** A task that has not returned can take its next lock, whatever the builder does. *)
Lemma pool_step_enabled built s i t :
  ps_tasks s !! i = Some t → task_cost t ≠ 0 → ∃ s', pool_step built s s'.
Proof.
  destruct s as [pool tasks]; cbn. intros Hi Ht. destruct t as [p|p|]; [| |done].
  - destruct (fast_path p pool) as [c|] eqn:E; eexists; [by eapply step_hit|by eapply step_miss].
  - destruct (slow_path built p pool) as [r pool'] eqn:E. eexists. by eapply step_write.
Qed.

(** ** Theorems *)

(** C40: However the callers interleave and whatever the builder answers, two of them are
    given the same client if and only if they asked for the same retry policy, the
    client retries as that policy says, and no client was built in vain: the pool
    holds as many clients as it has allocated. *)
Theorem get_or_create_shares base policies s i j p q c d :
  rtc schedule_step (callers base policies) s →
  ps_tasks s !! i = Some (Returned p (Ok c)) → ps_tasks s !! j = Some (Returned q (Ok d)) →
  (p = q ↔ arc_ptr c = arc_ptr d) ∧ (p = q → c = d) ∧
  client_retries (arc_val c) = retry_policy p ∧
  next_ptr (ps_pool s) = Z.of_nat (get_active_client_count (ps_pool s)).
Proof.
  intros Hr Hi Hj. destruct (pool_reachable_ok _ _ (callers_ok base policies) Hr) as [Hok Ht].
  apply Ht in Hi, Hj. assert (p = q → c = d) as E by (intros <-; congruence). split_and!.
  - split; [by intros ->%E|by eapply pool_inj].
  - done.
  - by rewrite (proj1 (pool_client _ Hok _ _ Hi)).
  - apply (pool_count _ Hok).
Qed.

(** No caller waits for ever: every schedule of [n] callers has at most [2 n]
    steps, and as long as some caller has not been answered a step is possible
    whatever the builder answers. *)
Theorem get_or_create_terminates base policies n s :
  nsteps schedule_step n (callers base policies) s →
  n ≤ 2 * length policies ∧
  (Forall (λ t, task_cost t = 0) (ps_tasks s) ∨ ∀ built, ∃ s', pool_step built s s').
Proof.
  intros Hn. split.
  - apply pool_steps_cost in Hn. rewrite callers_cost in Hn. lia.
  - destruct (decide (Forall (λ t, task_cost t = 0) (ps_tasks s))) as [?|Hf]; [by left|right].
    apply not_Forall_Exists in Hf; [|apply _]. apply Exists_exists in Hf as (t & Ht & Hc).
    apply list_elem_of_lookup in Ht as [i Hi]. intros built. by eapply (pool_step_enabled built s i t).
Qed.

(** ** A schedule where two callers of one policy both miss *)

Module PoolDemo.
Definition policy_a : HttpRetryConfig := HttpRetryConfig_default.
Definition policy_b : HttpRetryConfig := mkRetry 0 2 250 10000 JitterNone.
Definition start : PoolSystem := callers BaseHttpClientConfig_default [policy_a; policy_a; policy_b].
Definition the_client (p : HttpRetryConfig) (n : Z) : Arc ClientWithMiddleware :=
  mkArc n (create_retryable_http_client p BaseHttpClientConfig_default).
Definition pool_1 : HttpClientPool := (slow_path (Ok tt) policy_a (HttpClientPool_new BaseHttpClientConfig_default)).2.
Definition finish : PoolSystem :=
  mkPoolSystem pool_1 [Returned policy_a (Ok (the_client policy_a 0)); Returned policy_a (Ok (the_client policy_a 0));
                       Returned policy_b (Err (HttpClientBuildError "tls"))].
End PoolDemo.
Import PoolDemo.

Lemma demo_schedule : nsteps schedule_step 6 start finish.
Proof.
  eapply nsteps_l; [exists (Ok tt); by apply (step_miss _ _ _ 0 policy_a)|].
  eapply nsteps_l; [exists (Ok tt); by apply (step_miss _ _ _ 1 policy_a)|].
  eapply nsteps_l; [exists (Ok tt); by apply (step_miss _ _ _ 2 policy_b)|].
  eapply nsteps_l; [exists (Ok tt); by eapply (step_write _ _ _ 1 policy_a)|].
  eapply nsteps_l; [exists (Ok tt); by eapply (step_write _ _ _ 0 policy_a)|].
  eapply nsteps_l; [exists (Err "tls"); by eapply (step_write _ _ _ 2 policy_b)|].
  apply nsteps_O.
Qed.

Lemma get_or_create_shares_witness :
  (policy_a = policy_a ↔ arc_ptr (the_client policy_a 0) = arc_ptr (the_client policy_a 0)) ∧
  next_ptr (ps_pool finish) = 1%Z.
Proof.
  destruct (get_or_create_shares BaseHttpClientConfig_default [policy_a; policy_a; policy_b] finish 0 1
    policy_a policy_a (the_client policy_a 0) (the_client policy_a 0)) as (E & _ & _ & Hn);
    [eapply (rtc_nsteps_2 6), demo_schedule|reflexivity..|].
  split; [exact E|exact Hn].
Defined.

Lemma get_or_create_terminates_witness :
  6 ≤ 2 * 3 ∧ (Forall (λ t, task_cost t = 0) (ps_tasks finish) ∨ ∀ built, ∃ s', pool_step built finish s').
Proof.
  apply (get_or_create_terminates BaseHttpClientConfig_default [policy_a; policy_a; policy_b] 6 finish).
  apply demo_schedule.
Defined.
