(* ===== verification/Config.v ===== *)
(** * The configuration of the application ([crates/argus-core/src/config])

    [app_config.rs], [server.rs], [rhai.rs], [rpc_retry.rs], [http_base.rs],
    [http_retry.rs], [outbox.rs] and [helpers.rs]: the sections of [app.yaml] with
    their defaults, and the durations and URLs they are written with.  Reading the file
    and the environment and merging them is the [config] crate; its values are JSON
    values, and the conversion of a value to a Rust type is [serde]'s.  The derived
    deserialisers are field by field; of several errors, the first in the order of the
    fields is reported. *)
From S2P Require Import Prelude Models HttpPool.

(** What [serde] makes of a value, and [Url::parse]. *)
Class ConfigValues := {
  value_u64 : Json → result string Z;
  value_u32 : Json → result string Z;
  value_i64 : Json → result string Z;
  value_usize : Json → result string Z;
  value_string : Json → result string string;
  url_parse : string → result string Url
}.

(** Integers within the range of their type are read exactly, and nothing else is. *)
Class ConfigValuesLaws `{ConfigValues} := {
  value_u64_range v n : value_u64 v = Ok n → is_u64 n;
  value_u32_range v n : value_u32 v = Ok n → (0 ≤ n ≤ u32_max)%Z;
  value_i64_range v n : value_i64 v = Ok n → is_i64 n;
  value_usize_range v n : value_usize v = Ok n → is_u64 n;
  value_u64_number n : is_u64 n → value_u64 (JNumber n) = Ok n;
  value_u32_number n : (0 ≤ n ≤ u32_max)%Z → value_u32 (JNumber n) = Ok n;
  value_string_text s : value_string (JString s) = Ok s
}.

Inductive ConfigError :=
| SourceError (e : string)
| MissingField (key : string)
| InvalidField (key e : string).

(** ** Durations ([helpers.rs]) *)

Section Helpers.
Context `{ConfigValues}.

Definition from_millis (ms : Z) : Duration := ms.
Definition from_secs (secs : Z) : Duration := (secs * 1000)%Z.

Definition deserialize_duration_from_ms (v : Json) : result string Duration := from_millis <$> value_u64 v.
Definition deserialize_duration_from_ms_opt (v : Json) : result string (option Duration) :=
  match v with
  | JNull => Ok None
  | _ => (Some ∘ from_millis) <$> value_u64 v
  end.
Definition deserialize_duration_from_seconds (v : Json) : result string Duration := from_secs <$> value_u64 v.

Definition serialize_duration_to_ms (d : Duration) : Json := JNumber (u64_wrap d).
Definition serialize_duration_to_ms_opt (d : option Duration) : Json :=
  match d with Some d => JNumber (u64_wrap d) | None => JNull end.
Definition serialize_duration_to_seconds (d : Duration) : Json := JNumber (d / 1000)%Z.

(** [str::split(',')]. *)
Fixpoint split_commas (s : string) : list string :=
  match s with
  | EmptyString => [EmptyString]
  | String c s =>
      match split_commas s with
      | word :: words =>
          if decide (c = Ascii.ascii_of_nat 44) then EmptyString :: word :: words else String c word :: words
      | [] => []
      end
  end.

(** [str::trim], of the white space of ASCII. *)
Definition is_space (c : Ascii.ascii) : bool :=
  let n := Ascii.nat_of_ascii c in ((n =? 32) || (9 <=? n) && (n <=? 13))%nat.
Fixpoint trim_start (l : list Ascii.ascii) : list Ascii.ascii :=
  match l with
  | c :: l' => if is_space c then trim_start l' else l
  | [] => []
  end.
Definition trim (s : string) : string :=
  Stdlib.Strings.String.string_of_list_ascii (rev (trim_start (rev (trim_start (chars s))))).

(** [UrlsVisitor::visit_str] and [visit_seq]. *)
Definition visit_str (value : string) : result string (list Url) :=
  collect_result url_parse (filter (λ s, s ≠ "") (trim <$> split_commas value)).
Definition visit_seq (seq : list Json) : result string (list Url) :=
  foldM (λ urls v, value ← value_string v; url ← url_parse value; Ok (urls ++ [url])) seq [].
Definition deserialize_urls (v : Json) : result string (list Url) :=
  match v with
  | JString s => visit_str s
  | JArray l => visit_seq l
  | _ => Err "invalid type: expected a string or a sequence of strings"
  end.

(** [StartBlockVisitor], through [deserialize_any]. *)
Definition deserialize_start_block (v : Json) : result string InitialStartBlock :=
  match v with
  | JNumber n => if decide (is_i64 n) then Ok (InitialStartBlock_visit_i64 n) else Err "invalid type: integer"
  | JString s => InitialStartBlock_visit_str s
  | _ => Err "invalid type"
  end.

(** A field of a derived deserialiser: its value in the table, or its default. *)
Definition field {A} (key : string) (read : Json → result string A) (dflt : option A) (t : bmap Json)
    : result ConfigError A :=
  match bmap_get key t with
  | Some v => map_err (InvalidField key) (read v)
  | None => ok_or dflt (MissingField key)
  end.

Definition config_error_text (e : ConfigError) : string :=
  match e with
  | SourceError e => e
  | MissingField key => "missing field `" +:+ key +:+ "`"
  | InvalidField key e => key +:+ ": " +:+ e
  end.

(** A section is a table. *)
Definition section {A} (read : bmap Json → result ConfigError A) (v : Json) : result string A :=
  match v with
  | JObject t => map_err config_error_text (read t)
  | _ => Err "invalid type: expected a map"
  end.

Definition optional {A} (read : Json → result string A) (v : Json) : result string (option A) :=
  match v with JNull => Ok None | _ => Some <$> read v end.
End Helpers.

(** ** Sections *)

Section Sections.
Context `{ConfigValues}.

(** [rpc_retry.rs] *)
Record RpcRetryConfig := mkRpcRetry { rpc_max_retry : Z; rpc_backoff_ms : Z; compute_units_per_second : Z }.
Definition RpcRetryConfig_default : RpcRetryConfig :=
  {| rpc_max_retry := 10; rpc_backoff_ms := 1000; compute_units_per_second := 100 |}.
Definition read_rpc_retry (t : bmap Json) : result ConfigError RpcRetryConfig :=
  let d := RpcRetryConfig_default in
  r ← field "max_retry" value_u32 (Some (rpc_max_retry d)) t;
  b ← field "backoff_ms" value_u64 (Some (rpc_backoff_ms d)) t;
  c ← field "compute_units_per_second" value_u64 (Some (compute_units_per_second d)) t;
  Ok (mkRpcRetry r b c).

(** [http_retry.rs] *)
Definition read_jitter (v : Json) : result string JitterSetting :=
  s ← value_string v;
  if decide (s = "none") then Ok JitterNone
  else if decide (s = "full") then Ok JitterFull
  else Err "unknown variant".
Definition jitter_text (j : JitterSetting) : string := match j with JitterNone => "none" | JitterFull => "full" end.

Definition read_http_retry (t : bmap Json) : result ConfigError HttpRetryConfig :=
  let d := HttpRetryConfig_default in
  r ← field "max_retry" value_u32 (Some (max_retry d)) t;
  b ← field "base_for_backoff" value_u32 (Some (base_for_backoff d)) t;
  i ← field "initial_backoff_ms" deserialize_duration_from_ms (Some (initial_backoff_ms d)) t;
  m ← field "max_backoff_secs" deserialize_duration_from_seconds (Some (max_backoff_secs d)) t;
  j ← field "jitter" read_jitter (Some (jitter d)) t;
  Ok (mkRetry r b i m j).
Definition write_http_retry (c : HttpRetryConfig) : bmap Json :=
  bmap_of_list [("max_retry", JNumber (max_retry c)); ("base_for_backoff", JNumber (base_for_backoff c));
    ("initial_backoff_ms", serialize_duration_to_ms (initial_backoff_ms c));
    ("max_backoff_secs", serialize_duration_to_seconds (max_backoff_secs c));
    ("jitter", JString (jitter_text (jitter c)))].

(** [http_base.rs] *)
Definition read_http_base (t : bmap Json) : result ConfigError BaseHttpClientConfig :=
  let d := BaseHttpClientConfig_default in
  n ← field "max_idle_per_host" value_usize (Some (max_idle_per_host d)) t;
  i ← field "idle_timeout" deserialize_duration_from_seconds (Some (idle_timeout d)) t;
  c ← field "connect_timeout" deserialize_duration_from_seconds (Some (connect_timeout d)) t;
  Ok (mkBaseHttp n i c).

(** [rhai.rs] *)
Record RhaiConfig := mkRhai {
  max_operations : Z;
  max_call_levels : Z;
  max_string_size : Z;
  max_array_size : Z;
  execution_timeout : Duration
}.
Definition RhaiConfig_default : RhaiConfig :=
  {| max_operations := 100000; max_call_levels := 10; max_string_size := 8192; max_array_size := 1000;
     execution_timeout := 5000 |}.
Definition read_rhai (t : bmap Json) : result ConfigError RhaiConfig :=
  let d := RhaiConfig_default in
  o ← field "max_operations" value_u64 (Some (max_operations d)) t;
  l ← field "max_call_levels" value_usize (Some (max_call_levels d)) t;
  s ← field "max_string_size" value_usize (Some (max_string_size d)) t;
  a ← field "max_array_size" value_usize (Some (max_array_size d)) t;
  e ← field "execution_timeout" deserialize_duration_from_ms (Some (execution_timeout d)) t;
  Ok (mkRhai o l s a e).

(** [outbox.rs] *)
Definition read_outbox (t : bmap Json) : result ConfigError OutboxConfig :=
  let d := OutboxConfig_default in
  b ← field "batch_size" value_i64 (Some (ob_batch_size d)) t;
  c ← field "concurrency" value_usize (Some (Z.of_nat (ob_concurrency d))) t;
  p ← field "poll_interval_ms" value_u64 (Some (ob_poll_interval_ms d)) t;
  Ok (mkOutboxConfig b (Z.to_nat c) p).

(** [server.rs]: the derived default has an empty address and no key; the defaults of
    the fields, the key of the environment among them, are those of a section that is
    present. *)
Record ServerConfig := mkServer { listen_address : string; api_key : option string }.
Definition ServerConfig_default : ServerConfig := {| listen_address := ""; api_key := None |}.
Definition default_api_server_listen_address : string := "0.0.0.0:8080".
Definition default_api_key_from_env (env : string → option string) : option string := env "ARGUS_API_KEY".
Definition read_server (env : string → option string) (t : bmap Json) : result ConfigError ServerConfig :=
  a ← field "listen_address" value_string (Some default_api_server_listen_address) t;
  k ← field "api_key" (optional value_string) (Some (default_api_key_from_env env)) t;
  Ok (mkServer a k).

(** ** The application ([app_config.rs]) *)

(** The configuration the services share ([Models.AppConfig], whose API key is that of
    the server) and the rest of the struct. *)
Record AppSettings := mkSettings {
  database_url : string;
  rpc_urls : list Url;
  services : AppConfig;
  monitor_config_path : string;
  action_config_path : string;
  rpc_retry_config : RpcRetryConfig;
  http_retry_config : HttpRetryConfig;
  http_base_config : BaseHttpClientConfig;
  shutdown_timeout : Duration;
  rhai : RhaiConfig;
  notification_channel_capacity : Z;
  abi_config_path : string;
  aggregation_check_interval_secs : Duration;
  server : ServerConfig;
  outbox : OutboxConfig
}.

Definition default_shutdown_timeout : Duration := from_secs 30.
Definition default_notification_channel_capacity : Z := 1024.
Definition default_aggregation_check_interval_secs : Duration := from_secs 5.
Definition default_concurrency : Z := 8.
Definition default_log_chunk_size : Z := 2000.

(** The derived deserialiser; the two paths are not read. *)
Definition read_app_config (env : string → option string) (t : bmap Json) : result ConfigError AppSettings :=
  database_url ← field "database_url" value_string None t;
  rpc_urls ← field "rpc_urls" deserialize_urls None t;
  network_id ← field "network_id" value_string None t;
  rpc_retry ← field "rpc_retry_config" (section read_rpc_retry) (Some RpcRetryConfig_default) t;
  http_retry ← field "http_retry_config" (section read_http_retry) (Some HttpRetryConfig_default) t;
  http_base ← field "http_base_config" (section read_http_base) (Some BaseHttpClientConfig_default) t;
  block_chunk_size ← field "block_chunk_size" value_u64 None t;
  log_chunk_size ← field "log_chunk_size" value_u64 (Some default_log_chunk_size) t;
  concurrency ← field "concurrency" value_u64 (Some default_concurrency) t;
  polling_interval ← field "polling_interval_ms" deserialize_duration_from_ms None t;
  block_time ← field "expected_block_time_ms" deserialize_duration_from_ms_opt (Some None) t;
  confirmation_blocks ← field "confirmation_blocks" value_u64 None t;
  shutdown_timeout ← field "shutdown_timeout" deserialize_duration_from_seconds (Some default_shutdown_timeout) t;
  rhai ← field "rhai" (section read_rhai) (Some RhaiConfig_default) t;
  capacity ← field "notification_channel_capacity" value_u32 (Some default_notification_channel_capacity) t;
  abi_path ← field "abi_config_path" value_string None t;
  aggregation ← field "aggregation_check_interval_secs" deserialize_duration_from_seconds (Some default_aggregation_check_interval_secs) t;
  start ← field "initial_start_block" deserialize_start_block (Some InitialStartBlock_default) t;
  server ← field "server" (section (read_server env)) (Some ServerConfig_default) t;
  outbox ← field "outbox" (section read_outbox) (Some OutboxConfig_default) t;
  let services := mkAppConfig network_id block_chunk_size log_chunk_size concurrency polling_interval block_time
                    confirmation_blocks start (api_key server) in
  Ok (mkSettings database_url rpc_urls services "" "" rpc_retry http_retry http_base shutdown_timeout rhai capacity
        abi_path aggregation server outbox).

(** [Path::join] with a relative name. *)
Definition path_join (dir name : string) : string :=
  if decide (dir = "") then name
  else if ends_with "/" dir then dir +:+ name
  else dir +:+ "/" +:+ name.

Definition with_paths (dir : string) (c : AppSettings) : AppSettings :=
  mkSettings (database_url c) (rpc_urls c) (services c) (path_join dir "monitors.yaml") (path_join dir "actions.yaml")
    (rpc_retry_config c) (http_retry_config c) (http_base_config c) (shutdown_timeout c) (rhai c)
    (notification_channel_capacity c) (abi_config_path c) (aggregation_check_interval_secs c) (server c) (outbox c).

(** [AppConfig::new]; [build] merges the file [dir/app.yaml] and the environment. *)
Definition AppConfig_new (env : string → option string) (build : string → result string Json) (config_dir : option string)
    : result ConfigError AppSettings :=
  let config_dir_str := default "configs" config_dir in
  s ← map_err SourceError (build (config_dir_str +:+ "/app.yaml"));
  config ← match s with JObject t => read_app_config env t | _ => Err (SourceError "invalid type: expected a map") end;
  Ok (with_paths config_dir_str config).
End Sections.

(** ** Theorems *)

Definition required_keys : list string :=
  ["database_url"; "rpc_urls"; "network_id"; "block_chunk_size"; "polling_interval_ms"; "confirmation_blocks";
   "abi_config_path"].
Definition known_keys : list string :=
  required_keys ++
  ["rpc_retry_config"; "http_retry_config"; "http_base_config"; "log_chunk_size"; "concurrency";
   "expected_block_time_ms"; "shutdown_timeout"; "rhai"; "notification_channel_capacity";
   "aggregation_check_interval_secs"; "initial_start_block"; "server"; "outbox"].

(** The ranges of the values the services compute with. *)
Record config_ranges (c : AppConfig) : Prop := {
  range_block_chunk : is_u64 (cfg_block_chunk_size c);
  range_log_chunk : is_u64 (cfg_log_chunk_size c);
  range_concurrency : is_u64 (cfg_concurrency c);
  range_polling : is_u64 (cfg_polling_interval_ms c);
  range_block_time : ∀ d, cfg_expected_block_time_ms c = Some d → is_u64 d;
  range_confirmations : is_u64 (cfg_confirmation_blocks c);
  range_start :
    match cfg_initial_start_block c with
    | Absolute n => (0 < n ≤ i64_max)%Z
    | Offset z => (i64_min ≤ z < 0)%Z
    | Latest => True
    end
}.

Section ConfigTheorems.
Context `{ConfigValues} `{!ConfigValuesLaws}.

Lemma field_insert {A} key (read : Json → result string A) dflt k v (t : bmap Json) :
  k ≠ key → field key read dflt (bmap_insert k v t) = field key read dflt t.
Proof. intros Hk. unfold field. by rewrite bmap_get_insert_ne. Qed.

Lemma field_Ok {A} key (read : Json → result string A) dflt t a :
  field key read dflt t = Ok a ↔
  match bmap_get key t with Some v => read v = Ok a | None => dflt = Some a end.
Proof. unfold field. destruct (bmap_get key t); [apply map_err_Ok|apply ok_or_Ok]. Qed.

Lemma field_required {A} key (read : Json → result string A) t a :
  field key read None t = Ok a → is_Some (bmap_get key t).
Proof. rewrite field_Ok. by destruct (bmap_get key t). Qed.

(** What holds of the values read and of the default holds of the field. *)
Lemma field_sat {A} (P : A → Prop) key (read : Json → result string A) dflt t a :
  (∀ v a, read v = Ok a → P a) → (∀ a, dflt = Some a → P a) → field key read dflt t = Ok a → P a.
Proof. rewrite field_Ok. intros Hr Hd. destruct (bmap_get key t); [apply Hr|apply Hd]. Qed.

Lemma duration_ms_range v d : deserialize_duration_from_ms v = Ok d → is_u64 d.
Proof.
  unfold deserialize_duration_from_ms. destruct (value_u64 v) as [n|] eqn:E; [|done].
  intros [= <-]. by apply (value_u64_range v).
Qed.

Lemma duration_ms_opt_range v o : deserialize_duration_from_ms_opt v = Ok o → ∀ d, o = Some d → is_u64 d.
Proof.
  unfold deserialize_duration_from_ms_opt. intros Ho d ->. destruct v; [done|..];
    destruct (value_u64 _) as [n|] eqn:E; try discriminate Ho; injection Ho as <-; by eapply value_u64_range.
Qed.

Lemma start_block_range v s :
  deserialize_start_block v = Ok s →
  match s with Absolute n => (0 < n ≤ i64_max)%Z | Offset z => (i64_min ≤ z < 0)%Z | Latest => True end.
Proof.
  destruct v; cbn; try done.
  - case_decide as Hz; [|done]. intros [= <-]. unfold InitialStartBlock_visit_i64.
    destruct (Z.eqb_spec z 0); [unfold_width; cbn; lia|]. destruct (Z.gtb_spec z 0); unfold_width; lia.
  - unfold InitialStartBlock_visit_str. destruct (eq_ignore_ascii_case _ _); [|done]. by intros [= <-].
Qed.

(** The key of the server that is configured. *)
Lemma server_key env v s :
  section (read_server env) v = Ok s →
  ∃ t, v = JObject t ∧
    match bmap_get "api_key" t with
    | None => api_key s = env "ARGUS_API_KEY"
    | Some JNull => api_key s = None
    | Some k => ∃ key, value_string k = Ok key ∧ api_key s = Some key
    end.
Proof.
  destruct v as [| | | | |t]; try done. intros Hs. exists t. split; [done|].
  cbn in Hs. apply map_err_Ok in Hs. unfold read_server in Hs.
  apply bind_Ok in Hs as (a & _ & (k & Hk & [= <-])%bind_Ok). cbn.
  apply field_Ok in Hk. destruct (bmap_get "api_key" t) as [v|]; [|by injection Hk as <-].
  destruct v; cbn in Hk; [by injection Hk as <-|..];
    destruct (value_string _) as [key|]; try discriminate Hk; injection Hk as <-; by exists key.
Qed.

(** A key the configuration does not have is ignored. *)
Lemma unknown_key_ignored env k v t :
  k ∉ known_keys → read_app_config env (bmap_insert k v t) = read_app_config env t.
Proof.
  intros Hk. unfold read_app_config.
  repeat rewrite field_insert by (intros ->; apply Hk, (bool_decide_unpack _); vm_compute; exact I).
  reflexivity.
Qed.

(** A goal about the value of a field, from what its reader and its default satisfy. *)
Ltac by_field :=
  match goal with
  | Hf : field _ _ _ _ = Ok ?x |- context [?x] =>
      pattern x; refine (field_sat _ _ _ _ _ _ _ _ Hf); cbn beta;
      [first [exact value_u64_range|exact duration_ms_range|exact duration_ms_opt_range|exact start_block_range]
      |intros ? [= <-]; by unfold_width]
  end.

Lemma app_config_read env t c :
  read_app_config env t = Ok c →
  (∀ k, k ∈ required_keys → is_Some (bmap_get k t)) ∧ config_ranges (services c) ∧
  cfg_api_key (services c) = api_key (server c) ∧
  match bmap_get "server" t with
  | Some v => section (read_server env) v = Ok (server c)
  | None => server c = ServerConfig_default
  end.
Proof.
  intros Hc. unfold read_app_config in Hc.
  repeat match type of Hc with mbind _ _ = _ => apply bind_Ok in Hc as (? & ? & Hc) end.
  injection Hc as <-. cbn [services server cfg_api_key]. split_and!.
  - intros k Hk. unfold required_keys in Hk. rewrite !elem_of_cons, elem_of_nil in Hk.
    destruct_or! Hk; try done; subst k; by eapply field_required.
  - split; cbn -[is_u64]; by_field.
  - done.
  - match goal with Hs : field "server" _ _ _ = _ |- _ => apply field_Ok in Hs; destruct (bmap_get "server" t); [done|] end.
    congruence.
Qed.


Lemma field_read {A} key (read : Json → result string A) dflt (t : bmap Json) v a :
  bmap_get key t = Some v → read v = Ok a → field key read dflt t = Ok a.
Proof. intros Hv Ha. apply field_Ok. by rewrite Hv. Qed.

Lemma seconds_read d :
  is_u64 (d / 1000) → deserialize_duration_from_seconds (serialize_duration_to_seconds d) = Ok (d / 1000 * 1000)%Z.
Proof. intros Hd. unfold deserialize_duration_from_seconds, serialize_duration_to_seconds. by rewrite value_u64_number. Qed.

Lemma millis_read d : is_u64 d → deserialize_duration_from_ms (serialize_duration_to_ms d) = Ok d.
Proof.
  intros Hd. unfold deserialize_duration_from_ms, serialize_duration_to_ms, u64_wrap. unfold_width.
  rewrite Z.mod_small by lia. by rewrite value_u64_number by (unfold_width; lia).
Qed.

Lemma jitter_read j : read_jitter (JString (jitter_text j)) = Ok j.
Proof. unfold read_jitter. rewrite value_string_text. by destruct j. Qed.

(** Writing a retry policy and reading it back gives the same policy with its longest
    backoff rounded down to a whole second. *)
Theorem http_retry_roundtrip c :
  (0 ≤ max_retry c ≤ u32_max)%Z → (0 ≤ base_for_backoff c ≤ u32_max)%Z →
  is_u64 (initial_backoff_ms c) → is_u64 (max_backoff_secs c / 1000) →
  read_http_retry (write_http_retry c) =
    Ok (mkRetry (max_retry c) (base_for_backoff c) (initial_backoff_ms c) (max_backoff_secs c / 1000 * 1000) (jitter c)).
Proof.
  intros Hr Hb Hi Hm. unfold read_http_retry.
  rewrite (field_read "max_retry" _ _ (write_http_retry c) (JNumber (max_retry c)) (max_retry c) eq_refl) by by apply value_u32_number.
  cbn [mbind result_bind].
  rewrite (field_read "base_for_backoff" _ _ (write_http_retry c) (JNumber (base_for_backoff c)) (base_for_backoff c) eq_refl)
    by by apply value_u32_number.
  cbn [mbind result_bind].
  rewrite (field_read "initial_backoff_ms" _ _ (write_http_retry c) _ _ eq_refl (millis_read _ Hi)). cbn [mbind result_bind].
  rewrite (field_read "max_backoff_secs" _ _ (write_http_retry c) _ _ eq_refl (seconds_read _ Hm)). cbn [mbind result_bind].
  by rewrite (field_read "jitter" _ _ (write_http_retry c) _ _ eq_refl (jitter_read _)).
Qed.

(** A policy that was read has whole seconds, so it is written and read back unchanged. *)
Lemma http_retry_read_whole t c : read_http_retry t = Ok c → (max_backoff_secs c / 1000 * 1000 = max_backoff_secs c)%Z.
Proof.
  intros Hc. unfold read_http_retry in Hc.
  repeat match type of Hc with mbind _ _ = _ => apply bind_Ok in Hc as (? & ? & Hc) end.
  injection Hc as <-. cbn [max_backoff_secs].
  match goal with Hf : field "max_backoff_secs" _ _ _ = Ok ?x |- _ => pattern x; refine (field_sat _ _ _ _ _ _ _ _ Hf) end.
  - intros v d. unfold deserialize_duration_from_seconds. destruct (value_u64 v) as [n|]; [|done].
    intros [= <-]. unfold from_secs. by rewrite Z.div_mul.
  - by intros ? [= <-].
Qed.
End ConfigTheorems.

(** ** A concrete reader *)

Module ConfigDemo.
Definition number_in (lo hi : Z) (v : Json) : result string Z :=
  match v with
  | JNumber n => if decide (lo ≤ n ≤ hi)%Z then Ok n else Err "invalid value"
  | _ => Err "invalid type"
  end.
#[export] Instance demo_config_values : ConfigValues := {|
  value_u64 := number_in 0 u64_max; value_u32 := number_in 0 u32_max;
  value_i64 := number_in i64_min i64_max; value_usize := number_in 0 u64_max;
  value_string v := match v with JString s => Ok s | _ => Err "invalid type" end;
  url_parse s := if starts_with "http" s then Ok s else Err "relative URL without a base"
|}.

Lemma number_in_range lo hi v n : number_in lo hi v = Ok n → (lo ≤ n ≤ hi)%Z.
Proof. destruct v; cbn; try done. by case_decide; intros [= <-]. Qed.

#[export] Instance demo_config_laws : ConfigValuesLaws.
Proof.
  split; cbn -[u64_max u32_max i64_min i64_max]; try apply number_in_range.
  - intros n Hn. by rewrite decide_True.
  - intros n Hn. by rewrite decide_True.
  - done.
Qed.

Definition minimal : list (string * Json) :=
  [("database_url", JString "sqlite:data/monitor.db"); ("rpc_urls", JString "http://a, http://b,");
   ("network_id", JString "net"); ("block_chunk_size", JNumber 100); ("polling_interval_ms", JNumber 10000);
   ("confirmation_blocks", JNumber 12); ("abi_config_path", JString "abis/")].
Definition file (extra : list (string * Json)) (path : string) : result string Json :=
  if decide (path = "configs/app.yaml") then Ok (JObject (bmap_of_list (minimal ++ extra))) else Err "not found".
Definition env (key : string) : option string := if decide (key = "ARGUS_API_KEY") then Some "secret" else None.
Definition loaded (extra : list (string * Json)) : option AppSettings := result_ok (AppConfig_new env (file extra) None).
End ConfigDemo.
Import ConfigDemo.


Lemma http_retry_roundtrip_witness :
  read_http_retry (write_http_retry (mkRetry 5 2 200 1500 JitterNone)) = Ok (mkRetry 5 2 200 1000 JitterNone).
Proof. apply (http_retry_roundtrip (mkRetry 5 2 200 1500 JitterNone)); split; vm_compute; discriminate. Defined.

(** Without a [server] section the key of the environment is not read and the API does not
    start; nor is it read when the section says [api_key: null]. *)
Lemma environment_key_not_read :
  (cfg_api_key ∘ services <$> loaded []) = Some None ∧
  (listen_address ∘ server <$> loaded []) = Some "" ∧
  (cfg_api_key ∘ services <$> loaded [("server", JObject [("api_key", JNull)])]) = Some None.
Proof. vm_compute. by split_and!. Qed.

(** The keys [retry_config], [shutdown_timeout_secs] and [http_retry_config.max_retries] of
    the sample file and of the guide are not read. *)
Lemma sample_keys_ignored :
  loaded [("retry_config", JObject [("max_retry", JNumber 3)]); ("shutdown_timeout_secs", JNumber 60);
          ("http_retry_config", JObject [("max_retries", JNumber 9)])] = loaded [].
Proof. vm_compute. reflexivity. Qed.
