(* ===== verification/Engine.v ===== *)
(** * The script engine and the RPC client as Argus configures them ([argus-rhai/src/create_engine.rs], [proxies.rs], [argus-providers/src/rpc.rs])

    The limits the engine is given, the language features it is denied, and the properties
    the proxies [log] and [decoded_call] have in a script.  The engine itself is the class
    [RhaiEngine]; this file says what Argus tells it, and compares it with the fields the
    validator accepts and with the configuration.  In the same way, the transports and the
    retry policy the RPC client is built from. *)
From S2P Require Import Prelude Models Abi Conversions RhaiScript Config.

Section Engine.
Context `{AlloyPrimitives} `{DynAbi}.

(** What a getter returns to the script. *)
Inductive Property :=
| PString (s : string)
| PU64 (n : Z)
| PParams (p : ParamsProxy).

(** The registrations of [register_proxies]. *)
Record Proxies := mkProxies {
  log_getters : list (string * (LogProxy → Property));
  call_getters : list (string * (CallProxy → Property));
  params_indexer : option (ParamsProxy → string → Dynamic)
}.

Definition register_proxies : Proxies := {|
  log_getters :=
    [("name", λ p, PString (log_get_name p));
     ("address", λ p, PString (log_get_address p));
     ("log_index", λ p, PU64 (log_get_log_index p));
     ("params", λ p, PParams (log_get_params p))];
  call_getters :=
    [("name", λ p, PString (call_get_name p));
     ("params", λ p, PParams (call_get_params p))];
  params_indexer := Some index_get
|}.

(** What the engine is told. *)
Record EngineSettings := mkEngine {
  en_max_operations : Z;
  en_max_call_levels : Z;
  en_max_string_size : Z;
  en_max_array_size : Z;
  en_disabled_symbols : list string;
  en_packages : list string;
  en_proxies : Proxies
}.

Definition DANGEROUS_SYMBOLS : list string :=
  ["eval"; "import"; "export"; "print"; "debug"; "File"; "file"; "http"; "net"; "system"; "process"; "thread"; "spawn"].

Definition create_engine (rhai_config : RhaiConfig) : EngineSettings := {|
  en_max_operations := max_operations rhai_config;
  en_max_call_levels := max_call_levels rhai_config;
  en_max_string_size := max_string_size rhai_config;
  en_max_array_size := max_array_size rhai_config;
  en_disabled_symbols := DANGEROUS_SYMBOLS;
  en_packages := ["BigIntPackage"; "EvmPackage"];
  en_proxies := register_proxies
|}.

(** A property of a variable of a scope: [None] is the engine's error for an unknown one. *)
Definition get_property (proxies : Proxies) (v : ScopeValue) (name : string) : option Property :=
  match v with
  | SLog p => (λ g, g.2 p) <$> find (λ g, bool_decide (g.1 = name)) (log_getters proxies)
  | SCall p => (λ g, g.2 p) <$> find (λ g, bool_decide (g.1 = name)) (call_getters proxies)
  | SDyn _ => None
  end.

(** [execution_timeout] is read from the configuration and changes nothing: no limit on the
    time of a script is enforced. *)
Lemma timeout_not_enforced c timeout :
  create_engine (mkRhai (max_operations c) (max_call_levels c) (max_string_size c) (max_array_size c) timeout) = create_engine c.
Proof. done. Qed.

Lemma prefix_inj (p n : string) (names : list string) : p +:+ n ∈ ((λ s, p +:+ s) <$> names) ↔ n ∈ names.
Proof.
  rewrite list_elem_of_fmap. split; [|by intros Hn; exists n]. intros (n' & E & Hn).
  assert (n = n') as ->; [|done]. revert E. clear. induction p as [|c p IH]; cbn; [done|]. by intros [= E%IH].
Qed.

(** Every field of [decoded_call] the validator accepts is there when the script runs. *)
Lemma call_fields_have_getters p name :
  "decoded_call." +:+ name ∈ get_valid_decoded_call_rhai_paths → is_Some (get_property register_proxies (SCall p) name).
Proof.
  unfold get_valid_decoded_call_rhai_paths. rewrite elem_of_union, elem_of_singleton, elem_of_list_to_set, prefix_inj.
  intros [E|Hin]; [discriminate E|]. rewrite !elem_of_cons in Hin.
  destruct Hin as [->|[->|[]%elem_of_nil]]; by eexists.
Qed.

(** Of the fields of [log] it accepts, three are unknown to the engine: a script that reads one
    is accepted and fails on every log. *)
Lemma log_fields_without_getter p name :
  "log." +:+ name ∈ get_valid_log_rhai_paths ∧ get_property register_proxies (SLog p) name = None ↔
  name ∈ ["block_number"; "transaction_hash"; "transaction_index"].
Proof.
  unfold get_valid_log_rhai_paths. rewrite elem_of_list_to_set, prefix_inj. unfold log_keys.
  rewrite !elem_of_cons, !elem_of_nil. split.
  - intros [Hin Hn]. destruct Hin as [->|[->|[->|[->|[->|[->|[]]]]]]]; try discriminate Hn; tauto.
  - intros [->|[->|[->|[]]]]; (split; [tauto|reflexivity]).
Qed.

(** Without data the proxies have their defaults. *)
Lemma empty_proxies index :
  get_property register_proxies (SLog None) "name" = Some (PString "") ∧
  get_property register_proxies (SLog None) "log_index" = Some (PU64 0) ∧
  get_property register_proxies (SCall None) "name" = Some (PString "") ∧
  index_get (log_get_params None) index = DUnit ∧ index_get (call_get_params None) index = DUnit.
Proof. done. Qed.
End Engine.

(** ** The RPC client ([create_provider]) *)

Inductive ProviderError :=
| CreationError (e : string).

Definition provider_error_text (e : ProviderError) : string :=
  match e with CreationError e => "Provider creation failed: " +:+ e end.

(** The transports, the number of them the fallback layer queries at a time, and the
    arguments of the retry layer. *)
Record RpcClient := mkRpcClient {
  rpc_transports : list Url;
  rpc_active_transport_count : nat;
  rpc_retry_layer : RpcRetryConfig
}.

Definition create_provider (urls : list Url) (retry_config : RpcRetryConfig) : result ProviderError RpcClient :=
  match urls with
  | [] => Err (CreationError "RPC URL list cannot be empty")
  | _ => Ok (mkRpcClient urls (length urls) retry_config)
  end.

(** A client is made exactly when there is a URL; it has a transport for each. *)
Lemma create_provider_Ok urls retry c :
  create_provider urls retry = Ok c ↔ urls ≠ [] ∧ c = mkRpcClient urls (length urls) retry.
Proof. destruct urls; cbn; [by split; [|intros []]|]. by split; [intros [= <-]|intros [_ ->]]. Qed.

(** [NonZeroUsize::new(urls.len()).expect(..)] does not panic. *)
Lemma active_transports_nonzero urls retry c : create_provider urls retry = Ok c → (0 < rpc_active_transport_count c)%nat.
Proof. intros [Hu ->]%create_provider_Ok. destruct urls; cbn; [done|lia]. Qed.

(** Every endpoint is active at once: the ones after the first are not kept for when it fails. *)
Lemma all_endpoints_active urls retry c :
  create_provider urls retry = Ok c → rpc_active_transport_count c = length (rpc_transports c).
Proof. by intros [_ ->]%create_provider_Ok. Qed.

(** The reader of the configuration accepts the empty list and the list of commas. *)
Lemma no_url_is_read `{ConfigValues} retry :
  deserialize_urls (JArray []) = Ok [] ∧ deserialize_urls (JString ", ,") = Ok [] ∧ is_ok (create_provider [] retry) = false.
Proof. by vm_compute. Qed.
