(* ===== verification/Filters.v ===== *)
(** * The filters of the template engine ([crates/argus-dispatch/src/template/filters.rs])

    [sum], [avg] and the scaling filters ([decimals], [ether], [gwei], [usdc], [usdt],
    [wbtc]).  The decimal numbers are those of [rust_decimal], a third-party crate: an
    interface of operations, with the laws its documentation states (a mantissa of 96
    bits, at most 28 decimals, operators that panic on overflow).  A panic is an error
    of its own. *)
From S2P Require Import Prelude Models Interfaces Store.

(** ** Decimal numbers: [mantissa * 10 ^ - scale] *)

Class DecimalOps := {
  Decimal : Type;
  mantissa : Decimal → Z;
  scale : Decimal → Z;
  dec_zero : Decimal;
  dec_from : Z → Decimal;
  dec_from_str : string → result string Decimal;
  dec_to_string : Decimal → string;
  dec_normalize : Decimal → Decimal;
  (** The operators: [None] is a panic. *)
  dec_add : Decimal → Decimal → option Decimal;
  dec_div : Decimal → Decimal → option Decimal;
  dec_powi : Decimal → Z → option Decimal
}.

(** The value of [d] is [m * 10 ^ - s]. *)
Definition value_is `{DecimalOps} (d : Decimal) (m s : Z) : Prop :=
  (mantissa d * 10 ^ s = m * 10 ^ scale d)%Z.

Definition fits_mantissa (m : Z) : Prop := (Z.abs m < 2 ^ 96)%Z.
#[export] Instance fits_mantissa_dec m : Decision (fits_mantissa m).
Proof. unfold fits_mantissa. apply _. Defined.
Definition max_scale : Z := 28.

Definition is_integer `{DecimalOps} (d : Decimal) (z : Z) : Prop := mantissa d = z ∧ scale d = 0%Z.

Class DecimalLaws `{DecimalOps} := {
  zero_is : is_integer dec_zero 0;
  from_is z : is_i64 z → is_integer (dec_from z) z;
  from_str_integer z :
    if decide (fits_mantissa z) then ∃ d, dec_from_str (pretty z) = Ok d ∧ is_integer d z
    else ∃ e, dec_from_str (pretty z) = Err e;
  add_integers a b x y : is_integer a x → is_integer b y →
    if decide (fits_mantissa (x + y)) then ∃ c, dec_add a b = Some c ∧ is_integer c (x + y)
    else dec_add a b = None;
  powi_ten d n : is_integer d 10 → (0 ≤ n)%Z →
    if decide (n ≤ max_scale)%Z then ∃ c, dec_powi d n = Some c ∧ is_integer c (10 ^ n)
    else dec_powi d n = None;
  (** A quotient that can be represented is exact. *)
  div_exact a b x y m s : is_integer a x → is_integer b y → (y ≠ 0)%Z →
    fits_mantissa m → (0 ≤ s ≤ max_scale)%Z → (x * 10 ^ s = m * y)%Z →
    ∃ c, dec_div a b = Some c ∧ value_is c m s ∧ (0 ≤ scale c)%Z;
  (** The same value without trailing zeros. *)
  normalize_is d m s : value_is d m s → (0 ≤ scale d)%Z →
    value_is (dec_normalize d) m s ∧
    (0 ≤ scale (dec_normalize d))%Z ∧
    (scale (dec_normalize d) = 0%Z ∨ (mantissa (dec_normalize d) mod 10 ≠ 0)%Z)
}.

(** A value of the engine: whether it is a sequence, its items, its text. *)
Class TemplateValues := {
  Value : Type;
  seq_items : Value → option (list Value);
  value_to_string : Value → string
}.

Inductive FilterError :=
| InvalidOperation (message : string)
| FilterPanic.

Section Filters.
Context `{DecimalOps} `{TemplateValues}.

Definition parse_item (name : string) (value : Value) : result FilterError Decimal :=
  let s := value_to_string value in
  map_err (λ e, InvalidOperation ("Failed to parse value for " +:+ name +:+ ": " +:+ s +:+ " (" +:+ e +:+ ")"))
    (dec_from_str s).

Definition sequence (name : string) (values : Value) : result FilterError (list Value) :=
  ok_or (seq_items values) (InvalidOperation (name +:+ " filter can only be applied to a sequence.")).

Definition sum (values : Value) : result FilterError string :=
  items ← sequence "sum" values;
  total ← foldM (λ total value,
    num ← parse_item "sum" value;
    ok_or (dec_add total num) FilterPanic) items dec_zero;
  Ok (dec_to_string total).

Definition avg (values : Value) : result FilterError string :=
  items ← sequence "avg" values;
  '(total, count) ← foldM (λ acc value,
    num ← parse_item "avg" value;
    total ← ok_or (dec_add acc.1 num) FilterPanic;
    Ok (total, acc.2 + 1)%Z) items (dec_zero, 0%Z);
  if (count =? 0)%Z then Ok (dec_to_string dec_zero)
  else dec_to_string <$> ok_or (dec_div total (dec_from count)) FilterPanic.

Definition scale_by_decimals (amount : Decimal) (decimals : Z) : result FilterError string :=
  scaling_factor ← ok_or (dec_powi (dec_from 10) decimals) FilterPanic;
  scaled_amount ← ok_or (dec_div amount scaling_factor) FilterPanic;
  Ok (dec_to_string (dec_normalize scaled_amount)).

Definition parse_amount (value : string) : result FilterError Decimal :=
  map_err (λ e, InvalidOperation ("Failed to parse amount: " +:+ e)) (dec_from_str value).

Definition decimals (value : string) (decimals : Z) : result FilterError string :=
  amount ← parse_amount value;
  scale_by_decimals amount decimals.

Definition ether (value : string) : result FilterError string :=
  amount ← parse_amount value;
  scale_by_decimals amount 18.

Definition gwei (value : string) : result FilterError string :=
  amount ← parse_amount value;
  scale_by_decimals amount 9.

Definition usdc (value : string) : result FilterError string :=
  amount ← parse_amount value;
  scale_by_decimals amount 6.

Definition usdt (value : string) : result FilterError string :=
  amount ← parse_amount value;
  scale_by_decimals amount 6.

Definition wbtc (value : string) : result FilterError string :=
  amount ← parse_amount value;
  scale_by_decimals amount 8.

(** ** Theorems *)

Context `{!DecimalLaws}.

(** The text of [m * 10 ^ - s] without trailing zeros. *)
Definition text_of (t : string) (m s : Z) : Prop :=
  ∃ d, t = dec_to_string d ∧ value_is d m s ∧ (scale d = 0 ∨ mantissa d mod 10 ≠ 0)%Z.

Lemma scale_integer amount z d :
  is_integer amount z → fits_mantissa z → (0 ≤ d)%Z →
  if decide (d ≤ max_scale)%Z then ∃ t, scale_by_decimals amount d = Ok t ∧ text_of t z d
  else scale_by_decimals amount d = Err FilterPanic.
Proof.
  intros Ha Hz Hd. unfold scale_by_decimals.
  assert (is_integer (dec_from 10) 10) as Hten by (apply from_is; unfold_width; lia).
  pose proof (powi_ten _ d Hten Hd) as Hp. case_decide as Hmax.
  - destruct Hp as (f & -> & Hf). cbn.
    destruct (div_exact amount f z (10 ^ d) z d Ha Hf) as (q & -> & Hq & Hs); [lia|done|done|done|].
    cbn. eexists. split; [done|].
    destruct (normalize_is q z d Hq Hs) as (Hv & _ & Hn). by exists (dec_normalize q).
  - by rewrite Hp.
Qed.

(** The scaling filters on the text of an integer amount [z]: the exact value of
    [z * 10 ^ - d], without trailing zeros, when the amount fits in 96 bits and [d] is
    at most 28; an error when the amount is larger; a panic when [d] is. *)
Theorem decimals_exact z d :
  (0 ≤ d)%Z →
  if decide (fits_mantissa z) then
    if decide (d ≤ max_scale)%Z then ∃ t, decimals (pretty z) d = Ok t ∧ text_of t z d
    else decimals (pretty z) d = Err FilterPanic
  else ∃ e, decimals (pretty z) d = Err (InvalidOperation e).
Proof.
  intros Hd. unfold decimals, parse_amount. pose proof (from_str_integer z) as Hz. case_decide as Hf.
  - destruct Hz as (a & -> & Ha). cbn. by apply scale_integer.
  - destruct Hz as (e & ->). cbn. by eexists.
Qed.

(** Every filter of a token is [decimals] with the decimals of the token. *)
Lemma token_filters value :
  ether value = decimals value 18 ∧ gwei value = decimals value 9 ∧ usdc value = decimals value 6 ∧
  usdt value = decimals value 6 ∧ wbtc value = decimals value 8.
Proof. done. Qed.

(** The partial sums of [zs] from [acc], and their terms, fit in 96 bits. *)
Fixpoint sums_fit (acc : Z) (zs : list Z) : Prop :=
  match zs with
  | [] => True
  | z :: zs => fits_mantissa z ∧ fits_mantissa (acc + z) ∧ sums_fit (acc + z) zs
  end.

Lemma sums_loop name acc x items zs :
  value_to_string <$> items = pretty <$> zs → is_integer acc x →
  let loop := foldM (λ total value,
    num ← parse_item name value; ok_or (dec_add total num) FilterPanic) items acc in
  (sums_fit x zs → ∃ d, loop = Ok d ∧ is_integer d (x + foldr Z.add 0 zs)%Z) ∧
  (¬ sums_fit x zs → ∃ e, loop = Err e).
Proof.
  revert acc x zs. induction items as [|v items IH]; intros acc x [|z zs]; cbn; try done.
  { intros _ Hx. split; [|tauto]. intros _. exists acc. split; [done|]. by rewrite Z.add_0_r. }
  intros [= Ht Hts] Hx. unfold parse_item. rewrite Ht.
  pose proof (from_str_integer z) as Hz. case_decide as Hf.
  2: { destruct Hz as (e & ->). cbn. split; [tauto|]. intros _. by eexists. }
  destruct Hz as (d & -> & Hd). cbn.
  pose proof (add_integers acc d x z Hx Hd) as Ha. case_decide as Hs.
  - destruct Ha as (c & -> & Hc). cbn. destruct (IH c (x + z)%Z zs Hts Hc) as [IH1 IH2]. split.
    + intros (_ & _ & Hrest). destruct (IH1 Hrest) as (r & Hr & Hi). exists r. split; [done|]. by rewrite Z.add_assoc.
    + intros Hn. apply IH2. tauto.
  - rewrite Ha. cbn. split; [tauto|]. intros _. by eexists.
Qed.

(** The sum of integer amounts is exact when the amounts and their partial sums fit in
    96 bits, and no sum is given otherwise. *)
Theorem sum_exact values items zs :
  seq_items values = Some items → value_to_string <$> items = pretty <$> zs →
  (sums_fit 0 zs → ∃ d, sum values = Ok (dec_to_string d) ∧ is_integer d (foldr Z.add 0%Z zs)) ∧
  (¬ sums_fit 0 zs → ∃ e, sum values = Err e).
Proof.
  intros Hi Ht. unfold sum, sequence. rewrite Hi. cbn.
  destruct (sums_loop "sum" dec_zero 0 items zs Ht zero_is) as [Hok Herr]. split.
  - intros (d & -> & Hd)%Hok. cbn. exists d. by split.
  - intros (e & ->)%Herr. by exists e.
Qed.

(** The average runs the loop of the sum and counts. *)
Lemma avg_loop items acc n :
  foldM (λ acc value,
    num ← parse_item "avg" value;
    total ← ok_or (dec_add acc.1 num) FilterPanic;
    Ok (total, acc.2 + 1)%Z) items (acc, n) =
  (λ total, (total, n + Z.of_nat (length items))%Z) <$>
    foldM (λ total value, num ← parse_item "avg" value; ok_or (dec_add total num) FilterPanic) items acc.
Proof.
  revert acc n. induction items as [|v items IH]; intros acc n; cbn; [by rewrite Z.add_0_r|].
  destruct (parse_item "avg" v) as [d|e]; cbn; [|done]. destruct (dec_add acc d) as [c|]; cbn; [|done].
  rewrite IH. destruct (foldM _ items c); cbn; [|done]. do 2 f_equal. lia.
Qed.

(** The average of integer amounts whose sums fit is exact when it has at most 28
    decimals; the average of nothing is zero; nothing is given when a sum does not fit. *)
Theorem avg_exact values items zs :
  seq_items values = Some items → value_to_string <$> items = pretty <$> zs →
  (zs = [] → avg values = Ok (dec_to_string dec_zero)) ∧
  (∀ m s, sums_fit 0 zs → zs ≠ [] → (Z.of_nat (length zs) ≤ i64_max)%Z →
     fits_mantissa m → (0 ≤ s ≤ max_scale)%Z →
     (foldr Z.add 0 zs * 10 ^ s = m * Z.of_nat (length zs))%Z →
     ∃ d, avg values = Ok (dec_to_string d) ∧ value_is d m s) ∧
  (¬ sums_fit 0 zs → ∃ e, avg values = Err e).
Proof.
  intros Hi Ht. unfold avg, sequence. rewrite Hi. cbn. rewrite avg_loop.
  assert (length items = length zs) as Hlen.
  { apply (f_equal length) in Ht. by rewrite !length_fmap in Ht. }
  destruct (sums_loop "avg" dec_zero 0 items zs Ht zero_is) as [Hok Herr]. split_and!.
  - intros ->. by destruct items.
  - intros m s (d & -> & Hd)%Hok Hne Hn Hm Hs Hq. cbn -[Z.add Z.of_nat]. rewrite Hlen, Z.add_0_l.
    assert (0 < Z.of_nat (length zs))%Z as Hpos by (destruct zs; [done|cbn; lia]).
    rewrite (proj2 (Z.eqb_neq _ _)) by lia.
    destruct (div_exact d (dec_from (Z.of_nat (length zs))) _ (Z.of_nat (length zs)) m s Hd) as (q & Hdiv & Hv & _); [|lia|done..|].
    { apply from_is. unfold_width. lia. }
    rewrite Hdiv. cbn. by exists q.
  - intros (e & ->)%Herr. by exists e.
Qed.
End Filters.

(** ** A concrete decimal number *)

Module FiltersDemo.
Record Dec := mkDec { dm : Z; ds : Z }.

Definition small (d : Dec) : option Dec := if decide (fits_mantissa (dm d)) then Some d else None.

(** The text of an integer; what follows a point is not read. *)
Definition parse_integer (s : string) : option Z :=
  match chars s with
  | [] => None
  | c :: l => if decide (c = dash) then z ← parse_digits 0 l; Some (- z)%Z else parse_digits 0 (c :: l)
  end.

Definition from_str (s : string) : result string Dec :=
  z ← ok_or (parse_integer s) "Invalid decimal";
  ok_or (small (mkDec z 0)) "Invalid decimal: overflow from too many digits".

Definition point_at (digits : string) (s : nat) : string :=
  let digits := Stdlib.Strings.String.string_of_list_ascii
    (replicate (S s - length (chars digits)) (Ascii.ascii_of_nat 48) ++ chars digits) in
  let n := (String.length digits - s)%nat in
  if decide (s = 0%nat) then digits
  else String.substring 0 n digits +:+ "." +:+ String.substring n s digits.
Definition to_string (d : Dec) : string :=
  (if decide (dm d < 0)%Z then "-" else "") +:+ point_at (pretty (Z.abs (dm d))) (Z.to_nat (ds d)).

Fixpoint strip (fuel : nat) (d : Dec) : Dec :=
  match fuel with
  | 0 => d
  | S fuel => if decide (dm d mod 10 = 0)%Z then strip fuel (mkDec (dm d / 10) (ds d - 1)) else d
  end.
Definition normalize (d : Dec) : Dec := strip (Z.to_nat (ds d)) d.

Definition add (a b : Dec) : option Dec :=
  let s := Z.max (ds a) (ds b) in
  small (mkDec (dm a * 10 ^ (s - ds a) + dm b * 10 ^ (s - ds b)) s).

(** The first exact quotient, or the one truncated to 28 decimals. *)
Definition div (a b : Dec) : option Dec :=
  let x := (dm a * 10 ^ ds b)%Z in
  let y := (dm b * 10 ^ ds a)%Z in
  if decide (y = 0)%Z then None
  else
    match List.find (λ s, bool_decide ((x * 10 ^ s) mod y = 0)%Z && bool_decide (fits_mantissa (x * 10 ^ s / y)))
            (Z.of_nat <$> seq 0 29) with
    | Some s => Some (mkDec (x * 10 ^ s / y) s)
    | None => small (mkDec (x * 10 ^ 28 / y) 28)
    end.

Definition powi (d : Dec) (n : Z) : option Dec :=
  if decide (n ≤ max_scale)%Z then small (mkDec (dm d ^ n) (ds d * n)) else None.

#[export] Instance demo_decimals : DecimalOps :=
  {| Decimal := Dec; mantissa := dm; scale := ds; dec_zero := mkDec 0 0; dec_from z := mkDec z 0;
     dec_from_str := from_str; dec_to_string := to_string; dec_normalize := normalize;
     dec_add := add; dec_div := div; dec_powi := powi |}.

(** The items of a JSON array; the text of a string or of a number. *)
#[export] Instance demo_values : TemplateValues :=
  {| Value := Json;
     seq_items j := match j with JArray l => Some l | _ => None end;
     value_to_string j := match j with JString s => s | JNumber z => pretty z | _ => "" end |}.

Lemma digit_value_pretty d : (d < 10)%N → digit_value (pretty_N_char d) = Some (Z.of_N d).
Proof.
  intros Hd. assert (d ∈ N.of_nat <$> seq 0 10) as Hin.
  { apply list_elem_of_fmap. exists (N.to_nat d). split; [lia|]. apply elem_of_seq. lia. }
  revert d Hd Hin. assert (Forall (λ d, digit_value (pretty_N_char d) = Some (Z.of_N d)) (N.of_nat <$> seq 0 10)) as Hall.
  { by repeat constructor. }
  intros d _ Hin. rewrite Forall_forall in Hall. by apply Hall.
Qed.

Lemma parse_digits_go (x : N) s :
  parse_digits 0 (chars (pretty_N_go x s)) = parse_digits (Z.of_N x) (chars s).
Proof.
  revert s. induction (N.lt_wf_0 x) as [x _ IH]; intros s.
  destruct (decide (x = 0)%N) as [->|Hx]; [by rewrite pretty_N_go_0|].
  rewrite pretty_N_go_step by lia. rewrite IH by (apply N.div_lt; lia). cbn [chars parse_digits].
  rewrite digit_value_pretty by (apply N.mod_lt; lia). cbn. f_equal.
  rewrite N2Z.inj_div, N2Z.inj_mod. pose proof (Z.div_mod (Z.of_N x) 10). lia.
Qed.

Lemma parse_digits_pretty (x : N) : parse_digits 0 (chars (pretty x)) = Some (Z.of_N x).
Proof. unfold pretty, pretty_N. case_decide as Hx; [by subst|]. by rewrite parse_digits_go. Qed.

Lemma parse_integer_pretty z : parse_integer (pretty z) = Some z.
Proof.
  destruct (pretty_Z_head z) as (c & l & E & Hcl). unfold parse_integer. rewrite E. case_decide as Hz.
  - destruct Hcl as [-> _]. rewrite decide_True by done.
    destruct z as [|p|p]; [lia..|]. assert (l = chars (pretty (N.pos p))) as -> by by injection E.
    by rewrite parse_digits_pretty.
  - destruct Hcl as [Hc _]. rewrite decide_False by (intros ->; by apply dash_not_digit). rewrite <- E.
    destruct z as [|p|p]; [done|apply (parse_digits_pretty (N.pos p))|lia].
Qed.

Lemma small_spec d :
  if decide (fits_mantissa (dm d)) then small d = Some d else small d = None.
Proof. unfold small. by case_decide. Qed.

Lemma strip_spec n d m s :
  (dm d * 10 ^ s = m * 10 ^ ds d)%Z → ds d = Z.of_nat n →
  (dm (strip n d) * 10 ^ s = m * 10 ^ ds (strip n d))%Z ∧ (0 ≤ ds (strip n d))%Z ∧
  (ds (strip n d) = 0 ∨ dm (strip n d) mod 10 ≠ 0)%Z.
Proof.
  revert d. induction n as [|n IH]; intros d Hv Hn; cbn; [split_and!; [done|lia|by left]|].
  case_decide as Hd; [|split_and!; [done|lia|by right]].
  apply IH; cbn; [|lia]. apply Z.div_exact in Hd; [|done].
  assert (10 ^ ds d = 10 * 10 ^ (ds d - 1))%Z as Hp.
  { rewrite <- Z.pow_succ_r by lia. f_equal. lia. }
  rewrite Hp in Hv. nia.
Qed.

Lemma pow_fits n : (0 ≤ n ≤ max_scale)%Z → fits_mantissa (10 ^ n).
Proof.
  unfold max_scale, fits_mantissa. intros Hn. rewrite Z.abs_eq by lia.
  pose proof (Z.pow_le_mono_r 10 n 28 ltac:(lia) ltac:(lia)). lia.
Qed.

Lemma div_finds x y m s :
  y ≠ 0%Z → fits_mantissa m → (0 ≤ s ≤ max_scale)%Z → (x * 10 ^ s = m * y)%Z →
  ∃ s', (x * 10 ^ s' = x * 10 ^ s' / y * y)%Z ∧ (0 ≤ s')%Z ∧
    List.find (λ s, bool_decide ((x * 10 ^ s) mod y = 0)%Z && bool_decide (fits_mantissa (x * 10 ^ s / y)))
      (Z.of_nat <$> seq 0 29) = Some s'.
Proof.
  intros Hy Hm Hs Hx. destruct (List.find _ _) as [s'|] eqn:E.
  - apply List.find_some in E as [Hin Hb]. bool_to_prop. exists s'. split_and!; [|..|done].
    + pose proof (Z.div_mod (x * 10 ^ s') y Hy). lia.
    + apply list_elem_of_In, list_elem_of_fmap in Hin as (k & -> & _). lia.
  - eapply List.find_none in E.
    2: { apply list_elem_of_In, list_elem_of_fmap. exists (Z.to_nat s). unfold max_scale in Hs.
         split; [|apply elem_of_seq]; [|lia]. instantiate (1 := s). lia. }
    rewrite Hx, Z.mod_mul, Z.div_mul in E by done. by rewrite !bool_decide_eq_true_2 in E.
Qed.

#[export] Instance demo_decimal_laws : DecimalLaws.
Proof.
  split.
  - done.
  - done.
  - intros z. cbn. unfold from_str. rewrite parse_integer_pretty. cbn.
    pose proof (small_spec (mkDec z 0)) as Hs. cbn in Hs. case_decide; rewrite Hs; cbn; eexists; [split; [done|]|done].
    done.
  - intros a b x y [Ha Ha'] [Hb Hb']. cbn in *. unfold add. rewrite Ha', Hb', Ha, Hb.
    change (x * 10 ^ (Z.max 0 0 - 0) + y * 10 ^ (Z.max 0 0 - 0))%Z with (x * 1 + y * 1)%Z. rewrite !Z.mul_1_r.
    pose proof (small_spec (mkDec (x + y) (Z.max 0 0))) as Hs. cbn [dm] in Hs. case_decide; [|done].
    eexists. split; [exact Hs|done].
  - intros d n [Hd Hd'] Hn. cbn in *. unfold powi. rewrite Hd, Hd'. case_decide; [|done].
    pose proof (small_spec (mkDec (10 ^ n) (0 * n))) as Hs. cbn [dm] in Hs.
    rewrite decide_True in Hs by by apply pow_fits. eexists. split; [exact Hs|done].
  - intros a b x y m s [Ha Ha'] [Hb Hb'] Hy Hm Hs Hx. cbn in *. unfold div. rewrite Ha, Hb, Ha', Hb', !Z.mul_1_r.
    rewrite decide_False by done. destruct (div_finds x y m s Hy Hm Hs Hx) as (s' & Hq & Hs' & ->).
    eexists. split; [done|]. split; [|done]. unfold value_is. cbn.
    apply (Z.mul_reg_r _ _ y Hy).
    transitivity (x * 10 ^ s' * 10 ^ s)%Z; [rewrite Hq at 2; ring|].
    transitivity (x * 10 ^ s * 10 ^ s')%Z; [ring|]. rewrite Hx. ring.
  - intros d m s Hv Hs. cbn in *. unfold normalize. apply strip_spec; [exact Hv|]. lia.
Qed.
End FiltersDemo.
Import FiltersDemo.

Lemma decimals_exact_witness :
  (0 ≤ 18)%Z ∧ (∃ t, decimals "1234500000000000000" 18 = Ok t ∧ text_of t 1234500000000000000 18) ∧
  decimals "1234500000000000000" 18 = Ok "1.2345".
Proof.
  split; [done|]. split; [|vm_compute; reflexivity].
  exact (decimals_exact 1234500000000000000 18 ltac:(done)).
Defined.

Lemma sum_exact_witness :
  let values := JArray [JNumber 1000; JString "2000"; JNumber (-30)] in
  (∃ d, sum (H0 := demo_values) values = Ok (dec_to_string d) ∧ is_integer d 2970) ∧
  sum (H0 := demo_values) values = Ok "2970".
Proof.
  split; [|vm_compute; reflexivity].
  apply (proj1 (sum_exact (H0 := demo_values) (JArray [JNumber 1000; JString "2000"; JNumber (-30)])
    [JNumber 1000; JString "2000"; JNumber (-30)] [1000; 2000; -30]%Z eq_refl eq_refl)).
  repeat split; apply (bool_decide_unpack _); vm_compute; exact I.
Defined.

Lemma avg_exact_witness :
  let values := JArray [JString "10"; JString "5"] in
  (∃ d, avg (H0 := demo_values) values = Ok (dec_to_string d) ∧ value_is d 75 1) ∧
  avg (H0 := demo_values) values = Ok "7.5".
Proof.
  split; [|vm_compute; reflexivity].
  apply (proj1 (proj2 (avg_exact (H0 := demo_values) (JArray [JString "10"; JString "5"])
    [JString "10"; JString "5"] [10; 5]%Z eq_refl eq_refl))); [|done|by vm_compute|done|done|reflexivity].
  repeat split; apply (bool_decide_unpack _); vm_compute; exact I.
Defined.

(** An amount of 2^256 - 1, the usual unlimited allowance, has no text; two amounts of
    2^95 cannot be summed, and 29 decimals cannot be scaled by: both panic. *)
Lemma large_amounts_fail :
  (∃ e, ether (pretty (2 ^ 256 - 1)%Z) = Err (InvalidOperation e)) ∧
  sum (H0 := demo_values) (JArray [JString (pretty (2 ^ 95)%Z); JString (pretty (2 ^ 95)%Z)]) = Err FilterPanic ∧
  decimals "1" 29 = Err FilterPanic.
Proof. split_and!; [eexists|..]; vm_compute; reflexivity. Qed.
