(* ===== verification/Dispatch.v ===== *)
(** * The action dispatcher ([crates/argus-dispatch/src])

    [lib.rs], [webhook.rs], [stdout.rs], [action_type.rs], [publisher/*.rs] and
    [template/mod.rs].  The template engine, the webhook client and the brokers'
    clients are third-party code: the first is a function, the others are the
    outside [World], which records every request and answers it. *)
From S2P Require Import Prelude Models MonitorMatch HttpPool.

(** ** Templates ([template/mod.rs]) *)

(** [minijinja::Environment] with strict undefined behaviour and Argus's filters. *)
Class TemplateEngine := {
  template_from_str : string → result string unit;
  render_str : string → Json → result string string
}.

Inductive TemplateServiceError := RenderError (e : string).

Section Templates.
Context `{TemplateEngine}.

Definition validate_syntax (template_str : string) : result TemplateServiceError unit :=
  map_err RenderError (template_from_str template_str).

Definition render (template_str : string) (context : Json) : result TemplateServiceError string :=
  map_err RenderError (render_str template_str context).
End Templates.

(** ** Requests to the outside world *)

(** [omnihook::WebhookConfig]: without a method, the client's default. *)
Record WebhookConfig := mkWebhookConfig {
  wc_url : Url;
  wc_method : option string;
  wc_headers : list (string * string);
  wc_secret : option string
}.
Definition WebhookConfig_new (url : Url) : WebhookConfig := mkWebhookConfig url None [] None.

Inductive PayloadBuilder :=
| SlackPayload
| DiscordPayload
| TelegramPayload (chat_id : string) (disable_web_preview : bool)
| GenericPayload.

Inductive ExchangeKind := Topic | Fanout | Headers | Direct.

Inductive Request :=
| Notify (config : WebhookConfig) (client : Arc ClientWithMiddleware) (title body : string)
    (b : PayloadBuilder) (idempotency_key : option string)
| PrintLine (s : string)
| KafkaSend (settings : list (string * string)) (topic key payload : string)
| RabbitPublish (uri exchange routing_key payload idempotency_key : string)
| NatsPublish (urls subject : string) (message_key : option string) (payload : string)
| KafkaFlush (settings : list (string * string))
| RabbitClose (uri : string)
| NatsDrain (urls : string).

(** The requests made so far, and the answer to each request by its number. *)
Record World := mkWorld { w_requests : list Request; w_answers : nat → result string unit }.

Definition request (r : Request) : eff World string unit := λ w,
  (w_answers w (length (w_requests w)), mkWorld (w_requests w ++ [r]) (w_answers w)).

(** ** Errors ([error.rs], [publisher/error.rs]) *)

Inductive PublisherError :=
| KafkaError (e : string)
| LapinError (e : string)
| NatsError (e : string).

Inductive ActionDispatcherError :=
| ConfigError (e : string)
| DeserializationError (e : string)
| ExecutionError (e : string)
| NotifyFailed (e : string)
| InternalError (e : string)
| HttpClientError (e : HttpClientPoolError)
| RequestError (e : string)
| TemplateError (e : TemplateServiceError)
| PublisherFailed (e : PublisherError)
| WebhookFailed (e : string).

(** What the code uses of the clients' crates and of [serde_json] and [url]. *)
Class DispatchEnv := {
  reqwest_build : BaseHttpClientConfig → result string unit;
  parse_method : string → option string;
  parse_url : string → option Url;
  webhook_client_new : WebhookConfig → result string unit;
  kafka_create : list (string * string) → result string unit;
  rabbit_declare : string → string → ExchangeKind → result string unit;
  nats_connect : string → option NatsCredentials → result string unit;
  json_text : Json → string;
  action_debug : ActionTypeConfig → string
}.

(** The cargo features of the crate. *)
Record Features := mkFeatures { feature_kafka : bool; feature_rabbitmq : bool; feature_nats : bool }.

Section Dispatch.
Context `{AlloyPrimitives} `{DefaultHasher} `{TemplateEngine} `{DispatchEnv}.

(** ** Webhooks ([webhook.rs]) *)

Record WebhookComponents := mkComponents {
  wcs_config : WebhookConfig;
  wcs_title : string;
  wcs_body_template : string;
  wcs_retry_policy : HttpRetryConfig;
  wcs_builder : PayloadBuilder
}.

Definition WebhookComponents_from_generic (c : GenericWebhookConfig) : WebhookComponents :=
  let config := WebhookConfig_new (wh_url c) in
  let config :=
    match m ← wh_method c; parse_method m with
    | Some m => mkWebhookConfig (wc_url config) (Some m) (wc_headers config) (wc_secret config)
    | None => config
    end in
  let headers := match wh_headers c with Some h => map_to_list h | None => [] end in
  let config := mkWebhookConfig (wc_url config) (wc_method config) headers (wc_secret config) in
  let config :=
    match wh_secret c with
    | Some s => mkWebhookConfig (wc_url config) (wc_method config) (wc_headers config) (Some s)
    | None => config
    end in
  {| wcs_config := config; wcs_title := msg_title (wh_message c);
     wcs_body_template := msg_body (wh_message c); wcs_retry_policy := wh_retry_policy c;
     wcs_builder := GenericPayload |}.

Definition WebhookComponents_from_discord (c : DiscordConfig) : WebhookComponents :=
  {| wcs_config := WebhookConfig_new (discord_url c); wcs_title := msg_title (discord_message c);
     wcs_body_template := msg_body (discord_message c); wcs_retry_policy := discord_retry_policy c;
     wcs_builder := DiscordPayload |}.

(** [None]: the [unwrap] of the parsed URL panics. *)
Definition WebhookComponents_from_telegram (c : TelegramConfig) : option WebhookComponents :=
  url ← parse_url ("https://api.telegram.org/bot" +:+ tg_token c +:+ "/sendMessage");
  Some {| wcs_config := WebhookConfig_new url; wcs_title := msg_title (tg_message c);
          wcs_body_template := msg_body (tg_message c); wcs_retry_policy := tg_retry_policy c;
          wcs_builder := TelegramPayload (tg_chat_id c) (default false (tg_disable_web_preview c)) |}.

Definition WebhookComponents_from_slack (c : SlackConfig) : WebhookComponents :=
  {| wcs_config := WebhookConfig_new (slack_url c); wcs_title := msg_title (slack_message c);
     wcs_body_template := msg_body (slack_message c); wcs_retry_policy := slack_retry_policy c;
     wcs_builder := SlackPayload |}.

(** [IntoWebhookComponents for ActionTypeConfig]. *)
Definition as_webhook_components (c : ActionTypeConfig) : option (result ActionDispatcherError WebhookComponents) :=
  match c with
  | Webhook c => Some (Ok (WebhookComponents_from_generic c))
  | Discord c => Some (Ok (WebhookComponents_from_discord c))
  | Telegram c => Ok <$> WebhookComponents_from_telegram c
  | Slack c => Some (Ok (WebhookComponents_from_slack c))
  | _ => Some (Err (ConfigError (action_debug c +:+ " action does not support webhook components")))
  end.

Record WebhookAction := mkWebhookAction {
  wa_config : WebhookConfig;
  wa_client : Arc ClientWithMiddleware;
  wa_title : string;
  wa_body_template : string;
  wa_builder : PayloadBuilder
}.

Definition WebhookAction_try_new (components : WebhookComponents) (http_client : Arc ClientWithMiddleware)
    : result ActionDispatcherError WebhookAction :=
  _ ← map_err WebhookFailed (webhook_client_new (wcs_config components));
  Ok (mkWebhookAction (wcs_config components) http_client (wcs_title components)
        (wcs_body_template components) (wcs_builder components)).

Definition render_message (title body : string) (context : Json) : eff World ActionDispatcherError (string * string) :=
  rendered_title ← lift_result (map_err TemplateError (render title context));
  rendered_body ← lift_result (map_err TemplateError (render body context));
  mret (rendered_title, rendered_body).

(** [WebhookAction::execute]. *)
Definition webhook_execute (a : WebhookAction) (payload : ActionPayload) : eff World ActionDispatcherError unit :=
  let '(title, body) :=
    match payload with
    | Aggregated _ _ template => (msg_title template, msg_body template)
    | Single _ => (wa_title a, wa_body_template a)
    end in
  '(rendered_title, rendered_body) ← render_message title body (context payload);
  eff_map_err WebhookFailed
    (request (Notify (wa_config a) (wa_client a) rendered_title rendered_body (wa_builder a)
                (Some (idempotency_key payload)))).

(** ** Standard output ([stdout.rs]) *)

Definition newline : string := String (Ascii.ascii_of_nat 10) "".

(** A printed line, without its last newline, has no answer. *)
Definition println (s : string) : eff World ActionDispatcherError unit := λ w,
  (Ok tt, (request (PrintLine s) w).2).

Definition stdout_execute (c : StdoutConfig) (payload : ActionPayload) : eff World ActionDispatcherError unit :=
  let context := context payload in
  match stdout_message c with
  | Some message =>
      '(rendered_title, rendered_body) ← render_message (msg_title message) (msg_body message) context;
      println ("=== Stdout Action: " +:+ action_name payload +:+ " ===" +:+ newline +:+ rendered_title
                 +:+ newline +:+ rendered_body +:+ newline)
  | None =>
      println ("=== Stdout Action: " +:+ action_name payload +:+ " ===" +:+ newline +:+ " "
                 +:+ json_text context +:+ newline)
  end.

(** ** Publishers ([publisher/*.rs]) *)

Record KafkaEventPublisher := mkKafkaPublisher { kafka_settings : list (string * string); kafka_publisher_topic : string }.

Definition optional_setting (key : string) (value : option string) : list (string * string) :=
  match value with Some v => [(key, v)] | None => [] end.

Definition kafka_from_config (config : KafkaConfig) : result PublisherError KafkaEventPublisher :=
  let security := kafka_security config in
  let producer := kafka_producer config in
  let settings :=
    [("bootstrap.servers", kafka_brokers config); ("security.protocol", ks_protocol security)]
    ++ (if starts_with "SASL" (ks_protocol security)
        then optional_setting "sasl.mechanism" (ks_sasl_mechanism security)
             ++ optional_setting "sasl.username" (ks_sasl_username security)
             ++ optional_setting "sasl.password" (ks_sasl_password security)
        else [])
    ++ (if ends_with "SSL" (ks_protocol security)
        then optional_setting "ssl.ca.location" (ks_ssl_ca_location security) else [])
    ++ [("acks", kp_acks producer); ("message.timeout.ms", pretty (kp_message_timeout_ms producer));
        ("compression.codec", kp_compression_codec producer)] in
  _ ← map_err KafkaError (kafka_create settings);
  Ok (mkKafkaPublisher settings (kafka_topic config)).

Record RabbitMqEventPublisher := mkRabbitPublisher {
  rabbit_channel : string;
  rabbit_exchange : string;
  rabbit_default_routing_key : option string
}.

(** No character outside ASCII has one of these names in its lower case. *)
Definition exchange_kind (exchange_type : string) : ExchangeKind :=
  let et := to_ascii_lowercase exchange_type in
  if decide (et = "topic") then Topic
  else if decide (et = "fanout") then Fanout
  else if decide (et = "headers") then Headers
  else Direct.

Definition rabbit_from_config (config : RabbitMqConfig) : result PublisherError RabbitMqEventPublisher :=
  _ ← map_err LapinError (rabbit_declare (rmq_uri config) (rmq_exchange config) (exchange_kind (rmq_exchange_type config)));
  Ok (mkRabbitPublisher (rmq_uri config) (rmq_exchange config) (rmq_routing_key config)).

Record NatsEventPublisher := mkNatsPublisher { nats_client : string; nats_publisher_subject : string }.

(** The token is used when there is one, the credentials file otherwise. *)
Definition nats_options (config : NatsConfig) : option NatsCredentials :=
  match nats_credentials config with
  | Some creds =>
      if bool_decide (is_Some (nc_token creds)) then Some (mkNatsCreds (nc_token creds) None)
      else if bool_decide (is_Some (nc_file creds)) then Some (mkNatsCreds None (nc_file creds))
      else None
  | None => None
  end.

Definition nats_from_config (config : NatsConfig) : result PublisherError NatsEventPublisher :=
  _ ← map_err NatsError (nats_connect (nats_urls config) (nats_options config));
  Ok (mkNatsPublisher (nats_urls config) (nats_subject config)).

Definition kafka_publish (p : KafkaEventPublisher) (topic key payload : string) : eff World PublisherError unit :=
  eff_map_err KafkaError (request (KafkaSend (kafka_settings p) topic key payload)).

Definition rabbit_publish (p : RabbitMqEventPublisher) (topic key payload : string) : eff World PublisherError unit :=
  let routing_key := default topic (rabbit_default_routing_key p) in
  eff_map_err LapinError (request (RabbitPublish (rabbit_channel p) (rabbit_exchange p) routing_key payload key)).

Definition nats_publish (p : NatsEventPublisher) (subject key payload : string) : eff World PublisherError unit :=
  let message_key := if str_is_empty key then None else Some key in
  eff_map_err NatsError (request (NatsPublish (nats_client p) subject message_key payload)).

(** [Action::execute] of a publisher: aggregated payloads are only logged. *)
Definition publisher_execute (publish : string → string → string → eff World PublisherError unit)
    (topic : string) (payload : ActionPayload) : eff World ActionDispatcherError unit :=
  match payload with
  | Single _ =>
      let serialized_payload := json_text (context payload) in
      eff_map_err PublisherFailed (publish topic (idempotency_key payload) serialized_payload)
  | Aggregated _ _ _ => mret tt
  end.

(** ** Actions ([action_type.rs]) *)

Inductive ActionType :=
| WebhookType (a : WebhookAction)
| StdoutType (c : StdoutConfig)
| KafkaType (p : KafkaEventPublisher)
| RabbitMqType (p : RabbitMqEventPublisher)
| NatsType (p : NatsEventPublisher).

Definition action_execute (a : ActionType) (payload : ActionPayload) : eff World ActionDispatcherError unit :=
  match a with
  | WebhookType a => webhook_execute a payload
  | StdoutType c => stdout_execute c payload
  | KafkaType p => publisher_execute (kafka_publish p) (kafka_publisher_topic p) payload
  | RabbitMqType p => publisher_execute (rabbit_publish p) (rabbit_exchange p) payload
  | NatsType p => publisher_execute (nats_publish p) (nats_publisher_subject p) payload
  end.

Definition action_shutdown (a : ActionType) : eff World ActionDispatcherError unit :=
  match a with
  | WebhookType _ | StdoutType _ => mret tt
  | KafkaType p => eff_map_err (λ e, InternalError ("Failed to flush Kafka producer: " +:+ e)) (request (KafkaFlush (kafka_settings p)))
  | RabbitMqType p => eff_map_err (λ e, InternalError ("Failed to close RabbitMQ channel: " +:+ e)) (request (RabbitClose (rabbit_channel p)))
  | NatsType p => eff_map_err (λ e, InternalError ("Failed to drain NATS client: " +:+ e)) (request (NatsDrain (nats_client p)))
  end.

(** ** The dispatcher ([lib.rs]) *)

Notation ActionDispatcher := (gmap string ActionType).

(** Startup ends with the dispatcher, an error, or a panic. *)
Inductive DispatcherFault := DispatcherErr (e : ActionDispatcherError) | DispatcherPanic.

Definition not_compiled (name : string) : ActionDispatcherError :=
  ConfigError ("Action '" +:+ name +:+ "' uses a type that is not compiled into this build (feature flag disabled). "
    +:+ "Either enable the required feature flag or remove this action from the configuration.").

(** A publisher that cannot be created is logged and skipped ([continue]). *)
Definition publisher_action {P} (enabled : bool) (name : string) (create : result PublisherError P) (wrap : P → ActionType)
    : result DispatcherFault (option ActionType) :=
  if enabled then match create with Ok p => Ok (Some (wrap p)) | Err _ => Ok None end
  else Err (DispatcherErr (not_compiled name)).

Definition webhook_action (c : ActionTypeConfig) : eff HttpClientPool DispatcherFault (option ActionType) :=
  match as_webhook_components c with
  | Some (Ok components) => λ pool,
      (http_client ← eff_map_err (λ e, DispatcherErr (HttpClientError e))
         (get_or_create (reqwest_build (base_client_config pool)) (wcs_retry_policy components));
       a ← lift_result (map_err DispatcherErr (WebhookAction_try_new components http_client));
       mret (Some (WebhookType a))) pool
  | Some (Err _) | None => throw DispatcherPanic
  end.

(** The [match] on the configuration of one action. *)
Definition create_action_type (features : Features) (name : string) (c : ActionTypeConfig)
    : eff HttpClientPool DispatcherFault (option ActionType) :=
  match c with
  | Kafka k => lift_result (publisher_action (feature_kafka features) name (kafka_from_config k) KafkaType)
  | RabbitMq r => lift_result (publisher_action (feature_rabbitmq features) name (rabbit_from_config r) RabbitMqType)
  | Nats n => lift_result (publisher_action (feature_nats features) name (nats_from_config n) NatsType)
  | Stdout s => mret (Some (StdoutType s))
  | Webhook _ | Discord _ | Slack _ | Telegram _ => webhook_action c
  end.

Fixpoint create_actions (features : Features) (configs : list (string * ActionConfig)) (actions : ActionDispatcher)
    : eff HttpClientPool DispatcherFault ActionDispatcher :=
  match configs with
  | [] => mret actions
  | (name, config) :: configs =>
      a ← create_action_type features name (ac_config config);
      create_actions features configs (match a with Some a => <[name := a]> actions | None => actions end)
  end.

(** [ActionDispatcher::new]; the order of the map's iteration is arbitrary. *)
Definition ActionDispatcher_new (features : Features) (action_configs : gmap string ActionConfig)
    : eff HttpClientPool DispatcherFault ActionDispatcher :=
  create_actions features (map_to_list action_configs) ∅.

(** [ActionDispatcher::execute]. *)
Definition dispatcher_execute (d : ActionDispatcher) (payload : ActionPayload) : eff World ActionDispatcherError unit :=
  let name := action_name payload in
  action ← lift_result (ok_or (d !! name) (ConfigError ("Action '" +:+ name +:+ "' not found")));
  action_execute action payload.

(** [ActionDispatcher::run]: errors are only logged. *)
Definition dispatcher_run (d : ActionDispatcher) (notifications : list MonitorMatch) (w : World) : World :=
  foldl (λ w m, (dispatcher_execute d (Single m) w).2) w notifications.

(** [ActionDispatcher::shutdown]. *)
Definition dispatcher_shutdown (d : ActionDispatcher) (w : World) : World :=
  foldl (λ w a, (action_shutdown a w).2) w (map_to_list d).*2.
End Dispatch.

(** ** What an action sends *)

Section DispatchTheorems.
Context `{AlloyPrimitives} `{DefaultHasher} `{TemplateEngine} `{DispatchEnv}.
Notation ActionDispatcher := (gmap string ActionType).

Definition is_publisher (c : ActionTypeConfig) : bool :=
  match c with Kafka _ | RabbitMq _ | Nats _ => true | _ => false end.
Definition is_aggregated (p : ActionPayload) : bool :=
  match p with Aggregated _ _ _ => true | Single _ => false end.

(** The message of a payload: the template of its policy when it is aggregated. *)
Definition message_of (m : NotificationMessage) (p : ActionPayload) : NotificationMessage :=
  match p with Aggregated _ _ template => template | Single _ => m end.

Definition rendered (m : NotificationMessage) (p : ActionPayload) (title body : string) : Prop :=
  render_str (msg_title m) (context p) = Ok title ∧ render_str (msg_body m) (context p) = Ok body.

(** The configured webhook: where, with which message, retry policy and format. *)
Definition webhook_of (c : ActionTypeConfig) : option (Url * NotificationMessage * HttpRetryConfig * PayloadBuilder) :=
  match c with
  | Webhook w => Some (wh_url w, wh_message w, wh_retry_policy w, GenericPayload)
  | Discord d => Some (discord_url d, discord_message d, discord_retry_policy d, DiscordPayload)
  | Slack s => Some (slack_url s, slack_message s, slack_retry_policy s, SlackPayload)
  | Telegram t =>
      url ← parse_url ("https://api.telegram.org/bot" +:+ tg_token t +:+ "/sendMessage");
      Some (url, tg_message t, tg_retry_policy t, TelegramPayload (tg_chat_id t) (default false (tg_disable_web_preview t)))
  | _ => None
  end.

(** The request that delivers a payload to the action of a configuration. *)
Inductive delivers : ActionTypeConfig → ActionPayload → Request → Prop :=
| delivers_webhook c p url message policy b title body config client :
    webhook_of c = Some (url, message, policy, b) →
    rendered (message_of message p) p title body →
    wc_url config = url → client_retries (arc_val client) = retry_policy policy →
    delivers c p (Notify config client title body b (Some (idempotency_key p)))
| delivers_stdout s p text : delivers (Stdout s) p (PrintLine text)
| delivers_kafka k m settings :
    delivers (Kafka k) (Single m)
      (KafkaSend settings (kafka_topic k) (mm_id m) (json_text (context (Single m))))
| delivers_rabbit r m :
    delivers (RabbitMq r) (Single m)
      (RabbitPublish (rmq_uri r) (rmq_exchange r) (default (rmq_exchange r) (rmq_routing_key r))
         (json_text (context (Single m))) (mm_id m))
| delivers_nats n m key :
    (mm_id m ≠ "" → key = Some (mm_id m)) →
    delivers (Nats n) (Single m) (NatsPublish (nats_urls n) (nats_subject n) key (json_text (context (Single m)))).

(** ** Creation *)

(** The action built for a configuration. *)
Definition action_of (c : ActionTypeConfig) (a : ActionType) : Prop :=
  match c with
  | Kafka k => ∃ p, kafka_from_config k = Ok p ∧ a = KafkaType p
  | RabbitMq r => ∃ p, rabbit_from_config r = Ok p ∧ a = RabbitMqType p
  | Nats n => ∃ p, nats_from_config n = Ok p ∧ a = NatsType p
  | Stdout s => a = StdoutType s
  | _ => ∃ comps client, as_webhook_components c = Some (Ok comps) ∧
      client_retries (arc_val client) = retry_policy (wcs_retry_policy comps) ∧
      a = WebhookType (mkWebhookAction (wcs_config comps) client (wcs_title comps)
                         (wcs_body_template comps) (wcs_builder comps))
  end.

Lemma get_or_create_ok built policy pool r pool' :
  pool_ok pool → get_or_create built policy pool = (r, pool') →
  pool_ok pool' ∧ ∀ c, r = Ok c → client_retries (arc_val c) = retry_policy policy.
Proof.
  intros Hok. unfold get_or_create, fast_path. destruct (clients pool !! policy) as [c|] eqn:E.
  - intros [= <- <-]. split; [done|]. intros ? [= <-]. by rewrite (proj1 (pool_client _ Hok _ _ E)).
  - intros Hs. destruct (slow_path_ok _ _ _ _ _ Hok Hs) as (Hok' & Hb & _ & Hr). split; [done|].
    intros c Hc%Hr. by rewrite (proj1 (pool_client _ Hok' _ _ Hc)).
Qed.

Lemma webhook_action_spec c pool r pool' :
  pool_ok pool → webhook_action c pool = (r, pool') →
  pool_ok pool' ∧ ∀ o, r = Ok o → ∃ comps client, as_webhook_components c = Some (Ok comps) ∧
      client_retries (arc_val client) = retry_policy (wcs_retry_policy comps) ∧
      o = Some (WebhookType (mkWebhookAction (wcs_config comps) client (wcs_title comps)
                         (wcs_body_template comps) (wcs_builder comps))).
Proof.
  intros Hok. unfold webhook_action.
  destruct (as_webhook_components c) as [[comps|e]|]; [|by intros [= <- <-]..].
  unfold mbind, eff_bind, eff_map_err.
  destruct (get_or_create _ _ pool) as [rc pool1] eqn:Ec.
  destruct (get_or_create_ok _ _ _ _ _ Hok Ec) as [Hok1 Hc].
  destruct rc as [client|e]; cbn; [|by intros [= <- <-]].
  unfold lift_result, WebhookAction_try_new, mbind, result_bind.
  destruct (webhook_client_new (wcs_config comps)); cbn; intros [= <- <-]; [|done].
  split; [done|]. intros o [= <-]. exists comps, client. auto.
Qed.

Lemma publisher_action_spec {P} enabled name (create : result PublisherError P) wrap o :
  publisher_action enabled name create wrap = Ok o →
  match o with Some a => ∃ p, create = Ok p ∧ a = wrap p | None => True end.
Proof.
  unfold publisher_action. destruct enabled; [|done]. destruct create; intros [= <-]; [|done]. eauto.
Qed.

Lemma create_action_type_spec features name c pool r pool' :
  pool_ok pool → create_action_type features name c pool = (r, pool') →
  pool_ok pool' ∧ ∀ o, r = Ok o →
    match o with Some a => action_of c a | None => is_publisher c = true end.
Proof.
  intros Hok.
  assert (webhook_action c pool = (r, pool') → pool_ok pool' ∧ ∀ o, r = Ok o →
    ∃ a, o = Some a ∧ ∃ comps client, as_webhook_components c = Some (Ok comps) ∧
      client_retries (arc_val client) = retry_policy (wcs_retry_policy comps) ∧
      a = WebhookType (mkWebhookAction (wcs_config comps) client (wcs_title comps)
                         (wcs_body_template comps) (wcs_builder comps))) as Hweb.
  { intros [Hok' Hr]%webhook_action_spec; [|done]. split; [done|]. intros o (comps & client & ? & ? & ->)%Hr. eauto 7. }
  destruct c; cbn [create_action_type];
    try (intros [Hok' Hr]%Hweb; split; [done|]; by intros o (a & -> & Ha)%Hr).
  - intros [= <- <-]. split; [done|]. by intros o [= <-].
  - intros [= <- <-]. split; [done|]. intros [] Ho%publisher_action_spec; done.
  - intros [= <- <-]. split; [done|]. intros [] Ho%publisher_action_spec; done.
  - intros [= <- <-]. split; [done|]. intros [] Ho%publisher_action_spec; done.
Qed.

Lemma create_actions_spec features configs actions pool d pool' :
  pool_ok pool → create_actions features configs actions pool = (Ok d, pool') →
  (∀ name a, d !! name = Some a →
     actions !! name = Some a ∨ ∃ c, (name, c) ∈ configs ∧ action_of (ac_config c) a) ∧
  (∀ name, is_Some (actions !! name) → is_Some (d !! name)) ∧
  (∀ name c, (name, c) ∈ configs → is_publisher (ac_config c) = false → is_Some (d !! name)).
Proof.
  revert actions pool. induction configs as [|[name c] configs IH]; intros actions pool Hok; cbn.
  { intros [= <- _]. split_and!; [by left|done|by intros ?? ?%elem_of_nil]. }
  unfold mbind at 1, eff_bind at 1.
  destruct (create_action_type features name (ac_config c) pool) as [r pool1] eqn:E.
  destruct (create_action_type_spec _ _ _ _ _ _ Hok E) as [Hok1 Hr].
  destruct r as [o|e]; [|done]. specialize (Hr o eq_refl). intros Hd.
  destruct (IH _ _ Hok1 Hd) as (Hfrom & Hkeep & Hall). split_and!.
  - intros n a Hn. destruct (Hfrom n a Hn) as [Ho|(c' & Hc' & Ha)]; [|right; exists c'; split; [by right|done]].
    destruct o as [a'|]; [|by left]. rewrite lookup_insert in Ho. case_decide; [|by left].
    subst n. injection Ho as <-. right. exists c. split; [by left|done].
  - intros n Hn. apply Hkeep. destruct o; [|done]. rewrite lookup_insert. by case_decide.
  - intros n c' [[= -> ->]|Hc']%elem_of_cons Hp; [|by eapply Hall].
    apply Hkeep. destruct o; [by rewrite lookup_insert_eq|congruence].
Qed.

(** ** Execution *)

Lemma render_message_spec title body ctx w r w' :
  render_message title body ctx w = (r, w') →
  w' = w ∧ ∀ p, r = Ok p → render_str title ctx = Ok p.1 ∧ render_str body ctx = Ok p.2.
Proof.
  unfold render_message, mbind, eff_bind, lift_result, render.
  destruct (render_str title ctx); cbn; [|by intros [= <- <-]].
  destruct (render_str body ctx); cbn; intros [= <- <-]; [|done].
  split; [done|]. by intros p [= <-].
Qed.

(** One request was made, it delivers the payload, and it was answered so. *)
Definition requested (c : ActionTypeConfig) (p : ActionPayload) (w w' : World) (ok : bool) : Prop :=
  ∃ req, w' = mkWorld (w_requests w ++ [req]) (w_answers w) ∧ delivers c p req ∧
    (is_ok (w_answers w (length (w_requests w))) = ok ∨ ∃ text, req = PrintLine text).

Lemma request_answer {E} (f : string → E) req w r w' :
  eff_map_err f (request req) w = (r, w') →
  w' = mkWorld (w_requests w ++ [req]) (w_answers w) ∧
  is_ok (w_answers w (length (w_requests w))) = is_ok r.
Proof.
  unfold eff_map_err, request. intros [= <- <-]. split; [done|].
  by destruct (w_answers w (length (w_requests w))).
Qed.

Lemma webhook_of_components c comps :
  as_webhook_components c = Some (Ok comps) →
  webhook_of c = Some (wc_url (wcs_config comps), mkMessage (wcs_title comps) (wcs_body_template comps),
                       wcs_retry_policy comps, wcs_builder comps).
Proof.
  destruct c as [w|s|d|t|s|k|r|n]; cbn; try done.
  - intros [= <-]. destruct w as [? m ? ? [] ?]; cbn.
    destruct m as [m|]; cbn; repeat (case_match; cbn); done.
  - intros [= <-]. by destruct s as [? [] ?].
  - intros [= <-]. by destruct d as [? [] ?].
  - unfold WebhookComponents_from_telegram. destruct (parse_url _); cbn; [|done].
    intros [= <-]. by destruct t as [? ? [] ? ?].
Qed.

Lemma publisher_execute_spec c pub topic p w r w' :
  (∀ m key payload, p = Single m → key = mm_id m → payload = json_text (context p) →
     ∀ r w', pub topic key payload w = (r, w') → requested c p w w' (is_ok r)) →
  publisher_execute pub topic p w = (r, w') →
  (is_ok r = true ∧ is_aggregated p = true ∧ w' = w) ∨ requested c p w w' (is_ok r).
Proof.
  intros Hp. unfold publisher_execute. destruct p as [m|n ms t]; [|by intros [= <- <-]; left].
  unfold eff_map_err. destruct (pub _ _ _ w) as [rp wp] eqn:E. intros [= <- <-]. right.
  specialize (Hp m _ _ eq_refl eq_refl eq_refl _ _ E). by destruct rp.
Qed.

(** What executing the action of [c] comes to. *)
Definition executed {E} (c : ActionTypeConfig) (p : ActionPayload) (w : World) (r : result E unit) (w' : World) : Prop :=
  requested c p w w' (is_ok r) ∨ w' = w ∧ (is_ok r = true → is_publisher c = true ∧ is_aggregated p = true).

Lemma webhook_execute_spec c comps client p w r w' :
  as_webhook_components c = Some (Ok comps) →
  client_retries (arc_val client) = retry_policy (wcs_retry_policy comps) →
  webhook_execute (mkWebhookAction (wcs_config comps) client (wcs_title comps) (wcs_body_template comps)
                     (wcs_builder comps)) p w = (r, w') →
  executed c p w r w'.
Proof.
  intros Hcomps Hcl. unfold webhook_execute.
  set (m := message_of (mkMessage (wcs_title comps) (wcs_body_template comps)) p).
  replace (match p with Single _ => _ | Aggregated _ _ t => _ end) with (msg_title m, msg_body m)
    by (by subst m; destruct p).
  unfold mbind at 1, eff_bind at 1.
  destruct (render_message (msg_title m) (msg_body m) (context p) w) as [rm wm] eqn:Er.
  apply render_message_spec in Er as [-> Hr]. destruct rm as [[title body]|e]; [|by intros [= <- <-]; right].
  intros [-> Hans]%request_answer. left. eexists. split; [done|]. split; [|by left].
  eapply delivers_webhook; [by apply webhook_of_components|exact (Hr _ eq_refl)|done..].
Qed.

Lemma stdout_execute_spec s p w r w' : stdout_execute s p w = (r, w') → executed (Stdout s) p w r w'.
Proof.
  unfold stdout_execute. destruct (stdout_message s) as [m|].
  - unfold mbind, eff_bind. destruct (render_message _ _ _ w) as [rr wr] eqn:Er.
    apply render_message_spec in Er as [-> Hr]. destruct rr as [[title body]|e]; intros [= <- <-]; [|by right].
    left. eexists. split; [done|]. split; [constructor|by right; eexists].
  - intros [= <- <-]. left. eexists. split; [done|]. split; [constructor|by right; eexists].
Qed.

Lemma publisher_executed c pub topic p w r w' :
  is_publisher c = true →
  (∀ m key payload, p = Single m → key = mm_id m → payload = json_text (context p) →
     ∀ r w', pub topic key payload w = (r, w') → requested c p w w' (is_ok r)) →
  publisher_execute pub topic p w = (r, w') → executed c p w r w'.
Proof. intros Hc Hp Hx. eapply publisher_execute_spec in Hx as [(? & ? & ->)|Hx]; [by right|by left|done]. Qed.

(** Executing the action of a configuration. *)
Lemma action_execute_spec c a p w r w' :
  action_of c a → action_execute a p w = (r, w') → executed c p w r w'.
Proof.
  destruct c as [c|c|c|c|s|k|rm|n]; cbn [action_of];
    [by intros (? & ? & ? & ? & ->); apply webhook_execute_spec..| | | |].
  - intros ->. apply stdout_execute_spec.
  - intros (pb & Hk & ->). revert Hk. unfold kafka_from_config. rewrite bind_Ok. intros (_ & _ & [= <-]).
    apply publisher_executed; [done|]. intros m key payload -> -> -> r1 w1 [-> Hans]%request_answer.
    eexists. split; [done|]. split; [constructor|by left].
  - intros (pb & Hk & ->). revert Hk. unfold rabbit_from_config. rewrite bind_Ok. intros (_ & _ & [= <-]).
    apply publisher_executed; [done|]. intros m key payload -> -> -> r1 w1 [-> Hans]%request_answer.
    eexists. split; [done|]. split; [constructor|by left].
  - intros (pb & Hk & ->). revert Hk. unfold nats_from_config. rewrite bind_Ok. intros (_ & _ & [= <-]).
    apply publisher_executed; [done|]. intros m key payload -> -> -> r1 w1 [-> Hans]%request_answer.
    eexists. split; [done|]. split; [constructor|by left].
    unfold str_is_empty. case_bool_decide; done.
Qed.

(** C19: Once the dispatcher has been created, executing a payload makes at most one
    request, to the action configured under the payload's name: a webhook is sent to
    the configured place, with the configured retry policy, the message of the action
    (or, for an aggregated payload, of its policy) rendered in the payload's context,
    and the payload's idempotency key; a publisher sends a single match under its
    identifier.  It succeeds only if that request was answered, but for the
    publishers, which accept aggregated payloads without sending anything; on an error
    nothing was sent or the request failed.  Only publishers can be missing. *)
Theorem dispatcher_execute_delivers features configs pool d pool' p config w r w' :
  pool_ok pool →
  ActionDispatcher_new features configs pool = (Ok d, pool') →
  configs !! action_name p = Some config →
  dispatcher_execute d p w = (r, w') →
  (is_publisher (ac_config config) = false → is_Some (d !! action_name p)) ∧
  match r with
  | Ok _ => requested (ac_config config) p w w' true ∨
            (is_publisher (ac_config config) = true ∧ is_aggregated p = true ∧ w' = w)
  | Err _ => w' = w ∨ requested (ac_config config) p w w' false
  end.
Proof.
  intros Hok Hnew Hcfg. unfold dispatcher_execute, mbind, eff_bind, lift_result.
  destruct (create_actions_spec _ _ _ _ _ _ Hok Hnew) as (Hfrom & _ & Hall).
  intros Hx. split; [intros Hp; eapply Hall; [by apply elem_of_map_to_list|done]|].
  destruct (d !! action_name p) as [a|] eqn:Ed; cbn in Hx; [|injection Hx as <- <-; by left].
  destruct (Hfrom _ _ Ed) as [?%lookup_empty_Some|(c & Hc & Ha)]; [done|].
  apply elem_of_map_to_list in Hc. simplify_eq.
  destruct (action_execute_spec _ _ _ _ _ _ Ha Hx) as [Hr|[-> Hr]]; destruct r; cbn in *; [by left|by right|right|by left].
  destruct (Hr eq_refl). auto.
Qed.
End DispatchTheorems.

(** ** Examples *)

Import MonitorMatch.Demo.

Module DispatchDemo.
(** A template engine without variables, which refuses an unclosed one. *)
#[export] Instance demo_templates : TemplateEngine := {|
  template_from_str s := if decide (s = "{{ unclosed") then Err "syntax error" else Ok tt;
  render_str s _ := if decide (s = "{{ unclosed") then Err "syntax error" else Ok s
|}.
#[export] Instance demo_env : DispatchEnv := {|
  reqwest_build _ := Ok tt;
  parse_method m := if decide (m = "PATCH") then Some m else None;
  parse_url u := Some u;
  webhook_client_new _ := Ok tt;
  kafka_create _ := Ok tt;
  rabbit_declare _ _ _ := Err "connection refused";
  nats_connect _ _ := Ok tt;
  json_text _ := "{}";
  action_debug _ := "action"
|}.
Definition all_features : Features := mkFeatures true true true.
Definition message : NotificationMessage := mkMessage "title" "body".
Definition slack_action : ActionConfig :=
  mkAction (Some 1%Z) "hook" (Slack (mkSlack "https://hooks.slack.com/x" message HttpRetryConfig_default)) None.
Definition kafka_action : ActionConfig :=
  mkAction (Some 2%Z) "kafka"
    (Kafka (mkKafka "alerts" "localhost:9092" KafkaSecurityConfig_default KafkaProducerConfig_default)) None.
Definition rabbit_action : ActionConfig :=
  mkAction (Some 3%Z) "rabbit" (RabbitMq (mkRabbit "amqp://x" "e" "Topic" None)) None.
Definition demo_configs : gmap string ActionConfig :=
  <["hook" := slack_action]> (<["kafka" := kafka_action]> (<["rabbit" := rabbit_action]> ∅)).
Definition demo_pool : HttpClientPool := HttpClientPool_new BaseHttpClientConfig_default.
Definition demo_dispatcher : gmap string ActionType :=
  match (ActionDispatcher_new all_features demo_configs demo_pool).1 with Ok d => d | Err _ => ∅ end.
Definition quiet_world : World := mkWorld [] (λ _, Ok tt).
Definition demo_payload : ActionPayload := Single (build MonitorMatch.Demo.demo_tx_builder).
End DispatchDemo.
Import DispatchDemo.

Lemma demo_pool_ok : pool_ok demo_pool.
Proof. apply (callers_ok BaseHttpClientConfig_default []). Qed.

Lemma dispatcher_execute_delivers_witness :
  let '(r, w) := dispatcher_execute demo_dispatcher demo_payload quiet_world in
  r = Ok tt ∧ requested (ac_config slack_action) demo_payload quiet_world w true ∧
  (∃ c cl, w_requests w = [Notify c cl "title" "body" SlackPayload (Some "1-hook-0x7")]).
Proof.
  destruct (dispatcher_execute demo_dispatcher demo_payload quiet_world) as [r w] eqn:E.
  assert (r = Ok tt) as -> by (apply (f_equal fst) in E; vm_compute in E; done).
  destruct (ActionDispatcher_new all_features demo_configs demo_pool) as [rd pool'] eqn:En.
  assert ((ActionDispatcher_new all_features demo_configs demo_pool).1 = Ok demo_dispatcher) as Hd
    by (vm_compute; reflexivity).
  rewrite En in Hd. cbn in Hd. subst rd.
  destruct (dispatcher_execute_delivers all_features demo_configs demo_pool demo_dispatcher pool' demo_payload
    slack_action quiet_world (Ok tt) w demo_pool_ok En ltac:(by vm_compute) E) as [_ [Hr|(Hp & _)]]; [|done].
  split; [done|]. split; [exact Hr|].
  apply (f_equal snd) in E. cbn in E. subst w. vm_compute. eauto.
Defined.

(** An aggregated payload for a publisher: success, and nothing was sent. *)
Lemma aggregated_publisher_sends_nothing :
  let p := Aggregated "kafka" [build MonitorMatch.Demo.demo_tx_builder] message in
  dispatcher_execute demo_dispatcher p quiet_world = (Ok tt, quiet_world).
Proof. vm_compute. reflexivity. Qed.

(** A broker that cannot be reached at startup is left out; its action then fails. *)
Lemma unreachable_broker_left_out :
  demo_dispatcher !! "rabbit" = None ∧ is_Some (demo_dispatcher !! "kafka").
Proof. split; [by vm_compute|by eexists; vm_compute]. Qed.
