(* ===== verification/Validator.v ===== *)
(** * The monitor validator ([crates/argus-monitor/src/validator.rs])

    The checks a monitor configuration passes before it is stored: network,
    actions, address, script, the rules that tie the script to an address and an
    ABI, and the templates of its actions, rendered in a dummy context. *)
From S2P Require Import Prelude Models MonitorMatch Abi Conversions RhaiScript HttpPool Dispatch.

(** ** The serialisation of an action ([models/action]) *)

Definition opt_json {A} (f : A → Json) (o : option A) : Json :=
  match o with Some a => f a | None => JNull end.
(** [skip_serializing_if = "Option::is_none"]. *)
Definition opt_field {A} (k : string) (f : A → Json) (o : option A) : list (string * Json) :=
  match o with Some a => [(k, f a)] | None => [] end.

Definition NotificationMessage_to_json (m : NotificationMessage) : Json :=
  JObject (bmap_of_list [("title", JString (msg_title m)); ("body", JString (msg_body m))]).

Definition HttpRetryConfig_to_json (c : HttpRetryConfig) : Json :=
  JObject (bmap_of_list
    [("max_retry", JNumber (max_retry c)); ("base_for_backoff", JNumber (base_for_backoff c));
     ("initial_backoff_ms", JNumber (initial_backoff_ms c)); ("max_backoff_secs", JNumber (max_backoff_secs c / 1000));
     ("jitter", JString (match jitter c with JitterNone => "none" | JitterFull => "full" end))]).

Definition ActionPolicy_to_json (p : ActionPolicy) : Json :=
  match p with
  | Aggregation p =>
      JObject [("aggregation", JObject (bmap_of_list
        [("window_secs", JNumber (agg_window_secs p / 1000)); ("template", NotificationMessage_to_json (agg_template p))]))]
  | Throttle p =>
      JObject [("throttle", JObject (bmap_of_list
        [("max_count", JNumber (thr_max_count p)); ("time_window_secs", JNumber (thr_time_window_secs p / 1000))]))]
  end.

(** The variant of [ActionTypeConfig], flattened: its name and its content. *)
Definition ActionTypeConfig_field (c : ActionTypeConfig) : string * Json :=
  match c with
  | Webhook c => ("webhook", JObject (bmap_of_list
      [("url", JString (wh_url c)); ("method", opt_json JString (wh_method c)); ("secret", opt_json JString (wh_secret c));
       ("headers", opt_json (λ h, JObject (bmap_of_list (prod_map id JString <$> map_to_list h))) (wh_headers c));
       ("message", NotificationMessage_to_json (wh_message c)); ("retry_policy", HttpRetryConfig_to_json (wh_retry_policy c))]))
  | Slack c => ("slack", JObject (bmap_of_list
      [("slack_url", JString (slack_url c)); ("message", NotificationMessage_to_json (slack_message c));
       ("retry_policy", HttpRetryConfig_to_json (slack_retry_policy c))]))
  | Discord c => ("discord", JObject (bmap_of_list
      [("discord_url", JString (discord_url c)); ("message", NotificationMessage_to_json (discord_message c));
       ("retry_policy", HttpRetryConfig_to_json (discord_retry_policy c))]))
  | Telegram c => ("telegram", JObject (bmap_of_list
      [("token", JString (tg_token c)); ("chat_id", JString (tg_chat_id c));
       ("message", NotificationMessage_to_json (tg_message c));
       ("disable_web_preview", opt_json JBool (tg_disable_web_preview c));
       ("retry_policy", HttpRetryConfig_to_json (tg_retry_policy c))]))
  | Stdout c => ("stdout", JObject (bmap_of_list [("message", opt_json NotificationMessage_to_json (stdout_message c))]))
  | Kafka c =>
      let s := kafka_security c in let p := kafka_producer c in
      ("kafka", JObject (bmap_of_list
      [("topic", JString (kafka_topic c)); ("brokers", JString (kafka_brokers c));
       ("security", JObject (bmap_of_list
          ([("protocol", JString (ks_protocol s))] ++ opt_field "sasl_mechanism" JString (ks_sasl_mechanism s)
           ++ opt_field "sasl_username" JString (ks_sasl_username s) ++ opt_field "sasl_password" JString (ks_sasl_password s)
           ++ opt_field "ssl_ca_location" JString (ks_ssl_ca_location s))));
       ("producer", JObject (bmap_of_list
          [("message_timeout_ms", JNumber (kp_message_timeout_ms p)); ("compression_codec", JString (kp_compression_codec p));
           ("acks", JString (kp_acks p))]))]))
  | RabbitMq c => ("rabbit_mq", JObject (bmap_of_list
      ([("uri", JString (rmq_uri c)); ("exchange", JString (rmq_exchange c)); ("exchange_type", JString (rmq_exchange_type c))]
       ++ opt_field "routing_key" JString (rmq_routing_key c))))
  | Nats c => ("nats", JObject (bmap_of_list
      [("urls", JString (nats_urls c)); ("subject", JString (nats_subject c));
       ("credentials", opt_json (λ k, JObject (bmap_of_list
          (opt_field "token" JString (nc_token k) ++ opt_field "file" JString (nc_file k)))) (nats_credentials c))]))
  end.

Definition ActionConfig_to_json (a : ActionConfig) : Json :=
  JObject (bmap_of_list
    (opt_field "id" JNumber (ac_id a) ++ [("name", JString (ac_name a)); ActionTypeConfig_field (ac_config a)]
     ++ opt_field "policy" ActionPolicy_to_json (ac_policy a))).

(** ** The dummy transaction ([models/transaction_builder.rs], without receipt) *)

Definition dummy_transaction : Transaction :=
  {| tx_hash := 0; tx_to := Some 0%Z; tx_from := 0; tx_input := []; tx_value := 1000000000000000000;
     tx_gas := 21000; tx_gas_price := None; tx_nonce := 0; tx_block_hash := None; tx_block_number := None;
     tx_transaction_index := None; tx_max_fee_per_gas := 2000000000; tx_max_priority_fee_per_gas := Some 1000000000%Z;
     tx_chain_id := Some 1%Z; tx_transaction_type := Eip1559 |}.

Section Validator.
Context `{AlloyPrimitives} `{DynAbi} `{RhaiEngine} `{TemplateEngine}.

Inductive MonitorValidationError :=
| MonitorRequiresAddress (monitor_name : string)
| MonitorRequiresAbi (monitor_name reason : string)
| InvalidAddress (monitor_name address : string)
| InvalidNetwork (monitor_name : string) (expected_network actual_network : NetworkId)
| UnknownAction (monitor_name action_name : string)
| ScriptError (monitor_name : string) (error : RhaiScriptValidationError)
| InvalidCalldataConfig (monitor_name reason : string)
| InvalidActionTemplate (monitor_name action_name template invalid_variable : string).

(** An error, or the panic of an [expect]. *)
Inductive ValidatorFault := ValidatorErr (e : MonitorValidationError) | ValidatorPanic.

Record MonitorValidator := mkValidator {
  mv_network_id : NetworkId;
  mv_actions : list ActionConfig;
  mv_abi_service : AbiService
}.
Implicit Types (v : MonitorValidator) (monitor : MonitorConfig).

(** ** The checks *)

Definition validate_network v monitor : result MonitorValidationError unit :=
  if decide (mc_network monitor = mv_network_id v) then Ok tt
  else Err (InvalidNetwork (mc_name monitor) (mv_network_id v) (mc_network monitor)).

(** [ActionValidator]. *)
Definition action_exists (actions : list ActionConfig) (action_name : string) : bool :=
  existsb (λ a, bool_decide (ac_name a = action_name)) actions.
Definition find_action (actions : list ActionConfig) (action_name : string) : option ActionConfig :=
  List.find (λ a, bool_decide (ac_name a = action_name)) actions.
Definition validate_actions (actions : list ActionConfig) monitor : result MonitorValidationError unit :=
  _ ← collect_result (λ n, if action_exists actions n then Ok tt else Err (UnknownAction (mc_name monitor) n))
        (mc_actions monitor);
  Ok tt.

(** [AddressValidator::parse_and_validate]. *)
Definition parse_and_validate monitor : result MonitorValidationError (option Address * bool) :=
  match mc_address monitor with
  | None => Ok (None, false)
  | Some address_str =>
      if eq_ignore_ascii_case address_str "all" then Ok (None, true)
      else
        parsed_address ← ok_or (parse_address address_str) (InvalidAddress (mc_name monitor) address_str);
        Ok (Some parsed_address, false)
  end.

Definition get_monitor_abi_json v monitor (parsed_address : option Address) : option (Arc JsonAbi) :=
  match mc_abi_name monitor with
  | Some abi_name => get_abi_by_name (mv_abi_service v) abi_name
  | None =>
      match parsed_address with
      | Some address => cc_abi <$> get_abi (mv_abi_service v) address
      | None => None
      end
  end.

Definition validate_script_of monitor (abi : option JsonAbi)
    : eff RhaiCompiler MonitorValidationError RhaiScriptValidationResult :=
  eff_map_err (ScriptError (mc_name monitor)) (validate_script (mc_filter_script monitor) abi).

Definition validate_script_and_abi_rules monitor (script_result : RhaiScriptValidationResult)
    (is_global_log_monitor abi_was_retrieved : bool) : result MonitorValidationError unit :=
  let requires reason := Err (MonitorRequiresAbi (mc_name monitor) reason) in
  if negb (sa_accesses_log_variable (vr_ast_analysis script_result)) then Ok tt
  else if is_global_log_monitor then
    match mc_abi_name monitor with
    | None => requires "ABI is required for global log monitoring (address: all) to decode logs."
    | Some n =>
        if abi_was_retrieved then Ok tt
        else requires ("ABI '" +:+ n +:+ "' could not be retrieved for global log monitor. Ensure the ABI is loaded.")
    end
  else
    match mc_address monitor with
    | None => Err (MonitorRequiresAddress (mc_name monitor))
    | Some a =>
        match mc_abi_name monitor with
        | None => requires "ABI is required for contract-specific log monitoring to decode logs."
        | Some n =>
            if abi_was_retrieved then Ok tt
            else requires ("ABI '" +:+ n +:+ "' could not be retrieved for address '" +:+ a
                             +:+ "'. Ensure the ABI is loaded and linked.")
        end
    end.

(** [CalldataValidator::validate]. *)
Definition validate_calldata monitor : result MonitorValidationError unit :=
  let invalid reason := Err (InvalidCalldataConfig (mc_name monitor) reason) in
  match mc_abi_name monitor with
  | None => invalid "Calldata decoding is enabled, but no ABI is specified. Please provide an ABI name."
  | Some _ =>
      match mc_address monitor with
      | Some addr =>
          if eq_ignore_ascii_case addr "all"
          then invalid "Calldata decoding cannot be enabled for global monitors (address: all). Please specify a concrete contract address."
          else Ok tt
      | None => invalid "Calldata decoding is enabled, but no contract address is specified. Please provide a contract address."
      end
  end.

(** ** Templates *)

Definition create_dummy_value_for_type (t : string) : Json :=
  if decide (t = "address") then JString "0x0000000000000000000000000000000000000000"
  else if starts_with "uint" t || starts_with "int" t then JString "1000000000000000000"
  else if decide (t = "bool") then JBool true
  else if starts_with "bytes" t then JString "0x000000"
  else if decide (t = "string") then JString "dummy_string"
  else if str_contains "[" t then JArray []
  else JString "dummy_value".

(** The loops over the inputs: the first input of a name gives its value. *)
Definition add_dummy (m : bmap Json) (input : string * string) : bmap Json :=
  bmap_or_insert input.1 (create_dummy_value_for_type input.2) m.

Definition extract_event_parameters (abi : JsonAbi) : bmap Json :=
  foldl add_dummy [] (ev ← abi_events abi; (λ p, (ep_name p, ep_ty p)) <$> ev_inputs ev).
Definition extract_function_inputs (abi : JsonAbi) : bmap Json :=
  foldl add_dummy [] (f ← abi_functions abi; (λ p, (param_name p, param_ty p)) <$> fn_inputs f).

Definition generate_dummy_context monitor (abi : option JsonAbi) : Json :=
  let match_builder := builder 123 (mc_name monitor) "Dummy action" 1234567890 0 in
  let log_params := match abi with Some abi => extract_event_parameters abi | None => [] end in
  let log_details := mkLogDetails 0 0 "DummyLog" (JObject log_params) in
  let tx_details := build_transaction_details_payload dummy_transaction None in
  let call_params := match abi with Some abi => extract_function_inputs abi | None => [] end in
  let decoded := JObject (bmap_of_list [("name", JString "DummyFunction"); ("params", JObject call_params)]) in
  MonitorMatch_to_json (build (decoded_call (log_match match_builder log_details tx_details) (Some decoded))).

Definition create_policy_aware_context (action : ActionConfig) (base_context : Json) : Json :=
  match base_context with
  | JObject ctx =>
      match ac_policy action with
      | Some (Aggregation _) => JObject (bmap_insert "matches" (JArray []) ctx)
      | _ => JObject ctx
      end
  | _ => base_context
  end.

Definition is_template_string (s : string) : bool := str_contains "{{" s && str_contains "}}" s.

(** [find_templates_recursive], in the order of the traversal. *)
Fixpoint extract_templates (val : Json) : list string :=
  match val with
  | JString s => if is_template_string s then [s] else []
  | JObject obj => (fix go (l : bmap Json) := match l with [] => [] | (_, x) :: l => extract_templates x ++ go l end) obj
  | JArray arr => (fix go l := match l with [] => [] | x :: l => extract_templates x ++ go l end) arr
  | _ => []
  end.

Definition validate_single_action_template (actions : list ActionConfig) monitor (ctx : Json) (action_name : string)
    : result ValidatorFault unit :=
  match find_action actions action_name with
  | None => Err ValidatorPanic
  | Some action =>
      let policy_context := create_policy_aware_context action ctx in
      _ ← collect_result (λ template,
            match render template policy_context with
            | Ok _ => Ok tt
            | Err (RenderError e) =>
                Err (ValidatorErr (InvalidActionTemplate (mc_name monitor) action_name template e))
            end) (extract_templates (ActionConfig_to_json action));
      Ok tt
  end.

(** [TemplateValidator::validate]. *)
Definition validate_templates (actions : list ActionConfig) monitor (abi : option JsonAbi) : result ValidatorFault unit :=
  let ctx := generate_dummy_context monitor abi in
  _ ← collect_result (validate_single_action_template actions monitor ctx) (mc_actions monitor);
  Ok tt.

(** ** [MonitorValidator::validate] *)

Definition validate_monitor v monitor : eff RhaiCompiler ValidatorFault unit :=
  _ ← lift_result (map_err ValidatorErr (validate_network v monitor));
  _ ← lift_result (map_err ValidatorErr (validate_actions (mv_actions v) monitor));
  '(parsed_address, is_global_log_monitor) ← lift_result (map_err ValidatorErr (parse_and_validate monitor));
  let abi_json := get_monitor_abi_json v monitor parsed_address in
  script_validation_result ← eff_map_err ValidatorErr (validate_script_of monitor (arc_val <$> abi_json));
  _ ← lift_result (map_err ValidatorErr (validate_script_and_abi_rules monitor script_validation_result
         is_global_log_monitor (bool_decide (is_Some abi_json))));
  _ ← (if sa_accesses_call_variable (vr_ast_analysis script_validation_result)
       then lift_result (map_err ValidatorErr (validate_calldata monitor)) else mret tt);
  lift_result (validate_templates (mv_actions v) monitor (arc_val <$> abi_json)).
End Validator.

(** ** What a valid monitor is *)

Section ValidatorTheorems.
Context `{AlloyPrimitives} `{DynAbi} `{RhaiEngine} `{TemplateEngine}.
Implicit Types (v : MonitorValidator) (monitor : MonitorConfig).

Definition global_address (a : string) : bool := eq_ignore_ascii_case a "all".

(** The ABI a monitor is validated with. *)
Definition monitor_abi v monitor : option JsonAbi :=
  arc_val <$>
  match mc_abi_name monitor with
  | Some n => get_abi_by_name (mv_abi_service v) n
  | None =>
      a ← mc_address monitor;
      if global_address a then None
      else addr ← parse_address a; cc_abi <$> get_abi (mv_abi_service v) addr
  end.

Record monitor_valid v monitor (c : RhaiCompiler) : Prop := {
  valid_network : mc_network monitor = mv_network_id v;
  valid_actions n : n ∈ mc_actions monitor → ∃ a, a ∈ mv_actions v ∧ ac_name a = n;
  valid_address a : mc_address monitor = Some a → global_address a = true ∨ is_Some (parse_address a);
  (** A script that reads [log] needs an address (or all of them) and a loaded ABI,
      one that reads [decoded_call] a concrete address and the name of an ABI. *)
  valid_script : ∃ r, (validate_script (mc_filter_script monitor) (monitor_abi v monitor) c).1 = Ok r ∧
    (sa_accesses_log_variable (vr_ast_analysis r) = true →
       ∃ a n, mc_address monitor = Some a ∧ mc_abi_name monitor = Some n ∧
              is_Some (get_abi_by_name (mv_abi_service v) n)) ∧
    (sa_accesses_call_variable (vr_ast_analysis r) = true →
       ∃ a n, mc_address monitor = Some a ∧ global_address a = false ∧ mc_abi_name monitor = Some n);
  (** Every template string of an action renders in the dummy context of its policy. *)
  valid_templates n a t :
    n ∈ mc_actions monitor → find_action (mv_actions v) n = Some a → t ∈ extract_templates (ActionConfig_to_json a) →
    is_ok (render_str t (create_policy_aware_context a (generate_dummy_context monitor (monitor_abi v monitor)))) = true
}.

Lemma collect_unit_Ok {E A} (f : A → result E unit) l :
  (_ ← collect_result f l; Ok tt) = Ok tt ↔ ∀ a, a ∈ l → f a = Ok tt.
Proof.
  rewrite <- collect_result_unit_Ok. by destruct (collect_result f l).
Qed.

Lemma find_action_Some actions n a : find_action actions n = Some a → a ∈ actions ∧ ac_name a = n.
Proof. intros [Ha Hn]%List.find_some. bool_to_prop. split; [by apply list_elem_of_In|done]. Qed.

Lemma action_exists_true actions n : action_exists actions n = true ↔ ∃ a, a ∈ actions ∧ ac_name a = n.
Proof.
  unfold action_exists. rewrite existsb_exists. setoid_rewrite bool_decide_eq_true. setoid_rewrite <- list_elem_of_In. done.
Qed.

Lemma action_exists_found actions n : action_exists actions n = true → is_Some (find_action actions n).
Proof.
  intros (a & Ha & Hn)%action_exists_true. unfold find_action.
  destruct (List.find _ actions) eqn:E; [by eexists|].
  eapply List.find_none in E; [|by apply list_elem_of_In]. by bool_to_prop.
Qed.

Lemma validate_network_Ok v monitor : validate_network v monitor = Ok tt ↔ mc_network monitor = mv_network_id v.
Proof. unfold validate_network. by case_decide. Qed.

Lemma validate_actions_Ok actions monitor :
  validate_actions actions monitor = Ok tt ↔ ∀ n, n ∈ mc_actions monitor → action_exists actions n = true.
Proof.
  unfold validate_actions. rewrite collect_unit_Ok. split; intros Hl n Hn; specialize (Hl n Hn); by destruct (action_exists actions n).
Qed.

(** The address is well-formed; the flag and the parsed address are its reading. *)
Lemma parse_and_validate_Ok monitor p g :
  parse_and_validate monitor = Ok (p, g) ↔
  (∀ a, mc_address monitor = Some a → global_address a = true ∨ is_Some (parse_address a)) ∧
  p = (a ← mc_address monitor; if global_address a then None else parse_address a) ∧
  g = match mc_address monitor with Some a => global_address a | None => false end.
Proof.
  unfold parse_and_validate, global_address. destruct (mc_address monitor) as [a|]; cbn; [|naive_solver].
  destruct (eq_ignore_ascii_case a "all") eqn:E; [naive_solver|].
  destruct (parse_address a) eqn:Ea; cbn; split.
  - intros [= <- <-]. split; [|done]. intros ? [= <-]. rewrite Ea. by right; eexists.
  - by intros (_ & -> & ->).
  - done.
  - intros (Ha & _). destruct (Ha a eq_refl) as [?|Hs]; [congruence|]. rewrite Ea in Hs. by destruct Hs.
Qed.

Lemma abi_rules_Ok v monitor r abi g :
  g = match mc_address monitor with Some a => global_address a | None => false end →
  (∀ n, mc_abi_name monitor = Some n → abi = get_abi_by_name (mv_abi_service v) n) →
  validate_script_and_abi_rules monitor r g (bool_decide (is_Some abi)) = Ok tt ↔
  (sa_accesses_log_variable (vr_ast_analysis r) = true →
     ∃ a n, mc_address monitor = Some a ∧ mc_abi_name monitor = Some n ∧ is_Some (get_abi_by_name (mv_abi_service v) n)).
Proof.
  intros -> Habi. unfold validate_script_and_abi_rules.
  destruct (sa_accesses_log_variable (vr_ast_analysis r)); cbn; [|done].
  destruct (mc_abi_name monitor) as [n|].
  - rewrite (Habi n eq_refl). destruct (mc_address monitor) as [a|]; [|naive_solver].
    destruct (global_address a); case_bool_decide; naive_solver.
  - repeat case_match; naive_solver.
Qed.

Lemma validate_calldata_Ok monitor :
  validate_calldata monitor = Ok tt ↔
  ∃ a n, mc_address monitor = Some a ∧ global_address a = false ∧ mc_abi_name monitor = Some n.
Proof.
  unfold validate_calldata, global_address. destruct (mc_abi_name monitor), (mc_address monitor) as [a|]; cbv zeta;
    try (split; [done|by intros (? & ? & ? & ? & ?)]).
  destruct (eq_ignore_ascii_case a "all") eqn:E; [|split; [intros _; eauto|done]].
  split; [done|]. intros (? & ? & [= <-] & ? & ?). congruence.
Qed.

Lemma validate_templates_Ok actions monitor abi :
  (∀ n, n ∈ mc_actions monitor → action_exists actions n = true) →
  (validate_templates actions monitor abi = Ok tt ↔
   ∀ n a t, n ∈ mc_actions monitor → find_action actions n = Some a → t ∈ extract_templates (ActionConfig_to_json a) →
     is_ok (render_str t (create_policy_aware_context a (generate_dummy_context monitor abi))) = true) ∧
  validate_templates actions monitor abi ≠ Err ValidatorPanic.
Proof.
  intros Hex. unfold validate_templates. split.
  - rewrite collect_unit_Ok. unfold validate_single_action_template. split.
    + intros Hl n a t Hn Ha Ht. specialize (Hl n Hn). rewrite Ha, collect_unit_Ok in Hl. specialize (Hl t Ht).
      unfold render in Hl. by destruct (render_str t _).
    + intros Hl n Hn. destruct (action_exists_found _ _ (Hex n Hn)) as [a Ha]. rewrite Ha, collect_unit_Ok.
      intros t Ht. specialize (Hl n a t Hn Ha Ht). unfold render. by destruct (render_str t _).
  - rewrite bind_Err. intros [Hp|(? & _ & ?)]; [|done].
    apply collect_result_Err in Hp as (n & Hn & Hp). destruct (action_exists_found _ _ (Hex n Hn)) as [a Ha].
    revert Hp. unfold validate_single_action_template. rewrite Ha, bind_Err. intros [Hp|(? & _ & ?)]; [|done].
    apply collect_result_Err in Hp as (t & _ & Hp). revert Hp. by destruct (render t _) as [|[]].
Qed.
(** One check after the other: [r] decides, or the rest does. *)
Definition checked (r : result ValidatorFault unit) (P : Prop) : Prop := (r = Ok tt ↔ P) ∧ r ≠ Err ValidatorPanic.

Lemma checked_step {A} (r : result MonitorValidationError A) (k : A → eff RhaiCompiler ValidatorFault unit) c (P : Prop) :
  (P → is_ok r = true) → (∀ a, r = Ok a → checked (k a c).1 P) →
  checked ((lift_result (map_err ValidatorErr r) ≫= k) c).1 P.
Proof.
  intros Hp Hk. unfold mbind, eff_bind, lift_result. destruct r as [a|e]; cbn; [by apply Hk|].
  split; [|done]. split; [done|]. intros []%Hp%diff_false_true.
Qed.

Lemma is_ok_unit {E} (r : result E unit) : is_ok r = true ↔ r = Ok tt.
Proof. destruct r as [[]|]; split; done. Qed.

Lemma monitor_abi_parsed v monitor p g :
  parse_and_validate monitor = Ok (p, g) → arc_val <$> get_monitor_abi_json v monitor p = monitor_abi v monitor.
Proof.
  intros (_ & -> & _)%parse_and_validate_Ok. unfold monitor_abi, get_monitor_abi_json.
  destruct (mc_abi_name monitor); [done|]. destruct (mc_address monitor) as [a|]; cbn; [|done].
  destruct (global_address a); [done|]. by destruct (parse_address a).
Qed.

Lemma validate_monitor_checked v monitor c :
  checked (validate_monitor v monitor c).1 (monitor_valid v monitor c).
Proof.
  apply checked_step; [intros Hv; apply is_ok_unit, validate_network_Ok, Hv|]. intros [] Hnet%validate_network_Ok.
  apply checked_step.
  { intros Hv. apply is_ok_unit, validate_actions_Ok. intros n Hn. by apply action_exists_true, Hv. }
  intros [] Hact. rewrite validate_actions_Ok in Hact.
  apply checked_step.
  { intros Hv. destruct (parse_and_validate monitor) as [[]|] eqn:E; [done|].
    pose proof (proj2 (parse_and_validate_Ok monitor _ _) (conj (valid_address _ _ _ Hv) (conj eq_refl eq_refl))). congruence. }
  intros [p g] Hpar. pose proof (monitor_abi_parsed v monitor p g Hpar) as Habi.
  apply parse_and_validate_Ok in Hpar as (Haddr & _ & Hg).
  unfold mbind at 1, eff_bind at 1, validate_script_of, eff_map_err. rewrite Habi.
  destruct (validate_script (mc_filter_script monitor) (monitor_abi v monitor) c) as [[r|e] c'] eqn:Es; cbn.
  2: { split; [|done]. split; [done|]. intros Hv. destruct (valid_script _ _ _ Hv) as (? & Hs & _). by rewrite Es in Hs. }
  assert (∀ r', (validate_script (mc_filter_script monitor) (monitor_abi v monitor) c).1 = Ok r' → r' = r) as Hr.
  { intros r'. rewrite Es. by intros [= <-]. }
  assert (∀ n, mc_abi_name monitor = Some n → get_monitor_abi_json v monitor p = get_abi_by_name (mv_abi_service v) n) as Hname.
  { intros n Hn. unfold get_monitor_abi_json. by rewrite Hn. }
  apply checked_step.
  { intros Hv. apply is_ok_unit, (abi_rules_Ok v monitor r _ _ Hg Hname). destruct (valid_script _ _ _ Hv) as (? & ->%Hr & Hl & _). done. }
  intros [] Hrules. rewrite (abi_rules_Ok v monitor r _ _ Hg Hname) in Hrules.
  assert ((sa_accesses_call_variable (vr_ast_analysis r) = true → validate_calldata monitor = Ok tt) →
    checked (validate_templates (mv_actions v) monitor (monitor_abi v monitor)) (monitor_valid v monitor c)) as Hlast.
  { intros Hcall. destruct (validate_templates_Ok (mv_actions v) monitor (monitor_abi v monitor) Hact) as [Ht Hpanic].
    split; [|done]. split; [|by intros Hv; apply Ht, Hv]. intros Hok. rewrite Ht in Hok. split; [done| |done| |done].
    - intros n Hn. by apply action_exists_true, Hact.
    - exists r. rewrite Es. split_and!; [done..|]. by intros ?%Hcall%validate_calldata_Ok. }
  destruct (sa_accesses_call_variable (vr_ast_analysis r)) eqn:Ea; [|by apply Hlast].
  apply checked_step; [|by intros []; auto].
  intros Hv. apply is_ok_unit, validate_calldata_Ok. destruct (valid_script _ _ _ Hv) as (? & ->%Hr & _ & Hc). by apply Hc.
Qed.

(** C20: A monitor is accepted exactly when it is valid: it is of the validator's
    network, its actions exist, its address can be parsed or is [all], its script
    passes the script validator with its ABI and has the address and the ABI its
    variables require, and every template of its actions renders in the dummy context.
    The [expect] on the actions never panics. *)
Theorem validate_monitor_correct v monitor c :
  ((validate_monitor v monitor c).1 = Ok tt ↔ monitor_valid v monitor c) ∧
  (validate_monitor v monitor c).1 ≠ Err ValidatorPanic.
Proof. apply validate_monitor_checked. Qed.

(** Validation uses the compiler only through its cache. *)
Lemma validate_monitor_cache `{!Sha256Injective} v monitor c : cache_ok c → cache_ok (validate_monitor v monitor c).2.
Proof.
  intros Hc. unfold validate_monitor, mbind, eff_bind, lift_result, eff_map_err, validate_script_of, validate_script, eff_map_err.
  destruct (validate_network v monitor), (validate_actions (mv_actions v) monitor), (parse_and_validate monitor) as [[p0 g]|];
    cbn; try done.
  destruct (analyze_script_fresh (mc_filter_script monitor) c Hc) as [_ Hc'].
  destruct (analyze_script (mc_filter_script monitor) c) as [[an|] c1]; cbn in *; [|done].
  destruct (validate_analysis an _) as [r|]; cbn; [|done].
  destruct (validate_script_and_abi_rules monitor r g _); cbn; [|done].
  destruct (sa_accesses_call_variable _); [destruct (validate_calldata monitor)|]; done.
Qed.

(** ** The variables of the dummy context *)

(** The value at a path of field names. *)
Fixpoint json_get (path : list string) (j : Json) : option Json :=
  match path with
  | [] => Some j
  | k :: path => match j with JObject m => bmap_get k m ≫= json_get path | _ => None end
  end.

Definition has_path (path : list string) (j : Json) : Prop := is_Some (json_get path j).

Lemma add_dummies_keys l m n :
  is_Some (bmap_get n (foldl add_dummy m l)) ↔ is_Some (bmap_get n m) ∨ n ∈ l.*1.
Proof.
  revert m. induction l as [|p l IH]; intros m; cbn; [set_solver|].
  rewrite IH. unfold add_dummy. rewrite bmap_get_or_insert, elem_of_cons.
  destruct (bmap_get n m) eqn:E; [naive_solver|]. case_decide; subst; split; naive_solver.
Qed.

(** The dummy context of an action: what [matches] adds, and the rest. *)
Lemma policy_context_get a monitor abi path k :
  json_get (k :: path) (create_policy_aware_context a (generate_dummy_context monitor abi)) =
  match ac_policy a with
  | Some (Aggregation _) =>
      if decide (k = "matches") then json_get path (JArray [])
      else json_get (k :: path) (generate_dummy_context monitor abi)
  | _ => json_get (k :: path) (generate_dummy_context monitor abi)
  end.
Proof.
  unfold create_policy_aware_context, generate_dummy_context, MonitorMatch_to_json.
  destruct (ac_policy a) as [[]|]; [|done..]. cbn [json_get].
  rewrite bmap_get_insert. case_decide; subst; [by rewrite decide_True|by rewrite decide_False].
Qed.

Definition has_log (m : MonitorMatch) : Prop :=
  match mm_match_data m with MatchLog _ _ => True | MatchTransaction _ => False end.

(** The fields every match has. *)
Definition plain_fields : list string :=
  ["id"; "monitor_id"; "monitor_name"; "action_name"; "block_number"; "transaction_hash"; "tx"].

(** The fields at the top of a match: [log] and [decoded_call] can be missing. *)
Lemma match_top_fields m k :
  has_path [k] (MonitorMatch_to_json m) ↔
  k ∈ plain_fields ∨
  (k = "log" ∧ has_log m) ∨ (k = "decoded_call" ∧ is_Some (mm_decoded_call m)).
Proof.
  assert (∀ o : option Json, is_Some (o ≫= json_get []) ↔ is_Some o) as Hs by (by intros []).
  unfold has_path, MonitorMatch_to_json. cbn [json_get]. rewrite Hs, bmap_of_list_keys, !fmap_app.
  unfold has_log, MatchData_fields, plain_fields.
  destruct (mm_match_data m), (mm_decoded_call m); cbn; rewrite ?elem_of_cons, ?elem_of_nil; naive_solver.
Qed.

(** Looking into the fields of a match. *)
Definition match_fields (m : MonitorMatch) : list (string * Json) :=
  [("id", JString (mm_id m)); ("monitor_id", JNumber (mm_monitor_id m)); ("monitor_name", JString (mm_monitor_name m));
   ("action_name", JString (mm_action_name m)); ("block_number", JNumber (mm_block_number m));
   ("transaction_hash", JString (b256_display (mm_transaction_hash m)))]
  ++ MatchData_fields (mm_match_data m) ++ match mm_decoded_call m with Some c => [("decoded_call", c)] | None => [] end.

Lemma match_path m k j path :
  (k, j) ∈ match_fields m → json_get (k :: path) (MonitorMatch_to_json m) = json_get path j.
Proof.
  intros Hk. unfold MonitorMatch_to_json. cbn [json_get]. fold (match_fields m).
  erewrite bmap_of_list_get; [done| |exact Hk]. unfold match_fields.
  destruct (mm_match_data m), (mm_decoded_call m); cbn; (apply (bool_decide_unpack _); vm_compute; exact I).
Qed.

Definition tx_template_fields : list string :=
  ["to"; "from"; "hash"; "value"; "gas_limit"; "nonce"; "input"; "max_fee_per_gas"; "max_priority_fee_per_gas"].

Lemma dummy_tx_fields k :
  has_path [k] (build_transaction_details_payload dummy_transaction None) ↔ k ∈ tx_template_fields.
Proof.
  unfold has_path, build_transaction_details_payload, dummy_transaction, tx_template_fields. cbn [json_get tx_to tx_transaction_index tx_transaction_type tx_max_priority_fee_per_gas].
  unfold KEY_TX_TO, KEY_TX_FROM, KEY_TX_HASH, KEY_TX_VALUE, KEY_TX_GAS_LIMIT, KEY_TX_NONCE, KEY_TX_INPUT, KEY_TX_MAX_FEE_PER_GAS, KEY_TX_MAX_PRIORITY_FEE_PER_GAS.
  rewrite !bmap_get_insert, !elem_of_cons, elem_of_nil. repeat case_decide; subst; cbn; naive_solver.
Qed.

Lemma dummy_event_names abi n :
  is_Some (bmap_get n (extract_event_parameters abi)) ↔ ∃ ev p, ev ∈ abi_events abi ∧ p ∈ ev_inputs ev ∧ ep_name p = n.
Proof.
  unfold extract_event_parameters. rewrite add_dummies_keys, list_elem_of_fmap. cbn. split.
  - intros [[]|([? ?] & -> & (ev & (p & [= -> ->] & Hp)%list_elem_of_fmap & Hev)%list_elem_of_bind)]; [done|]. by exists ev, p.
  - intros (ev & p & Hev & Hp & <-). right. exists (ep_name p, ep_ty p). split; [done|].
    apply list_elem_of_bind. exists ev. split; [by apply list_elem_of_fmap; exists p|done].
Qed.

Lemma dummy_function_names abi n :
  is_Some (bmap_get n (extract_function_inputs abi)) ↔ ∃ f p, f ∈ abi_functions abi ∧ p ∈ fn_inputs f ∧ param_name p = n.
Proof.
  unfold extract_function_inputs. rewrite add_dummies_keys, list_elem_of_fmap. cbn. split.
  - intros [[]|([? ?] & -> & (f & (p & [= -> ->] & Hp)%list_elem_of_fmap & Hf)%list_elem_of_bind)]; [done|]. by exists f, p.
  - intros (f & p & Hf & Hp & <-). right. exists (param_name p, param_ty p). split; [done|].
    apply list_elem_of_bind. exists f. split; [by apply list_elem_of_fmap; exists p|done].
Qed.

(** The dummy context is the serialisation of a log match. *)
Definition dummy_match monitor (abi : JsonAbi) : MonitorMatch :=
  build (decoded_call
    (log_match (builder 123 (mc_name monitor) "Dummy action" 1234567890 0)
       (mkLogDetails 0 0 "DummyLog" (JObject (extract_event_parameters abi)))
       (build_transaction_details_payload dummy_transaction None))
    (Some (JObject (bmap_of_list [("name", JString "DummyFunction"); ("params", JObject (extract_function_inputs abi))])))).

Lemma dummy_context_match monitor abi : generate_dummy_context monitor (Some abi) = MonitorMatch_to_json (dummy_match monitor abi).
Proof. done. Qed.

Lemma dummy_top_fields monitor abi k :
  has_path [k] (generate_dummy_context monitor (Some abi)) ↔
  k ∈ (plain_fields ++ ["log"; "decoded_call"]).
Proof.
  rewrite dummy_context_match, match_top_fields. unfold has_log; cbn [mm_match_data dummy_match mm_decoded_call build decoded_call log_match with_match_data bl_match_data bl_decoded_call].
  rewrite elem_of_app, !elem_of_cons, elem_of_nil. naive_solver.
Qed.

Lemma dummy_param_paths monitor abi n :
  (has_path ["log"; "params"; n] (generate_dummy_context monitor (Some abi)) ↔ is_Some (bmap_get n (extract_event_parameters abi))) ∧
  (has_path ["decoded_call"; "params"; n] (generate_dummy_context monitor (Some abi)) ↔ is_Some (bmap_get n (extract_function_inputs abi))) ∧
  (has_path ["tx"; n] (generate_dummy_context monitor (Some abi)) ↔ n ∈ tx_template_fields).
Proof.
  assert (∀ o : option Json, is_Some (o ≫= json_get []) ↔ is_Some o) as Hs by (by intros []).
  rewrite dummy_context_match. unfold has_path. split_and!.
  - erewrite match_path; [|do 6 right; left; reflexivity].
    unfold LogDetails_to_json. cbn [json_get]. erewrite bmap_of_list_get; [| |do 3 right; left; reflexivity].
    + cbn [mbind option_bind json_get dummy_match]. apply Hs.
    + apply (bool_decide_unpack _). vm_compute. exact I.
  - erewrite match_path; [|do 8 right; left; reflexivity].
    cbn [json_get]. erewrite bmap_of_list_get; [| |right; left; reflexivity].
    + cbn [mbind option_bind json_get]. apply Hs.
    + apply (bool_decide_unpack _). vm_compute. exact I.
  - erewrite match_path; [|do 7 right; left; reflexivity]. apply dummy_tx_fields.
Qed.

(** The variables an accepted template can use are exactly: at the top, the nine
    fields of a match ([matches] too when the action aggregates); under [log.params]
    and [decoded_call.params], the names of the inputs of the ABI's events and
    functions; under [tx], nine fields.  At run time, the top fields of the context of
    a log match that carries a call are exactly those. *)
Theorem dummy_context_variables a monitor abi k :
  let ctx := create_policy_aware_context a (generate_dummy_context monitor (Some abi)) in
  let aggregates := match ac_policy a with Some (Aggregation _) => True | _ => False end in
  (has_path [k] ctx ↔
     k ∈ (plain_fields ++ ["log"; "decoded_call"])
     ∨ (k = "matches" ∧ aggregates)) ∧
  (has_path ["log"; "params"; k] ctx ↔ ∃ ev p, ev ∈ abi_events abi ∧ p ∈ ev_inputs ev ∧ ep_name p = k) ∧
  (has_path ["decoded_call"; "params"; k] ctx ↔ ∃ f p, f ∈ abi_functions abi ∧ p ∈ fn_inputs f ∧ param_name p = k) ∧
  (has_path ["tx"; k] ctx ↔ k ∈ tx_template_fields) ∧
  (∀ m, has_log m → is_Some (mm_decoded_call m) → ¬ aggregates → has_path [k] ctx ↔ has_path [k] (context (Single m))).
Proof.
  cbv zeta. destruct (dummy_param_paths monitor abi k) as (Hlog & Hcall & Htx).
  unfold has_path in *. rewrite !policy_context_get.
  pose proof (dummy_top_fields monitor abi k) as Htop. unfold has_path in Htop.
  assert ("matches" ∉ (plain_fields ++ ["log"; "decoded_call"])) as Hnm
    by (apply (bool_decide_unpack _); vm_compute; exact I).
  rewrite <- dummy_event_names, <- dummy_function_names, <- Hlog, <- Hcall, <- Htx.
  split_and!.
  - rewrite <- Htop. destruct (ac_policy a) as [[]|]; [|naive_solver..].
    case_decide; subst; [|naive_solver]. rewrite Htop. split; [by right|by eexists].
  - destruct (ac_policy a) as [[]|]; done.
  - destruct (ac_policy a) as [[]|]; done.
  - destruct (ac_policy a) as [[]|]; done.
  - intros m Hm Hc Ha. pose proof (match_top_fields m k) as Hk. unfold has_path in Hk. cbn [context]. rewrite Hk.
    destruct (ac_policy a) as [[]|]; [done| |]; rewrite Htop, elem_of_app, !elem_of_cons, elem_of_nil; naive_solver.
Qed.
End ValidatorTheorems.

(** ** Examples *)

Import MonitorMatch.Demo AbiDemo RhaiDemo DispatchDemo.

Module ValidatorDemo.
Definition validator : MonitorValidator := mkValidator "net" [slack_action; kafka_action] AbiService_new.
Definition monitor (script : string) (address : option string) (actions : list string) : MonitorConfig :=
  mkMonitorConfig "m" "net" address None script actions Active.
Definition outcome (m : MonitorConfig) : result ValidatorFault unit := (validate_monitor validator m RhaiCompiler_new).1.
Definition transfer_abi : JsonAbi := mkJsonAbi [] [mkEvent "Transfer" [mkEventParam "value" "uint256" false]].
End ValidatorDemo.
Import ValidatorDemo.

Lemma accepted_monitor : outcome (monitor "tx" (Some "0x1") ["hook"; "kafka"]) = Ok tt.
Proof. vm_compute. reflexivity. Qed.

(** The context of an action without policy, for a monitor with an ABI of one event. *)
Lemma dummy_context_variables_witness :
  let a := slack_action in
  let m := monitor "log" (Some "0x1") ["hook"] in
  let abi := transfer_abi in
  (has_path ["transaction_hash"] (create_policy_aware_context a (generate_dummy_context m (Some abi)))) ∧
  (has_path ["log"; "params"; "value"] (create_policy_aware_context a (generate_dummy_context m (Some abi)))) ∧
  ¬ has_path ["log"; "params"; "amount"] (create_policy_aware_context a (generate_dummy_context m (Some abi))).
Proof.
  cbv zeta.
  destruct (dummy_context_variables slack_action (monitor "log" (Some "0x1") ["hook"])
    transfer_abi "transaction_hash") as (Htop & _).
  destruct (dummy_context_variables slack_action (monitor "log" (Some "0x1") ["hook"])
    transfer_abi "value") as (_ & Hval & _).
  destruct (dummy_context_variables slack_action (monitor "log" (Some "0x1") ["hook"])
    transfer_abi "amount") as (_ & Hno & _).
  split; [|split].
  - apply Htop. left. apply (bool_decide_unpack _). vm_compute. exact I.
  - apply Hval. eexists _, _. split; [by left|]. split; [by left|reflexivity].
  - rewrite Hno. intros (ev & p & Hev & Hp & Hname). apply list_elem_of_singleton in Hev as ->.
    apply list_elem_of_singleton in Hp as ->. discriminate Hname.
Defined.

Lemma rejected_monitors :
  outcome (monitor "tx" None ["nobody"]) = Err (ValidatorErr (UnknownAction "m" "nobody")) ∧
  outcome (monitor "tx" (Some "0xzz") []) = Err (ValidatorErr (InvalidAddress "m" "0xzz")) ∧
  outcome (monitor "log" None []) = Err (ValidatorErr (MonitorRequiresAddress "m")) ∧
  is_ok (outcome (monitor "log" (Some "ALL") [])) = false.
Proof. vm_compute. by split_and!. Qed.

(** A template is validated against the fields of a match even when its action
    aggregates; the context it is rendered in at run time has only [matches] and
    [monitor_name]. *)
Lemma aggregated_context_is_smaller (a : ActionConfig) (m : MonitorConfig) abi p :
  ac_policy a = Some (Aggregation p) →
  (∀ k, k ∈ plain_fields → has_path [k] (create_policy_aware_context a (generate_dummy_context m (Some abi)))) ∧
  (∀ k n ms t, has_path [k] (context (Aggregated n ms t)) ↔ k = "matches" ∨ k = "monitor_name").
Proof.
  intros Hp. split.
  - intros k Hk. unfold has_path. rewrite policy_context_get, Hp. case_decide; [by eexists|].
    apply dummy_top_fields, elem_of_app. by left.
  - intros k n ms t. unfold has_path. cbn [context json_get].
    assert (∀ o : option Json, is_Some (o ≫= json_get []) ↔ is_Some o) as -> by (by intros []).
    rewrite bmap_of_list_keys. cbn. rewrite !elem_of_cons, elem_of_nil. naive_solver.
Qed.

(** The dummy value of an array of integers is a number, not an array. *)
Lemma dummy_integer_array : create_dummy_value_for_type "uint256[]" = JString "1000000000000000000".
Proof. reflexivity. Qed.
