(* ===== verification/Loader.v ===== *)
(** * Configuration files ([src/loader/mod.rs], [crates/argus-core/src/loader.rs])

    The expansion of [${VAR}] references and the loading of a list of items, each
    validated.  Reading files and parsing YAML are third-party code; the process
    environment is a function. *)
From S2P Require Import Prelude Models.

Inductive LoaderError :=
| IoError (e : string)
| ParseError (e : string)
| UnsupportedFormat
| MissingEnvVar (key : string).

Notation ascii_list := (list Ascii.ascii).
Notation dollar := (Ascii.ascii_of_nat 36) (only parsing).
Notation open_brace := (Ascii.ascii_of_nat 123) (only parsing).
Notation close_brace := (Ascii.ascii_of_nat 125) (only parsing).
Notation text := Stdlib.Strings.String.string_of_list_ascii (only parsing).

(** [[A-Z0-9_]]. *)
Definition is_var_char (c : Ascii.ascii) : bool :=
  let n := Ascii.nat_of_ascii c in
  ((65 <=? n) && (n <=? 90) || (48 <=? n) && (n <=? 57) || (n =? 95))%nat.

(** The longest run of such characters, and what follows. *)
Fixpoint span_var (s : ascii_list) : ascii_list * ascii_list :=
  match s with
  | c :: s' => if is_var_char c then let '(k, rest) := span_var s' in (c :: k, rest) else ([], s)
  | [] => ([], [])
  end.

(** A match of the regular expression [\$\{([A-Z0-9_]+)\}] at the start of the text. *)
Definition var_ref (s : ascii_list) : option ascii_list :=
  match s with
  | c1 :: c2 :: s' =>
      if decide (c1 = dollar ∧ c2 = open_brace) then
        match span_var s' with
        | ((_ :: _) as key, c3 :: _) => if decide (c3 = close_brace) then Some key else None
        | _ => None
        end
      else None
  | _ => None
  end.

(** [ConfigLoader::expand_env_vars]: the first [skip] characters belong to the
    previous match. *)
Fixpoint expand (env : string → option string) (skip : nat) (s : ascii_list) : result LoaderError ascii_list :=
  match s with
  | [] => Ok []
  | c :: s' =>
      match skip with
      | S skip => expand env skip s'
      | 0 =>
          match var_ref s with
          | Some key =>
              value ← ok_or (env (text key)) (MissingEnvVar (text key));
              rest ← expand env (length key + 2) s';
              Ok (chars value ++ rest)
          | None => rest ← expand env 0 s'; Ok (c :: rest)
          end
      end
  end.
Definition expand_env_vars (env : string → option string) (config_str : string) : result LoaderError string :=
  text <$> expand env 0 (chars config_str).

(** ** Loading *)

(** A file: its extension, its text, and what the YAML parser makes of a text. *)
Record ConfigFile (T : Type) := mkConfigFile {
  file_extension : option string;
  file_text : result string string;
  parse_items : string → result string (list T)
}.
Arguments mkConfigFile {T} _ _ _.
Arguments file_extension {T} _.
Arguments file_text {T} _.
Arguments parse_items {T} _ _.

Definition is_yaml_file {T} (f : ConfigFile T) : bool :=
  match file_extension f with
  | Some ext => bool_decide (ext = "yaml") || bool_decide (ext = "yml")
  | None => false
  end.

(** [ConfigLoader::load]. *)
Definition load_items {T} (env : string → option string) (f : ConfigFile T) : result LoaderError (list T) :=
  if negb (is_yaml_file f) then Err UnsupportedFormat
  else
    config_str ← map_err IoError (file_text f);
    expanded ← expand_env_vars env config_str;
    map_err ParseError (parse_items f expanded).

(** The trait [Loadable]. *)
Class Loadable (T E : Type) := { loader_error : LoaderError → E; validate_item : T → result E unit }.

(** [load_config]: every item is validated. *)
Definition load_config {T E} `{Loadable T E} (env : string → option string) (f : ConfigFile T) : result E (list T) :=
  items ← map_err loader_error (load_items env f);
  _ ← collect_result validate_item items;
  Ok items.

Inductive ActionConfigError := LoaderFailed (e : LoaderError) | ValidationFailed (e : ActionTypeConfigError).

#[export] Instance MonitorConfig_loadable : Loadable MonitorConfig LoaderError :=
  {| loader_error e := e; validate_item _ := Ok tt |}.
#[export] Instance ActionConfig_loadable `{UrlOps} : Loadable ActionConfig ActionConfigError :=
  {| loader_error := LoaderFailed; validate_item a := map_err ValidationFailed (ActionTypeConfig_validate (ac_config a)) |}.

(** ** Texts made of literals and references *)

Inductive piece := Literal (l : ascii_list) | Reference (key : ascii_list).

Definition piece_text (p : piece) : ascii_list :=
  match p with Literal l => l | Reference k => [dollar; open_brace] ++ k ++ [close_brace] end.

(** A literal has no [$], a reference is a variable name. *)
Definition piece_ok (p : piece) : Prop :=
  match p with
  | Literal l => dollar ∉ l
  | Reference k => k ≠ [] ∧ Forall (λ c, is_var_char c = true) k
  end.

Definition piece_value (env : string → option string) (p : piece) : result LoaderError ascii_list :=
  match p with
  | Literal l => Ok l
  | Reference k => chars <$> ok_or (env (text k)) (MissingEnvVar (text k))
  end.

Lemma span_var_run k c rest :
  Forall (λ c, is_var_char c = true) k → is_var_char c = false → span_var (k ++ c :: rest) = (k, c :: rest).
Proof. intros Hk Hc. induction Hk as [|x k Hx Hk IH]; cbn; [by rewrite Hc|]. by rewrite Hx, IH. Qed.

Lemma expand_skip env l s : expand env (length l) (l ++ s) = expand env 0 s.
Proof. induction l as [|c l IH]; [done|]. apply IH. Qed.

Lemma var_ref_literal c s : c ≠ dollar → var_ref (c :: s) = None.
Proof. intros Hc. cbn. destruct s as [|c2 s]; [done|]. rewrite decide_False; [done|]. by intros [? _]. Qed.

Lemma expand_literal env l s :
  dollar ∉ l → expand env 0 (l ++ s) = (rest ← expand env 0 s; Ok (l ++ rest)).
Proof.
  induction l as [|c l IH]; intros Hl; [cbn [app]; by destruct (expand env 0 s)|].
  apply not_elem_of_cons in Hl as [Hc Hl]. cbn [app expand].
  rewrite var_ref_literal, (IH Hl) by congruence. by destruct (expand env 0 s).
Qed.

Lemma expand_reference env k s :
  k ≠ [] → Forall (λ c, is_var_char c = true) k →
  expand env 0 (piece_text (Reference k) ++ s) =
  (value ← ok_or (env (text k)) (MissingEnvVar (text k)); rest ← expand env 0 s; Ok (chars value ++ rest)).
Proof.
  intros Hk Hf. cbn [piece_text app].
  assert (var_ref (dollar :: open_brace :: (k ++ [close_brace]) ++ s) = Some k) as Hv.
  { cbn. rewrite <- app_assoc. cbn. rewrite span_var_run by done. cbn. by destruct k. }
  cbn [expand]. rewrite Hv. destruct (env (text k)) as [v|]; cbn; [|done].
  rewrite Nat.add_comm. cbn. rewrite <- app_assoc.
  replace (S (length k)) with (length (k ++ [close_brace])) by (rewrite length_app; cbn; lia).
  by rewrite app_assoc, expand_skip.
Qed.

Lemma expand_pieces env ps :
  Forall piece_ok ps →
  expand env 0 (concat (piece_text <$> ps)) = ((λ vs, concat vs) <$> collect_result (piece_value env) ps).
Proof.
  induction 1 as [|p ps Hp Hps IH]; [done|]. cbn [fmap list_fmap concat]. destruct p as [l|k].
  - cbn [piece_text]. rewrite expand_literal by done. cbn. rewrite IH.
    by destruct (collect_result (piece_value env) ps).
  - destruct Hp as [Hk Hf]. rewrite expand_reference by done. cbn [collect_result piece_value]. rewrite IH.
    destruct (env (text k)); cbn; [|done]. by destruct (collect_result (piece_value env) ps).
Qed.

(** Expanding a configuration text replaces every reference to a variable by its
    value and leaves the rest as it is; the values are not expanded again, and the
    first variable that is not set is the error. *)
Theorem expand_env_vars_correct env ps :
  Forall piece_ok ps →
  expand_env_vars env (text (concat (piece_text <$> ps))) =
  ((λ vs, text (concat vs)) <$> collect_result (piece_value env) ps).
Proof.
  intros Hps. unfold expand_env_vars.
  rewrite Stdlib.Strings.String.list_ascii_of_string_of_list_ascii, expand_pieces by done.
  by destruct (collect_result (piece_value env) ps).
Qed.

Module LoaderDemo.
Definition env (k : string) : option string := if decide (k = "TOKEN") then Some "${HOME}" else None.
Definition pieces : list piece := [Literal (chars "token: "); Reference (chars "TOKEN"); Literal (chars " {x}")].
End LoaderDemo.

Lemma expand_env_vars_correct_witness :
  expand_env_vars LoaderDemo.env "token: ${TOKEN} {x}" = Ok "token: ${HOME} {x}".
Proof.
  transitivity (expand_env_vars LoaderDemo.env (text (concat (piece_text <$> LoaderDemo.pieces)))); [reflexivity|].
  rewrite (expand_env_vars_correct LoaderDemo.env LoaderDemo.pieces); [vm_compute; reflexivity|].
  repeat constructor; try (apply (bool_decide_unpack _); vm_compute; exact I).
Defined.

Lemma lower_case_is_not_a_variable : expand_env_vars (λ _, None) "${token} $TOKEN ${}" = Ok "${token} $TOKEN ${}".
Proof. vm_compute. reflexivity. Qed.
