(* ===== verification/Context.v ===== *)
(** * Start-up ([src/context/mod.rs], [src/context/abi_repository.rs], [src/main.rs])

    The initial block state, the loading of ABIs, actions and monitors into an
    empty repository, the linking of the monitors' ABIs, and the context they make. *)
From S2P Require Import Prelude Config Engine Models MonitorMatch Abi Conversions RhaiScript Registry Manager Filtering Interfaces AlertManager Ingestor HttpPool Dispatch Validator Loader Store Migrations Frames.

(** [parse_start_block_arg] of the command line. *)
Definition parse_start_block_arg (s : string) : result string InitialStartBlock :=
  if eq_ignore_ascii_case s "latest" then Ok Latest
  else
    match parse_i64 s with
    | Some n => if (0 <=? n)%Z then Ok (Absolute n) else Ok (Offset n)
    | None => Err ("Invalid start block: must be an integer or 'latest', got '" +:+ s +:+ "'")
    end.

Inductive InitializationError :=
| MonitorLoad (e : string)
| ActionLoad (e : string)
| AbiLoad (e : string)
| BlockStateInitialization (e : string)
| AlertManagerInitialization (e : string).

(** The texts of the errors of other components. *)
Class ErrorTexts := {
  persistence_text : PersistenceError → string;
  loader_text : LoaderError → string;
  action_config_text : ActionConfigError → string;
  abi_error_text : AbiError → string
}.

(** ** The initial block state *)

Section BlockState.
Context {S : Type} `{BlockStateRepository S} `{ErrorTexts}.

(** The first block to process. *)
Definition initial_block (config : AppConfig) (latest_block_number : Z) : Z :=
  let safe_head := u64_saturating_sub latest_block_number (cfg_confirmation_blocks config) in
  let target_block :=
    match cfg_initial_start_block config with
    | Latest => latest_block_number
    | Absolute n => n
    | Offset offset => u64_saturating_add_signed latest_block_number offset
    end in
  Z.min target_block safe_head.

Definition initialize_block_state (config : AppConfig) (get_block_number : result string Z)
    : eff S InitializationError unit :=
  let network_id := cfg_network_id config in
  latest_block ← eff_map_err (λ e, BlockStateInitialization
      ("Failed to fetch latest processed block from DB: " +:+ persistence_text e)) (get_last_processed_block network_id);
  match latest_block with
  | Some _ => mret tt
  | None =>
      latest_block_number ← lift_result (map_err (λ e, BlockStateInitialization
        ("Failed to fetch latest block number from provider: " +:+ e)) get_block_number);
      let final_start_block := initial_block config latest_block_number in
      eff_map_err (λ e, BlockStateInitialization
        ("Failed to set latest processed block in DB: " +:+ persistence_text e))
        (set_last_processed_block network_id (u64_saturating_sub final_start_block 1))
  end.
End BlockState.

(** ** Files and ABIs *)

(** An entry of the ABI directory. *)
Record DirEntry := mkDirEntry {
  de_is_file : bool;
  de_extension : option string;
  de_stem : option string;
  de_file_name : string;
  de_content : result string string
}.

Section Startup.
Context `{AlloyPrimitives} `{DynAbi} `{RhaiEngine} `{TemplateEngine} `{DispatchEnv} `{UrlOps} `{DefaultHasher} `{ErrorTexts}.
Context `{SqliteChoices} `{Serde (list string)} `{Serde ActionConfig} `{Serde ActionPayload}.
Context `{Serde ThrottleState} `{Serde AggregationState}.
Context (parse_abi : string → result string JsonAbi) (env : string → option string).

Notation init A := (eff SqliteStateRepository InitializationError A).

(** A repository call whose error is wrapped. *)
Definition repo_call {A} (wrap : string → InitializationError) (what : string) (q : query A) : init A :=
  eff_map_err (λ e, wrap (what +:+ persistence_text e)) q.

(** [sync_abis_from_filesystem]; [None]: the directory does not exist. *)
Definition sync_entry (entry : result string DirEntry) : init unit :=
  path ← lift_result (map_err (λ e, AbiLoad ("Failed to read ABI directory entry: " +:+ e)) entry);
  if de_is_file path && bool_decide (de_extension path = Some "json") then
    let abi_name := default (de_file_name path) (de_stem path) in
    existing ← repo_call AbiLoad ("Failed to check if ABI '" +:+ abi_name +:+ "' exists in database: ") (Store.get_abi abi_name);
    match existing with
    | Some _ => mret tt
    | None =>
        content ← lift_result (map_err (λ e, AbiLoad ("Failed to read ABI file '" +:+ de_file_name path +:+ "': " +:+ e)) (de_content path));
        repo_call AbiLoad ("Failed to sync ABI '" +:+ abi_name +:+ "' to database: ") (create_abi abi_name content)
    end
  else mret tt.

Definition sync_abis_from_filesystem (abi_dir : option (result string (list (result string DirEntry)))) : init unit :=
  match abi_dir with
  | None => mret tt
  | Some entries =>
      entries ← lift_result (map_err (λ e, AbiLoad ("Failed to scan ABI directory: " +:+ e)) entries);
      for_each sync_entry entries
  end.

(** [AbiRepository::new]: each ABI is a new allocation. *)
Definition AbiRepository_new : init (gmap string (Arc JsonAbi)) :=
  abi_records ← repo_call AbiLoad "Failed to initialize ABI repository from database: Failed to fetch ABIs from database: " get_all_abis;
  lift_result (foldM (λ abis p,
    abi ← map_err (λ e, AbiLoad ("Failed to initialize ABI repository from database: Failed to parse ABI JSON for '"
             +:+ p.1 +:+ "': " +:+ e)) (parse_abi p.2);
    Ok (<[p.1 := mkArc (Z.of_nat (size abis)) abi]> abis)) abi_records ∅).

(** ** Actions and monitors *)

Definition load_actions_from_file (config : AppConfig) (action_file : ConfigFile ActionConfig) : init unit :=
  let network_id := cfg_network_id config in
  existing_actions ← repo_call ActionLoad "Failed to fetch existing actions from DB: " (get_actions network_id);
  match existing_actions with
  | _ :: _ => mret tt
  | [] =>
      actions ← lift_result (map_err (λ e, ActionLoad ("Failed to load actions from file: " +:+ action_config_text e))
                               (load_config env action_file));
      _ ← repo_call ActionLoad "Failed to clear existing actions in DB: " (clear_actions network_id);
      for_each (λ action, _ ← repo_call ActionLoad "Failed to add action to DB: " (create_action network_id action); mret tt) actions
  end.

(** The validation of every monitor of the file, through the shared compiler. *)
Fixpoint validate_all (v : MonitorValidator) (monitors : list MonitorConfig) : eff RhaiCompiler InitializationError unit :=
  match monitors with
  | [] => mret tt
  | m :: monitors =>
      _ ← eff_map_err (λ _, MonitorLoad ("Monitor validation failed for '" +:+ mc_name m +:+ "'")) (validate_monitor v m);
      validate_all v monitors
  end.

(** The compiler is shared state: it is threaded beside the repository. *)
Definition load_monitors_from_file (config : AppConfig) (monitor_file : ConfigFile MonitorConfig)
    (abi_service : AbiService) (compiler : RhaiCompiler) : init RhaiCompiler :=
  let network_id := cfg_network_id config in
  existing_monitors ← repo_call MonitorLoad "Failed to fetch existing monitors from DB: " (get_monitors network_id);
  match existing_monitors with
  | _ :: _ => mret compiler
  | [] =>
      monitors ← lift_result (map_err (λ e, MonitorLoad ("Failed to load monitors from file: " +:+ loader_text e))
                                (load_config env monitor_file));
      actions ← repo_call MonitorLoad "Failed to fetch actions for monitor validation: " (get_actions network_id);
      let '(r, compiler) := validate_all (mkValidator network_id actions abi_service) monitors compiler in
      _ ← lift_result r;
      _ ← repo_call MonitorLoad "Failed to clear existing monitors in DB: " (clear_monitors network_id);
      _ ← repo_call MonitorLoad "Failed to add monitors to DB: " (add_monitors network_id monitors);
      mret compiler
  end.

(** A start-up step on the ABI service: an error, or the panic of [link_abi]. *)
Inductive StartupFault := InitErr (e : InitializationError) | InitPanic.

Definition abi_fault_init (what : string) (f : abi_fault) : StartupFault :=
  match f with AbiErr e => InitErr (AbiLoad (what +:+ abi_error_text e)) | AbiPanic => InitPanic end.

(** One iteration of [load_abis_from_monitors]. *)
Definition load_abi_of (monitor : Monitor) : eff AbiService StartupFault unit :=
  match m_address monitor, m_abi_name monitor with
  | Some address_str, Some abi_name =>
      if eq_ignore_ascii_case address_str "all" then
        eff_map_err (abi_fault_init ("Failed to add global ABI '" +:+ abi_name +:+ "' for monitor '" +:+ m_name monitor +:+ "': "))
          (add_global_abi abi_name)
      else
        match parse_address address_str with
        | None => throw (InitErr (AbiLoad ("Failed to parse address for monitor '" +:+ m_name monitor +:+ "': ")))
        | Some address =>
            eff_map_err (abi_fault_init ("Failed to link ABI '" +:+ abi_name +:+ "' for monitor '" +:+ m_name monitor +:+ "': "))
              (link_abi address abi_name)
        end
  | _, _ => mret tt
  end.

Definition load_abis_from_monitors (monitors : list Monitor) : eff AbiService StartupFault unit :=
  for_each load_abi_of monitors.

(** ** The context ([AppContextBuilder::build]) *)

Inductive AppContextError :=
| ConfigFault (e : Config.ConfigError)
| Persistence (e : PersistenceError)
| Initialization (e : InitializationError)
| ProviderCreation (e : ProviderError)
| BuildPanic.

Record AppContext := mkContext {
  ctx_config : AppConfig;
  ctx_abi_service : AbiService;
  ctx_monitor_manager : MonitorManager;
  ctx_monitor_validator : MonitorValidator;
  ctx_http_client_pool : HttpClientPool;
  ctx_action_dispatcher : gmap string ActionType;
  ctx_alert_manager : AlertManager (S := SqliteStateRepository)
}.

(** What the process finds around it: the parsed configuration and the override of the
    command line, the directory and files it names, and the answer of the node. *)
Record Environment := mkEnvironment {
  env_settings : AppSettings;
  env_from_block : option InitialStartBlock;
  env_abi_dir : option (result string (list (result string DirEntry)));
  env_action_file : ConfigFile ActionConfig;
  env_monitor_file : ConfigFile MonitorConfig;
  env_block_number : result string Z;
  env_features : Features
}.

Definition with_start_block (v : InitialStartBlock) (c : AppConfig) : AppConfig :=
  mkAppConfig (cfg_network_id c) (cfg_block_chunk_size c) (cfg_log_chunk_size c) (cfg_concurrency c)
    (cfg_polling_interval_ms c) (cfg_expected_block_time_ms c) (cfg_confirmation_blocks c) v (cfg_api_key c).

Definition overridden_config (e : Environment) : AppConfig :=
  let config := services (env_settings e) in
  match env_from_block e with
  | Some override_val => with_start_block override_val config
  | None => config
  end.

Definition startup_fault (f : StartupFault) : AppContextError :=
  match f with InitErr e => Initialization e | InitPanic => BuildPanic end.
Definition dispatcher_fault (f : DispatcherFault) : AppContextError :=
  match f with
  | DispatcherErr _ => Initialization (ActionLoad "Failed to initialize action dispatcher: ")
  | DispatcherPanic => BuildPanic
  end.

(** A step on another object than the repository. *)
Definition on_service {V E F A} (f : E → F) (m : eff V E A) (v : V) : eff SqliteStateRepository F (A * V) :=
  let '(r, v') := m v in lift_result (map_err f (a ← r; Ok (a, v'))).

(** The files into the database: ABIs, then block state, actions and monitors. *)
Definition load_database (e : Environment) (config : AppConfig)
    : eff SqliteStateRepository AppContextError (AbiService * RhaiCompiler) :=
  _ ← eff_map_err Initialization (sync_abis_from_filesystem (env_abi_dir e));
  abi_repository ← eff_map_err Initialization AbiRepository_new;
  let abi_service := from_named_abis (map_to_list abi_repository) in
  let script_compiler := RhaiCompiler_new in
  provider ← lift_result (map_err ProviderCreation
    (create_provider (rpc_urls (env_settings e)) (rpc_retry_config (env_settings e))));
  _ ← eff_map_err Initialization (initialize_block_state config (env_block_number e));
  _ ← eff_map_err Initialization (load_actions_from_file config (env_action_file e));
  script_compiler ← eff_map_err Initialization
    (load_monitors_from_file config (env_monitor_file e) abi_service script_compiler);
  mret (abi_service, script_compiler).

(** The services over the database. *)
Definition make_services (e : Environment) (config : AppConfig) (abi_service : AbiService) (script_compiler : RhaiCompiler)
    : eff SqliteStateRepository AppContextError AppContext :=
  let network_id := cfg_network_id config in
  let call {A} wrap what (q : query A) := eff_map_err Initialization (repo_call wrap what q) in
  monitors ← call AbiLoad "Failed to fetch monitors for ABI loading: " (get_monitors network_id);
  '(_, abi_service) ← on_service startup_fault (load_abis_from_monitors monitors) abi_service;
  monitors ← call MonitorLoad "Failed to fetch monitors from DB: " (get_monitors network_id);
  let monitor_manager := MonitorManager_new monitors script_compiler abi_service in
  let http_client_pool := HttpClientPool_new (http_base_config (env_settings e)) in
  actions ← call ActionLoad "Failed to fetch actions from DB: " (get_actions network_id);
  let actions_map := collect_map ac_name id actions in
  '(action_dispatcher, http_client_pool) ← on_service dispatcher_fault
     (ActionDispatcher_new (env_features e) actions_map) http_client_pool;
  alert_manager ← eff_map_err (λ _, Initialization (AlertManagerInitialization "Failed to initialize alert manager: "))
     AlertManager_new;
  mret (mkContext config abi_service monitor_manager (mkValidator network_id actions abi_service)
          http_client_pool action_dispatcher alert_manager).

Definition build_context (e : Environment) : eff SqliteStateRepository AppContextError AppContext :=
  let config := overridden_config e in
  '(abi_service, script_compiler) ← load_database e config;
  make_services e config abi_service script_compiler.

(** [AppContextBuilder::build] from [AppConfig::new] on.  The surroundings are those the
    configuration names; the rest says what the start finds on the disk and which statements
    fail. *)
Inductive Opened :=
| NotOpened
| NotMigrated (disk : Disk)
| OnTables (db : SqliteStateRepository).

Definition build_application `{Migrator} (driver : SqliteDriver) (now : DateTime) (faults : list bool)
    (config : result Config.ConfigError AppSettings) (database_url_override : option string)
    (surroundings : AppSettings → Environment) : result AppContextError AppContext * Opened :=
  match config with
  | Err e => (Err (ConfigFault e), NotOpened)
  | Ok settings =>
      match SqliteStateRepository_new driver (default (database_url settings) database_url_override) with
      | Err e => (Err (Persistence e), NotOpened)
      | Ok disk =>
          let '(migrated, disk) := run_migrations disk in
          match migrated, tables_of_schema now (schema disk) with
          | Err e, _ => (Err (Persistence e), NotMigrated disk)
          | Ok _, None => (Err (Persistence (OperationFailed "no such table")), NotMigrated disk)
          | Ok _, Some tables =>
              let '(r, db) := build_context (surroundings settings) (mkSqlite tables faults) in (r, OnTables db)
          end
      end
  end.
End Startup.

(** ** The first block *)

Section BlockStateTheorems.
Context {S : Type} `{BlockStateLaws S} `{ErrorTexts}.

Lemma initial_block_range config head :
  is_u64 head → (0 ≤ cfg_confirmation_blocks config)%Z →
  match cfg_initial_start_block config with Absolute n => 0 ≤ n | _ => True end%Z →
  (0 ≤ initial_block config head ≤ u64_saturating_sub head (cfg_confirmation_blocks config))%Z.
Proof.
  intros Hh Hc Hn. pose proof (u64_saturating_sub_range head _ Hh Hc) as Hs.
  unfold initial_block, u64_saturating_add_signed. revert Hs Hh. unfold_width.
  destruct (cfg_initial_start_block config); lia.
Qed.

End BlockStateTheorems.

(** ** Linking the ABIs of the monitors *)

Section AbiLinking.
Context `{AlloyPrimitives} `{DynAbi} `{ErrorTexts}.

Definition named_contract (svc : AbiService) (name : string) : option CachedContract :=
  abi ← get_abi_by_name svc name; CachedContract_from abi.

(** The address a monitor links, with the name of its ABI; a global monitor has none. *)
Definition linked_address (m : Monitor) : option (Address * string) :=
  a ← m_address m; n ← m_abi_name m;
  if eq_ignore_ascii_case a "all" then None else addr ← parse_address a; Some (addr, n).
Definition linked_global (m : Monitor) : option string :=
  a ← m_address m; n ← m_abi_name m;
  if eq_ignore_ascii_case a "all" then Some n else None.

(** The ABI name of the last monitor of an address. *)
Definition last_linked (addr : Address) (monitors : list Monitor) : option string :=
  snd <$> last (filter (λ p, p.1 = addr) (omap linked_address monitors)).

(** The service after the links of [monitors] from [svc]. *)
Record links (svc : AbiService) (monitors : list Monitor) (svc' : AbiService) : Prop := {
  links_named : named_abis svc' = named_abis svc;
  links_address addr : address_specific_cache svc' !! addr =
    match last_linked addr monitors with
    | Some n => named_contract svc n
    | None => address_specific_cache svc !! addr
    end;
  links_loaded m addr n : m ∈ monitors → linked_address m = Some (addr, n) → is_Some (named_contract svc n);
  links_global n : (is_Some (global_contracts svc !! n) ∨ n ∈ omap linked_global monitors) →
    is_Some (global_contracts svc' !! n);
  links_valid m a n : m ∈ monitors → m_address m = Some a → m_abi_name m = Some n →
    is_Some (linked_address m) ∨ is_Some (linked_global m)
}.

Lemma link_abi_Ok a n svc svc' :
  link_abi a n svc = (Ok tt, svc') →
  ∃ c, named_contract svc n = Some c ∧ svc' = set_address_cache svc (<[a := c]> (address_specific_cache svc)).
Proof.
  unfold link_abi, lookup_named_abi, named_contract. destruct (get_abi_by_name svc n) as [abi|]; cbn; [|done].
  destruct (CachedContract_from abi) as [c|]; [|done]. intros [= <-]. eauto.
Qed.

Lemma add_global_abi_Ok n svc svc' :
  add_global_abi n svc = (Ok tt, svc') →
  ∃ c, named_contract svc n = Some c ∧ named_abis svc' = named_abis svc ∧
    address_specific_cache svc' = address_specific_cache svc ∧
    global_contracts svc' = <[n := c]> (global_contracts svc).
Proof.
  unfold add_global_abi, lookup_named_abi, named_contract. destruct (get_abi_by_name svc n) as [abi|]; cbn; [|done].
  destruct (CachedContract_from abi) as [c|]; [|done]. intros [= <-]. eauto.
Qed.

Lemma last_linked_snoc addr ms m :
  last_linked addr (ms ++ [m]) =
  match linked_address m with
  | Some (a, n) => if decide (a = addr) then Some n else last_linked addr ms
  | None => last_linked addr ms
  end.
Proof.
  unfold last_linked. rewrite omap_app, filter_app. cbn.
  destruct (linked_address m) as [[a n]|]; [|cbn; by rewrite app_nil_r].
  rewrite filter_cons. cbn. case_decide; [by rewrite last_snoc|]. cbn. by rewrite app_nil_r.
Qed.

Lemma last_linked_one addr m :
  last_linked addr [m] =
  match linked_address m with Some (a, n) => if decide (a = addr) then Some n else None | None => None end.
Proof. apply (last_linked_snoc addr []). Qed.

(** One more monitor. *)
Lemma load_abi_of_Ok m svc svc' :
  load_abi_of m svc = (Ok tt, svc') → links svc [m] svc'.
Proof.
  unfold load_abi_of, eff_map_err.
  destruct (m_address m) as [a|] eqn:Ea, (m_abi_name m) as [n|] eqn:En.
  2-4: intros [= <-]; split; [done|intros addr; unfold last_linked; cbn; unfold linked_address; by rewrite Ea, ?En
    |intros ??? ->%list_elem_of_singleton; unfold linked_address; by rewrite Ea, ?En
    |intros n' [?|Hn]; [done|]; cbn in Hn; unfold linked_global in Hn; rewrite Ea in Hn; rewrite ?En in Hn;
      by apply elem_of_nil in Hn
    |intros ??? ->%list_elem_of_singleton; congruence].
  destruct (eq_ignore_ascii_case a "all") eqn:Eg.
  - destruct (add_global_abi n svc) as [[[]|] svc1] eqn:E; cbn; [|done]. intros [= <-].
    apply add_global_abi_Ok in E as (c & Hc & E1 & E2 & E3).
    assert (linked_address m = None) as Hl by (unfold linked_address; rewrite Ea, En; cbn; by rewrite Eg).
    assert (linked_global m = Some n) as Hg by (unfold linked_global; rewrite Ea, En; cbn; by rewrite Eg).
    split; [done|intros addr; by rewrite last_linked_one, Hl, E2
      |by intros ??? ->%list_elem_of_singleton; rewrite Hl| |].
    + cbn. rewrite Hg, E3. intros n' [?|Hn]; [by apply lookup_insert_is_Some'; right|].
      apply list_elem_of_singleton in Hn as ->. apply lookup_insert_is_Some'. by left.
    + intros ??? ->%list_elem_of_singleton. rewrite Hg. eauto.
  - destruct (parse_address a) as [addr|] eqn:Ep; [|done].
    destruct (link_abi addr n svc) as [[[]|] svc1] eqn:E; cbn; [|done]. intros [= <-].
    apply link_abi_Ok in E as (c & Hc & ->).
    assert (linked_address m = Some (addr, n)) as Hl by (unfold linked_address; rewrite Ea, En; cbn; by rewrite Eg, Ep).
    assert (linked_global m = None) as Hg by (unfold linked_global; rewrite Ea, En; cbn; by rewrite Eg).
    split; [done| | |cbn; rewrite Hg; intros n' [?|Hn]; [done|by apply elem_of_nil in Hn]|].
    + intros addr'. rewrite last_linked_one, Hl. cbn. case_decide as Hd.
      * subst. by rewrite lookup_insert_eq, Hc.
      * by rewrite lookup_insert_ne.
    + intros m' addr' n' ->%list_elem_of_singleton. rewrite Hl. intros [= <- <-]. eauto.
    + intros ??? ->%list_elem_of_singleton. rewrite Hl. eauto.
Qed.

Lemma links_snoc svc ms svc1 m svc2 : links svc ms svc1 → links svc1 [m] svc2 → links svc (ms ++ [m]) svc2.
Proof.
  intros L1 L2.
  assert (∀ n, named_contract svc1 n = named_contract svc n) as Hn.
  { intros n. unfold named_contract, get_abi_by_name. by rewrite (links_named _ _ _ L1). }
  split.
  - by rewrite (links_named _ _ _ L2), (links_named _ _ _ L1).
  - intros addr. rewrite (links_address _ _ _ L2), last_linked_snoc, last_linked_one.
    destruct (linked_address m) as [[a n]|]; [case_decide; [apply Hn|]|]; cbn; apply (links_address _ _ _ L1).
  - intros m' addr n [Hm|Hm]%elem_of_app; [by apply (links_loaded _ _ _ L1)|].
    rewrite <- Hn. by apply (links_loaded _ _ _ L2).
  - intros n Hg. apply (links_global _ _ _ L2). rewrite omap_app, elem_of_app in Hg.
    destruct Hg as [?|[?|?]]; [left; apply (links_global _ _ _ L1); by left
      |left; apply (links_global _ _ _ L1); by right|by right].
  - intros m' a n [Hm|Hm]%elem_of_app; [by apply (links_valid _ _ _ L1)|by apply (links_valid _ _ _ L2)].
Qed.

Lemma load_abis_Ok ms svc svc' : load_abis_from_monitors ms svc = (Ok tt, svc') → links svc ms svc'.
Proof.
  enough (∀ done svc0 svc1, links svc0 done svc1 → load_abis_from_monitors ms svc1 = (Ok tt, svc') →
    links svc0 (done ++ ms) svc') as Hg.
  { apply (Hg [] svc svc). by split; [|intros ?|intros ??? ?%elem_of_nil|intros ? [?|?%elem_of_nil]|intros ??? ?%elem_of_nil]. }
  induction ms as [|m ms IH]; intros dn svc0 svc1 Hl; cbn; [intros [= <-]; by rewrite app_nil_r|].
  intros ([] & svc2 & Hm%load_abi_of_Ok & Hms)%eff_bind_Ok.
  rewrite cons_middle, app_assoc. eapply IH; [|exact Hms]. by eapply links_snoc.
Qed.
End AbiLinking.

(** ** The context is ready *)

Lemma repo_call_Ok `{ErrorTexts} {A} wrap what (q : query A) s a s' :
  repo_call wrap what q s = (Ok a, s') → q s = (Ok a, s').
Proof. unfold repo_call, eff_map_err. destruct (q s) as [[]]; by intros [= <- <-]. Qed.

Lemma map_err_run {E F A} (f : E → F) (m : eff SqliteStateRepository E A) s a s' :
  eff_map_err f m s = (Ok a, s') → m s = (Ok a, s').
Proof. unfold eff_map_err. destruct (m s) as [[]]; by intros [= <- <-]. Qed.

Section Ready.
Context `{AlloyPrimitives} `{DynAbi} `{RhaiEngine} `{TemplateEngine} `{DispatchEnv} `{UrlOps} `{DefaultHasher} `{ErrorTexts}.
Context `{SqliteChoices} `{SerdeLaws (list string)} `{Serde ActionConfig} `{SerdeLaws ActionPayload}.
Context `{Serde ThrottleState} `{Serde AggregationState} `{!Sha256Injective}.
Context (parse_abi : string → result string JsonAbi) (env : string → option string).

(** What [get_actions] answers when no statement fails. *)
Definition listed_actions (n : NetworkId) (t : Tables) : result PersistenceError (list ActionConfig) :=
  collect_result action_of_row (filter (λ r, acr_network_id r = n) (actions t)).

Lemma get_monitors_Ok n s l s' :
  get_monitors n s = (Ok l, s') → listed_monitors n (sq_tables s) = Ok l ∧ sq_tables s' = sq_tables s.
Proof.
  intros (rows & s1 & [Ht Hr]%select_tables & [= Hl <-])%eff_bind_Ok. rewrite listed_monitors_eq.
  by rewrite <- (Hr rows eq_refl).
Qed.

Lemma get_actions_Ok n s l s' :
  get_actions n s = (Ok l, s') → listed_actions n (sq_tables s) = Ok l ∧ sq_tables s' = sq_tables s.
Proof.
  intros (rows & s1 & [Ht Hr]%select_tables & [= Hl <-])%eff_bind_Ok. unfold listed_actions.
  by rewrite <- (Hr rows eq_refl).
Qed.

(** Every step of [load_database] keeps what the statements it uses keep. *)
Section Keeps.
Context (P : Tables → Prop).
Hypothesis keeps_abi : ∀ n a, preserves P (create_abi n a).
Hypothesis keeps_block : ∀ n b, preserves P (sqlite_set_last_processed_block n b).
Hypothesis keeps_action : ∀ n a, preserves P (create_action n a).
Hypothesis keeps_clear_actions : ∀ n, preserves P (clear_actions n).
Hypothesis keeps_clear_monitors : ∀ n, preserves P (clear_monitors n).
Hypothesis keeps_monitors : ∀ n ms, preserves P (add_monitors n ms).

Hint Resolve keeps_abi keeps_block keeps_action keeps_clear_actions keeps_clear_monitors keeps_monitors : store.

Lemma keeps_repo_call {A} wrap what (q : query A) : preserves P q → preserves P (repo_call wrap what q).
Proof. apply preserves_map_err. Qed.
Hint Resolve keeps_repo_call : store.

Lemma keeps_sync dir : preserves P (sync_abis_from_filesystem dir).
Proof.
  destruct dir as [entries|]; [|apply preserves_ret]. apply preserves_bind; [apply preserves_lift|]. intros es.
  apply preserves_for_each. intros entry. apply preserves_bind; [apply preserves_lift|]. intros path.
  case_match; [|apply preserves_ret]. apply preserves_bind; [apply keeps_repo_call, preserves_select|].
  intros [?|]; [apply preserves_ret|]. apply preserves_bind; auto with store.
Qed.

Lemma keeps_repository : preserves P (AbiRepository_new parse_abi).
Proof. apply preserves_bind; [apply keeps_repo_call, preserves_select|auto with store]. Qed.

Lemma keeps_get_last n : preserves P (get_last_processed_block (S := SqliteStateRepository) n).
Proof.
  apply preserves_bind; [apply preserves_select|]. intros [b|]; [|apply preserves_ret].
  case_match; auto with store.
Qed.

Lemma keeps_block_state config p : preserves P (initialize_block_state config p).
Proof.
  apply preserves_bind; [apply preserves_map_err, keeps_get_last|]. intros [b|]; [apply preserves_ret|].
  apply preserves_bind; [apply preserves_lift|]. intros head. apply preserves_map_err, keeps_block.
Qed.

Lemma keeps_get_actions n : preserves P (get_actions n).
Proof. apply preserves_bind; auto with store. Qed.
Lemma keeps_get_monitors n : preserves P (get_monitors n).
Proof. apply preserves_bind; auto with store. Qed.

Lemma keeps_load_actions config file : preserves P (load_actions_from_file env config file).
Proof.
  apply preserves_bind; [apply keeps_repo_call, keeps_get_actions|]. intros [|]; [|apply preserves_ret].
  apply preserves_bind; [apply preserves_lift|]. intros l. apply preserves_bind; [auto with store|]. intros _.
  apply preserves_for_each. intros a. apply preserves_bind; auto with store.
Qed.

Lemma keeps_load_monitors config file svc c : preserves P (load_monitors_from_file env config file svc c).
Proof.
  apply preserves_bind; [apply keeps_repo_call, keeps_get_monitors|]. intros [|]; [|apply preserves_ret].
  apply preserves_bind; [apply preserves_lift|]. intros ms.
  apply preserves_bind; [apply keeps_repo_call, keeps_get_actions|]. intros acts.
  destruct (validate_all _ ms c) as [r c']. apply preserves_bind; [apply preserves_lift|]. intros [].
  apply preserves_bind; [auto with store|]. intros _. apply preserves_bind; auto with store.
Qed.
End Keeps.

Lemma load_database_keeps (P : Tables → Prop) e config :
  admin_keeps P → (∀ p, preserves P (initialize_block_state config p)) → preserves P (load_database parse_abi env e config).
Proof.
  intros HP Hblock. pose proof (ak_create_abi _ HP) as Ha. pose proof (ak_create_action _ HP) as Hc.
  pose proof (ak_clear_actions _ HP) as Hca. pose proof (ak_clear_monitors _ HP) as Hcm. pose proof (ak_add_monitors _ HP) as Hm.
  repeat (apply preserves_bind; [|intros ?]); auto using keeps_sync, keeps_repository,
    keeps_load_actions, keeps_load_monitors with store.
Qed.

Lemma store_wf_kept e config : preserves store_wf (load_database parse_abi env e config).
Proof. apply load_database_keeps; [apply store_wf_admin|]. intros p. apply keeps_block_state, set_last_wf. Qed.

(** Only the block state touches the progress. *)
Lemma progress_kept m config file1 file2 svc c :
  preserves (λ t, processed_blocks t = m)
    (_ ← load_actions_from_file env config file1; load_monitors_from_file env config file2 svc c).
Proof.
  assert (admin_keeps (λ t, processed_blocks t = m)) as [] by (apply admin_blind_keeps; by split).
  apply preserves_bind; [by apply keeps_load_actions|]. intros _. by apply keeps_load_monitors.
Qed.

(** A progress that is recorded is never replaced by a start-up. *)
Lemma block_state_keeps n b config p :
  preserves (λ t, processed_blocks t !! n = Some b) (initialize_block_state config p).
Proof.
  intros s Hs. unfold initialize_block_state, mbind at 1, eff_bind at 1, eff_map_err at 1.
  destruct (get_last_processed_block (cfg_network_id config) s) as [r1 s1] eqn:E1.
  apply get_last_block_view in E1 as [Hv Hlast]. change (last_block s n = Some b) in Hs.
  destruct r1 as [o|e]; cbn [map_err]; [|change (last_block s1 n = Some b); by rewrite Hv]. specialize (Hlast o eq_refl).
  destruct o as [b'|]; [change (last_block s1 n = Some b); by rewrite Hv|].
  unfold mbind, eff_bind, lift_result. destruct p as [head|e]; cbn [map_err]; [|change (last_block s1 n = Some b); by rewrite Hv].
  unfold eff_map_err. destruct (set_last_processed_block _ _ s1) as [r2 s2] eqn:E2. apply set_last_block_view in E2.
  change (last_block s2 n = Some b). destruct r2 as [u|e]; cbn [map_err]; [|by rewrite E2, Hv].
  destruct E2 as [_ Hother]. rewrite Hother, Hv; [done|]. intros ->. congruence.
Qed.

(** The steps before the monitors are loaded leave them alone. *)
Lemma monitors_kept ms dir config1 p config2 file :
  preserves (λ t, monitors t = ms)
    (_ ← sync_abis_from_filesystem dir; _ ← AbiRepository_new parse_abi;
     _ ← initialize_block_state config1 p; load_actions_from_file env config2 file).
Proof.
  apply preserves_bind; [apply keeps_sync|intros _].
  { intros n a. by apply create_abi_only. }
  apply preserves_bind; [apply keeps_repository|intros _].
  apply preserves_bind; [apply keeps_block_state|intros _].
  { intros n b. unfold sqlite_set_last_processed_block. case_match; [|apply preserves_throw].
    apply preserves_execute. by intros t u t' Ht [= _ <-]. }
  apply keeps_load_actions; intros; [by apply create_action_only|by apply clear_actions_only].
Qed.

Lemma validate_all_Ok v ms c c' :
  validate_all v ms c = (Ok tt, c') → cache_ok c → cache_ok c' ∧ ∀ m, m ∈ ms → ∃ c0, monitor_valid v m c0.
Proof.
  revert c. induction ms as [|m ms IH]; intros c; cbn; [intros [= <-] Hc; split; [done|by intros ? ?%elem_of_nil]|].
  intros ([] & c1 & Hm & Hms)%eff_bind_Ok Hc.
  assert (validate_monitor v m c = (Ok tt, c1)) as Hv.
  { revert Hm. unfold eff_map_err. destruct (validate_monitor v m c) as [[[]|]]; by intros [= <-]. }
  pose proof (validate_monitor_checked v m c) as [Hvalid _]. rewrite Hv in Hvalid.
  pose proof (validate_monitor_cache v m c Hc) as Hc1. rewrite Hv in Hc1.
  destruct (IH c1 Hms Hc1) as [Hc' Hall]. split; [done|].
  intros m' [-> |Hm']%elem_of_cons; [|by apply Hall]. exists c. by apply Hvalid.
Qed.

(** Loading the monitors of an empty network stores exactly those of the file, each valid. *)
Lemma load_monitors_Ok config file svc c s c' s' :
  load_monitors_from_file env config file svc c s = (Ok c', s') → cache_ok c →
  cache_ok c' ∧
  (listed_monitors (cfg_network_id config) (sq_tables s) = Ok [] →
   ∃ ms acts l, load_config env file = Ok ms ∧ listed_actions (cfg_network_id config) (sq_tables s') = Ok acts ∧
     (∀ m, m ∈ ms → ∃ c0, monitor_valid (mkValidator (cfg_network_id config) acts svc) m c0) ∧
     listed_monitors (cfg_network_id config) (sq_tables s') = Ok l ∧ config_of <$> l = ms).
Proof.
  set (n := cfg_network_id config). unfold load_monitors_from_file. fold n.
  intros (ex & s1 & [Hex Et1]%repo_call_Ok%get_monitors_Ok & Hrun)%eff_bind_Ok Hc.
  destruct ex as [|m0 ex]; [|injection Hrun as <- <-; split; [done|congruence]].
  apply eff_bind_Ok in Hrun as (ms & s2 & [= Hload ->] & Hrun). apply map_err_Ok in Hload.
  apply eff_bind_Ok in Hrun as (acts & s3 & [Hacts Et3]%repo_call_Ok%get_actions_Ok & Hrun).
  destruct (validate_all _ ms c) as [r c1] eqn:Ev.
  apply eff_bind_Ok in Hrun as ([] & s4 & [= -> ->] & Hrun).
  destruct (validate_all_Ok _ _ _ _ Ev Hc) as [Hc1 Hvalid].
  apply eff_bind_Ok in Hrun as ([] & s5 & Hclear%repo_call_Ok%execute_Ok & Hrun).
  apply eff_bind_Ok in Hrun as ([] & s6 & Hadd%repo_call_Ok & [= <- <-]).
  injection Hclear as Hclear. split; [done|]. intros _.
  pose proof (add_monitors_only (λ t, actions t = actions (sq_tables s5)) n ms ltac:(done) s5 eq_refl) as Hkeep.
  rewrite Hadd in Hkeep. cbn in Hkeep.
  apply add_monitors_read_back in Hadd as (_ & Hadd & _).
  destruct (Hadd []) as (l & Hl & Hcfg).
  { rewrite listed_monitors_eq, <- Hclear. cbn. rewrite filter_none; [done|].
    apply Forall_forall. intros r [Hr _]%list_elem_of_filter. exact Hr. }
  exists ms, acts, l. split_and!; [done| |done..].
  unfold listed_actions in *. rewrite Hkeep, <- Hclear. cbn. by rewrite Et3.
Qed.

Lemma block_state_recorded config p s s' :
  initialize_block_state config p s = (Ok tt, s') →
  is_Some (processed_blocks (sq_tables s') !! cfg_network_id config).
Proof.
  intros (o & s1 & Hget%map_err_run & Hrun)%eff_bind_Ok.
  pose proof (get_last_block_view _ _ _ _ Hget) as [Hv Ho]. specialize (Ho o eq_refl).
  destruct o as [b|].
  - injection Hrun as <-. exists b. change (last_block s1 (cfg_network_id config) = Some b). by rewrite Hv.
  - apply eff_bind_Ok in Hrun as (head & s2 & [= _ ->] & Hset%map_err_run).
    cbn in Hset. unfold sqlite_set_last_processed_block in Hset. case_match; [|done].
    apply execute_Ok in Hset. injection Hset as <-. cbn. rewrite lookup_insert_eq. by eexists.
Qed.

Lemma from_named_abis_caches l : address_specific_cache (from_named_abis l) = ∅ ∧ global_contracts (from_named_abis l) = ∅.
Proof.
  unfold from_named_abis, register_abis. induction l as [|p l IH] using rev_ind; [done|]. by rewrite foldl_app.
Qed.

(** What the files leave in the database. *)
Lemma load_database_Ok e config s svc c s' :
  load_database parse_abi env e config s = (Ok (svc, c), s') →
  cache_ok c ∧ address_specific_cache svc = ∅ ∧ global_contracts svc = ∅ ∧
  is_Some (processed_blocks (sq_tables s') !! cfg_network_id config) ∧
  (listed_monitors (cfg_network_id config) (sq_tables s) = Ok [] →
   ∃ ms acts l, load_config env (env_monitor_file e) = Ok ms ∧ listed_actions (cfg_network_id config) (sq_tables s') = Ok acts ∧
     (∀ m, m ∈ ms → ∃ c0, monitor_valid (mkValidator (cfg_network_id config) acts svc) m c0) ∧
     listed_monitors (cfg_network_id config) (sq_tables s') = Ok l ∧ config_of <$> l = ms).
Proof.
  intros Hrun. unfold load_database in Hrun.
  apply eff_bind_Ok in Hrun as ([] & s1 & Hs1%map_err_run & Hrun).
  apply eff_bind_Ok in Hrun as (abis & s2 & Hs2%map_err_run & Hrun). cbv zeta in Hrun.
  apply eff_bind_Ok in Hrun as (p & s3 & [= _ ->] & Hrun).
  apply eff_bind_Ok in Hrun as ([] & s4 & Hs4%map_err_run & Hrun).
  apply eff_bind_Ok in Hrun as ([] & s5 & Hs5%map_err_run & Hrun).
  apply eff_bind_Ok in Hrun as (c' & s6 & Hs6%map_err_run & [= <- <- <-]).
  pose proof (block_state_recorded _ _ _ _ Hs4) as Hb.
  pose proof (progress_kept (processed_blocks (sq_tables s4)) config (env_action_file e) (env_monitor_file e)
    (from_named_abis (map_to_list abis)) RhaiCompiler_new s4 eq_refl) as Hp.
  rewrite (eff_bind_run _ _ _ _ _ Hs5), Hs6 in Hp. cbn in Hp.
  destruct (load_monitors_Ok _ _ _ _ _ _ _ Hs6 cache_ok_new) as [Hc Hms].
  destruct (from_named_abis_caches (map_to_list abis)) as [Ha Hg].
  split_and!; [done..|by rewrite Hp|]. intros Hl. apply Hms.
  rewrite listed_monitors_eq in *. enough (monitors (sq_tables s5) = monitors (sq_tables s)) as -> by done.
  pose proof (monitors_kept (monitors (sq_tables s)) (env_abi_dir e) config (env_block_number e) config (env_action_file e) s eq_refl) as Hk.
  by rewrite (eff_bind_run _ _ _ _ _ Hs1), (eff_bind_run _ _ _ _ _ Hs2), (eff_bind_run _ _ _ _ _ Hs4), Hs5 in Hk.
Qed.

(** The services are those of the database. *)
Record ready (config : AppConfig) (ctx : AppContext) (t : Tables) (monitors : list Monitor) (actions : list ActionConfig)
    (abi_service : AbiService) : Prop := {
  ready_config : ctx_config ctx = config;
  ready_monitors : listed_monitors (cfg_network_id config) t = Ok monitors;
  ready_actions : listed_actions (cfg_network_id config) t = Ok actions;
  ready_links : links abi_service monitors (ctx_abi_service ctx);
  ready_snapshot : mgr_state (ctx_monitor_manager ctx) = snapshot_spec (ctx_abi_service ctx) monitors;
  ready_manager : mgr_abi_service (ctx_monitor_manager ctx) = ctx_abi_service ctx ∧ cache_ok (mgr_compiler (ctx_monitor_manager ctx));
  ready_alerts : ∃ s s', sq_tables s = t ∧ AlertManager_new s = (Ok (ctx_alert_manager ctx), s');
  ready_validator : ctx_monitor_validator ctx = mkValidator (cfg_network_id config) actions (ctx_abi_service ctx);
  ready_dispatcher a : a ∈ actions → is_publisher (ac_config a) = false →
    is_Some (ctx_action_dispatcher ctx !! ac_name a)
}.

Lemma on_service_Ok {V E F A} (f : E → F) (m : eff V E A) v s a v' s' :
  on_service f m v s = (Ok (a, v'), s') → m v = (Ok a, v') ∧ s' = s.
Proof. unfold on_service. destruct (m v) as [[a1|] v1]; intros [=]; by subst. Qed.

Lemma listed_actions_names n t acts : store_wf t → listed_actions n t = Ok acts → NoDup (ac_name <$> acts).
Proof.
  intros Hwf Hl%collect_result_Ok. pose proof (wf_action_names t Hwf) as Hnd.
  assert (ac_name <$> acts = acr_name <$> filter (λ r, acr_network_id r = n) (actions t)) as ->.
  { induction Hl as [|r a rows acts Hr _ IH]; [done|]. rewrite !fmap_cons, IH. f_equal.
    unfold action_of_row in Hr. apply bind_Ok in Hr as (? & _ & [= <-]). done. }
  apply (NoDup_fmap_filter _ (λ r, acr_network_id r = n)) in Hnd.
  revert Hnd. clear. generalize (actions t). intros rows. induction rows as [|r rows IH]; intros Hnd; [constructor|].
  rewrite filter_cons in *. case_decide as Hr; [|by apply IH].
  rewrite fmap_cons in *. apply NoDup_cons in Hnd as [Hin Hnd]. apply NoDup_cons. split; [|by apply IH].
  intros (r' & Hname & Hr')%list_elem_of_fmap. apply Hin, list_elem_of_fmap. exists r'. split; [|done].
  apply list_elem_of_filter in Hr' as [Hr' _]. congruence.
Qed.

Lemma alert_manager_reads t : preserves (λ t', t' = t) (AlertManager_new (S := SqliteStateRepository)).
Proof.
  assert (∀ T (ST : Serde T) prefix, preserves (λ t', t' = t) (sqlite_get_all_json_states_by_prefix (T := T) prefix)) as Hp.
  { intros. apply preserves_bind; auto with store. }
  intros s Hs. unfold AlertManager_new. pose proof (Hp ThrottleState _ throttle_prefix s Hs) as H1'.
  cbn [get_all_json_states_by_prefix sqlite_key_value] in *.
  destruct (sqlite_get_all_json_states_by_prefix throttle_prefix s) as [[saved|] s1]; [|done]. cbn in H1'.
  pose proof (Hp AggregationState _ aggregation_prefix s1 H1') as H2'.
  by destruct (sqlite_get_all_json_states_by_prefix aggregation_prefix s1) as [[saved2|] s2].
Qed.

(** Making the services only reads. *)
Lemma make_services_reads t e config svc c : preserves (λ t', t' = t) (make_services e config svc c).
Proof.
  assert (∀ V E F A (f : E → F) (m : eff V E A) v, preserves (λ t', t' = t) (on_service f m v)) as Hsvc.
  { intros V E F A f m v. unfold on_service. intros s Hs. by destruct (m v). }
  unfold make_services. cbv zeta.
  apply preserves_bind; [apply preserves_map_err, keeps_repo_call, keeps_get_monitors|]. intros ms.
  apply preserves_bind; [apply Hsvc|]. intros [[] svc'].
  apply preserves_bind; [apply preserves_map_err, keeps_repo_call, keeps_get_monitors|]. intros ms'.
  apply preserves_bind; [apply preserves_map_err, keeps_repo_call, keeps_get_actions|]. intros acts.
  apply preserves_bind; [apply Hsvc|]. intros [d pool].
  apply preserves_bind; [apply preserves_map_err, alert_manager_reads|]. intros am. apply preserves_ret.
Qed.

Lemma build_context_keeps (P : Tables → Prop) e :
  admin_keeps P → (∀ config p, preserves P (initialize_block_state config p)) → preserves P (build_context parse_abi env e).
Proof.
  intros HP Hblock. unfold build_context. cbv zeta. apply preserves_bind; [by apply load_database_keeps|].
  intros [svc c] s Hs. by rewrite (make_services_reads (sq_tables s) e _ svc c s eq_refl).
Qed.

Lemma make_services_ready e config svc c s ctx s' :
  store_wf (sq_tables s) → cache_ok c →
  make_services e config svc c s = (Ok ctx, s') →
  sq_tables s' = sq_tables s ∧ am_state_repository (ctx_alert_manager ctx) = s' ∧
  ∃ monitors actions, ready config ctx (sq_tables s) monitors actions svc.
Proof.
  intros Hwf Hc Hrun. unfold make_services in Hrun. cbv zeta in Hrun.
  apply eff_bind_Ok in Hrun as (ms & s1 & [Hms Et1]%map_err_run%repo_call_Ok%get_monitors_Ok & Hrun).
  apply eff_bind_Ok in Hrun as ([[] svc'] & s2 & [Hlink%load_abis_Ok ->]%on_service_Ok & Hrun).
  apply eff_bind_Ok in Hrun as (ms' & s3 & [Hms' Et3]%map_err_run%repo_call_Ok%get_monitors_Ok & Hrun).
  apply eff_bind_Ok in Hrun as (acts & s4 & [Hacts Et4]%map_err_run%repo_call_Ok%get_actions_Ok & Hrun).
  apply eff_bind_Ok in Hrun as ([d pool] & s5 & [Hd ->]%on_service_Ok & Hrun).
  apply eff_bind_Ok in Hrun as (am & s6 & Ham%map_err_run & [= <- <-]).
  pose proof (alert_manager_reads (sq_tables s4) s4 eq_refl) as Et6. rewrite Ham in Et6. cbn in Et6.
  split; [congruence|]. split; [by apply AlertManager_new_repository in Ham|]. rewrite Et1 in Hms'. rewrite Hms in Hms'. injection Hms' as <-.
  exists ms, acts. split; cbn; [done|done|by rewrite <- Et1, <- Et3|done| | | |done|].
  - unfold MonitorManager_new. destruct (organize_assets_spec ms svc' c Hc) as [Ho _].
    destruct (organize_assets ms svc' c) as [st c']. exact Ho.
  - unfold MonitorManager_new. destruct (organize_assets_spec ms svc' c Hc) as [_ Hc'].
    by destruct (organize_assets ms svc' c) as [st c'].
  - exists s4, s6. split; [congruence|done].
  - intros a Ha Hp. unfold ActionDispatcher_new in Hd.
    eapply create_actions_spec in Hd as (_ & _ & Hall); [|apply (callers_ok (http_base_config (env_settings e)) [])].
    eapply Hall; [|exact Hp]. apply elem_of_map_to_list, collect_map_once; [|done].
    eapply listed_actions_names; [exact Hwf|by rewrite <- Et1, <- Et3].
Qed.

(** The services of a new context are those of the database it was built over. *)
Lemma build_context_services e s ctx s' :
  store_wf (sq_tables s) → build_context parse_abi env e s = (Ok ctx, s') →
  am_state_repository (ctx_alert_manager ctx) = s' ∧ store_wf (sq_tables s') ∧
  is_Some (processed_blocks (sq_tables s') !! cfg_network_id (overridden_config e)) ∧
  ∃ monitors actions svc, ready (overridden_config e) ctx (sq_tables s') monitors actions svc.
Proof.
  intros Hwf Hrun. unfold build_context in Hrun. cbv zeta in Hrun.
  apply eff_bind_Ok in Hrun as ([svc c] & s1 & Hload & Hmake).
  pose proof (store_wf_kept e (overridden_config e) s Hwf) as Hwf1. rewrite Hload in Hwf1. cbn in Hwf1.
  destruct (load_database_Ok _ _ _ _ _ _ Hload) as (Hc & _ & _ & Hb & _).
  destruct (make_services_ready _ _ _ _ _ _ _ Hwf1 Hc Hmake) as (Et & Hr & ms & acts & Hready). rewrite Et.
  split_and!; [done..|]. by exists ms, acts, svc.
Qed.

(** Without a URL nothing is built, and the progress of every network is as it was. *)
Lemma no_urls_no_context e s r s' :
  rpc_urls (env_settings e) = [] → build_context parse_abi env e s = (r, s') →
  is_ok r = false ∧ processed_blocks (sq_tables s') = processed_blocks (sq_tables s).
Proof.
  intros Hu. set (p := processed_blocks (sq_tables s)).
  assert (admin_keeps (λ t, processed_blocks t = p)) as HP by (apply admin_blind_keeps; by split).
  pose proof (keeps_sync _ (ak_create_abi _ HP)) as Hsync. pose proof (keeps_repository (λ t, processed_blocks t = p)) as Hrepo.
  unfold build_context, load_database, mbind, eff_bind, eff_map_err. rewrite Hu. cbn [create_provider].
  specialize (Hsync (env_abi_dir e) s eq_refl). destruct (sync_abis_from_filesystem _ s) as [[[]|e1] s1]; cbn in *;
    [|by intros [= <- <-]].
  specialize (Hrepo s1 Hsync). destruct (AbiRepository_new _ s1) as [[abis|e2] s2]; cbn in *; by intros [= <- <-].
Qed.

(** A start keeps the outbox and every recorded progress. *)
Lemma build_context_keeps_alerts e rows : preserves (λ t, outbox_rows t = rows) (build_context parse_abi env e).
Proof.
  apply build_context_keeps; [apply admin_blind_keeps; by split|]. intros config p.
  apply keeps_block_state. intros n b. by apply set_last_only.
Qed.

Lemma build_context_keeps_progress e n b : preserves (λ t, processed_blocks t !! n = Some b) (build_context parse_abi env e).
Proof.
  apply build_context_keeps; [apply admin_blind_keeps; by split|]. intros config p. apply block_state_keeps.
Qed.


(** ** The start of the process on the database of any version *)

Section Application.
Context `{MigratorLaws} `{!ConfigValues} `{!ConfigValuesLaws}.
Context (vars : string → option string) (source : string → result string Json) (dir : option string).

Lemma application_settings settings : AppConfig_new vars source dir = Ok settings → config_ranges (services settings).
Proof.
  unfold AppConfig_new. intros (v & _ & (c & Hread & [= <-])%bind_Ok)%bind_Ok.
  destruct v; try discriminate Hread. by apply app_config_read in Hread as (_ & ? & _).
Qed.

(** What a start leaves of a database of version [n]. *)
Definition start_keeps (n : nat) (disk : Disk) (o : Opened) : Prop :=
  match o with
  | NotOpened => False
  | NotMigrated disk' => ∃ n', n ≤ n' ∧ at_version n' disk' ∧ upgraded n (schema disk) (schema disk')
  | OnTables db =>
      stored_alerts (Some (OutboxV2 (outbox_rows (sq_tables db)) (outbox_seq (sq_tables db)))) = stored_alerts (db_outbox (schema disk)) ∧
      ∀ m name b, db_processed_blocks (schema disk) = Some m → m !! name = Some b →
        processed_blocks (sq_tables db) !! name = Some b
  end.

Lemma build_keeps_upgraded n disk disk' t e faults r db :
  upgraded n (schema disk) (schema disk') →
  Some (processed_blocks t) = db_processed_blocks (schema disk') →
  Some (OutboxV2 (outbox_rows t) (outbox_seq t)) = db_outbox (schema disk') →
  build_context parse_abi env e (mkSqlite t faults) = (r, db) → start_keeps n disk (OnTables db).
Proof.
  intros Hup Hb Ho Hrun. split.
  - pose proof (build_context_keeps_alerts e (outbox_rows t) (mkSqlite t faults) eq_refl) as Hk. rewrite Hrun in Hk. cbn in Hk |- *.
    rewrite Hk. rewrite <- (upgraded_alerts _ _ _ Hup), <- Ho. done.
  - intros m name b Hm Hl. apply (up_blocks _ _ _ Hup) in Hm. rewrite <- Hb in Hm. injection Hm as <-.
    pose proof (build_context_keeps_progress e name b (mkSqlite t faults) Hl) as Hk. by rewrite Hrun in Hk.
Qed.

(** C22: A start on a database that an earlier version of the program left: whether it succeeds,
    stops in the migrations or fails later, every alert of the outbox is still there, in
    order, with its identifier, action, payload and retries, and every recorded progress; a
    database whose upgrade stopped is one of a later version, from which the next start goes
    on.  When it succeeds the configuration had at least one URL and numbers in range, and
    the services are those of consistent tables with a block to start from, provided the
    alerts of before the idempotency keys had been delivered. *)
Theorem application_starts driver now faults settings override surroundings n disk r o :
  AppConfig_new vars source dir = Ok settings → env_settings (surroundings settings) = settings →
  SqliteStateRepository_new driver (default (database_url settings) override) = Ok disk → at_version n disk →
  build_application parse_abi env driver now faults (AppConfig_new vars source dir) override surroundings = (r, o) →
  start_keeps n disk o ∧
  ∀ ctx, r = Ok ctx → rpc_urls settings ≠ [] ∧ config_ranges (services settings) ∧
    (alerts_keyed (db_outbox (schema disk)) →
     ∃ db monitors actions svc, o = OnTables db ∧ store_wf (sq_tables db) ∧
       is_Some (processed_blocks (sq_tables db) !! cfg_network_id (services settings)) ∧
       ready (overridden_config (surroundings settings)) ctx (sq_tables db) monitors actions svc).
Proof.
  intros Hc Hs Hopen Hd. unfold build_application. rewrite Hc, Hopen.
  destruct (run_migrations disk) as [migrated disk'] eqn:Hm.
  destruct (upgrade_keeps_data n disk migrated disk' now Hd Hm) as (n' & Hn' & Hd' & Hup & _ & Hok).
  destruct migrated as [[]|e]; [|by intros [= <- <-]; split; [exists n'; split; [lia|done]|]].
  destruct (Hok eq_refl) as (-> & t & -> & Hwf & Hb & Ho).
  destruct (build_context _ _ _ _) as [r' db] eqn:Hrun. intros [= -> <-].
  split; [by eapply build_keeps_upgraded|]. intros ctx ->. split_and!.
  - intros Hu. rewrite <- Hs in Hu. by destruct (no_urls_no_context _ _ _ _ Hu Hrun).
  - by apply application_settings.
  - intros Hk%(upgraded_keyed _ _ _ Hup). rewrite <- Ho in Hk. specialize (Hwf Hk).
    destruct (build_context_services _ (mkSqlite t faults) _ _ Hwf Hrun) as (_ & Hwf' & Hblock & ms & acts & svc & Hready).
    exists db, ms, acts, svc. split_and!; [done..| |done].
    unfold overridden_config in Hblock. rewrite Hs in Hblock. by destruct (env_from_block _).
Qed.
End Application.
End Ready.

(** ** A concrete start-up *)

Import ConfigDemo MonitorMatch.Demo AbiDemo RhaiDemo DispatchDemo Interfaces.SerdeDemo InterfacesDemo StoreDemo MigrationsDemo.

Module ContextDemo.
#[export] Instance demo_texts : ErrorTexts := {|
  persistence_text _ := "database error"; loader_text _ := "loader error";
  action_config_text _ := "action error"; abi_error_text _ := "abi error"
|}.
#[export] Instance demo_urls : UrlOps := {| url_domain u := Some u |}.

Definition config (start : InitialStartBlock) : AppConfig :=
  mkAppConfig "net" 10 10 2 1000 None 12 start None.
Definition file {T} (items : list T) : ConfigFile T :=
  mkConfigFile (Some "yaml") (Ok "text") (λ _, Ok items).
Definition action (name : string) : ActionConfig := mkAction None name (Stdout (mkStdout None)) None.
Definition transfers : MonitorConfig :=
  mkMonitorConfig "transfers" "net" (Some "0x1") (Some "erc20") "log" ["out"] Active.
Definition abi_dir : list (result string DirEntry) :=
  [Ok (mkDirEntry true (Some "json") (Some "erc20") "erc20.json" (Ok "[erc20]"));
   Ok (mkDirEntry true (Some "md") (Some "notes") "notes.md" (Err "unreadable"))].
Definition settings (c : AppConfig) : AppSettings :=
  mkSettings "sqlite:data/monitor.db" ["http://node"] c "monitors.yaml" "actions.yaml" RpcRetryConfig_default
    HttpRetryConfig_default BaseHttpClientConfig_default 30000 RhaiConfig_default 1024 "abis/" 5000
    ServerConfig_default OutboxConfig_default.
Definition environment : Environment :=
  mkEnvironment (settings (config (Absolute 500))) (Some (Offset (-5))) (Some (Ok abi_dir))
    (file [action "out"]) (file [transfers]) (Ok 1000%Z) all_features.
Definition parse_abi (s : string) : result string JsonAbi := Ok (arc_val erc20).
Definition startup : result AppContextError AppContext * SqliteStateRepository :=
  build_context parse_abi (λ _, None) environment (demo_db []).

(** A database of version 8 whose alerts were delivered, opened with the text of a configuration. *)
Definition delivered8 : Disk := mkDisk (applied version8) (with_outbox (Some (OutboxV1 [] 7)) (schema version8)).
Definition surroundings (c : AppSettings) : Environment :=
  mkEnvironment c None (Some (Ok abi_dir)) (file [action "out"]) (file [transfers]) (Ok 1000%Z) all_features.
Definition driver (disk : Disk) : SqliteDriver := mkDriver string (λ url, Ok url) id (λ _, Ok disk).
Definition start_on (disk : Disk) (extra : list (string * Json)) : result AppContextError AppContext * Opened :=
  build_application parse_abi (λ _, None) (driver disk) 0 [] (AppConfig_new ConfigDemo.env (ConfigDemo.file extra) None)
    None surroundings.
End ContextDemo.
Import ContextDemo.



Lemma delivered8_wf : at_version 8 delivered8.
Proof.
  destruct version8_wf as (? & ? & []). split; [done|]. split; [done|]. split; try assumption.
  split; [done|by repeat constructor].
Qed.

Lemma application_starts_witness :
  (∃ db, (start_on version8 []).2 = OnTables db ∧ or_id <$> outbox_rows (sq_tables db) = [7%Z]) ∧
  ∃ ctx db, start_on delivered8 [] = (Ok ctx, OnTables db) ∧ store_wf (sq_tables db) ∧
    processed_blocks (sq_tables db) !! "net" = Some 41%Z.
Proof.
  destruct (loaded []) as [settings|] eqn:Hl; [|vm_compute in Hl; discriminate Hl].
  assert (AppConfig_new ConfigDemo.env (ConfigDemo.file []) None = Ok settings) as Hc.
  { destruct (AppConfig_new _ _ _) as [c|e] eqn:E; [|vm_compute in E; discriminate E]. vm_compute in Hl, E. congruence. }
  pose proof (λ disk, application_starts parse_abi (λ _, None) ConfigDemo.env (ConfigDemo.file []) None (driver disk) 0%Z []
    settings None surroundings 8 disk) as Hstart. split.
  - destruct (start_on version8 []) as [r o] eqn:E.
    destruct (Hstart version8 r o Hc eq_refl eq_refl version8_wf E) as [Hk _].
    assert (∃ db, o = OnTables db) as [db ->].
    { apply (f_equal (λ x, match x.2 with OnTables _ => true | _ => false end)) in E. vm_compute in E. destruct o; eauto; discriminate E. }
    exists db. split; [done|]. destruct Hk as [Hk _]. cbn in Hk.
    apply (f_equal (fmap (λ x, x.1.1.1))) in Hk. by rewrite <- list_fmap_compose in Hk.
  - destruct (start_on delivered8 []) as [r o] eqn:E.
    assert (is_ok r = true) as Hok by (apply (f_equal (λ x, is_ok x.1)) in E; vm_compute in E; by destruct r).
    destruct r as [ctx|]; [|discriminate Hok].
    destruct (Hstart delivered8 (Ok ctx) o Hc eq_refl eq_refl delivered8_wf E) as [Hk Hr].
    destruct (Hr ctx eq_refl) as (_ & _ & Hw). destruct (Hw eq_refl) as (db & ms & acts & svc & -> & Hwf & _).
    exists ctx, db. split; [done|]. split; [done|]. destruct Hk as [_ Hb]. by apply (Hb {["net" := 41%Z]}).
Defined.

(** Loading the actions of the file is not atomic: when the second cannot be stored, the
    start-up fails, and the next one finds the first in the database and skips the file. *)
Lemma partial_actions_kept :
  let f := file [action "a"; action "b"] in
  let '(r1, s1) := load_actions_from_file (λ _, None) (config Latest) f (demo_db [false; false; false; true]) in
  let '(r2, s2) := load_actions_from_file (λ _, None) (config Latest) f (mkSqlite (sq_tables s1) []) in
  is_ok r1 = false ∧ r2 = Ok tt ∧ acr_name <$> actions (sq_tables s2) = ["a"].
Proof. vm_compute. by split_and!. Qed.

(** An empty list of URLs is read; it stops the start after the upgrade and the ABIs. *)
Lemma empty_url_list :
  (start_on version8 [("rpc_urls", JArray [])]).1 = Err (ProviderCreation (CreationError "RPC URL list cannot be empty")).
Proof. by vm_compute. Qed.

(** Two monitors of an address with different ABIs: only the second ABI is linked. *)
Lemma second_abi_replaces_first :
  let m name abi := mkMonitor 1 name "net" (Some "0x1") (Some abi) "log" [] 0 0 Active in
  let svc := from_named_abis [("erc20", erc20); ("tokens", mkArc 101 (mkJsonAbi [] []))] in
  let '(r, svc') := load_abis_from_monitors [m "x" "erc20"; m "y" "tokens"] svc in
  r = Ok tt ∧ (abi_events ∘ arc_val ∘ cc_abi <$> address_specific_cache svc' !! 1%Z) = Some [].
Proof. vm_compute. by split_and!. Qed.

(** [--from 0] is block 0, but [initial_start_block: 0] of the configuration is the default offset. *)
Lemma start_block_zero :
  parse_start_block_arg "0" = Ok (Absolute 0) ∧ InitialStartBlock_visit_i64 0 = Offset (-100).
Proof. split; vm_compute; reflexivity. Qed.
