(* ===== verification/Api.v ===== *)
(** * The REST API ([crates/argus-api], [crates/argus-monitor/src/persistence_validator.rs])

    Requests are given with their path and body parsed (that is the HTTP library's work);
    a handler is here a function on the repository, the compiler the monitor validator uses,
    and the channel of configuration changes.  A response body is the value the code
    serialises. *)
From S2P Require Import Prelude Models MonitorMatch Abi Conversions RhaiScript Registry Manager Interfaces AlertManager Dispatch Validator Store Frames.

(** A handler returns an error, or panics. *)
Inductive HandlerFault (E : Type) := Failed (e : E) | Panicked.
Arguments Failed {E} _.
Arguments Panicked {E}.
Definition fault_map {E F} (f : E → F) (x : HandlerFault E) : HandlerFault F :=
  match x with Failed e => Failed (f e) | Panicked => Panicked end.

Section Api.
Context `{AlloyPrimitives} `{DynAbi} `{RhaiEngine} `{TemplateEngine} `{UrlOps} `{DefaultHasher} `{SqliteChoices}.
Context `{Serde (list string)} `{Serde ActionConfig} `{Serde ActionPayload}.

(** ** The state the handlers share ([ApiState]) *)

(** [watch::Sender<()>]: the version counts the changes; sending fails when the
    receiver is gone. *)
Record ConfigChannel := mkConfigChannel { cfg_version : nat; cfg_receiver : bool }.

Record ApiSystem := mkApi {
  api_repo : SqliteStateRepository;
  api_compiler : RhaiCompiler;
  api_config_tx : ConfigChannel
}.

Notation handler E A := (eff ApiSystem (HandlerFault E) A).

Definition on_repo {E A} (f : PersistenceError → E) (q : query A) : handler E A := λ s,
  let '(r, repo) := q (api_repo s) in
  (map_err (λ e, Failed (f e)) r, mkApi repo (api_compiler s) (api_config_tx s)).

(** ** Persistence validation ([persistence_validator.rs], [action/validator.rs]) *)

Inductive MonitorPersistenceValidationError :=
| BusinessLogic (e : MonitorValidationError)
| MonitorPersistence (e : PersistenceError)
| MonitorNameConflict (name : string).

Inductive ActionValidationError :=
| Configuration (e : ActionTypeConfigError)
| ActionPersistence (e : PersistenceError)
| ActionNameConflict (name : string).

(** [business_logic_validator.validate(monitor)]. *)
Definition business_validate (v : MonitorValidator) (monitor : MonitorConfig)
    : handler MonitorPersistenceValidationError unit := λ s,
  let '(r, c) := validate_monitor v monitor (api_compiler s) in
  (map_err (λ f, match f with ValidatorErr e => Failed (BusinessLogic e) | ValidatorPanic => Panicked end) r,
   mkApi (api_repo s) c (api_config_tx s)).

Section MonitorPersistenceValidator.
Context (network_id : NetworkId) (validator : MonitorValidator).

Definition network_mismatch (monitor : MonitorConfig) : handler MonitorPersistenceValidationError unit :=
  throw (Failed (BusinessLogic (InvalidNetwork (mc_name monitor) network_id (mc_network monitor)))).

Definition monitor_validate_for_create (monitor : MonitorConfig) : handler MonitorPersistenceValidationError unit :=
  if negb (bool_decide (mc_network monitor = network_id)) then network_mismatch monitor
  else
    existing_monitors ← on_repo MonitorPersistence (get_monitors network_id);
    if existsb (λ m, bool_decide (m_name m = mc_name monitor)) existing_monitors
    then throw (Failed (MonitorNameConflict (mc_name monitor)))
    else business_validate validator monitor.

Definition monitor_validate_for_update (monitor_id : string) (monitor : MonitorConfig)
    : handler MonitorPersistenceValidationError unit :=
  if negb (bool_decide (mc_network monitor = network_id)) then network_mismatch monitor
  else
    existing_monitors ← on_repo MonitorPersistence (get_monitors network_id);
    match find (λ m, bool_decide (m_name m = mc_name monitor)) existing_monitors with
    | Some existing =>
        if bool_decide (pretty (m_id existing) ≠ monitor_id)
        then throw (Failed (MonitorNameConflict (mc_name monitor)))
        else business_validate validator monitor
    | None => business_validate validator monitor
    end.
End MonitorPersistenceValidator.

Definition action_validate_for_create (network_id : NetworkId) (action : ActionConfig) : handler ActionValidationError unit :=
  _ ← lift_result (map_err (λ e, Failed (Configuration e)) (ActionTypeConfig_validate (ac_config action)));
  existing ← on_repo ActionPersistence (get_action_by_name network_id (ac_name action));
  match existing with
  | Some _ => throw (Failed (ActionNameConflict (ac_name action)))
  | None => mret tt
  end.

Definition action_validate_for_update (network_id : NetworkId) (action : ActionConfig) : handler ActionValidationError unit :=
  _ ← lift_result (map_err (λ e, Failed (Configuration e)) (ActionTypeConfig_validate (ac_config action)));
  action_id ← lift_result (ok_or (ac_id action) (Failed (ActionPersistence (InvalidInput "Action ID is required for update"))));
  existing ← on_repo ActionPersistence (get_action_by_id network_id action_id);
  match existing with
  | None => throw (Failed (ActionPersistence NotFound))
  | Some _ =>
      same_name ← on_repo ActionPersistence (get_action_by_name network_id (ac_name action));
      match same_name with
      | Some existing_action =>
          if bool_decide (ac_id existing_action ≠ ac_id action)
          then throw (Failed (ActionNameConflict (ac_name action))) else mret tt
      | None => mret tt
      end
  end.

(** ** Errors and responses ([error.rs]) *)

Inductive ApiError :=
| Unauthorized
| ApiNotFound (message : string)
| UnprocessableEntity (message : string)
| Conflict (message : string)
| ActionInUse (monitors : list string)
| ApiAbiInUse (monitors : list string)
| InternalServerError (e : string).

(** The texts of the errors. *)
Class ApiTexts := {
  persistence_error_text : PersistenceError → string;
  monitor_validation_text : MonitorValidationError → string;
  action_type_error_text : ActionTypeConfigError → string;
  json_error_text : string → string
}.
Context `{ApiTexts}.

(** [impl From<_> for ApiError]. *)
Definition ApiError_from_persistence (err : PersistenceError) : ApiError :=
  match err with
  | NotFound => ApiNotFound "Resource not found"
  | AbiInUse monitors => ApiAbiInUse monitors
  | _ => InternalServerError (persistence_error_text err)
  end.
Definition ApiError_from_action (err : ActionValidationError) : ApiError :=
  match err with
  | Configuration e => UnprocessableEntity (action_type_error_text e)
  | ActionNameConflict name => Conflict ("Action with name '" +:+ name +:+ "' already exists.")
  | ActionPersistence NotFound => ApiNotFound "Action not found"
  | ActionPersistence e => InternalServerError (persistence_error_text e)
  end.
Definition ApiError_from_monitor (err : MonitorPersistenceValidationError) : ApiError :=
  match err with
  | BusinessLogic e => UnprocessableEntity (monitor_validation_text e)
  | MonitorPersistence p => ApiError_from_persistence p
  | MonitorNameConflict name => Conflict ("Monitor with name '" +:+ name +:+ "' already exists.")
  end.

Inductive Body :=
| StatusText (status : string)
| ErrorBody (error : string) (monitors : option (list string))
| MonitorsBody (l : list Monitor)
| MonitorBody (m : Monitor)
| ActionsBody (l : list ActionConfig)
| ActionBody (a : ActionConfig)
| AbisBody (names : list string)
| AbiBody (name abi : string)
| StatusResponse (network_id : NetworkId) (uptime_secs latest_processed_block latest_timestamp_secs : Z)
| EmptyBody.

Record Response := mkResponse { res_status : Z; res_body : Body }.

Definition into_response (e : ApiError) : Response :=
  match e with
  | Unauthorized => mkResponse 401 (ErrorBody "Unauthorized" None)
  | InternalServerError _ => mkResponse 500 (ErrorBody "An internal server error occurred" None)
  | ApiNotFound message => mkResponse 404 (ErrorBody message None)
  | UnprocessableEntity message => mkResponse 422 (ErrorBody message None)
  | Conflict message => mkResponse 409 (ErrorBody message None)
  | ActionInUse monitors => mkResponse 409 (ErrorBody "Action is in use and cannot be deleted." (Some monitors))
  | ApiAbiInUse monitors => mkResponse 409 (ErrorBody "ABI is in use and cannot be deleted." (Some monitors))
  end.

(** ** Handlers ([monitors.rs], [actions.rs], [abi.rs], [status.rs]) *)

Section Handlers.
Context (network_id : NetworkId) (validator : MonitorValidator).
(** [serde_json::from_str::<Value>] and the text of the value. *)
Context (normalize_json : string → result string string).

Notation respond := (handler ApiError Response).
Notation repo q := (on_repo ApiError_from_persistence q).

(** [config_tx.send(())]. *)
Definition config_send : handler ApiError bool := λ s,
  let tx := api_config_tx s in
  if cfg_receiver tx
  then (Ok true, mkApi (api_repo s) (api_compiler s) (mkConfigChannel (Datatypes.S (cfg_version tx)) true))
  else (Ok false, s).

(** The monitor handlers report a failed notification, the action handlers do not. *)
Definition notify_or_fail : handler ApiError unit :=
  sent ← config_send;
  if sent : bool then mret tt else throw (Failed (InternalServerError "Failed to notify configuration change")).

Definition api_get_monitors : respond :=
  monitors ← repo (get_monitors network_id);
  mret (mkResponse 200 (MonitorsBody monitors)).

Definition api_get_monitor_details (monitor_id : string) : respond :=
  o ← repo (get_monitor_by_id network_id monitor_id);
  monitor ← lift_result (ok_or o (Failed (ApiNotFound "Monitor not found")));
  mret (mkResponse 200 (MonitorBody monitor)).

Definition api_update_monitor (monitor_id : string) (payload : MonitorConfig) : respond :=
  _ ← eff_map_err (fault_map ApiError_from_monitor) (monitor_validate_for_update network_id validator monitor_id payload);
  _ ← repo (update_monitor network_id monitor_id payload);
  _ ← notify_or_fail;
  mret (mkResponse 200 (StatusText "Monitors update triggered")).

Definition api_create_monitor (payload : MonitorConfig) : respond :=
  _ ← eff_map_err (fault_map ApiError_from_monitor) (monitor_validate_for_create network_id validator payload);
  _ ← repo (add_monitors network_id [payload]);
  _ ← notify_or_fail;
  mret (mkResponse 201 (StatusText "Monitor creation triggered")).

Definition api_delete_monitor (monitor_id : string) : respond :=
  _ ← repo (delete_monitor network_id monitor_id);
  _ ← notify_or_fail;
  mret (mkResponse 204 (StatusText "Monitor deletion triggered")).

Definition api_update_monitor_status (monitor_id : string) (status : MonitorStatus) : respond :=
  _ ← repo (update_monitor_status network_id monitor_id status);
  _ ← notify_or_fail;
  mret (mkResponse 200 (StatusText "Monitor status update triggered")).

Definition api_get_actions : respond :=
  actions ← repo (get_actions network_id);
  mret (mkResponse 200 (ActionsBody actions)).

Definition api_get_action_details (action_id : ActionId) : respond :=
  o ← repo (get_action_by_id network_id action_id);
  action ← lift_result (ok_or o (Failed (ApiNotFound "Action not found")));
  mret (mkResponse 200 (ActionBody action)).

Definition api_create_action (action : ActionConfig) : respond :=
  _ ← eff_map_err (fault_map ApiError_from_action) (action_validate_for_create network_id action);
  new_action ← repo (create_action network_id action);
  _ ← config_send;
  mret (mkResponse 201 (ActionBody new_action)).

Definition api_update_action (action_id : ActionId) (action : ActionConfig) : respond :=
  let action := mkAction (Some action_id) (ac_name action) (ac_config action) (ac_policy action) in
  _ ← eff_map_err (fault_map ApiError_from_action) (action_validate_for_update network_id action);
  updated_action ← repo (update_action network_id action);
  _ ← config_send;
  mret (mkResponse 200 (ActionBody updated_action)).

Definition api_delete_action (action_id : ActionId) : respond :=
  monitors ← repo (get_monitors_by_action_id network_id action_id);
  match monitors with
  | _ :: _ => throw (Failed (ActionInUse (mc_name <$> monitors)))
  | [] =>
      _ ← repo (delete_action network_id action_id);
      _ ← config_send;
      mret (mkResponse 204 EmptyBody)
  end.

Definition api_upload_abi (name abi : string) : respond :=
  abi_json ← lift_result (map_err (λ e, Failed (UnprocessableEntity ("Invalid ABI JSON: " +:+ json_error_text e)))
                            (normalize_json abi));
  existing ← repo (get_abi name);
  match existing with
  | Some _ => throw (Failed (Conflict ("ABI with name '" +:+ name +:+ "' already exists.")))
  | None =>
      _ ← repo (create_abi name abi_json);
      mret (mkResponse 201 (AbiBody name abi_json))
  end.

Definition api_get_abi_by_name (abi_name : string) : respond :=
  o ← repo (get_abi abi_name);
  abi_content ← lift_result (ok_or o (Failed (ApiNotFound "ABI not found")));
  mret (mkResponse 200 (AbiBody abi_name abi_content)).

Definition api_list_abis : respond :=
  abis ← repo list_abis;
  mret (mkResponse 200 (AbisBody abis)).

Definition api_delete_abi (abi_name : string) : respond :=
  _ ← repo (delete_abi abi_name);
  mret (mkResponse 204 EmptyBody).

(** [AppMetrics]: the uptime, the last block sent and its timestamp. *)
Definition api_status (metrics : Z * Z * Z) : respond :=
  mret (mkResponse 200 (StatusResponse network_id metrics.1.1 metrics.1.2 metrics.2)).

(** ** Routes and authentication ([mod.rs], [auth.rs]) *)

Inductive Endpoint :=
| Health
| Status
| CreateMonitor (payload : MonitorConfig)
| GetMonitors
| GetMonitorDetails (id : string)
| DeleteMonitor (id : string)
| UpdateMonitor (id : string) (payload : MonitorConfig)
| UpdateMonitorStatus (id : string) (status : MonitorStatus)
| UploadAbi (name abi : string)
| ListAbis
| GetAbiByName (name : string)
| DeleteAbi (name : string)
| GetActions
| GetActionDetails (id : ActionId)
| CreateAction (action : ActionConfig)
| UpdateAction (id : ActionId) (action : ActionConfig)
| DeleteAction (id : ActionId).

Record ApiRequest := mkRequest { rq_authorization : option string; rq_endpoint : Endpoint }.

(** The routes with [route_layer(auth)]. *)
Definition requires_auth (e : Endpoint) : bool :=
  match e with
  | CreateMonitor _ | DeleteMonitor _ | UpdateMonitor _ _ | UpdateMonitorStatus _ _
  | UploadAbi _ _ | DeleteAbi _ | CreateAction _ | UpdateAction _ _ | DeleteAction _ => true
  | _ => false
  end.

Definition handle (metrics : Z * Z * Z) (e : Endpoint) : respond :=
  match e with
  | Health => mret (mkResponse 200 (StatusText "ok"))
  | Status => api_status metrics
  | CreateMonitor payload => api_create_monitor payload
  | GetMonitors => api_get_monitors
  | GetMonitorDetails id => api_get_monitor_details id
  | DeleteMonitor id => api_delete_monitor id
  | UpdateMonitor id payload => api_update_monitor id payload
  | UpdateMonitorStatus id status => api_update_monitor_status id status
  | UploadAbi name abi => api_upload_abi name abi
  | ListAbis => api_list_abis
  | GetAbiByName name => api_get_abi_by_name name
  | DeleteAbi name => api_delete_abi name
  | GetActions => api_get_actions
  | GetActionDetails id => api_get_action_details id
  | CreateAction action => api_create_action action
  | UpdateAction id action => api_update_action id action
  | DeleteAction id => api_delete_action id
  end.

(** The middleware [auth]. *)
Definition auth (api_key : string) (authorization : option string) : result ApiError unit :=
  token ← ok_or (authorization ≫= strip_prefix "Bearer ") Unauthorized;
  if decide (token = api_key) then Ok tt else Err Unauthorized.

(** The response of a handler: [None] when it panics. *)
Definition answer (x : result (HandlerFault ApiError) Response * ApiSystem) : option Response * ApiSystem :=
  (match x.1 with
   | Ok response => Some response
   | Err (Failed e) => Some (into_response e)
   | Err Panicked => None
   end, x.2).

(** A request through the router. *)
Definition serve (api_key : string) (metrics : Z * Z * Z) (rq : ApiRequest) (s : ApiSystem) : option Response * ApiSystem :=
  let run := (_ ← (if requires_auth (rq_endpoint rq)
                   then lift_result (map_err Failed (auth api_key (rq_authorization rq))) else mret tt);
              handle metrics (rq_endpoint rq)) in
  answer (run s).
End Handlers.
End Api.

(** ** What the API guarantees *)

Section ApiTheorems.
Context `{AlloyPrimitives} `{DynAbi} `{RhaiEngine} `{TemplateEngine} `{UrlOps} `{DefaultHasher} `{SqliteChoices}.
Context `{SerdeLaws (list string)} `{Serde ActionConfig} `{SerdeLaws ActionPayload} `{!ApiTexts}.
Context (network_id : NetworkId) (validator : MonitorValidator) (normalize_json : string → result string string).
Implicit Types (s : ApiSystem).

(** A property of the tables and of the two other parts. *)
Definition api_prop (Q : Tables → RhaiCompiler → ConfigChannel → Prop) s : Prop :=
  Q (sq_tables (api_repo s)) (api_compiler s) (api_config_tx s).

Lemma keeps_on_repo {E A} Q (f : PersistenceError → E) (q : query A) :
  (∀ c x, preserves (λ t, Q t c x) q) → keeps (api_prop Q) (on_repo f q).
Proof.
  intros Hq s Hs. specialize (Hq (api_compiler s) (api_config_tx s) (api_repo s) Hs). unfold on_repo.
  by destruct (q (api_repo s)).
Qed.

Lemma fails_on_repo {E A} (P : HandlerFault E → Prop) (f : PersistenceError → E) (q : query A) :
  (∀ e, P (Failed (f e))) → fails_only P (on_repo f q).
Proof. intros HP s e. unfold on_repo. destruct (q (api_repo s)) as [[a|e'] r]; intros [= <-]. apply HP. Qed.

(** Reading the repository changes no table. *)
Lemma preserves_get_monitors P n : preserves P (get_monitors n).
Proof. apply preserves_bind; auto with store. Qed.
Lemma preserves_get_actions P n : preserves P (get_actions n).
Proof. apply preserves_bind; auto with store. Qed.
Lemma preserves_get_action P p : preserves P (get_action p).
Proof. apply preserves_bind; [auto with store|]. intros [?|]; auto with store. Qed.
Lemma preserves_get_monitor_by_id P n id : preserves P (get_monitor_by_id n id).
Proof.
  unfold get_monitor_by_id. case_match; [|auto with store].
  apply preserves_bind; [auto with store|]. intros [?|]; auto with store.
Qed.
Lemma preserves_get_abi P n : preserves P (get_abi n).
Proof. apply preserves_select. Qed.
Lemma preserves_list_abis P : preserves P list_abis.
Proof. apply preserves_select. Qed.
Lemma preserves_monitors_by_action P n id : preserves P (get_monitors_by_action_id n id).
Proof.
  apply preserves_bind; [apply preserves_get_action|]. intros o. apply preserves_bind; [auto with store|]. intros a.
  apply preserves_bind; auto with store.
Qed.
Hint Resolve preserves_get_monitors preserves_get_actions preserves_get_action preserves_get_monitor_by_id
  preserves_get_abi preserves_list_abis preserves_monitors_by_action keeps_on_repo fails_on_repo : eff.

(** Validation changes at most the compiler's cache. *)
Definition any_compiler (Q : Tables → ConfigChannel → Prop) (t : Tables) (_ : RhaiCompiler) (x : ConfigChannel) : Prop := Q t x.

Lemma keeps_business Q m : keeps (api_prop (any_compiler Q)) (business_validate validator m).
Proof. intros s Hs. unfold business_validate. by destruct (validate_monitor validator m (api_compiler s)). Qed.

Lemma keeps_validate_create Q m : keeps (api_prop (any_compiler Q)) (monitor_validate_for_create network_id validator m).
Proof.
  unfold monitor_validate_for_create. destruct (negb _); [apply keeps_throw|].
  apply keeps_bind; [auto with eff|]. intros l. destruct (existsb _ l); [apply keeps_throw|apply keeps_business].
Qed.

Lemma keeps_validate_update Q id m : keeps (api_prop (any_compiler Q)) (monitor_validate_for_update network_id validator id m).
Proof.
  unfold monitor_validate_for_update. destruct (negb _); [apply keeps_throw|].
  apply keeps_bind; [auto with eff|]. intros l. destruct (find _ l); [|apply keeps_business].
  case_bool_decide; [apply keeps_throw|apply keeps_business].
Qed.

Lemma keeps_action_create Q a : keeps (api_prop Q) (action_validate_for_create network_id a).
Proof.
  apply keeps_bind; [auto with eff|]. intros _. apply keeps_bind; [apply keeps_on_repo; intros; apply preserves_get_action|].
  intros [?|]; auto with eff.
Qed.

Lemma keeps_action_update Q a : keeps (api_prop Q) (action_validate_for_update network_id a).
Proof.
  apply keeps_bind; [auto with eff|]. intros _. apply keeps_bind; [auto with eff|]. intros id.
  apply keeps_bind; [apply keeps_on_repo; intros; apply preserves_get_action|]. intros [?|]; [|auto with eff].
  apply keeps_bind; [apply keeps_on_repo; intros; apply preserves_get_action|]. intros [?|]; [|auto with eff].
  case_bool_decide; auto with eff.
Qed.

Lemma keeps_config_send (Q : Tables → Prop) : keeps (api_prop (λ t _ _, Q t)) config_send.
Proof. intros s Hs. unfold config_send. by destruct (cfg_receiver _). Qed.

Lemma keeps_notify (Q : Tables → Prop) : keeps (api_prop (λ t _ _, Q t)) notify_or_fail.
Proof. apply keeps_bind; [apply keeps_config_send|]. intros [|]; auto with eff. Qed.

(** ** Endpoints that only read *)

Lemma handle_reads metrics e Q :
  requires_auth e = false → keeps (api_prop Q) (handle network_id validator normalize_json metrics e).
Proof.
  destruct e; cbn [requires_auth handle]; intros [=]; try (unfold api_status; apply keeps_ret);
    (apply keeps_bind; [apply keeps_on_repo; intros; unfold get_action_by_id; auto with eff|intros ?; auto with eff]).
Qed.

(** ** Endpoints that write keep what their statements keep *)

Section HandleKeeps.
Context (P : Tables → Prop) (HP : admin_keeps P).

Lemma keeps_repo {E A} (f : PersistenceError → E) (q : query A) :
  preserves P q → keeps (api_prop (λ t _ _, P t)) (on_repo f q).
Proof. intros Hq. by apply (keeps_on_repo (λ t _ _, P t)). Qed.

Hint Resolve keeps_repo keeps_notify keeps_config_send : eff.
Hint Resolve ak_add_monitors ak_delete_monitor ak_update_monitor ak_update_status ak_create_abi ak_delete_abi
  ak_create_action ak_update_action ak_delete_action : eff.

Lemma handle_keeps metrics e : keeps (api_prop (λ t _ _, P t)) (handle network_id validator normalize_json metrics e).
Proof.
  destruct (requires_auth e) eqn:Ea; [|by apply handle_reads].
  destruct e; try discriminate Ea; cbn [handle]; (apply keeps_bind; [|intros ?]); eauto 7 with eff.
  - apply keeps_map_err, (keeps_validate_create (λ t _, P t)).
  - apply keeps_map_err, (keeps_validate_update (λ t _, P t)).
  - apply keeps_bind; [apply keeps_on_repo; intros; apply preserves_get_abi|]. intros [?|]; eauto 7 with eff.
  - apply keeps_map_err, keeps_action_create.
  - apply keeps_map_err, keeps_action_update.
  - case_match; eauto 7 with eff.
Qed.

(** A request, whatever its outcome. *)
Lemma serve_keeps api_key metrics rq s :
  P (sq_tables (api_repo s)) → P (sq_tables (api_repo (serve network_id validator normalize_json api_key metrics rq s).2)).
Proof.
  intros Hs. unfold serve, answer. cbn [snd]. refine (keeps_bind (api_prop (λ t _ _, P t)) _ _ _ _ s Hs).
  - destruct (requires_auth _); auto with eff.
  - intros _. apply handle_keeps.
Qed.
End HandleKeeps.

(** ** No handler panics *)

Notation no_panic := (fails_only (λ f, f ≠ Panicked)).

Lemma business_no_panic m : no_panic (business_validate validator m).
Proof.
  intros s e. unfold business_validate. destruct (validate_monitor_checked validator m (api_compiler s)) as [_ Hp].
  destruct (validate_monitor validator m (api_compiler s)) as [[u|[e'|]] c]; cbn in *; [done|by intros [= <-]|done].
Qed.

Lemma repo_no_panic {E A} (f : PersistenceError → E) (q : query A) : no_panic (on_repo f q).
Proof. by apply fails_on_repo. Qed.

Lemma throw_no_panic {E A} (e : E) : no_panic (throw (Failed e) : eff ApiSystem _ A).
Proof. by apply fails_throw. Qed.

Lemma lift_no_panic {E A B} (r : result B A) (f : B → E) : no_panic (lift_result (map_err (λ e, Failed (f e)) r) : eff ApiSystem _ A).
Proof. apply fails_lift. by destruct r; intros ? [= <-]. Qed.

Lemma ok_or_no_panic {E A} (o : option A) (e : E) : no_panic (lift_result (ok_or o (Failed e)) : eff ApiSystem _ A).
Proof. apply fails_lift. by destruct o; intros ? [= <-]. Qed.

Lemma map_no_panic {E F A} (f : E → F) (m : eff ApiSystem (HandlerFault E) A) :
  no_panic m → no_panic (eff_map_err (fault_map f) m).
Proof. intros Hm. apply fails_map_err. intros s e He. specialize (Hm s e He). by destruct e. Qed.

Lemma send_no_panic : no_panic config_send.
Proof. intros s e. unfold config_send. by destruct (cfg_receiver _). Qed.

Hint Resolve business_no_panic repo_no_panic throw_no_panic lift_no_panic ok_or_no_panic map_no_panic send_no_panic : eff.

Lemma notify_no_panic : no_panic notify_or_fail.
Proof. apply fails_bind; [auto with eff|]. intros [|]; auto with eff. Qed.
Hint Resolve notify_no_panic : eff.

Lemma create_no_panic m : no_panic (monitor_validate_for_create network_id validator m).
Proof.
  unfold monitor_validate_for_create, network_mismatch. destruct (negb _); [auto with eff|].
  apply fails_bind; [auto with eff|]. intros l. destruct (existsb _ l); auto with eff.
Qed.
Lemma update_no_panic id m : no_panic (monitor_validate_for_update network_id validator id m).
Proof.
  unfold monitor_validate_for_update, network_mismatch. destruct (negb _); [auto with eff|].
  apply fails_bind; [auto with eff|]. intros l. destruct (find _ l); [case_bool_decide|]; auto with eff.
Qed.
Lemma action_create_no_panic a : no_panic (action_validate_for_create network_id a).
Proof.
  apply fails_bind; [auto with eff|]. intros _. apply fails_bind; [auto with eff|]. intros [?|]; auto with eff.
Qed.
Lemma action_update_no_panic a : no_panic (action_validate_for_update network_id a).
Proof.
  apply fails_bind; [auto with eff|]. intros _. apply fails_bind; [auto with eff|]. intros aid.
  apply fails_bind; [auto with eff|]. intros [?|]; [|auto with eff].
  apply fails_bind; [auto with eff|]. intros [?|]; [case_bool_decide|]; auto with eff.
Qed.
Hint Resolve create_no_panic update_no_panic action_create_no_panic action_update_no_panic : eff.

Lemma handle_no_panic metrics e : no_panic (handle network_id validator normalize_json metrics e).
Proof.
  destruct e; cbn [handle]; try apply fails_ret; (apply fails_bind; [|intros ?]); auto with eff.
  - apply fails_bind; [auto with eff|]. intros [?|]; auto with eff.
  - case_match; auto with eff.
Qed.

(** ** Authentication *)

Lemma auth_Ok api_key authorization : auth api_key authorization = Ok tt ↔ authorization = Some ("Bearer " +:+ api_key).
Proof.
  unfold auth. destruct authorization as [h|]; [|done]. cbn [mbind option_bind].
  destruct (strip_prefix "Bearer " h) as [token|] eqn:E; cbn [ok_or mbind result_bind].
  - apply strip_prefix_spec in E as ->. case_decide as Hd; [subst; done|]. split; [done|].
    intros Hh. cbn in Hh. simplify_eq.
  - split; [done|]. intros Hh. injection Hh as ->.
    pose proof (proj2 (strip_prefix_spec "Bearer " ("Bearer " +:+ api_key) api_key) eq_refl). congruence.
Qed.

(** A request that nothing interrupts is answered: no handler panics, and whatever it asks, the tables
    stay consistent.  They change, or the services are told of a change, only when the
    request carries the API key; a request to a protected route without it gets 401 and
    has no effect at all. *)
Theorem serve_safe api_key metrics rq s :
  let '(o, s') := serve network_id validator normalize_json api_key metrics rq s in
  let authorised := rq_authorization rq = Some ("Bearer " +:+ api_key) in
  is_Some o ∧
  (store_wf (sq_tables (api_repo s)) → store_wf (sq_tables (api_repo s'))) ∧
  (sq_tables (api_repo s') ≠ sq_tables (api_repo s) ∨ api_config_tx s' ≠ api_config_tx s → authorised) ∧
  (requires_auth (rq_endpoint rq) = true → ¬ authorised → o = Some (into_response Unauthorized) ∧ s' = s).
Proof.
  unfold serve. pose proof (auth_Ok api_key (rq_authorization rq)) as Ha.
  assert (auth api_key (rq_authorization rq) = Ok tt ∨ auth api_key (rq_authorization rq) = Err Unauthorized) as Hcases.
  { unfold auth. destruct (rq_authorization rq ≫= _); cbn [ok_or mbind result_bind]; [case_decide|]; auto. }
  set (run := handle network_id validator normalize_json metrics (rq_endpoint rq)).
  set (authorised := rq_authorization rq = Some ("Bearer " +:+ api_key)) in *.
  assert (authorised ∨ requires_auth (rq_endpoint rq) = false →
    is_Some (answer (run s)).1 ∧ (store_wf (sq_tables (api_repo s)) → store_wf (sq_tables (api_repo (run s).2))) ∧
    (sq_tables (api_repo (run s).2) ≠ sq_tables (api_repo s) ∨ api_config_tx (run s).2 ≠ api_config_tx s → authorised)) as Hrun.
  { intros Hau. split_and!.
    - pose proof (handle_no_panic metrics (rq_endpoint rq) s) as Hp. fold run in Hp. unfold answer.
      destruct (run s) as [[response|[e|]] s']; [by eexists..|]. by specialize (Hp _ eq_refl).
    - apply (handle_keeps store_wf store_wf_admin metrics (rq_endpoint rq) s).
    - destruct Hau as [|Hau]; [done|].
      destruct (handle_reads metrics (rq_endpoint rq)
        (λ t _ x, t = sq_tables (api_repo s) ∧ x = api_config_tx s) Hau s) as [E1 E2]; [done|].
      fold run in E1, E2. intros [?|?]; congruence. }
  destruct (requires_auth (rq_endpoint rq)) eqn:Eq.
  - destruct Hcases as [Hau|Hau].
    + erewrite eff_bind_run by (unfold lift_result; rewrite Hau; reflexivity). fold run. cbn [answer].
      destruct Hrun as (? & ? & ?); [by left; apply Ha|]. split_and!; [done..|]. intros _ []. by apply Ha.
    + erewrite eff_bind_fail by (unfold lift_result; rewrite Hau; reflexivity).
      split_and!; [by eexists|done|by intros [?|?]|done].
  - erewrite eff_bind_run by reflexivity. fold run. destruct Hrun as (? & ? & ?); [by right|]. by split_and!.
Qed.

(** ** Creating a monitor *)

Lemma on_repo_run {E A} (f : PersistenceError → E) (q : query A) s a repo :
  q (api_repo s) = (Ok a, repo) → on_repo f q s = (Ok a, mkApi repo (api_compiler s) (api_config_tx s)).
Proof. unfold on_repo. by intros ->. Qed.

Lemma business_validate_spec m s :
  let '(r, s') := business_validate validator m s in
  api_repo s' = api_repo s ∧ api_config_tx s' = api_config_tx s ∧
  (r = Ok tt ↔ monitor_valid validator m (api_compiler s)) ∧
  (r = Ok tt ∨ ∃ e, r = Err (Failed (BusinessLogic e))).
Proof.
  unfold business_validate. destruct (validate_monitor_checked validator m (api_compiler s)) as [Hv Hp].
  destruct (validate_monitor validator m (api_compiler s)) as [[[]|[e|]] c]; cbn in *; [| |done].
  - split_and!; [done..| |by left]. by rewrite <- Hv.
  - split_and!; [done..| |by right; eexists]. rewrite <- Hv. split; intros; discriminate.
Qed.

Lemma name_taken n (l : list Monitor) : existsb (λ m, bool_decide (m_name m = n)) l = true ↔ n ∈ m_name <$> l.
Proof.
  rewrite existsb_exists, list_elem_of_fmap. setoid_rewrite list_elem_of_In. setoid_rewrite bool_decide_eq_true.
  split; intros (m & ? & ?); by exists m.
Qed.

(** A name that is not listed is in no row of the network. *)
Lemma unlisted_row n l t :
  listed_monitors network_id t = Ok l → n ∉ m_name <$> l →
  (network_id, n) ∉ (λ r, (mr_network r, mr_name r)) <$> monitors t.
Proof.
  intros Hl Hnew (r & [= Hr1 Hr2] & Hin)%list_elem_of_fmap. apply Hnew. rewrite (listed_monitors_names _ _ _ Hl).
  apply list_elem_of_fmap. exists r. split; [done|]. by apply list_elem_of_filter.
Qed.


(** ** Deleting an action *)

(** A name that [serde_json] writes as it is. *)
Definition plain_name (n : string) : Prop :=
  Forall (λ c, c ≠ backslash ∧ c ≠ dquote ∧ 32 ≤ Ascii.nat_of_ascii c) (chars n).

(** What [serde_json] documents of a list of strings: each plain one appears between quotes. *)
Class JsonListText : Prop := json_list_text (n : string) (l : list string) (str : string) :
  plain_name n → n ∈ l → to_string l = Ok str →
  ∃ pre post, chars str = pre ++ [dquote] ++ chars n ++ [dquote] ++ post.

(** The actions of a stored monitor. *)
Definition stored_actions (r : MonitorRow) (l : list string) : Prop := to_string l = Ok (mr_actions r).

Lemma like_clause_finds `{!JsonListText} n l r :
  plain_name n → stored_actions r l → n ∈ l → like (Some backslash) (like_clause n) (chars (mr_actions r)) = true.
Proof.
  intros Hn Hr Hin. destruct (json_list_text n l _ Hn Hin Hr) as (pre & post & ->). apply like_quoted.
  intros Hb. unfold plain_name in Hn. rewrite Forall_forall in Hn. by destruct (Hn _ Hb).
Qed.

(** C34: [DELETE /actions/{id}], uninterrupted, never removes an action that a monitor of the network
    names: when it answers 204, exactly the rows of that identifier are gone, the
    monitors are untouched, and none of them lists the action's name (for a name that
    JSON writes without escapes). *)
Theorem api_delete_action_safe `{!JsonListText} action_id s response s' :
  api_delete_action network_id action_id s = (Ok response, s') →
  res_status response = 204%Z ∧
  monitors (sq_tables (api_repo s')) = monitors (sq_tables (api_repo s)) ∧
  actions (sq_tables (api_repo s')) =
    filter (λ r, is_action network_id action_id r = false) (actions (sq_tables (api_repo s))) ∧
  ∃ a, a ∈ actions (sq_tables (api_repo s)) ∧ is_action network_id action_id a = true ∧
    (plain_name (acr_name a) → ∀ r l, r ∈ monitors (sq_tables (api_repo s')) → mr_network r = network_id →
       stored_actions r l → acr_name a ∉ l).
Proof.
  intros Hrun. unfold api_delete_action in Hrun.
  apply eff_bind_Ok in Hrun as (ms & s1 & Hq & Hrun). destruct ms as [|m ms]; [|done].
  apply eff_bind_Ok in Hrun as ([] & s2 & Hd & Hrun). apply eff_bind_Ok in Hrun as (sent & s3 & Hsend & [= <- <-]).
  assert (api_repo s3 = api_repo s2) as E3.
  { revert Hsend. unfold config_send. destruct (cfg_receiver _); by intros [= _ <-]. }
  revert Hq. unfold on_repo. destruct (get_monitors_by_action_id network_id action_id (api_repo s)) as [rq repo1] eqn:Eq.
  destruct rq as [l0|]; cbn [map_err]; [|done]. intros [= -> <-]. cbn [api_repo] in *.
  revert Hd. unfold on_repo. cbn [api_repo].
  destruct (delete_action network_id action_id repo1) as [rd repo2] eqn:Ed.
  destruct rd as [[]|]; cbn [map_err]; [|done]. intros [= <-]. cbn [api_repo] in *. rewrite E3.
  apply eff_bind_Ok in Eq as (o & q1 & Hget & Eq). apply eff_bind_Ok in Eq as (action & q2 & [= Ho ->] & Eq).
  apply ok_or_Ok in Ho as ->. apply eff_bind_Ok in Eq as (rows & q3 & Hsel & [= Hrows ->]).
  apply eff_bind_Ok in Hget as (orow & q4 & Hsel0 & Hget).
  apply select_tables in Hsel0 as [Et4 Hrow]. specialize (Hrow _ eq_refl).
  destruct orow as [row|]; [|by injection Hget]. injection Hget as Ha <-.
  destruct (action_of_row row) as [action'|] eqn:Erow; [|discriminate Ha]. injection Ha as ->.
  assert (acr_name row = ac_name action) as Hname.
  { unfold action_of_row in Erow. by apply bind_Ok in Erow as (? & _ & [= <-]). }
  symmetry in Hrow. apply head_Some_elem_of, list_elem_of_filter in Hrow as [Hid Hin].
  apply select_tables in Hsel as [Et3 Hl]. specialize (Hl _ eq_refl).
  apply eff_bind_Ok in Ed as (k & q5 & Hx & Hk). destruct k as [|k]; [done|]. injection Hk as <-.
  apply execute_Ok in Hx. injection Hx as _ Hx. rewrite Et3, Et4 in *. rewrite <- Hx. cbn.
  split_and!; [done..|]. exists row. split_and!; [done|exact Hid|].
  intros Hplain r l Hr Hnet Hst Hin'. rewrite Hname in *.
  assert (r ∈ rows) as Hrr.
  { rewrite Hl. apply list_elem_of_filter. split; [|done]. split; [done|]. by eapply like_clause_finds. }
  destruct rows as [|r0 rows]; [by apply elem_of_nil in Hrr|]. cbn in Hrows.
  destruct (monitor_config_of_row r0); [|discriminate Hrows]. cbn in Hrows. by destruct (collect_result _ rows).
Qed.
End ApiTheorems.

(** ** Examples *)

Import MonitorMatch.Demo AbiDemo RhaiDemo DispatchDemo Interfaces.SerdeDemo InterfacesDemo StoreDemo.

Module ApiDemo.
#[export] Instance api_texts : ApiTexts := {|
  persistence_error_text _ := "database error"; monitor_validation_text _ := "invalid monitor";
  action_type_error_text _ := "invalid action"; json_error_text e := e
|}.
#[export] Instance api_urls : UrlOps := {| url_domain u := Some u |}.

Definition out_action : ActionConfig := mkAction None "out" (Stdout (mkStdout None)) None.
Definition monitor (name : string) (abi_name : option string) : MonitorConfig :=
  mkMonitorConfig name "net" None abi_name "tx" ["out"] Active.
Definition with_out : MonitorValidator := mkValidator "net" [out_action] AbiService_new.
Definition system (s : SqliteStateRepository) : ApiSystem := mkApi s RhaiCompiler_new (mkConfigChannel 0 true).
Definition start : ApiSystem := system (create_action "net" out_action (demo_db [])).2.
Definition json (s : string) : result string string := Ok s.
Definition ask (e : Endpoint) (s : ApiSystem) : option Response * ApiSystem :=
  serve "net" with_out json "key" (0, 0, 0)%Z (mkRequest (Some "Bearer key") e) s.
Definition status_of (x : option Response * ApiSystem) : option Z := res_status <$> x.1.
End ApiDemo.
Import ApiDemo.


(** Deleting a monitor without the API key: 401, and the monitor stays. *)
Lemma serve_safe_witness :
  let s := (ask (CreateMonitor (monitor "m" None)) start).2 in
  let x := serve "net" with_out json "key" (0, 0, 0)%Z (mkRequest (Some "Bearer other") (DeleteMonitor "1")) s in
  x = (Some (into_response Unauthorized), s) ∧ mr_name <$> monitors (sq_tables (api_repo s)) = ["m"].
Proof.
  cbv zeta. split; [|vm_compute; reflexivity].
  pose proof (serve_safe "net" with_out json "key" (0, 0, 0)%Z (mkRequest (Some "Bearer other") (DeleteMonitor "1"))
    (ask (CreateMonitor (monitor "m" None)) start).2) as Hsafe.
  destruct (serve _ _ _ _ _ _ _) as [o s'].
  destruct Hsafe as (_ & _ & _ & Hno).
  destruct (Hno eq_refl ltac:(discriminate)) as [Ho Hs]. rewrite Ho, Hs. reflexivity.
Defined.

(** The list of names between quotes, as JSON writes it. *)
Module QuotedNames.
Definition quoted (n : string) : list Ascii.ascii := [dquote] ++ chars n ++ [dquote].
Fixpoint unquote (inside : bool) (current : string) (l : list Ascii.ascii) : list string :=
  match l with
  | [] => []
  | c :: l =>
      if decide (c = dquote) then
        if inside then current :: unquote false EmptyString l else unquote true EmptyString l
      else unquote inside (if inside then current +:+ String c EmptyString else current) l
  end.
#[export] Instance quoted_serde : Serde (list string) | 0 := {|
  to_string l := Ok (Stdlib.Strings.String.string_of_list_ascii (mjoin (quoted <$> l)));
  from_str s := Ok (unquote false EmptyString (chars s))
|}.
#[export] Instance quoted_text : JsonListText.
Proof.
  intros n l str _ Hn [= <-]. unfold chars. rewrite Stdlib.Strings.String.list_ascii_of_string_of_list_ascii.
  apply list_elem_of_split in Hn as (l1 & l2 & ->). rewrite fmap_app, fmap_cons.
  exists (mjoin (quoted <$> l1)), (mjoin (quoted <$> l2)).
  rewrite join_app. cbn [mjoin list_join]. unfold quoted at 2. by rewrite <- !app_assoc.
Defined.
End QuotedNames.

Module DeleteDemo.
Import QuotedNames.
Definition used : ApiSystem :=
  let s := (create_action "net" out_action (demo_db [])).2 in
  let s := (create_action "net" (mkAction None "spare" (Stdout (mkStdout None)) None) s).2 in
  system (add_monitors "net" [monitor "m" None] s).2.
End DeleteDemo.

Section DeleteWitness.
Import QuotedNames DeleteDemo.
Lemma api_delete_action_safe_witness :
  (∃ s', api_delete_action "net" 2 used = (Ok (mkResponse 204 EmptyBody), s') ∧
     ∀ r l, r ∈ monitors (sq_tables (api_repo s')) → mr_network r = "net" → stored_actions r l → "spare" ∉ l) ∧
  (api_delete_action "net" 1 used).1 = Err (Failed (ActionInUse ["m"])).
Proof.
  split; [|vm_compute; reflexivity].
  assert ((api_delete_action "net" 2 used).1 = Ok (mkResponse 204 EmptyBody)) as Hok by (vm_compute; reflexivity).
  destruct (api_delete_action "net" 2 used) as [r s'] eqn:E. cbn in Hok. subst r. exists s'. split; [reflexivity|].
  destruct (api_delete_action_safe "net" 2 used (mkResponse 204 EmptyBody) s' E) as (_ & _ & _ & a & Ha & Hid & Hsafe).
  assert (acr_name a = "spare") as Hname.
  { assert (Forall (λ a, is_action "net" 2 a = true → acr_name a = "spare") (actions (sq_tables (api_repo used)))) as Hall.
    { apply (bool_decide_unpack _). vm_compute. exact I. }
    rewrite Forall_forall in Hall. by apply Hall. }
  rewrite <- Hname. apply Hsafe. rewrite Hname. apply (bool_decide_unpack _). vm_compute. exact I.
Defined.
End DeleteWitness.

Definition created : ApiSystem := (ask (CreateMonitor (monitor "m" None)) start).2.

(** [PUT /monitors/{id}] with another name answers 200 and keeps the old name. *)
Lemma monitor_rename_ignored :
  let x := ask (UpdateMonitor "1" (monitor "renamed" None)) created in
  status_of x = Some 200%Z ∧ mr_name <$> monitors (sq_tables (api_repo x.2)) = ["m"].
Proof. vm_compute. by split. Qed.

(** [PUT /actions/{id}] renames an action that a monitor uses: the monitor keeps the old name. *)
Lemma action_rename_dangles :
  let x := ask (UpdateAction 1 (mkAction None "renamed" (Stdout (mkStdout None)) None)) created in
  status_of x = Some 200%Z ∧ acr_name <$> actions (sq_tables (api_repo x.2)) = ["renamed"] ∧
  (mc_actions ∘ config_of <$> default [] (result_ok (listed_monitors "net" (sq_tables (api_repo x.2))))) = [["out"]].
Proof. vm_compute. by split_and!. Qed.

(** A new action is unknown to the validator, which keeps the actions of the start-up. *)
Lemma new_action_not_usable :
  let s := (ask (CreateAction (mkAction None "new" (Stdout (mkStdout None)) None)) start).2 in
  status_of (ask (CreateMonitor (mkMonitorConfig "m" "net" None None "tx" ["new"] Active)) s) = Some 422%Z.
Proof. vm_compute. reflexivity. Qed.

(** A deleted action is still accepted in new monitors: the validator has the actions of the start. *)
Lemma deleted_action_still_usable :
  let deleted := ask (DeleteAction 1) start in
  let '(r, s) := ask (CreateMonitor (monitor "m" None)) deleted.2 in
  status_of deleted = Some 204%Z ∧ res_status <$> r = Some 201%Z ∧
  actions (sq_tables (api_repo s)) = [] ∧ m_actions <$> default [] (result_ok (listed_monitors "net" (sq_tables (api_repo s)))) = [["out"]].
Proof. vm_compute. by split_and!. Qed.

(** An identifier that is not a number is an internal error to [GET], and not found to [DELETE]. *)
Lemma bad_identifier_status :
  status_of (ask (GetMonitorDetails "abc") created) = Some 500%Z ∧
  status_of (ask (DeleteMonitor "abc") created) = Some 404%Z.
Proof. split; vm_compute; reflexivity. Qed.

(** The text of a name with a backslash is not found, so an action in use can be deleted. *)
Lemma backslash_name_not_found :
  let name := "a" +:+ String backslash "b" in
  let json_name := "a" +:+ String backslash (String backslash "b") in
  like (Some backslash) (like_clause name) ([dquote] ++ chars json_name ++ [dquote]) = false.
Proof. vm_compute. reflexivity. Qed.
