(* ===== verification/Requests.v ===== *)
(** * The requests of the API, await by await

    A server handles its requests concurrently: each waits for one statement or
    transaction of the repository at a time, and any other request, service or reload may
    run in between.  A handler of [Api] is cut here at these points; alone, it does what
    [Api.serve] does; among others, a theorem says what survives of it. *)
From S2P Require Import Prelude Models MonitorMatch Abi Conversions RhaiScript Registry Manager Interfaces AlertManager Dispatch Validator Store Frames Api.

(** ** Handlers, cut at their awaits *)

(** A request being handled: answered, or about to make a call and to go on with its result. *)
Inductive Handling `{RhaiEngine} (E A : Type) : Type :=
| Answered (r : result (HandlerFault E) A)
| Awaits {B : Type} (call : eff ApiSystem (HandlerFault E) B) (rest : B → Handling E A).
Arguments Answered {_ E A} _.
Arguments Awaits {_ E A B} _ _.

Section Handling.
Context `{RhaiEngine}.

Fixpoint handling_bind {E A A'} (f : A → Handling E A') (p : Handling E A) : Handling E A' :=
  match p with
  | Answered (Ok a) => f a
  | Answered (Err e) => Answered (Err e)
  | Awaits call rest => Awaits call (λ b, handling_bind f (rest b))
  end.
#[export] Instance handling_mret {E} : MRet (Handling E) := λ A a, Answered (Ok a).
#[export] Instance handling_mbind {E} : MBind (Handling E) := λ A A' f p, handling_bind f p.

Definition refuse {E A} (e : E) : Handling E A := Answered (Err (Failed e)).
Definition awaits {E A} (call : eff ApiSystem (HandlerFault E) A) : Handling E A := Awaits call (λ a, Answered (Ok a)).

(** [.map_err(Into::into)?]. *)
Fixpoint handling_map_err {E F A} (f : E → F) (p : Handling E A) : Handling F A :=
  match p with
  | Answered r => Answered (map_err (fault_map f) r)
  | Awaits call rest => Awaits (eff_map_err (fault_map f) call) (λ b, handling_map_err f (rest b))
  end.

Definition waiting {E A} (p : Handling E A) : bool := match p with Answered _ => false | Awaits _ _ => true end.

(** The call it is about to make. *)
Definition turn {E A} (p : Handling E A) (s : ApiSystem) : Handling E A * ApiSystem :=
  match p with
  | Answered _ => (p, s)
  | Awaits call rest =>
      let '(r, s') := call s in
      (match r with Ok b => rest b | Err e => Answered (Err e) end, s')
  end.

(** All its calls, without interruption. *)
Fixpoint handled_alone {E A} (p : Handling E A) : eff ApiSystem (HandlerFault E) A :=
  match p with
  | Answered r => lift_result r
  | Awaits call rest => b ← call; handled_alone (rest b)
  end.

(** Calls of [p] on the systems [l] finds and leaves them in, down to [q]: whatever happens
    between them. *)
Fixpoint proceeds {E A} (p : Handling E A) (l : list (ApiSystem * ApiSystem)) (q : Handling E A) : Prop :=
  match l with
  | [] => q = p
  | (s, s') :: l => waiting p = true ∧ s' = (turn p s).2 ∧ proceeds (turn p s).1 l q
  end.
End Handling.

Section Requests.
Context `{AlloyPrimitives} `{DynAbi} `{RhaiEngine} `{TemplateEngine} `{UrlOps} `{DefaultHasher} `{SqliteChoices}.
Context `{Serde (list string)} `{Serde ActionConfig} `{Serde ActionPayload} `{!ApiTexts}.
Context (network_id : NetworkId) (validator : MonitorValidator) (normalize_json : string → result string string).

(** ** Persistence validation *)

Definition on_monitor_create (monitor : MonitorConfig) : Handling MonitorPersistenceValidationError unit :=
  if negb (bool_decide (mc_network monitor = network_id))
  then refuse (BusinessLogic (InvalidNetwork (mc_name monitor) network_id (mc_network monitor)))
  else
    existing_monitors ← awaits (on_repo MonitorPersistence (get_monitors network_id));
    if existsb (λ m, bool_decide (m_name m = mc_name monitor)) existing_monitors
    then refuse (MonitorNameConflict (mc_name monitor))
    else awaits (business_validate validator monitor).

Definition on_monitor_update (monitor_id : string) (monitor : MonitorConfig)
    : Handling MonitorPersistenceValidationError unit :=
  if negb (bool_decide (mc_network monitor = network_id))
  then refuse (BusinessLogic (InvalidNetwork (mc_name monitor) network_id (mc_network monitor)))
  else
    existing_monitors ← awaits (on_repo MonitorPersistence (get_monitors network_id));
    match find (λ m, bool_decide (m_name m = mc_name monitor)) existing_monitors with
    | Some existing =>
        if bool_decide (pretty (m_id existing) ≠ monitor_id)
        then refuse (MonitorNameConflict (mc_name monitor))
        else awaits (business_validate validator monitor)
    | None => awaits (business_validate validator monitor)
    end.

Definition on_action_create (action : ActionConfig) : Handling ActionValidationError unit :=
  _ ← Answered (map_err (λ e, Failed (Configuration e)) (ActionTypeConfig_validate (ac_config action)));
  existing ← awaits (on_repo ActionPersistence (get_action_by_name network_id (ac_name action)));
  match existing with
  | Some _ => refuse (ActionNameConflict (ac_name action))
  | None => mret tt
  end.

Definition on_action_update (action : ActionConfig) : Handling ActionValidationError unit :=
  _ ← Answered (map_err (λ e, Failed (Configuration e)) (ActionTypeConfig_validate (ac_config action)));
  action_id ← Answered (ok_or (ac_id action) (Failed (ActionPersistence (InvalidInput "Action ID is required for update"))));
  existing ← awaits (on_repo ActionPersistence (get_action_by_id network_id action_id));
  match existing with
  | None => refuse (ActionPersistence NotFound)
  | Some _ =>
      same_name ← awaits (on_repo ActionPersistence (get_action_by_name network_id (ac_name action)));
      match same_name with
      | Some existing_action =>
          if bool_decide (ac_id existing_action ≠ ac_id action)
          then refuse (ActionNameConflict (ac_name action)) else mret tt
      | None => mret tt
      end
  end.

(** ** The handlers *)

Notation respond := (Handling ApiError Response).
Notation repo q := (awaits (on_repo ApiError_from_persistence q)).

(** The end of the handlers that change the monitors. *)
Definition then_notify (status : Z) (message : string) : respond :=
  sent ← awaits config_send;
  if sent : bool then mret (mkResponse status (StatusText message))
  else refuse (InternalServerError "Failed to notify configuration change").

(** Of those that change the actions. *)
Definition then_tell (status : Z) (body : Body) : respond :=
  _ ← awaits config_send; mret (mkResponse status body).

(** Of those that read one row. *)
Definition found {A} (o : option A) (message : string) (body : A → Body) : respond :=
  match o with Some a => mret (mkResponse 200 (body a)) | None => refuse (ApiNotFound message) end.

Definition on_create_monitor (payload : MonitorConfig) : respond :=
  _ ← handling_map_err ApiError_from_monitor (on_monitor_create payload);
  _ ← repo (add_monitors network_id [payload]);
  then_notify 201 "Monitor creation triggered".

Definition on_update_monitor (monitor_id : string) (payload : MonitorConfig) : respond :=
  _ ← handling_map_err ApiError_from_monitor (on_monitor_update monitor_id payload);
  _ ← repo (update_monitor network_id monitor_id payload);
  then_notify 200 "Monitors update triggered".

Definition on_delete_monitor (monitor_id : string) : respond :=
  _ ← repo (delete_monitor network_id monitor_id);
  then_notify 204 "Monitor deletion triggered".

Definition on_update_monitor_status (monitor_id : string) (status : MonitorStatus) : respond :=
  _ ← repo (update_monitor_status network_id monitor_id status);
  then_notify 200 "Monitor status update triggered".

Definition on_create_action (action : ActionConfig) : respond :=
  _ ← handling_map_err ApiError_from_action (on_action_create action);
  new_action ← repo (create_action network_id action);
  then_tell 201 (ActionBody new_action).

Definition on_update_action (action_id : ActionId) (action : ActionConfig) : respond :=
  let action := mkAction (Some action_id) (ac_name action) (ac_config action) (ac_policy action) in
  _ ← handling_map_err ApiError_from_action (on_action_update action);
  updated_action ← repo (update_action network_id action);
  then_tell 200 (ActionBody updated_action).

Definition on_delete_action (action_id : ActionId) : respond :=
  o ← repo (get_action_by_id network_id action_id);
  match o with
  | None => refuse (ApiError_from_persistence NotFound)
  | Some action =>
      monitors ← repo (monitors_naming network_id (ac_name action));
      match monitors with
      | _ :: _ => refuse (ActionInUse (mc_name <$> monitors))
      | [] => _ ← repo (delete_action network_id action_id); then_tell 204 EmptyBody
      end
  end.

Definition on_upload_abi (name abi : string) : respond :=
  abi_json ← Answered (map_err (λ e, Failed (UnprocessableEntity ("Invalid ABI JSON: " +:+ json_error_text e)))
                         (normalize_json abi));
  existing ← repo (get_abi name);
  match existing with
  | Some _ => refuse (Conflict ("ABI with name '" +:+ name +:+ "' already exists."))
  | None => _ ← repo (create_abi name abi_json); mret (mkResponse 201 (AbiBody name abi_json))
  end.

Definition on_delete_abi (abi_name : string) : respond :=
  in_use ← repo (select (monitors_using_abi abi_name));
  match in_use with
  | _ :: _ => refuse (ApiError_from_persistence (AbiInUse in_use))
  | [] => _ ← repo (delete_abi_row abi_name); mret (mkResponse 204 EmptyBody)
  end.

Definition on_endpoint (metrics : Z * Z * Z) (e : Endpoint) : respond :=
  match e with
  | Health => mret (mkResponse 200 (StatusText "ok"))
  | Status => mret (mkResponse 200 (StatusResponse network_id metrics.1.1 metrics.1.2 metrics.2))
  | CreateMonitor payload => on_create_monitor payload
  | GetMonitors => monitors ← repo (get_monitors network_id); mret (mkResponse 200 (MonitorsBody monitors))
  | GetMonitorDetails id => o ← repo (get_monitor_by_id network_id id); found o "Monitor not found" MonitorBody
  | DeleteMonitor id => on_delete_monitor id
  | UpdateMonitor id payload => on_update_monitor id payload
  | UpdateMonitorStatus id status => on_update_monitor_status id status
  | UploadAbi name abi => on_upload_abi name abi
  | ListAbis => abis ← repo list_abis; mret (mkResponse 200 (AbisBody abis))
  | GetAbiByName name => o ← repo (get_abi name); found o "ABI not found" (AbiBody name)
  | DeleteAbi name => on_delete_abi name
  | GetActions => actions ← repo (get_actions network_id); mret (mkResponse 200 (ActionsBody actions))
  | GetActionDetails id => o ← repo (get_action_by_id network_id id); found o "Action not found" ActionBody
  | CreateAction action => on_create_action action
  | UpdateAction id action => on_update_action id action
  | DeleteAction id => on_delete_action id
  end.

(** A request through the router. *)
Definition on_request (api_key : string) (metrics : Z * Z * Z) (rq : ApiRequest) : respond :=
  _ ← (if requires_auth (rq_endpoint rq)
       then Answered (map_err Failed (auth api_key (rq_authorization rq))) else mret tt);
  on_endpoint metrics (rq_endpoint rq).
End Requests.

(** ** Alone, a request is served as [Api.serve] says *)

Section Alone.
Context `{RhaiEngine}.

Definition runs_as {E A} (p : Handling E A) (m : eff ApiSystem (HandlerFault E) A) : Prop := ∀ s, handled_alone p s = m s.

Lemma runs_bind {E A A'} (p : Handling E A) m (f : A → Handling E A') g :
  runs_as p m → (∀ a, runs_as (f a) (g a)) → runs_as (p ≫= f) (m ≫= g).
Proof.
  intros Hp Hf s. assert (handled_alone (p ≫= f) s = (handled_alone p ≫= λ a, handled_alone (f a)) s) as ->.
  { clear. revert s. induction p as [[a|e]|B call rest IH]; intros s; [done..|].
    specialize (IH : ∀ b s, handled_alone (rest b ≫= f) s = _). cbn. unfold mbind, eff_bind in *.
    destruct (call s) as [[b|e] s']; [|done]. apply IH. }
  unfold mbind, eff_bind. rewrite (Hp s). destruct (m s) as [[a|e] s']; [|done]. apply Hf.
Qed.

Lemma runs_awaits {E A} (call : eff ApiSystem (HandlerFault E) A) : runs_as (awaits call) call.
Proof. intros s. cbn. unfold mbind, eff_bind. by destruct (call s) as [[a|e] s']. Qed.

Lemma runs_answered {E A} (r : result (HandlerFault E) A) : runs_as (Answered r) (lift_result r).
Proof. done. Qed.

Lemma runs_ret {E A} (a : A) : runs_as (mret a : Handling E A) (mret a).
Proof. done. Qed.

Lemma runs_refuse {E A} (e : E) : runs_as (refuse e : Handling E A) (throw (Failed e)).
Proof. done. Qed.

Lemma runs_map_err {E F A} (f : E → F) (p : Handling E A) m :
  runs_as p m → runs_as (handling_map_err f p) (eff_map_err (fault_map f) m).
Proof.
  intros Hp s. unfold eff_map_err. rewrite <- Hp. clear. revert s.
  induction p as [r|B call rest IH]; intros s; [done|]. cbn. unfold mbind, eff_bind, eff_map_err.
  destruct (call s) as [[b|e] s']; [|done]. apply IH.
Qed.

End Alone.

#[local] Hint Resolve runs_awaits runs_ret runs_refuse runs_answered runs_map_err : runs.

Section AloneTheorem.
Context `{AlloyPrimitives} `{DynAbi} `{RhaiEngine} `{TemplateEngine} `{UrlOps} `{DefaultHasher} `{SqliteChoices}.
Context `{Serde (list string)} `{Serde ActionConfig} `{Serde ActionPayload} `{!ApiTexts}.
Context (network_id : NetworkId) (validator : MonitorValidator) (normalize_json : string → result string string).

Lemma monitor_create_alone m : runs_as (on_monitor_create network_id validator m) (monitor_validate_for_create network_id validator m).
Proof.
  unfold on_monitor_create, monitor_validate_for_create. destruct (negb _); [apply runs_refuse|].
  apply runs_bind; [auto with runs|]. intros l. destruct (existsb _ l); auto with runs.
Qed.

Lemma monitor_update_alone id m : runs_as (on_monitor_update network_id validator id m) (monitor_validate_for_update network_id validator id m).
Proof.
  unfold on_monitor_update, monitor_validate_for_update. destruct (negb _); [apply runs_refuse|].
  apply runs_bind; [auto with runs|]. intros l. destruct (find _ l); [case_bool_decide|]; auto with runs.
Qed.

Lemma action_create_alone a : runs_as (on_action_create network_id a) (action_validate_for_create network_id a).
Proof. apply runs_bind; [auto with runs|]. intros _. apply runs_bind; [auto with runs|]. intros [?|]; auto with runs. Qed.

Lemma action_update_alone a : runs_as (on_action_update network_id a) (action_validate_for_update network_id a).
Proof.
  apply runs_bind; [auto with runs|]. intros _. apply runs_bind; [auto with runs|]. intros id.
  apply runs_bind; [auto with runs|]. intros [?|]; [|auto with runs].
  apply runs_bind; [auto with runs|]. intros [?|]; [case_bool_decide|]; auto with runs.
Qed.

Lemma notify_alone status message :
  runs_as (then_notify status message) (notify_or_fail ≫= λ _, mret (mkResponse status (StatusText message))).
Proof. intros s. cbn. unfold notify_or_fail, mbind, eff_bind, config_send. by destruct (cfg_receiver _). Qed.

Lemma tell_alone status body :
  runs_as (then_tell status body) (config_send ≫= λ _, mret (mkResponse status body)).
Proof. apply runs_bind; auto with runs. Qed.

Lemma found_alone {A} (o : option A) message (body : A → Body) :
  runs_as (found o message body)
    (lift_result (ok_or o (Failed (ApiNotFound message))) ≫= λ a, mret (mkResponse 200 (body a))).
Proof. by destruct o. Qed.

Hint Resolve monitor_create_alone monitor_update_alone action_create_alone action_update_alone notify_alone tell_alone found_alone : runs.

(** Runs the next call of both sides. *)
Ltac run_call := repeat (progress (unfold mbind, eff_bind, on_repo, lift_result; cbn)).

Lemma delete_action_alone id : runs_as (on_delete_action network_id id) (api_delete_action network_id id).
Proof.
  intros s. unfold on_delete_action, api_delete_action, get_monitors_by_action_id. run_call.
  destruct (get_action_by_id network_id id (api_repo s)) as [[[a|]|e] repo]; [|reflexivity..]. run_call.
  destruct (monitors_naming network_id (ac_name a) repo) as [[[|m ms]|e] repo']; [|reflexivity..]. run_call.
  destruct (delete_action network_id id repo') as [[u|e] repo'']; [|reflexivity]. run_call.
  by destruct (config_send _) as [[|]].
Qed.

Lemma delete_abi_alone name : runs_as (on_delete_abi name) (api_delete_abi name).
Proof.
  intros s. unfold on_delete_abi, api_delete_abi, delete_abi. run_call.
  destruct (select (monitors_using_abi name) (api_repo s)) as [[[|m ms]|e] repo]; [|reflexivity..]. run_call.
  by destruct (delete_abi_row name repo) as [[u|e] repo'].
Qed.

Lemma upload_abi_alone name abi : runs_as (on_upload_abi normalize_json name abi) (api_upload_abi normalize_json name abi).
Proof.
  apply runs_bind; [auto with runs|]. intros json. apply runs_bind; [auto with runs|]. intros [?|]; [auto with runs|].
  apply runs_bind; auto with runs.
Qed.

Hint Resolve delete_action_alone delete_abi_alone upload_abi_alone : runs.

Lemma endpoint_alone metrics e :
  runs_as (on_endpoint network_id validator normalize_json metrics e) (handle network_id validator normalize_json metrics e).
Proof.
  destruct e; cbn [on_endpoint handle]; auto with runs;
    repeat (apply runs_bind; [auto with runs|intros ?]); auto with runs.
Qed.

(** A request that nothing interrupts is served as in [Api]. *)
Lemma request_alone api_key metrics rq s :
  answer (handled_alone (on_request network_id validator normalize_json api_key metrics rq) s) =
  serve network_id validator normalize_json api_key metrics rq s.
Proof.
  unfold serve. f_equal. refine (runs_bind _ _ _ _ _ _ s); [by destruct (requires_auth _)|]. intros _. apply endpoint_alone.
Qed.
End AloneTheorem.

(** ** What a call does *)

Section Calls.
Context `{AlloyPrimitives} `{DynAbi} `{RhaiEngine} `{TemplateEngine} `{UrlOps} `{DefaultHasher} `{SqliteChoices}.
Context `{Serde (list string)} `{Serde ActionConfig} `{Serde ActionPayload}.
Implicit Types (s : ApiSystem).

(** Nothing that others see. *)
Definition quiet s s' : Prop := sq_tables (api_repo s') = sq_tables (api_repo s) ∧ api_config_tx s' = api_config_tx s.

(** The announcement of a change. *)
Definition told s s' : Prop :=
  sq_tables (api_repo s') = sq_tables (api_repo s) ∧
  cfg_version (api_config_tx s') = S (cfg_version (api_config_tx s)) ∧ cfg_receiver (api_config_tx s') = true.

Record read_call {E A} (call : eff ApiSystem (HandlerFault E) A) : Prop := {
  rc_quiet s : quiet s (call s).2;
  rc_panic s : (call s).1 ≠ Err Panicked
}.

(** A statement or a transaction that writes: all of it, or nothing. *)
Record write_call {E A} (call : eff ApiSystem (HandlerFault E) A) : Prop := {
  wc_channel s : api_config_tx (call s).2 = api_config_tx s;
  wc_atomic s e : (call s).1 = Err e → e ≠ Panicked ∧ sq_tables (api_repo (call s).2) = sq_tables (api_repo s);
  wc_admin P : admin_keeps P → keeps (λ s, P (sq_tables (api_repo s))) call
}.

Definition same_monitors {E A} (call : eff ApiSystem (HandlerFault E) A) : Prop :=
  ∀ s, monitors (sq_tables (api_repo (call s).2)) = monitors (sq_tables (api_repo s)).

Lemma quiet_refl s : quiet s s.
Proof. done. Qed.

Lemma read_map_err {E F A} (f : E → F) (call : eff ApiSystem (HandlerFault E) A) :
  read_call call → read_call (eff_map_err (fault_map f) call).
Proof.
  intros [Hq Hp]. split; intros s; specialize (Hq s); specialize (Hp s); unfold eff_map_err;
    destruct (call s) as [[a|[e|]] s']; cbn in *; [done..|congruence].
Qed.

Lemma read_repo {E A} (f : PersistenceError → E) (q : query A) : (∀ P, preserves P q) → read_call (on_repo f q).
Proof.
  intros Hq. split; intros s.
  - specialize (Hq (λ t, t = sq_tables (api_repo s)) (api_repo s) eq_refl). unfold on_repo, quiet.
    by destruct (q (api_repo s)) as [r repo].
  - unfold on_repo. by destruct (q (api_repo s)) as [[a|e] repo].
Qed.

Lemma read_validate v m : read_call (business_validate v m).
Proof.
  split; intros s.
  - unfold business_validate, quiet. by destruct (validate_monitor v m (api_compiler s)) as [r c].
  - intros E. by eapply (business_no_panic v m s).
Qed.

(** ** Writes that fail change nothing *)

Definition atomic {A} (q : query A) : Prop := ∀ db e db', q db = (Err e, db') → sq_tables db' = sq_tables db.

Lemma atomic_execute {A} (f : Tables → result string (A * Tables)) : atomic (execute f).
Proof.
  intros db e db'. unfold execute.
  destruct (sq_faults db) as [|[] fs]; [|by intros [= _ <-]|]; destruct (f (sq_tables db)) as [[a t]|x]; by intros [= _ <-].
Qed.

Lemma atomic_throw {A} (e : PersistenceError) : atomic (throw e : query A).
Proof. by intros db e' db' [= _ <-]. Qed.

Lemma atomic_lift_bind {E A} (r : result PersistenceError E) (q : E → query A) : (∀ a, atomic (q a)) → atomic (lift_result r ≫= q).
Proof. intros Hq db e db'. unfold mbind, eff_bind, lift_result. destruct r as [a|x]; [apply Hq|by intros [= _ <-]]. Qed.

Lemma atomic_bind_ret {A A'} (q : query A) (f : A → A') : atomic q → atomic (q ≫= λ a, mret (f a)).
Proof. intros Hq db e db'. unfold mbind, eff_bind. destruct (q db) as [[a|x] db1] eqn:E; [done|]. intros [= _ <-]. by eapply Hq. Qed.

(** When no row is affected the statement changed none. *)
Lemma atomic_affecting (f : Tables → result string (nat * Tables)) :
  (∀ t t', f t = Ok (0, t') → t' = t) → atomic (affecting (execute f)).
Proof.
  intros Hf db e db'. unfold affecting, mbind, eff_bind. destruct (execute f db) as [[n|x] db1] eqn:Ee.
  - assert (n = 0 → sq_tables db1 = sq_tables db) as Hn.
    { intros ->. revert Ee. unfold execute.
      destruct (sq_faults db) as [|[] fs]; [|done|]; (destruct (f (sq_tables db)) as [[a t]|y] eqn:Ef; intros [= -> <-]; by apply Hf). }
    destruct n; intros [= _ <-]. by apply Hn.
  - intros [= _ <-]. by eapply atomic_execute.
Qed.

Lemma none_hit {A} (hit : A → bool) (g : A → A) (l : list A) :
  length (filter (λ r, hit r = true) l) = 0 →
  filter (λ r, hit r = false) l = l ∧ (λ r, if hit r then g r else r) <$> l = l.
Proof.
  induction l as [|a l IH]; [done|]. rewrite !filter_cons, fmap_cons. destruct (hit a) eqn:E.
  - rewrite decide_True by done. done.
  - rewrite decide_False by done. rewrite decide_True by done. intros Hl. destruct (IH Hl) as [-> ->]. done.
Qed.

Lemma atomic_add n ms : atomic (add_monitors n ms).
Proof.
  unfold add_monitors. destruct (find _ ms); [apply atomic_throw|]. intros db e db'. unfold transaction.
  match goal with |- context [match ?m db with _ => _ end] => destruct (m db) as [[u|x] db1] end; by intros [= _ <-].
Qed.

Lemma atomic_delete n id : atomic (delete_monitor n id).
Proof.
  apply atomic_affecting. intros t t' [= Hn <-]. destruct (none_hit _ (λ r, r) _ Hn) as [-> _]. by destruct t.
Qed.

Lemma update_rows_none n id g (t t' : Tables) : update_monitor_rows n id g t = (0, t') → t' = t.
Proof. unfold update_monitor_rows. intros [= Hn <-]. destruct (none_hit _ g _ Hn) as [_ ->]. by destruct t. Qed.

Lemma atomic_update n id m : atomic (update_monitor n id m).
Proof.
  apply atomic_lift_bind. intros json. apply atomic_affecting. intros t t' E.
  destruct (update_monitor_rows _ _ _ t) as [k t1] eqn:Eu. destruct (_ && _); [done|]. injection E as -> ->.
  by eapply update_rows_none.
Qed.

Lemma atomic_status n id status : atomic (update_monitor_status n id status).
Proof.
  apply atomic_affecting. intros t t' E.
  apply (f_equal (λ r, match r with Ok x => x | Err _ => (0, t) end)) in E. by eapply update_rows_none.
Qed.

Lemma atomic_create_abi name abi : atomic (create_abi name abi).
Proof. apply atomic_execute. Qed.

Lemma atomic_delete_abi name : atomic (delete_abi_row name).
Proof.
  apply atomic_affecting. intros t t'. cbv zeta. destruct (_ && _); [done|]. intros [= Hn <-].
  apply nil_length_inv in Hn. rewrite filter_all; [by destruct t|]. apply Forall_forall. intros r Hr E.
  apply (not_elem_of_nil r). rewrite <- Hn. by apply list_elem_of_filter.
Qed.

Lemma atomic_create_action n a : atomic (create_action n a).
Proof. apply atomic_lift_bind. intros config. apply atomic_bind_ret, atomic_execute. Qed.

Lemma atomic_update_action n a : atomic (update_action n a).
Proof.
  unfold update_action. destruct (ac_id a) as [id|]; [|apply atomic_throw]. apply atomic_lift_bind. intros config.
  apply (atomic_bind_ret _ (λ _, a)), atomic_affecting. intros t t'. cbv zeta. destruct (_ && _); [done|].
  intros [= Hn <-]. destruct (none_hit _ (λ r, mkActionRow (acr_action_id r) (ac_name a) (acr_network_id r) config) _ Hn) as [_ E].
  rewrite E. by destruct t.
Qed.

Lemma atomic_delete_action n id : atomic (delete_action n id).
Proof. apply atomic_affecting. intros t t' [= Hn <-]. destruct (none_hit _ (λ r, r) _ Hn) as [-> _]. by destruct t. Qed.

Lemma write_repo {E A} (f : PersistenceError → E) (q : query A) :
  atomic q → (∀ P, admin_keeps P → preserves P q) → write_call (on_repo f q).
Proof.
  intros Hq HP. split.
  - intros s. unfold on_repo. by destruct (q (api_repo s)).
  - intros s e. unfold on_repo. destruct (q (api_repo s)) as [[a|e'] repo] eqn:Eq; [done|]. intros [= <-].
    split; [done|]. by eapply Hq.
  - intros P Had s Hs. specialize (HP P Had (api_repo s) Hs). unfold on_repo. by destruct (q (api_repo s)).
Qed.

Lemma repo_same_monitors {E A} (f : PersistenceError → E) (q : query A) :
  (∀ l, preserves (λ t, monitors t = l) q) → same_monitors (on_repo f q).
Proof.
  intros Hq s. specialize (Hq _ (api_repo s) eq_refl). unfold on_repo. by destruct (q (api_repo s)).
Qed.
End Calls.

(** ** The shape of a handler: it reads, writes once, and announces what it wrote *)

Section Shapes.
Context `{AlloyPrimitives} `{DynAbi} `{RhaiEngine} `{TemplateEngine} `{UrlOps} `{DefaultHasher} `{SqliteChoices}.
Context `{SerdeLaws (list string)} `{Serde ActionConfig} `{SerdeLaws ActionPayload} `{!ApiTexts}.
Implicit Types (s : ApiSystem).

Fixpoint reads {E A} (p : Handling E A) : Prop :=
  match p with
  | Answered r => r ≠ Err Panicked
  | Awaits call rest => read_call call ∧ ∀ b, reads (rest b)
  end.

(** About to announce what it wrote, and to answer whether or not somebody listens. *)
Definition announcing (p : Handling ApiError Response) : Prop :=
  ∃ rest, p = Awaits config_send rest ∧ (∃ a, rest true = Answered (Ok a)) ∧ ∃ r, rest false = Answered r ∧ r ≠ Err Panicked.

(** It has written nothing yet, and answers a success only after one write. *)
Fixpoint commits (p : Handling ApiError Response) : Prop :=
  match p with
  | Answered r => ∃ e, r = Err (Failed e)
  | Awaits call rest =>
      (read_call call ∧ ∀ b, commits (rest b)) ∨
      (write_call call ∧ ∀ b, announcing (rest b) ∨ same_monitors call ∧ ∃ a, rest b = Answered (Ok a))
  end.

(** It is answered after at most [n] calls. *)
Fixpoint within_calls {E A} (n : nat) (p : Handling E A) {struct p} : Prop :=
  match p with
  | Answered _ => True
  | Awaits _ rest => match n with 0 => False | Datatypes.S n => ∀ b, within_calls n (rest b) end
  end.

Lemma reads_bind {E A A'} (p : Handling E A) (f : A → Handling E A') : reads p → (∀ a, reads (f a)) → reads (p ≫= f).
Proof.
  intros Hp Hf. induction p as [[a|e]|B call rest IH]; [apply Hf|intros [= ->]; by apply Hp|].
  destruct Hp as [Hc Hr]. split; [done|]. intros b. by apply IH.
Qed.

Lemma commits_bind {A} (p : Handling ApiError A) f : reads p → (∀ a, commits (f a)) → commits (p ≫= f).
Proof.
  intros Hp Hf. induction p as [[a|[e|]]|B call rest IH]; [apply Hf|by eexists|by destruct Hp|].
  destruct Hp as [Hc Hr]. left. split; [done|]. intros b. by apply IH.
Qed.

Lemma reads_map_err {E F A} (f : E → F) (p : Handling E A) : reads p → reads (handling_map_err f p).
Proof.
  induction p as [[a|[e|]]|B call rest IH]; cbn; [done..|]. intros [Hc Hr]. split; [by apply read_map_err|].
  intros b. by apply IH.
Qed.

Lemma reads_awaits {E A} (call : eff ApiSystem (HandlerFault E) A) : read_call call → reads (awaits call).
Proof. by split. Qed.
Lemma reads_ret {E A} (a : A) : reads (mret a : Handling E A).
Proof. done. Qed.
Lemma reads_refuse {E A} (e : E) : reads (refuse e : Handling E A).
Proof. done. Qed.
Lemma reads_checked {E F A} (r : result F A) (f : F → E) : reads (Answered (map_err (λ e, Failed (f e)) r)).
Proof. by destruct r. Qed.
Lemma reads_ok_or {E A} (o : option A) (e : E) : reads (Answered (ok_or o (Failed e))).
Proof. by destruct o. Qed.

Lemma commits_write {A} (call : eff ApiSystem (HandlerFault ApiError) A) f :
  write_call call → (∀ a, announcing (f a) ∨ same_monitors call ∧ ∃ r, f a = Answered (Ok r)) → commits (awaits call ≫= f).
Proof. intros Hc Hf. right. by split. Qed.

Lemma commits_refuse e : commits (refuse e).
Proof. by eexists. Qed.

Lemma announcing_notify status message : announcing (then_notify status message).
Proof. eexists. split; [reflexivity|]. split; [by eexists|]. by eexists. Qed.
Lemma announcing_tell status body : announcing (then_tell status body).
Proof. eexists. split; [reflexivity|]. split; by eexists. Qed.

Lemma within_bind {E A A'} n m (p : Handling E A) (f : A → Handling E A') :
  within_calls n p → (∀ a, within_calls m (f a)) → within_calls (n + m) (p ≫= f).
Proof.
  intros Hp Hf. revert n Hp. induction p as [[a|e]|B call rest IH]; intros n Hp; [|exact I|].
  - specialize (Hf a). change (within_calls (n + m) (f a)). clear -Hf. revert n m Hf.
    induction (f a) as [r|B call rest IH]; intros n m Hf; [done|]. destruct m as [|m]; [done|].
    rewrite Nat.add_succ_r. intros b. by apply IH.
  - destruct n as [|n]; [done|]. intros b. by apply IH.
Qed.

Lemma within_map_err {E F A} n (f : E → F) (p : Handling E A) : within_calls n p → within_calls n (handling_map_err f p).
Proof. revert n. induction p as [r|B call rest IH]; intros n Hp; [done|]. destruct n; [done|]. intros b. by apply IH. Qed.
End Shapes.

#[export] Hint Resolve reads_awaits reads_ret reads_refuse reads_checked reads_ok_or reads_map_err commits_refuse
  announcing_notify announcing_tell : shape.

(** ** What every handler does *)

Section Atomic.
Context `{AlloyPrimitives} `{DynAbi} `{RhaiEngine} `{TemplateEngine} `{UrlOps} `{DefaultHasher} `{SqliteChoices}.
Context `{SerdeLaws (list string)} `{Serde ActionConfig} `{SerdeLaws ActionPayload} `{!ApiTexts}.
Context (network_id : NetworkId) (validator : MonitorValidator) (normalize_json : string → result string string).
Implicit Types (s : ApiSystem) (p q : Handling ApiError Response).

Lemma reads_repo {E A} (f : PersistenceError → E) (q : query A) : (∀ P, preserves P q) → reads (awaits (on_repo f q)).
Proof. intros Hq. by apply reads_awaits, read_repo. Qed.

Lemma reads_validate m : reads (awaits (business_validate validator m)).
Proof. apply reads_awaits, read_validate. Qed.

Lemma reads_naming {E} (f : PersistenceError → E) n name : reads (awaits (on_repo f (monitors_naming n name))).
Proof. apply reads_repo. intros P. apply preserves_bind; auto with store. Qed.

Lemma reads_action {E} (f : PersistenceError → E) n id : reads (awaits (on_repo f (get_action_by_id n id))).
Proof. apply reads_repo. intros P. apply preserves_get_action. Qed.
Lemma reads_action_name {E} (f : PersistenceError → E) n name : reads (awaits (on_repo f (get_action_by_name n name))).
Proof. apply reads_repo. intros P. apply preserves_get_action. Qed.
Lemma reads_monitors {E} (f : PersistenceError → E) n : reads (awaits (on_repo f (get_monitors n))).
Proof. apply reads_repo. intros P. apply preserves_get_monitors. Qed.
Lemma reads_abi {E} (f : PersistenceError → E) name : reads (awaits (on_repo f (get_abi name))).
Proof. apply reads_repo. intros P. apply preserves_select. Qed.

Hint Resolve reads_naming reads_action reads_action_name reads_monitors reads_abi reads_validate : shape.

Lemma monitor_create_reads m : reads (on_monitor_create network_id validator m).
Proof.
  unfold on_monitor_create. destruct (negb _); [done|]. apply reads_bind; [auto with shape|]. intros l.
  destruct (existsb _ l); auto with shape.
Qed.

Lemma monitor_update_reads id m : reads (on_monitor_update network_id validator id m).
Proof.
  unfold on_monitor_update. destruct (negb _); [done|]. apply reads_bind; [auto with shape|]. intros l.
  destruct (find _ l); [case_bool_decide|]; auto with shape.
Qed.

Lemma action_create_reads a : reads (on_action_create network_id a).
Proof.
  apply reads_bind; [auto with shape|]. intros _. apply reads_bind; [auto with shape|]. intros [?|]; auto with shape.
Qed.

Lemma action_update_reads a : reads (on_action_update network_id a).
Proof.
  apply reads_bind; [auto with shape|]. intros _. apply reads_bind; [auto with shape|]. intros id.
  apply reads_bind; [auto with shape|]. intros [?|]; [|auto with shape]. apply reads_bind; [auto with shape|].
  intros [?|]; [case_bool_decide|]; auto with shape.
Qed.

Lemma found_reads {A} (o : option A) message (body : A → Body) : reads (found o message body).
Proof. by destruct o. Qed.

Lemma endpoint_reads metrics e :
  requires_auth e = false → reads (on_endpoint network_id validator normalize_json metrics e).
Proof.
  destruct e; cbn [requires_auth on_endpoint]; intros [=]; try apply reads_ret;
    (apply reads_bind; [|intros ?; first [apply found_reads|apply reads_ret]]); auto with shape.
  - apply reads_repo. intros P. apply preserves_get_monitor_by_id.
  - apply reads_repo. intros P. apply preserves_list_abis.
  - apply reads_repo. intros P. apply preserves_get_actions.
Qed.

Hint Resolve monitor_create_reads monitor_update_reads action_create_reads action_update_reads : shape.

Ltac commit_by H := apply commits_write; [apply write_repo; [apply H|intros P []; auto]|]; intros ?.

Lemma delete_action_commits id : commits (on_delete_action network_id id).
Proof.
  apply commits_bind; [auto with shape|]. intros [a|]; [|auto with shape].
  apply commits_bind; [auto with shape|]. intros [|m ms]; [|auto with shape].
  commit_by atomic_delete_action. left. auto with shape.
Qed.

Lemma upload_abi_commits name abi : commits (on_upload_abi normalize_json name abi).
Proof.
  apply commits_bind; [auto with shape|]. intros json. apply commits_bind; [auto with shape|]. intros [a|]; [auto with shape|].
  commit_by atomic_create_abi. right.
  split; [|by eexists]. apply repo_same_monitors. intros l. by apply create_abi_only.
Qed.

Lemma delete_abi_commits name : commits (on_delete_abi name).
Proof.
  apply commits_bind; [apply reads_repo; intros P; apply preserves_select|]. intros [|m ms]; [|auto with shape].
  commit_by atomic_delete_abi. right.
  split; [|by eexists]. apply repo_same_monitors. intros l. by apply delete_abi_row_only.
Qed.

Lemma endpoint_commits metrics e :
  requires_auth e = true → commits (on_endpoint network_id validator normalize_json metrics e).
Proof.
  destruct e; cbn [requires_auth on_endpoint]; intros [=];
    auto using delete_action_commits, upload_abi_commits, delete_abi_commits.
  - apply commits_bind; [auto with shape|]. intros _.
    commit_by atomic_add. left. auto with shape.
  - commit_by atomic_delete. left. auto with shape.
  - apply commits_bind; [auto with shape|]. intros _.
    commit_by atomic_update. left. auto with shape.
  - commit_by atomic_status. left. auto with shape.
  - apply commits_bind; [auto with shape|]. intros _.
    commit_by atomic_create_action. left. auto with shape.
  - apply commits_bind; [auto with shape|]. intros _.
    commit_by atomic_update_action. left. auto with shape.
Qed.

(** *** How many calls it makes *)

Lemma within_awaits {E A} n (call : eff ApiSystem (HandlerFault E) A) : within_calls (Datatypes.S n) (awaits call).
Proof. done. Qed.

(** A call, and what comes after it. *)
Lemma within_call {E A A'} n (call : eff ApiSystem (HandlerFault E) A) (f : A → Handling E A') :
  (∀ a, within_calls n (f a)) → within_calls (Datatypes.S n) (awaits call ≫= f).
Proof. intros Hf. by apply (within_bind 1 n). Qed.

Lemma within_checked {E A A'} n (r : result (HandlerFault E) A) (f : A → Handling E A') :
  (∀ a, within_calls n (f a)) → within_calls n (Answered r ≫= f).
Proof. intros Hf. by apply (within_bind 0 n). Qed.

Lemma within_mapped {E F A A'} n m (f : E → F) (p : Handling E A) (g : A → Handling F A') :
  within_calls n p → (∀ a, within_calls m (g a)) → within_calls (n + m) (handling_map_err f p ≫= g).
Proof. intros Hp Hg. apply within_bind; [by apply within_map_err|done]. Qed.

Lemma monitor_create_within m : within_calls 2 (on_monitor_create network_id validator m).
Proof. unfold on_monitor_create. destruct (negb _); [done|]. apply within_call. intros l. by destruct (existsb _ l). Qed.

Lemma monitor_update_within id m : within_calls 2 (on_monitor_update network_id validator id m).
Proof.
  unfold on_monitor_update. destruct (negb _); [done|]. apply within_call. intros l. by destruct (find _ l); [case_bool_decide|].
Qed.

Lemma action_create_within a : within_calls 2 (on_action_create network_id a).
Proof. apply within_checked. intros _. apply within_call. by intros [?|]. Qed.

Lemma action_update_within a : within_calls 2 (on_action_update network_id a).
Proof.
  apply within_checked. intros _. apply within_checked. intros id. apply within_call. intros [?|]; [|done]. apply within_call.
  intros [?|]; [by case_bool_decide|done].
Qed.

Lemma notify_within n status message : within_calls (Datatypes.S n) (then_notify status message).
Proof. apply within_call. by intros [|]. Qed.
Lemma tell_within n status body : within_calls (Datatypes.S n) (then_tell status body).
Proof. by apply within_call. Qed.

Lemma endpoint_within metrics e : within_calls 4 (on_endpoint network_id validator normalize_json metrics e).
Proof.
  assert (∀ n A (call : eff ApiSystem (HandlerFault ApiError) A) status message,
    within_calls (Datatypes.S (Datatypes.S n)) (awaits call ≫= λ _, then_notify status message)) as Hnotify.
  { intros n A call status message. apply within_call. intros _. apply notify_within. }
  destruct e; cbn [on_endpoint]; try done; try apply Hnotify;
    try (apply within_call; let o := fresh in intros o; first [done|by destruct o]).
  - apply (within_mapped 2 2); [apply monitor_create_within|]. intros _. apply Hnotify.
  - apply (within_mapped 2 2); [apply monitor_update_within|]. intros _. apply Hnotify.
  - apply within_checked. intros json. apply within_call. intros [?|]; [done|]. by apply within_call.
  - apply (within_mapped 2 2); [apply action_create_within|]. intros _. apply within_call. intros ?. apply tell_within.
  - apply (within_mapped 2 2); [apply action_update_within|]. intros _. apply within_call. intros ?. apply tell_within.
  - apply within_call. intros [?|]; [|done]. apply within_call. intros [|? ?]; [|done]. apply within_call. intros _. apply tell_within.
Qed.

(** ** One turn *)

(** A write among others: it keeps what the statements of the API keep. *)
Definition wrote_once s s' : Prop :=
  api_config_tx s' = api_config_tx s ∧ ∀ P, admin_keeps P → P (sq_tables (api_repo s)) → P (sq_tables (api_repo s')).

Lemma reads_turn {E A} (p : Handling E A) s : reads p → reads (turn p s).1 ∧ quiet s (turn p s).2.
Proof.
  destruct p as [r|B call rest]; [done|]. intros [[Hq Hp] Hr]. specialize (Hq s). specialize (Hp s). cbn.
  destruct (call s) as [[b|e] s']; cbn in *; [done|]. split; [congruence|done].
Qed.

Lemma commits_turn p s :
  commits p →
  let '(p', s') := turn p s in
  commits p' ∧ quiet s s' ∨
  wrote_once s s' ∧ (announcing p' ∨ monitors (sq_tables (api_repo s')) = monitors (sq_tables (api_repo s)) ∧ ∃ a, p' = Answered (Ok a)).
Proof.
  destruct p as [r|B call rest]; cbn; [by left|]. intros [[[Hq Hp] Hr]|[[Hx Ha Hk] Hr]].
  - specialize (Hq s). specialize (Hp s). destruct (call s) as [[b|[e|]] s']; cbn in *; [left; by split| |done].
    left. split; [by eexists|exact Hq].
  - assert (∀ P, admin_keeps P → P (sq_tables (api_repo s)) → P (sq_tables (api_repo (call s).2))) as HP.
    { intros P Had. by apply (Hk P Had s). }
    specialize (Hx s). specialize (Ha s). destruct (call s) as [[b|e] s'] eqn:E; cbn in *.
    + right. split; [done|]. destruct (Hr b) as [Han|[Hm Ho]]; [by left|right]. specialize (Hm s). by rewrite E in Hm.
    + left. destruct (Ha e eq_refl) as [He Ht]. split; [|done]. destruct e as [e|]; [by eexists|done].
Qed.

Lemma announcing_turn p s :
  announcing p → cfg_receiver (api_config_tx s) = true → (∃ a, (turn p s).1 = Answered (Ok a)) ∧ told s (turn p s).2.
Proof. intros (rest & -> & Ha & _) Hs. cbn. unfold config_send, told. rewrite Hs. by split_and!. Qed.

(** ** A request among others *)

Notation all_quiet l := (Forall (λ x : ApiSystem * ApiSystem, quiet x.1 x.2) l).
Notation heard l := (Forall (λ x : ApiSystem * ApiSystem, cfg_receiver (api_config_tx x.1) = true) l).

Lemma reads_proceeds p l q : reads p → proceeds p l q → reads q ∧ all_quiet l.
Proof.
  revert p. induction l as [|[s s'] l IH]; intros p Hp; cbn; [by intros ->|]. intros (_ & -> & Hl).
  destruct (reads_turn p s Hp) as [Hr Hq]. destruct (IH _ Hr Hl). split; [done|]. by constructor.
Qed.

(** What a request has done when it proceeded from [commits]. *)
Definition written_by (l : list (ApiSystem * ApiSystem)) (q : Handling ApiError Response) : Prop :=
  ∃ l1 w l2, l = l1 ++ w :: l2 ∧ all_quiet l1 ∧ wrote_once w.1 w.2 ∧
    (l2 = [] ∧ announcing q ∨
     (∃ a, q = Answered (Ok a)) ∧
       ((∃ t, l2 = [t] ∧ told t.1 t.2) ∨ l2 = [] ∧ monitors (sq_tables (api_repo w.2)) = monitors (sq_tables (api_repo w.1)))).

Lemma answered_proceeds {r} l q : proceeds (Answered r : Handling ApiError Response) l q → l = [] ∧ q = Answered r.
Proof. destruct l as [|[s s'] l]; cbn; [done|by intros [? _]]. Qed.

Lemma commits_proceeds p l q :
  commits p → proceeds p l q → heard l → commits q ∧ all_quiet l ∨ written_by l q.
Proof.
  revert p. induction l as [|[s s'] l IH]; intros p Hp; cbn; [intros -> _; by left|].
  intros (_ & -> & Hl) [Hs Hh]%Forall_cons. pose proof (commits_turn p s Hp) as Ht. cbn in Hs.
  destruct (turn p s) as [p' s']. cbn in *. destruct Ht as [[Hp' Hq]|[Hw [Han|[Hm [a ->]]]]].
  - destruct (IH p' Hp' Hl Hh) as [[Hc Ha]|(l1 & w & l2 & -> & Ha & Hw)]; [left; split; [done|by constructor]|right].
    exists ((s, s') :: l1), w, l2. split; [done|]. split; [by constructor|done].
  - right. exists [], (s, s'), l. split; [done|]. split; [constructor|]. split; [done|].
    destruct l as [|[t t'] l]; [left; by inversion Hl|right]. destruct Hl as (_ & -> & Hl).
    apply Forall_cons in Hh as [Ht _]. destruct (announcing_turn p' t Han Ht) as [[a E] Htold]. rewrite E in Hl.
    apply answered_proceeds in Hl as [-> ->]. split; [by eexists|]. left. by exists (t, (turn p' t).2).
  - apply answered_proceeds in Hl as [-> ->]. right. exists [], (s, s'), []. split; [done|]. split; [constructor|].
    split; [done|]. right. split; [by eexists|]. by right.
Qed.

Lemma within_proceeds {E A} n (p : Handling E A) l (q : Handling E A) : within_calls n p → proceeds p l q → length l ≤ n.
Proof.
  revert n p. induction l as [|[s s'] l IH]; intros n p Hp; cbn; [lia|]. intros (Hw & -> & Hl).
  destruct p as [r|B call rest]; [done|]. destruct n as [|n]; [done|]. cbn in *.
  enough (length l ≤ n) by lia. destruct (call s) as [[b|e] s1]; cbn in *; (eapply IH; [|exact Hl]); [apply Hp|exact I].
Qed.

Notation all_consistent l :=
  (Forall (λ x : ApiSystem * ApiSystem, store_wf (sq_tables (api_repo x.1)) → store_wf (sq_tables (api_repo x.2))) l).

Lemma quiet_consistent l : all_quiet l → all_consistent l.
Proof. intros Hl. eapply Forall_impl; [exact Hl|]. intros [s s'] [E _]. cbn in *. by rewrite E. Qed.

Lemma written_consistent l q : written_by l q → all_consistent l.
Proof.
  intros (l1 & w & l2 & -> & Hq & [_ Hw] & Ht). apply Forall_app. split; [by apply quiet_consistent|].
  constructor; [by apply Hw, store_wf_admin|].
  destruct Ht as [[-> _]|[_ [(t & -> & [E _])|[-> _]]]]; [constructor| |constructor].
  constructor; [|constructor]. by rewrite E.
Qed.

(** The middleware lets a request in, or answers it. *)
Lemma on_request_cases api_key metrics rq :
  let authorised := rq_authorization rq = Some ("Bearer " +:+ api_key) in
  on_request network_id validator normalize_json api_key metrics rq =
    on_endpoint network_id validator normalize_json metrics (rq_endpoint rq) ∧
    (requires_auth (rq_endpoint rq) = true → authorised) ∨
  on_request network_id validator normalize_json api_key metrics rq = Answered (Err (Failed Unauthorized)) ∧
    requires_auth (rq_endpoint rq) = true ∧ ¬ authorised.
Proof.
  cbv zeta. rewrite <- auth_Ok. unfold on_request. destruct (requires_auth (rq_endpoint rq)); [|by left].
  unfold auth. destruct (rq_authorization rq ≫= _) as [token|]; cbn; [case_decide|]; [by left|by right..].
Qed.

End Atomic.

(** ** The requests a server has open *)

Section Open.
Context `{AlloyPrimitives} `{DynAbi} `{RhaiEngine} `{TemplateEngine} `{UrlOps} `{DefaultHasher} `{SqliteChoices}.
Context `{Serde (list string)} `{Serde ActionConfig} `{Serde ActionPayload} `{!ApiTexts}.

(** A request, and what is left of its handling; it stays in the list with its answer. *)
Record OpenRequest := mkOpen { or_request : ApiRequest; or_todo : Handling ApiError Response }.

Definition take_turn (r : OpenRequest) (s : ApiSystem) : OpenRequest * ApiSystem :=
  let '(p, s) := turn (or_todo r) s in (mkOpen (or_request r) p, s).

Record open_ok (r : OpenRequest) : Prop := {
  oo_shape : reads (or_todo r) ∨ commits (or_todo r) ∨ announcing (or_todo r);
  oo_reads : requires_auth (rq_endpoint (or_request r)) = false → reads (or_todo r)
}.
End Open.

Section OpenTheorems.
Context `{AlloyPrimitives} `{DynAbi} `{RhaiEngine} `{TemplateEngine} `{UrlOps} `{DefaultHasher} `{SqliteChoices}.
Context `{SerdeLaws (list string)} `{Serde ActionConfig} `{SerdeLaws ActionPayload} `{!ApiTexts}.
Implicit Types (s : ApiSystem) (r : OpenRequest).
Notation version s := (cfg_version (api_config_tx s)).
Notation receiver s := (cfg_receiver (api_config_tx s)).
Notation tables s := (sq_tables (api_repo s)).

Lemma open_request_ok network_id validator normalize_json api_key metrics rq :
  open_ok (mkOpen rq (on_request network_id validator normalize_json api_key metrics rq)).
Proof.
  destruct (on_request_cases network_id validator normalize_json api_key metrics rq) as [[E Ha]|(E & Hr & Hn)]; rewrite E.
  - destruct (requires_auth (rq_endpoint rq)) eqn:Er.
    + split; cbn; [right; left; by apply endpoint_commits|congruence].
    + split; cbn; [left|intros _]; by apply endpoint_reads.
  - split; cbn; [by left|congruence].
Qed.

Lemma take_turn_ok r s : open_ok r → open_ok (take_turn r s).1.
Proof.
  intros [Hs Hr]. unfold take_turn. destruct (turn (or_todo r) s) as [p s'] eqn:Et. split; cbn.
  - destruct Hs as [Hp|[Hp|Hp]].
    + left. destruct (reads_turn _ s Hp) as [Hp' _]. by rewrite Et in Hp'.
    + pose proof (commits_turn _ s Hp) as Ht. rewrite Et in Ht. destruct Ht as [[Hc _]|[_ [Ha|[_ [a ->]]]]]; [by right; left|by right; right|by left].
    + left. destruct Hp as (rest & E & [a Ea] & (x & Ex & Hx)). rewrite E in Et. cbn in Et. unfold config_send in Et.
      destruct (receiver s); injection Et as <- _; [by rewrite Ea|by rewrite Ex].
  - intros Hq. destruct (reads_turn _ s (Hr Hq)) as [Hp' _]. by rewrite Et in Hp'.
Qed.

Lemma take_turn_keeps P r s : admin_keeps P → open_ok r → P (tables s) → P (tables (take_turn r s).2).
Proof.
  intros Had [Hs _] HP. unfold take_turn. destruct Hs as [Hp|[Hp|Hp]].
  - destruct (reads_turn _ s Hp) as [_ [E _]]. destruct (turn _ s) as [p s']. cbn in *. by rewrite E.
  - pose proof (commits_turn _ s Hp) as Ht. destruct (turn _ s) as [p s'].
    destruct Ht as [[_ [E _]]|[[_ Hw] _]]; cbn in *; [by rewrite E|by apply Hw].
  - destruct Hp as (rest & -> & _). cbn. unfold config_send. by destruct (receiver s).
Qed.

(** Sending is neither reading nor writing. *)
Lemma reads_not_announcing p s : receiver s = true → reads p → ¬ announcing p.
Proof.
  intros Hs Hr (rest & -> & _). destruct Hr as [[Hq _] _]. destruct (Hq s) as [_ Hx]. revert Hx. unfold config_send.
  rewrite Hs. cbn. intros E. apply (f_equal cfg_version) in E. cbn in E. lia.
Qed.

Lemma commits_not_announcing p s : receiver s = true → commits p → ¬ announcing p.
Proof.
  intros Hs Hr (rest & -> & _). destruct Hr as [[[Hq _] _]|[[Hx _ _] _]].
  - destruct (Hq s) as [_ E]. revert E. unfold config_send. rewrite Hs. intros E. apply (f_equal cfg_version) in E. cbn in E. lia.
  - specialize (Hx s). revert Hx. unfold config_send. rewrite Hs. intros E. apply (f_equal cfg_version) in E. cbn in E. lia.
Qed.

(** With the receiver alive, a turn announces a change, or leaves the monitors alone, or is
    followed by the announcement. *)
Lemma take_turn_announces r s :
  open_ok r → receiver s = true →
  let '(r', s') := take_turn r s in
  receiver s' = true ∧
  (version s' = Datatypes.S (version s) ∨
   version s' = version s ∧ ¬ announcing (or_todo r) ∧ (monitors (tables s') = monitors (tables s) ∨ announcing (or_todo r'))).
Proof.
  intros [Hs _] Hr. unfold take_turn. destruct Hs as [Hp|[Hp|Hp]].
  - destruct (reads_turn _ s Hp) as [_ [E Ex]]. pose proof (reads_not_announcing _ s Hr Hp). destruct (turn _ s) as [p s'].
    cbn in *. rewrite E, Ex. split; [done|]. right. auto.
  - pose proof (commits_turn _ s Hp) as Ht. pose proof (commits_not_announcing _ s Hr Hp). destruct (turn _ s) as [p s'].
    destruct Ht as [[_ [E Ex]]|[[Ex _] Hm]]; cbn in *; rewrite Ex; (split; [done|]); right; rewrite ?E; [by auto|].
    destruct Hm as [Ha|[Em _]]; auto.
  - destruct (announcing_turn _ s Hp Hr) as [_ (_ & Hv & Hr')]. destruct (turn _ s) as [p s']. cbn in *. auto.
Qed.

Lemma answered_announced (l : list OpenRequest) :
  forallb (λ r, negb (waiting (or_todo r))) l = true → ∀ r, r ∈ l → ¬ announcing (or_todo r).
Proof.
  intros Hl r Hr%list_elem_of_In (rest & E & _). rewrite List.forallb_forall in Hl. specialize (Hl r Hr). by rewrite E in Hl.
Qed.
End OpenTheorems.

(** ** Examples *)

Import MonitorMatch.Demo AbiDemo RhaiDemo DispatchDemo Interfaces.SerdeDemo InterfacesDemo StoreDemo ApiDemo.

Module RequestsDemo.
Definition authorised (e : Endpoint) : ApiRequest := mkRequest (Some "Bearer key") e.
Definition asked (e : Endpoint) : Handling ApiError Response := on_request "net" with_out json "key" (0, 0, 0)%Z (authorised e).
(** The request and the system after [n] turns. *)
Fixpoint turns (n : nat) (x : Handling ApiError Response * ApiSystem) : Handling ApiError Response * ApiSystem :=
  match n with 0 => x | Datatypes.S n => turns n (turn x.1 x.2) end.
Definition status (p : Handling ApiError Response) : option Z :=
  match p with
  | Answered (Ok response) => Some (res_status response)
  | Answered (Err (Failed e)) => Some (res_status (into_response e))
  | _ => None
  end.

(** POST of ["m"], interrupted before its write by the whole of a POST of ["n"]. *)
Definition post : Handling ApiError Response * ApiSystem := (asked (CreateMonitor (monitor "m" None)), start).
Definition validated := turns 2 post.
Definition meanwhile : ApiSystem := (ask (CreateMonitor (monitor "n" None)) validated.2).2.
Definition resumed := (validated.1, meanwhile).
Definition calls : list (ApiSystem * ApiSystem) :=
  [(start, (turns 1 post).2); ((turns 1 post).2, validated.2); (meanwhile, (turns 1 resumed).2);
   ((turns 1 resumed).2, (turns 2 resumed).2)].
End RequestsDemo.
Import RequestsDemo.


(** DELETE of an action looks for the monitors that name it before it deletes it; a POST of
    such a monitor in between leaves the monitor with an action that does not exist. *)
Lemma action_deletion_races :
  let deleting := turns 2 (asked (DeleteAction 1), start) in
  let posted := ask (CreateMonitor (monitor "m" None)) deleting.2 in
  let deleted := turns 2 (deleting.1, posted.2) in
  status_of posted = Some 201%Z ∧ status deleted.1 = Some 204%Z ∧
  actions (sq_tables (api_repo deleted.2)) = [] ∧
  m_actions <$> default [] (result_ok (listed_monitors "net" (sq_tables (api_repo deleted.2)))) = [["out"]].
Proof. vm_compute. by split_and!. Qed.
