(* ===== verification/Pipeline.v ===== *)
(** * The services together ([src/supervisor/mod.rs], [Supervisor::run])

    The services the supervisor spawns, as steps on the channels between them, the
    database, the monitor state and the outside world: blocks received by the block
    processor, correlated blocks by the filtering engine, matches by the alert manager,
    and the outbox by the dispatcher.  The services run concurrently: any step whose
    input is there can be taken. *)
From S2P Require Import Prelude Models MonitorMatch Abi Conversions RhaiScript Registry Manager Filtering Interfaces Providers AlertManager OutboxProcessor BlockProcessor HttpPool Dispatch.

Section Pipeline.
Context `{AlloyPrimitives} `{DynAbi} `{RhaiEngine} `{TemplateEngine} `{DispatchEnv} `{DefaultHasher} `{CompletionOrder}.
(** The progress and the alerts are different tables of one database. *)
Context {B S : Type} `{BlockStateRepository B} `{OutboxRepository S} `{KeyValueStore S}.
Context `{Serde ThrottleState} `{Serde AggregationState}.
Context (cfg : AppConfig) (outbox_config : OutboxConfig) (actions : gmap string ActionConfig) (d : gmap string ActionType).

(** [pl_received], [pl_found] and the second half of [pl_world] are history: the blocks
    received, the matches the engine has sent, and the payloads whose execution
    succeeded, in order. *)
Record Pipeline := mkPipeline {
  pl_raw : list BlockData;
  pl_correlated : list CorrelatedBlockData;
  pl_matches : list (list MonitorMatch);
  pl_progress : B;
  pl_alerts : AlertManager (S := S);
  pl_world : World * list ActionPayload;
  pl_manager : MonitorManager;
  pl_received : list BlockData;
  pl_found : list MonitorMatch
}.

(** The engine reads the current snapshot of the manager. *)
Definition engine_of (mgr : MonitorManager) : RhaiFilteringEngine :=
  {| fe_abi_service := mgr_abi_service mgr; fe_assets := load mgr |}.

(** The dispatcher, with the history of what it delivered. *)
Definition logged_execute (p : ActionPayload) : eff (World * list ActionPayload) ActionDispatcherError unit := λ w,
  let '(r, w') := dispatcher_execute d p w.1 in (r, (w', if is_ok r then w.2 ++ [p] else w.2)).

(** The block processor takes a batch. *)
Definition process_step (n : nat) (p : Pipeline) : Pipeline :=
  let o := process_and_dispatch cfg (load (pl_manager p)) (λ _, false) (take n (pl_raw p))
             (mkOutput (pl_progress p) (mkChannel [] None)) in
  mkPipeline (drop n (pl_raw p)) (pl_correlated p ++ ch_sent (out_channel o)) (pl_matches p) (out_db o)
    (pl_alerts p) (pl_world p) (pl_manager p) (pl_received p) (pl_found p).

(** The filtering engine evaluates a block. *)
Definition filter_step (block : CorrelatedBlockData) (rest : list CorrelatedBlockData) (p : Pipeline) : Pipeline :=
  let fe := engine_of (pl_manager p) in
  let ch := Filtering.run_step fe (λ _, false) (mkChannel [] None) block in
  mkPipeline (pl_raw p) rest (pl_matches p ++ ch_sent ch) (pl_progress p) (pl_alerts p) (pl_world p) (pl_manager p)
    (pl_received p) (pl_found p ++ mjoin (ch_sent ch)).

(** The alert manager's loop takes a message; an error is only logged. *)
Definition alert_step (clock : nat → DateTime) (matches : list MonitorMatch) (rest : list (list MonitorMatch)) (p : Pipeline) : Pipeline :=
  mkPipeline (pl_raw p) (pl_correlated p) rest (pl_progress p)
    (process_matches_batch actions (stamped clock 0 matches) (pl_alerts p)).2
    (pl_world p) (pl_manager p) (pl_received p) (pl_found p).

(** The aggregation dispatcher scans the windows. *)
Definition scan_step (force : bool) (now : DateTime) (p : Pipeline) : Pipeline :=
  mkPipeline (pl_raw p) (pl_correlated p) (pl_matches p) (pl_progress p)
    (check_and_dispatch_expired_windows actions force now (pl_alerts p)).2 (pl_world p) (pl_manager p) (pl_received p) (pl_found p).

(** The outbox processor polls. *)
Definition deliver_step (p : Pipeline) : Pipeline :=
  let o := (process_batch logged_execute outbox_config (mkOutboxState (am_state_repository (pl_alerts p)) (pl_world p))).2 in
  let a := pl_alerts p in
  mkPipeline (pl_raw p) (pl_correlated p) (pl_matches p) (pl_progress p)
    (mkAlertManager (os_state o) (am_generated_alerts a) (am_throttle_states a) (am_aggregation_states a))
    (os_world o) (pl_manager p) (pl_received p) (pl_found p).

(** The supervisor reloads the monitors. *)
Definition reload_step (monitors : list Monitor) (p : Pipeline) : Pipeline :=
  mkPipeline (pl_raw p) (pl_correlated p) (pl_matches p) (pl_progress p) (pl_alerts p) (pl_world p)
    (update (pl_manager p) monitors) (pl_received p) (pl_found p).

Definition receive_step (blocks : list BlockData) (p : Pipeline) : Pipeline :=
  mkPipeline (pl_raw p ++ blocks) (pl_correlated p) (pl_matches p) (pl_progress p) (pl_alerts p) (pl_world p)
    (pl_manager p) (pl_received p ++ blocks) (pl_found p).

(** The steps that work off what has been received. *)
Inductive work_step : Pipeline → Pipeline → Prop :=
| step_process n p : 0 < n → pl_raw p ≠ [] → work_step p (process_step n p)
| step_filter block rest p : pl_correlated p = block :: rest → work_step p (filter_step block rest p)
| step_alert clock matches rest p : pl_matches p = matches :: rest → work_step p (alert_step clock matches rest p)
| step_deliver l p :
    get_pending_outbox (ob_batch_size outbox_config) (am_state_repository (pl_alerts p)) = l →
    (∃ items s, l = (Ok items, s) ∧ items ≠ []) → work_step p (deliver_step p).

Inductive pipeline_step : Pipeline → Pipeline → Prop :=
| step_work p q : work_step p q → pipeline_step p q
| step_receive blocks p : pipeline_step p (receive_step blocks p)
| step_scan force now p : pipeline_step p (scan_step force now p)
| step_poll p : pipeline_step p (deliver_step p)
| step_reload monitors p : pipeline_step p (reload_step monitors p).

(** ** What the services promise together *)

(** The matches a payload reports. *)
Definition payload_matches (p : ActionPayload) : list MonitorMatch :=
  match p with Single m => [m] | Aggregated _ ms _ => ms end.

(** The abstract system: blocks come in, the matches of a received block are found under
    some monitors, and payloads made of found matches are delivered. *)
Record AlertSpec := mkSpec {
  sp_blocks : list BlockData; sp_found : list MonitorMatch; sp_delivered : list ActionPayload
}.

Inductive spec_step : AlertSpec → AlertSpec → Prop :=
| spec_receive blocks s :
    spec_step s (mkSpec (sp_blocks s ++ blocks) (sp_found s) (sp_delivered s))
| spec_find b snapshot fe s :
    b ∈ sp_blocks s →
    spec_step s (mkSpec (sp_blocks s) (sp_found s ++ block_matches fe (process_block snapshot b)) (sp_delivered s))
| spec_deliver p s :
    (∀ m, m ∈ payload_matches p → m ∈ sp_found s) →
    spec_step s (mkSpec (sp_blocks s) (sp_found s) (sp_delivered s ++ [p])).

Definition abs (p : Pipeline) : AlertSpec := mkSpec (pl_received p) (pl_found p) (pl_world p).2.
End Pipeline.

(** ** Where the alerts of the manager come from *)

Section Sources.
Context {S : Type} `{DefaultHasher} `{OutboxRepository S} `{!OutboxLaws S} `{KeyValueStore S} `{!KeyValueLaws S}.
Context `{!AlertStoreLaws S} `{Serde ThrottleState} `{Serde AggregationState}.
Context (actions : gmap string ActionConfig) (Q : MonitorMatch → Prop).
Implicit Types (a : AlertManager (S := S)).

Definition from_matches (p : ActionPayload) : Prop := ∀ m, m ∈ payload_matches p → Q m.

(** Everything the manager holds is made of matches in [Q]. *)
Record am_sourced a : Prop := {
  so_ok : am_ok a;
  so_outbox i : i ∈ outbox (am_state_repository a) → from_matches (oi_payload i);
  so_windows n st m : am_aggregation_states a !! n = Some st → m ∈ as_matches st → Q m
}.

Lemma dispatch_sourced ps a :
  am_sourced a → (∀ p, p ∈ ps → from_matches p) → am_sourced (dispatch_payloads_batch ps a).2.
Proof.
  intros [Hok Ho Hw] Hps. destruct ps as [|p ps]; [done|].
  unfold dispatch_payloads_batch, on_repository, modify, mbind, eff_bind.
  destruct (enqueue_outbox_batch _ _) as [r s'] eqn:Ee. destruct (enqueue_view _ _ _ _ Hok Ee) as [Hok' Hv].
  destruct r as [u|e]; cbn.
  - split; cbn; [done| |done]. destruct Hv as (_ & _ & _ & Hc). intros i Hi.
    apply (list_elem_of_fmap_2 content) in Hi. rewrite Hc in Hi.
    apply insert_new_elem in Hi as [(j & Hj & Hin)%list_elem_of_fmap|(q & Hq & Hin)%list_elem_of_fmap].
    + injection Hj as _ Hj. rewrite Hj. by apply Ho.
    + injection Hq as _ Hq. rewrite Hq. by apply Hps.
  - split; cbn; [done| |done]. by rewrite Hv.
Qed.

Lemma throttle_sourced t m policy a : am_sourced a → Q m → am_sourced (handle_throttle t m policy a).2.
Proof.
  intros Ha Hm. unfold handle_throttle. destruct (throttle_step _ _ _) as [send st].
  assert (am_sourced (mkAlertManager (am_state_repository a) (am_generated_alerts a)
    (<[mm_action_name m := st]> (am_throttle_states a)) (am_aggregation_states a))) as Ha1 by (by destruct Ha; split).
  destruct send; [|done]. apply (dispatch_sourced [Single m]); [done|].
  intros p ->%list_elem_of_singleton m' ->%list_elem_of_singleton. done.
Qed.

Lemma aggregation_sourced t m a : am_sourced a → Q m → am_sourced (handle_aggregation t m a).2.
Proof.
  intros [Hok Ho Hw] Hm. split; cbn; [done|done|]. intros n st m' Hst Hin.
  destruct (decide (mm_action_name m = n)) as [<-|]; [|rewrite lookup_insert_ne in Hst by done; by eapply Hw].
  rewrite lookup_insert_eq in Hst. injection Hst as <-. revert Hin. unfold aggregation_add.
  assert (∀ m', m' ∈ as_matches (default AggregationState_default (am_aggregation_states a !! mm_action_name m)) → Q m') as Hold.
  { intros m2. destruct (am_aggregation_states a !! mm_action_name m) as [st|] eqn:E; [by apply (Hw _ _ _ E)|by intros ?%elem_of_nil]. }
  destruct (existsb _ _); [apply Hold|]. cbn. intros [Hin|Hin%list_elem_of_singleton]%elem_of_app; [by apply Hold|by subst].
Qed.

Lemma handle_matches_sourced l imm a :
  am_sourced a → (∀ p, p ∈ l → Q p.2) → (∀ p, p ∈ imm → from_matches p) →
  let '(r, a') := handle_matches actions l imm a in
  am_sourced a' ∧ ∀ imm', r = Ok imm' → ∀ p, p ∈ imm' → from_matches p.
Proof.
  revert imm a. induction l as [|[t m] l IH]; intros imm a Ha Hl Himm; cbn [handle_matches].
  { cbn. split; [done|]. by intros imm' [= <-]. }
  assert (Q m) as Hm by (apply (Hl (t, m)); by left).
  assert (∀ p, p ∈ l → Q p.2) as Hl' by (intros; apply Hl; by right).
  destruct (actions !! mm_action_name m) as [c|]; [|by apply IH].
  destruct (ac_policy c) as [[p|p]|].
  - unfold mbind, eff_bind. pose proof (aggregation_sourced t m a Ha Hm) as Ha1.
    destruct (handle_aggregation t m a) as [[u|e] a1]; [by apply IH|by split].
  - unfold mbind, eff_bind. pose proof (throttle_sourced t m p a Ha Hm) as Ha1.
    destruct (handle_throttle t m p a) as [[u|e] a1]; [by apply IH|by split].
  - apply IH; [done..|]. intros q [Hq|Hq%list_elem_of_singleton]%elem_of_app; [by apply Himm|]. subst.
    intros m' ->%list_elem_of_singleton. done.
Qed.

Lemma batch_sourced l a : am_sourced a → (∀ p, p ∈ l → Q p.2) → am_sourced (process_matches_batch actions l a).2.
Proof.
  intros Ha Hl. unfold process_matches_batch. destruct l as [|p l]; [done|].
  pose proof (handle_matches_sourced (p :: l) [] a Ha Hl ltac:(by intros ? ?%elem_of_nil)) as Hh.
  unfold mbind, eff_bind. destruct (handle_matches actions (p :: l) [] a) as [[imm|e] a1]; destruct Hh as [Ha1 Himm]; [|done].
  specialize (Himm imm eq_refl). destruct imm as [|q imm]; [done|]. by apply dispatch_sourced.
Qed.

Lemma scan_sourced force t a : am_sourced a → am_sourced (check_and_dispatch_expired_windows actions force t a).2.
Proof.
  intros Ha. unfold check_and_dispatch_expired_windows. set (ps := expired_payloads _ _ _ _). set (a1 := mkAlertManager _ _ _ _).
  assert (∀ p, p ∈ ps → from_matches p) as Hps.
  { intros p ([n st] & Hin%elem_of_map_to_list & Hp)%list_elem_of_omap m Hm. cbn in Hp. unfold take_window in Hp.
    destruct (as_matches st) as [|m0 ms] eqn:Em; [done|]. rewrite <- Em in Hp.
    repeat case_match; try done. injection Hp as <-. by apply (so_windows a Ha n st). }
  assert (am_sourced a1) as Ha1.
  { destruct Ha as [Hok Ho Hw]. split; cbn; [done|done|]. intros n st m. rewrite map_lookup_imap.
    destruct (am_aggregation_states a !! n) as [st0|] eqn:E; [|done]. cbn. intros [= <-]. unfold take_window.
    destruct (as_matches st0) eqn:Em; [cbn; rewrite ?Em; by intros ?%elem_of_nil|].
    repeat case_match; cbn; try (by intros ?%elem_of_nil). by apply (Hw n). }
  pose proof (dispatch_sourced ps a1 Ha1 Hps) as [Hok Ho Hw]. destruct (sync_outbox _ Hok) as (Hok' & Ho' & Hw').
  split; [done|by rewrite Ho'|by rewrite Hw'].
Qed.
End Sources.

(** ** A poll of the outbox *)

Section Delivery.
Context `{AlloyPrimitives} `{TemplateEngine} `{DispatchEnv} `{DefaultHasher} `{CompletionOrder}.
Context {S : Type} `{OutboxRepository S} `{!OutboxLaws S}.
Context (outbox_config : OutboxConfig) (d : gmap string ActionType) (batch_size : (0 ≤ ob_batch_size outbox_config)%Z).
Implicit Types (o : OutboxState (S := S) (W := World * list ActionPayload)) (w : World * list ActionPayload).

Notation logged := (logged_execute d).

(** The payloads a batch delivers. *)
Lemma executions_log items w :
  ∃ pl, (executions logged items w).2.2 = w.2 ++ pl ∧
    (∀ p, p ∈ pl → ∃ i, i ∈ items ∧ oi_payload i = p) ∧
    (∀ id, id ∈ (executions logged items w).1 → ∃ i, i ∈ items ∧ oi_id i = id ∧ oi_payload i ∈ pl).
Proof.
  revert w. induction items as [|i items IH]; intros w; cbn [executions].
  { exists []. rewrite app_nil_r. split_and!; [done|by intros ? ?%elem_of_nil|by intros ? ?%elem_of_nil]. }
  destruct (logged_execute d (oi_payload i) w) as [r w2] eqn:Ei.
  assert (w2.2 = if is_ok r then w.2 ++ [oi_payload i] else w.2) as Hw2.
  { revert Ei. unfold logged_execute. destruct (dispatcher_execute d (oi_payload i) w.1) as [r1 w1]. by intros [= <- <-]. }
  destruct (IH w2) as (pl & Hpl & Hsrc & Hids). destruct (executions logged items w2) as [ids w3]. cbn [fst snd] in *.
  exists ((if is_ok r then [oi_payload i] else []) ++ pl). split_and!.
  - rewrite Hpl, Hw2. destruct (is_ok r); [by rewrite <- app_assoc|done].
  - intros p [Hp|(j & Hj & <-)%Hsrc]%elem_of_app; [|exists j; split; [by right|done]].
    destruct (is_ok r); [apply list_elem_of_singleton in Hp as ->|by apply elem_of_nil in Hp]. exists i. split; [by left|done].
  - intros id Hid. assert (id = oi_id i ∧ is_ok r = true ∨ id ∈ ids) as [[-> Hr]|Hin].
    { destruct (is_ok r); [apply elem_of_cons in Hid as [->|]; auto|auto]. }
    + exists i. rewrite Hr. split_and!; [by left|done|by left].
    + destruct (Hids _ Hin) as (j & Hj & He & Hp). exists j. split_and!; [by right|done|set_solver].
Qed.

(** Every item of the outbox stays, with the same payload, or has been delivered; what
    was delivered was in the outbox. *)
Record polled o o' : Prop := {
  po_ok : os_ok o';
  po_kept i : i ∈ os_outbox o' → ∃ j, j ∈ os_outbox o ∧ oi_id j = oi_id i ∧ content j = content i;
  po_log : ∃ pl, (os_world o').2 = (os_world o).2 ++ pl ∧
    (∀ p, p ∈ pl → ∃ i, i ∈ os_outbox o ∧ oi_payload i = p) ∧
    (∀ i, i ∈ os_outbox o → (∃ j, j ∈ os_outbox o' ∧ content j = content i) ∨ oi_payload i ∈ pl)
}.

Lemma polled_same o s :
  os_ok (mkOutboxState s (os_world o)) → outbox s = os_outbox o → polled o (mkOutboxState s (os_world o)).
Proof.
  intros Hok Hs. split; [done| |].
  - intros i Hi. unfold os_outbox in Hi. cbn in Hi. rewrite Hs in Hi. eauto.
  - exists []. cbn. rewrite app_nil_r. split_and!; [done|by intros ? ?%elem_of_nil|]. intros i Hi. left. exists i.
    unfold os_outbox. cbn. by rewrite Hs.
Qed.

Lemma identities_elem l p : p ∈ identities l ↔ ∃ i, i ∈ l ∧ p = (oi_id i, content i).
Proof. unfold identities. rewrite list_elem_of_fmap. naive_solver. Qed.

Lemma batch_items_polled items o :
  os_ok o → (∀ i, i ∈ items → i ∈ os_outbox o) → polled o (process_batch_items logged items o).2.
Proof.
  intros Hok Hitems. destruct (process_batch_items_spec logged items o Hok) as (deleted & o' & -> & Hsub & Hok' & Hw & Hids & _).
  cbn [snd]. split; [done| |].
  - intros i Hi. assert ((oi_id i, content i) ∈ identities (os_outbox o')) as Hin by (apply identities_elem; eauto).
    rewrite Hids in Hin. apply list_elem_of_filter in Hin as [_ (j & Hj & E)%identities_elem].
    exists j. split_and!; [done|by apply (f_equal fst) in E|by apply (f_equal snd) in E].
  - destruct (executions_log (unordered items) (os_world o)) as (pl & Hpl & Hsrc & Hdel). exists pl. rewrite Hw.
    split_and!; [done| |].
    + intros p (i & Hi & <-)%Hsrc. exists i. rewrite (unordered_perm items) in Hi. auto.
    + intros i Hi. destruct (decide (oi_id i ∈ deleted)) as [Hd|Hd].
      * right. apply (elem_of_sublist _ _ _ Hd) in Hsub. destruct (Hdel _ Hsub) as (j & Hj & Eid & Hp).
        rewrite (unordered_perm items) in Hj. apply Hitems in Hj.
        assert (j = i) as ->; [|done]. apply list_elem_of_lookup in Hj as [x Hx]. apply list_elem_of_lookup in Hi as [y Hy].
        pose proof (outbox_ids _ Hok) as Hnd. unfold os_outbox in Hx, Hy. assert (x = y) as ->; [|congruence].
        eapply (NoDup_lookup _ _ _ (oi_id i) Hnd); rewrite list_lookup_fmap; [rewrite Hx|by rewrite Hy]. cbn. congruence.
      * left. assert ((oi_id i, content i) ∈ identities (os_outbox o')) as Hin.
        { rewrite Hids. apply list_elem_of_filter. split; [done|]. apply identities_elem. eauto. }
        apply identities_elem in Hin as (j & Hj & E). exists j. split; [done|]. by apply (f_equal snd) in E.
Qed.

Lemma process_batch_polled o : os_ok o → polled o (process_batch logged outbox_config o).2.
Proof.
  intros Hok. unfold process_batch, mbind, eff_bind, on_state.
  destruct (get_pending_outbox (ob_batch_size outbox_config) (os_state o)) as [r s] eqn:Eg.
  destruct (pending_view _ _ _ _ Hok Eg) as (Hok1 & Ho & Hl). cbn.
  pose proof (polled_same o s Hok1 Ho) as Hsame. destruct r as [items|e]; [|done].
  destruct items as [|i items]; [done|]. specialize (Hl _ eq_refl batch_size).
  set (o1 := mkOutboxState s (os_world o)) in *.
  assert (polled o1 (process_batch_items logged (i :: items) o1).2) as Hp.
  { apply batch_items_polled; [done|]. intros j Hj. unfold os_outbox, o1. cbn. rewrite Ho. rewrite Hl in Hj.
    by eapply elem_of_sublist; [exact Hj|apply sublist_take]. }
  assert (os_outbox o1 = os_outbox o) as E1 by exact Ho.
  destruct (process_batch_items logged (i :: items) o1) as [r o2]. cbn [snd] in Hp.
  assert (polled o o2) as Hp2 by (destruct Hp as [? ? ?]; split; rewrite <- ?E1; done).
  by destruct r.
Qed.

Lemma polled_refl o : os_ok o → polled o o.
Proof. intros Hok. destruct o as [st w]. by apply (polled_same (mkOutboxState st w)). Qed.

Lemma polled_trans o1 o2 o3 : polled o1 o2 → polled o2 o3 → polled o1 o3.
Proof.
  intros [_ Hk1 (pl1 & Hl1 & Hs1 & Ha1)] [Hok Hk2 (pl2 & Hl2 & Hs2 & Ha2)]. split; [done| |].
  - intros i (j & (j' & Hj & E1 & E2)%Hk1 & E3 & E4)%Hk2. exists j'. split_and!; [done|congruence..].
  - exists (pl1 ++ pl2). split_and!; [by rewrite Hl2, Hl1, app_assoc| |].
    + intros p [Hp|(i & Hi & <-)%Hs2]%elem_of_app; [by apply Hs1|]. destruct (Hk1 i Hi) as (j & Hj & _ & E).
      exists j. split; [done|]. by apply (f_equal snd) in E.
    + intros i Hi. destruct (Ha1 i Hi) as [(j & Hj & E)|Hp]; [|right; apply elem_of_app; by left].
      destruct (Ha2 j Hj) as [(j' & Hj' & E')|Hp]; [left; exists j'; split; [done|congruence]|right].
      apply elem_of_app. right. apply (f_equal snd) in E. cbn in E. by rewrite <- E.
Qed.

(** One round of a drain. *)
Lemma drain_round_polled o r s items :
  os_ok o → get_pending_outbox (ob_batch_size outbox_config) (os_state o) = (r, s) → r = Ok items ∨ items = [] →
  let o1 := mkOutboxState s (os_world o) in polled o o1 ∧ polled o (process_batch_items logged items o1).2.
Proof.
  intros Hok Eg Hr o1. destruct (pending_view _ _ _ _ Hok Eg) as (Hok1 & Ho & Hl).
  pose proof (polled_same o s Hok1 Ho) as Hsame. split; [done|]. eapply polled_trans; [exact Hsame|].
  apply batch_items_polled; [done|]. destruct Hr as [-> | ->]; [|by intros ? ?%elem_of_nil].
  intros i Hi. unfold os_outbox, o1. cbn. rewrite Ho. rewrite (Hl items eq_refl batch_size) in Hi.
  by eapply elem_of_sublist; [exact Hi|apply sublist_take].
Qed.

Lemma drain_queue_polled fuel total o r o' :
  os_ok o → drain_queue logged outbox_config fuel total o = Some (r, o') → polled o o'.
Proof.
  revert total o. induction fuel as [|fuel IH]; intros total o Hok; [done|]. cbn [drain_queue]. unfold on_state.
  destruct (get_pending_outbox (ob_batch_size outbox_config) (os_state o)) as [[items|e] s] eqn:Eg.
  2: { intros [= _ <-]. by apply (drain_round_polled o _ s [] Hok Eg); right. }
  destruct (drain_round_polled o _ s items Hok Eg ltac:(by left)) as [H1' H2'].
  destruct items as [|i items]; [by intros [= _ <-]|].
  destruct (process_batch_items logged (i :: items) _) as [[n|e] o2]; [|by intros [= _ <-]].
  cbn in H2'. intros Hd. eapply polled_trans; [exact H2'|]. eapply IH; [apply H2'|exact Hd].
Qed.
End Delivery.

(** ** The system refines its specification *)

Section Refinement.
Context `{AlloyPrimitives} `{DynAbi} `{RhaiEngine} `{TemplateEngine} `{DispatchEnv} `{DefaultHasher} `{CompletionOrder}.
Context {B S : Type} `{BlockStateRepository B} `{OutboxRepository S} `{!OutboxLaws S} `{KeyValueStore S} `{!KeyValueLaws S}.
Context `{!AlertStoreLaws S} `{Serde ThrottleState} `{Serde AggregationState}.
Context (cfg : AppConfig) (outbox_config : OutboxConfig) (actions : gmap string ActionConfig) (d : gmap string ActionType).
Context (batch_size : (0 ≤ ob_batch_size outbox_config)%Z).
Implicit Types (p q : Pipeline (B := B) (S := S)).

Notation step := (pipeline_step cfg outbox_config actions d).
Notation outbox_of p := (outbox (am_state_repository (pl_alerts p))).

Lemma send_blocks_open blocks lp l :
  (send_blocks blocks lp (mkChannel l None)).2 = mkChannel (l ++ blocks) None.
Proof.
  revert lp l. induction blocks as [|b blocks IH]; intros lp l; cbn; [by rewrite app_nil_r|].
  rewrite IH. by rewrite <- app_assoc.
Qed.

Lemma process_step_correlated n p :
  pl_correlated (process_step cfg n p) =
  pl_correlated p ++ (process_block (load (pl_manager p)) <$> take n (pl_raw p)).
Proof.
  unfold process_step, process_and_dispatch, process_blocks_batch. cbn.
  destruct (take n (pl_raw p)) as [|b l]; [done|]. cbn [out_channel].
  pose proof (send_blocks_open (process_block (load (pl_manager p)) <$> b :: l) None []) as Hs.
  destruct (send_blocks _ _ _) as [r ch]. cbn in Hs. subst ch. by destruct r as [[]|].
Qed.

Lemma filter_sent fe block :
  ch_sent (Filtering.run_step fe (λ _, false) (mkChannel [] None) block) =
  match block_matches fe block with [] => [] | l => [l] end.
Proof. unfold run_step. by destruct (block_matches fe block). Qed.

Lemma filter_found fe block :
  mjoin (ch_sent (Filtering.run_step fe (λ _, false) (mkChannel [] None) block)) = block_matches fe block.
Proof. rewrite filter_sent. destruct (block_matches fe block); [done|]. cbn. by rewrite app_nil_r. Qed.

(** Everything in flight comes from the blocks received and the matches found. *)
Record pipeline_sourced p : Prop := {
  ps_raw b : b ∈ pl_raw p → b ∈ pl_received p;
  ps_correlated c : c ∈ pl_correlated p → ∃ b snapshot, b ∈ pl_received p ∧ c = process_block snapshot b;
  ps_matches l m : l ∈ pl_matches p → m ∈ l → m ∈ pl_found p;
  ps_alerts : am_sourced (λ m, m ∈ pl_found p) (pl_alerts p)
}.

Lemma am_sourced_mono (P Q : MonitorMatch → Prop) (a : AlertManager (S := S)) :
  (∀ m, P m → Q m) → am_sourced P a → am_sourced Q a.
Proof. intros HPQ [Hok Ho Hw]. split; [done|intros i Hi m Hm; by eapply HPQ, Ho|intros n st m Hst Hm; by eapply HPQ, Hw]. Qed.

(** A poll: what it leaves is sourced, and what it delivered was in the outbox. *)
Lemma deliver_step_spec p :
  am_ok (pl_alerts p) → polled (mkOutboxState (am_state_repository (pl_alerts p)) (pl_world p))
    (mkOutboxState (am_state_repository (pl_alerts (deliver_step outbox_config d p))) (pl_world (deliver_step outbox_config d p))).
Proof.
  intros Hok. unfold deliver_step. cbn.
  pose proof (process_batch_polled outbox_config d batch_size (mkOutboxState (am_state_repository (pl_alerts p)) (pl_world p)) Hok) as Hp.
  by destruct (process_batch _ _ _).2.
Qed.

Lemma spec_delivers (pl : list ActionPayload) (s : AlertSpec) :
  (∀ x, x ∈ pl → from_matches (λ m, m ∈ sp_found s) x) →
  rtc spec_step s (mkSpec (sp_blocks s) (sp_found s) (sp_delivered s ++ pl)).
Proof.
  revert s. induction pl as [|x pl IH]; intros s Hpl; [rewrite app_nil_r; by destruct s|].
  eapply rtc_l; [apply (spec_deliver x); apply Hpl; by left|].
  replace (sp_delivered s ++ x :: pl) with ((sp_delivered s ++ [x]) ++ pl) by by rewrite <- app_assoc.
  apply (IH (mkSpec (sp_blocks s) (sp_found s) (sp_delivered s ++ [x]))).
  intros y Hy. apply Hpl. by right.
Qed.

Lemma deliver_refines p :
  pipeline_sourced p → let q := deliver_step outbox_config d p in pipeline_sourced q ∧ rtc spec_step (abs p) (abs q).
Proof.
  intros [Hr Hc Hm [Hok Ho Hw]]. destruct (deliver_step_spec p Hok) as [Hok' Hkept (pl & Hlog & Hsrc & _)]. cbv zeta.
  assert (∀ x, x ∈ pl → from_matches (λ m, m ∈ pl_found p) x) as Hpl.
  { intros x (i & Hi & <-)%Hsrc. by apply Ho. }
  split.
  - split; [done|done|done|]. split; [exact Hok'| |exact Hw].
    intros i (j & Hj & _ & E)%Hkept m Hmi. apply (Ho j Hj). apply (f_equal snd) in E. cbn in E. by rewrite E.
  - pose proof (spec_delivers pl (abs p) Hpl) as Hs. unfold abs in *. cbn [sp_blocks sp_found sp_delivered] in Hs.
    change (pl_received (deliver_step outbox_config d p)) with (pl_received p).
    change (pl_found (deliver_step outbox_config d p)) with (pl_found p). cbn [os_world] in Hlog. by rewrite Hlog.
Qed.

Lemma step_refines p q : step p q → pipeline_sourced p → pipeline_sourced q ∧ rtc spec_step (abs p) (abs q).
Proof.
  intros Hstep Hp. pose proof Hp as [Hr Hc Hm Ha].
  destruct Hstep as [p q Hwork|blocks p|force now p|p|ms p].
  - destruct Hwork as [n p Hn Hne|block rest p E|now l rest p E|l p _ _].
    + split; [|done]. split; [|rewrite process_step_correlated| |]; [|intros c [Hin|Hin]%elem_of_app|done|done].
      * intros b Hb. apply Hr. eapply elem_of_sublist; [exact Hb|apply sublist_drop].
      * by apply Hc.
      * apply list_elem_of_fmap in Hin as (b & -> & Hb). exists b, (load (pl_manager p)). split; [|done].
        apply Hr. eapply elem_of_sublist; [exact Hb|apply sublist_take].
    + destruct (Hc block) as (b & snap & Hb & ->); [rewrite E; by left|]. split.
      * split; cbn; [done|intros c Hin; apply Hc; rewrite E; by right| |].
        -- intros l m [Hl|Hl]%elem_of_app Hml; apply elem_of_app; [left; by eapply Hm|right].
           apply list_elem_of_join. eauto.
        -- eapply am_sourced_mono; [|exact Ha]. intros m Hin. apply elem_of_app. by left.
      * apply rtc_once. unfold abs, filter_step. cbn [pl_found pl_received pl_world]. rewrite filter_found.
        by apply (spec_find b snap _ (mkSpec (pl_received p) (pl_found p) (pl_world p).2)).
    + split; [|done]. split; cbn; [done|done|intros l' m Hl; apply Hm; rewrite E; by right|].
      apply batch_sourced; [done|]. intros x Hx%stamped_elem. eapply Hm; [|exact Hx]. rewrite E. by left.
    + by apply deliver_refines.
  - split; [|apply rtc_once; apply (spec_receive blocks (abs p))]. split; cbn; [|intros c Hin|done|done].
    + intros b [Hb|Hb]%elem_of_app; apply elem_of_app; [left; by apply Hr|by right].
    + destruct (Hc c Hin) as (b & snap & Hb & ->). exists b, snap. split; [apply elem_of_app; by left|done].
  - split; [|done]. split; cbn; [done..|]. by apply scan_sourced.
  - by apply deliver_refines.
  - split; [|done]. by split.
Qed.

(** The running system refines its specification: however the services are
    interleaved, whatever batches they take, and whatever fails in the repositories or
    in the executions, every step of the system is a sequence of steps of the
    specification, in which the matches found are those of received blocks, evaluated
    under some state of the monitors, and every payload delivered reports matches that
    were found. *)
Theorem pipeline_refines p q :
  pipeline_sourced p → rtc step p q → pipeline_sourced q ∧ rtc spec_step (abs p) (abs q).
Proof.
  intros Hp Hrun. induction Hrun as [p|p q r Hstep _ IH]; [done|].
  destruct (step_refines p q Hstep Hp) as [Hq Hs]. destruct (IH Hq) as [Hr Hs']. split; [done|]. by etrans.
Qed.
End Refinement.

(** ** Nothing is lost, and everything is delivered *)

Section NoLoss.
Context `{AlloyPrimitives} `{DynAbi} `{RhaiEngine} `{TemplateEngine} `{DispatchEnv} `{DefaultHasher} `{CompletionOrder}.
Context {B S : Type} `{BlockStateRepository B} `{OutboxRepository S} `{!OutboxLaws S} `{KeyValueStore S} `{!KeyValueLaws S}.
Context `{!AlertStoreLaws S} `{Serde ThrottleState} `{Serde AggregationState}.
Context (cfg : AppConfig) (outbox_config : OutboxConfig) (actions : gmap string ActionConfig) (d : gmap string ActionType).
Context (batch_size : (0 ≤ ob_batch_size outbox_config)%Z).
Context (reliable : ∀ items (s : S), is_ok (enqueue_outbox_batch items s).1 = true).
Implicit Types (p q : Pipeline (B := B) (S := S)).

Notation step := (pipeline_step cfg outbox_config actions d).

(** An action without policy: its matches are sent at once. *)
Definition immediate (m : MonitorMatch) : Prop := ∃ c, actions !! mm_action_name m = Some c ∧ ac_policy c = None.

Definition delivered p (m : MonitorMatch) : Prop := mm_id m ∈ idempotency_key <$> (pl_world p).2.

(** A received block waits, or its matches have been found. *)
Definition block_accounted p (b : BlockData) : Prop :=
  b ∈ pl_raw p ∨ (∃ snapshot, process_block snapshot b ∈ pl_correlated p) ∨
  ∃ snapshot fe, ∀ m, m ∈ block_matches fe (process_block snapshot b) → m ∈ pl_found p.

(** A found match waits in the channel or in the outbox, or has been delivered. *)
Definition match_accounted p (m : MonitorMatch) : Prop :=
  (∃ l, l ∈ pl_matches p ∧ m ∈ l) ∨ mm_id m ∈ keys (pl_alerts p) ∨ delivered p m.

Record nothing_lost p : Prop := {
  nl_ok : am_ok (pl_alerts p);
  nl_blocks b : b ∈ pl_received p → block_accounted p b;
  nl_matches m : m ∈ pl_found p → immediate m → match_accounted p m
}.

Lemma deliver_loses_nothing p : nothing_lost p → nothing_lost (deliver_step outbox_config d p).
Proof.
  intros [Hok Hb Hm]. destruct (deliver_step_spec outbox_config d batch_size p Hok) as [Hok' _ (pl & Hlog & _ & Hall)].
  split; [exact Hok'|exact Hb|]. intros m Hin Himm. destruct (Hm m Hin Himm) as [Hq|[Hq|Hq]]; [by left| |].
  - unfold keys in Hq. apply list_elem_of_fmap in Hq as (i & Hi & Hin'). destruct (Hall i Hin') as [(j & Hj & E)|Hp].
    + right; left. unfold keys. apply list_elem_of_fmap. exists j. split; [|exact Hj].
      rewrite Hi. unfold item_key. apply (f_equal snd) in E. cbn in E. by rewrite E.
    + right; right. unfold delivered. cbn [os_world] in Hlog. rewrite Hlog, fmap_app. apply elem_of_app. right.
      rewrite Hi. unfold item_key. by apply (list_elem_of_fmap_2 idempotency_key).
  - right; right. unfold delivered in *. cbn [os_world] in Hlog. rewrite Hlog, fmap_app. apply elem_of_app. by left.
Qed.

Lemma alert_loses_nothing now l rest p :
  pl_matches p = l :: rest → nothing_lost p → nothing_lost (alert_step actions now l rest p).
Proof.
  intros E [Hok Hb Hm]. destruct (process_batch_accounted actions reliable (stamped now 0 l) (pl_alerts p) Hok)
    as (a' & Ea & Hg & Hacc). split; cbn; rewrite ?Ea; [apply (gr_ok _ _ Hg)|exact Hb|].
  intros m Hin Himm. destruct (Hm m Hin Himm) as [(l' & Hl' & Hml)|[Hk|Hd]].
  - rewrite E in Hl'. apply elem_of_cons in Hl' as [-> |Hl']; [|left; eauto].
    right; left. cbn. rewrite Ea. destruct Himm as (c & Hc & Hpol).
    destruct (stamped_elem_2 now 0 l m Hml) as [t Ht]. specialize (Hacc t m Ht). unfold accounted in Hacc. by rewrite Hc, Hpol in Hacc.
  - right; left. cbn. rewrite Ea. by apply (gr_keys _ _ Hg).
  - by right; right.
Qed.

Lemma scan_loses_nothing force now p : nothing_lost p → nothing_lost (scan_step actions force now p).
Proof.
  intros [Hok Hb Hm].
  split; cbn; [by apply check_ok|exact Hb|]. intros m Hin Himm.
  destruct (Hm m Hin Himm) as [Hl|[Hk|Hd]]; [by left| |by right; right].
  right; left. cbn. destruct Himm as (c & Hc & Hpol).
  destruct (check_accounted actions reliable force now (pl_alerts p) m Hok) as [_ Hacc].
  - unfold accounted. by rewrite Hc, Hpol.
  - unfold accounted in Hacc. by rewrite Hc, Hpol in Hacc.
Qed.

Lemma process_loses_nothing n p : nothing_lost p → nothing_lost (process_step cfg n p).
Proof.
  intros [Hok Hb Hm]. split; [exact Hok| |exact Hm]. intros b Hin. unfold block_accounted.
  rewrite process_step_correlated. destruct (Hb b Hin) as [Hr|[(snap & Hc)|Hf]].
  - rewrite <- (take_drop n (pl_raw p)) in Hr. apply elem_of_app in Hr as [Hr|Hr]; [|by left].
    right; left. exists (load (pl_manager p)). apply elem_of_app. right. by apply list_elem_of_fmap_2.
  - right; left. exists snap. apply elem_of_app. by left.
  - by right; right.
Qed.

Lemma filter_loses_nothing c rest p :
  pl_correlated p = c :: rest → nothing_lost p → nothing_lost (filter_step c rest p).
Proof.
  intros E [Hok Hb Hm]. set (fe := engine_of (pl_manager p)). split; [exact Hok| |].
  - intros b Hin. unfold block_accounted, filter_step. cbn [pl_raw pl_correlated pl_found]. rewrite filter_found. fold fe.
    destruct (Hb b Hin) as [Hr|[(snap & Hc)|(snap & fe' & Hf)]]; [by left| |].
    + rewrite E in Hc. apply elem_of_cons in Hc as [Hc|Hc]; [|right; left; eauto].
      right; right. exists snap, fe. intros m Hin'. rewrite Hc in Hin'. apply elem_of_app. by right.
    + right; right. exists snap, fe'. intros m Hin'. apply elem_of_app. left. by apply Hf.
  - intros m Hin Himm. unfold match_accounted, filter_step in *. cbn [pl_found pl_matches] in *. rewrite filter_found in Hin.
    apply elem_of_app in Hin as [Hin|Hin].
    + destruct (Hm m Hin Himm) as [(l & Hl & Hml)|Hr]; [left|by right]. exists l. split; [apply elem_of_app; by left|done].
    + left. exists (block_matches fe c). split; [|done]. apply elem_of_app. right. rewrite filter_sent. fold fe.
      change (m ∈ block_matches fe c) in Hin. destruct (block_matches fe c); [by apply elem_of_nil in Hin|by left].
Qed.

End NoLoss.

Section Liveness.
Context `{AlloyPrimitives} `{DynAbi} `{RhaiEngine} `{TemplateEngine} `{DispatchEnv} `{DefaultHasher} `{CompletionOrder}.
Context {B S : Type} `{BlockStateRepository B} `{OutboxRepository S} `{!OutboxLaws S} `{KeyValueStore S} `{!KeyValueLaws S}.
Context `{!AlertStoreLaws S} `{Serde ThrottleState} `{Serde AggregationState}.
Context (cfg : AppConfig) (outbox_config : OutboxConfig) (actions : gmap string ActionConfig) (d : gmap string ActionType).
Context (batch_size : (0 < ob_batch_size outbox_config)%Z).
Context (reliable : ∀ items (s : S), is_ok (enqueue_outbox_batch items s).1 = true).
Context (deletes : ∀ ids (s : S), is_ok (delete_outbox_items_batch ids s).1 = true).
Context (answers : ∀ limit (s : S), outbox_ok s → is_ok (get_pending_outbox limit s).1 = true).
(** While the outside world is well, the payloads of the configured actions are delivered. *)
Context (well : World → Prop).
Definition known (x : ActionPayload) : Prop := is_Some (actions !! action_name x).
Context (delivers_known : ∀ x w, known x → well w →
  is_ok (dispatcher_execute d x w).1 = true ∧ well (dispatcher_execute d x w).2).
Implicit Types (p q : Pipeline (B := B) (S := S)) (a : AlertManager (S := S)).

Notation work := (work_step cfg outbox_config actions d).
Notation logged := (logged_execute d).

(** At most [n] items in the outbox, all for configured actions. *)
Record fits (n : nat) a : Prop := {
  fi_ok : am_ok a;
  fi_length : length (outbox (am_state_repository a)) ≤ n;
  fi_known i : i ∈ outbox (am_state_repository a) → known (oi_payload i)
}.

Lemma fits_weaken n m a : n ≤ m → fits n a → fits m a.
Proof. intros Hnm [? ? ?]. split; [done|lia|done]. Qed.

Lemma insert_new_length items acc : length (foldl insert_new acc items) ≤ length acc + length items.
Proof.
  revert acc. induction items as [|it items IH]; intros acc; cbn; [lia|]. etrans; [apply IH|].
  unfold insert_new. case_decide; rewrite ?length_app; cbn; lia.
Qed.

Lemma dispatch_fits n ps a :
  fits n a → (∀ x, x ∈ ps → known x) → fits (n + length ps) (dispatch_payloads_batch ps a).2.
Proof.
  intros [Hok Hn Hk] Hps. destruct ps as [|x ps]; [by apply (fits_weaken n); [lia|]|].
  unfold dispatch_payloads_batch, on_repository, modify, mbind, eff_bind.
  pose proof (reliable ((λ y, (action_name y, y)) <$> x :: ps) (am_state_repository a)) as Hr.
  destruct (enqueue_outbox_batch _ _) as [[u|e] s'] eqn:Ee; [|done].
  destruct (enqueue_view _ _ _ _ Hok Ee) as [Hok' (added & Ho & _ & Hc)].
  split; [exact Hok'| |].
  - change (length (outbox s') ≤ n + length (x :: ps)). pose proof (length_fmap content (outbox s')) as Hl. rewrite Hc in Hl. rewrite <- Hl.
    etrans; [apply insert_new_length|]. rewrite !length_fmap. lia.
  - intros i Hi. change (i ∈ outbox s') in Hi. apply (list_elem_of_fmap_2 content) in Hi. rewrite Hc in Hi.
    apply insert_new_elem in Hi as [(j & Hj & Hin)%list_elem_of_fmap|(y & Hy & Hin)%list_elem_of_fmap].
    + apply (f_equal snd) in Hj. cbn in Hj. rewrite Hj. by apply Hk.
    + apply (f_equal snd) in Hy. cbn in Hy. rewrite Hy. by apply Hps.
Qed.

Lemma throttle_fits n t m policy a :
  fits n a → known (Single m) → fits (n + 1) (handle_throttle t m policy a).2.
Proof.
  intros Ha Hm. unfold handle_throttle. destruct (throttle_step _ _ _) as [send st].
  assert (fits n (mkAlertManager (am_state_repository a) (am_generated_alerts a)
    (<[mm_action_name m := st]> (am_throttle_states a)) (am_aggregation_states a))) as Ha1 by (by destruct Ha).
  destruct send; [|apply (fits_weaken n); [lia|done]].
  apply (dispatch_fits n [Single m]); [done|]. by intros x ->%list_elem_of_singleton.
Qed.

Lemma handle_matches_fits n l imm a :
  fits n a → (∀ x, x ∈ imm → known x) →
  let '(r, a') := handle_matches actions l imm a in
  ∃ k, fits (n + k) a' ∧ k ≤ length l ∧
    ∀ imm', r = Ok imm' → length imm' + k ≤ length imm + length l ∧ ∀ x, x ∈ imm' → known x.
Proof.
  revert n imm a. induction l as [|[t m] l IH]; intros n imm a Ha Himm; cbn [handle_matches].
  { exists 0. rewrite Nat.add_0_r. split_and!; [done|lia|]. intros imm' [= <-]. split; [cbn; lia|done]. }
  assert (∀ j imm1 a1, j ≤ 1 → j + length imm1 ≤ 1 + length imm → fits (n + j) a1 → (∀ x, x ∈ imm1 → known x) →
    let '(r, a') := handle_matches actions l imm1 a1 in
    ∃ k, fits (n + k) a' ∧ k ≤ length ((t, m) :: l) ∧
      ∀ imm', r = Ok imm' → length imm' + k ≤ length imm + length ((t, m) :: l) ∧ ∀ x, x ∈ imm' → known x) as Hrest.
  { intros j imm1 a1 Hj1 Hj Ha1 Himm1. specialize (IH (n + j) imm1 a1 Ha1 Himm1).
    destruct (handle_matches actions l imm1 a1) as [r a']. destruct IH as (k & Hf & Hk & Hr).
    exists (j + k). cbn [length]. split_and!; [by apply (fits_weaken (n + j + k)); [lia|]|lia|].
    intros imm' Hi. destruct (Hr imm' Hi) as [Hl Hx]. split; [lia|done]. }
  assert (∀ a1, fits n a1 → fits (n + 0) a1) as Hn0 by (intros a1; by rewrite Nat.add_0_r).
  destruct (actions !! mm_action_name m) as [c|] eqn:Ec; [|by apply (Hrest 0); auto].
  destruct (ac_policy c) as [[p|p]|].
  - unfold mbind, eff_bind, handle_aggregation, modify. apply (Hrest 0); [lia|lia|destruct Ha; split; cbn; [done|lia|done]|done].
  - pose proof (throttle_fits n t m p a Ha ltac:(by exists c)) as Ha1.
    destruct (throttle_grows reliable t m p a (fi_ok _ _ Ha)) as (a1 & E & _). rewrite E in Ha1. cbn in Ha1.
    rewrite (eff_bind_run _ _ _ _ _ E). by apply (Hrest 1); auto.
  - apply (Hrest 0); [lia|rewrite length_app; cbn; lia|auto|].
    intros x [Hx|Hx%list_elem_of_singleton]%elem_of_app; [by apply Himm|]. subst. by exists c.
Qed.

Lemma batch_fits n l a : fits n a → fits (n + length l) (process_matches_batch actions l a).2.
Proof.
  intros Ha. unfold process_matches_batch. destruct l as [|x l]; [by rewrite Nat.add_0_r|].
  pose proof (handle_matches_fits n (x :: l) [] a Ha ltac:(by intros ? ?%elem_of_nil)) as Hh.
  unfold mbind, eff_bind. destruct (handle_matches actions (x :: l) [] a) as [r a1]. destruct Hh as (k & Hf & Hk & Hr).
  destruct r as [imm|e]; [|apply (fits_weaken (n + k)); [lia|done]].
  destruct (Hr imm eq_refl) as [Hl Himm]. cbn [length] in Hl.
  destruct imm as [|y imm]; [apply (fits_weaken (n + k)); [lia|done]|].
  apply (fits_weaken (n + k + length (y :: imm))); [cbn [length] in *; lia|]. by apply dispatch_fits.
Qed.

(** A poll of an outbox that is not empty delivers what it fetched. *)
Lemma executions_well items (w : World * list ActionPayload) :
  well w.1 → (∀ i, i ∈ items → known (oi_payload i)) →
  (executions logged items w).1 = oi_id <$> items ∧ well (executions logged items w).2.1.
Proof.
  revert w. induction items as [|i items IH]; intros w Hw Hk; [done|]. cbn [executions].
  destruct (delivers_known (oi_payload i) w.1 (Hk i ltac:(by left)) Hw) as [Hok Hw1].
  destruct (logged (oi_payload i) w) as [r w2] eqn:E.
  assert (is_ok r = true ∧ well w2.1) as [Hr Hw2].
  { revert E. unfold logged_execute. destruct (dispatcher_execute d (oi_payload i) w.1). by intros [= <- <-]. }
  destruct (IH w2 Hw2 ltac:(intros; apply Hk; by right)) as [Hids Hw3].
  destruct (executions logged items w2) as [ids w3]. cbn in *. by rewrite Hr, Hids.
Qed.

(** The work left: each block, message, match and alert counts once for every stage
    ahead of it. *)
Definition matches_cost (l : list MonitorMatch) : nat := Datatypes.S (length l).
Definition correlated_cost (fe : RhaiFilteringEngine) (c : CorrelatedBlockData) : nat :=
  Datatypes.S (sum_list_with matches_cost (match block_matches fe c with [] => [] | l => [l] end)).
Definition raw_cost (mgr : MonitorManager) (b : BlockData) : nat :=
  Datatypes.S (correlated_cost (engine_of mgr) (process_block (load mgr) b)).
Definition work_left p : nat :=
  sum_list_with (raw_cost (pl_manager p)) (pl_raw p) +
  sum_list_with (correlated_cost (engine_of (pl_manager p))) (pl_correlated p) +
  sum_list_with matches_cost (pl_matches p) + length (outbox (am_state_repository (pl_alerts p))).

(** The alerts waiting are for configured actions, and the world is well. *)
Record running_well p : Prop := {
  rw_lost : nothing_lost actions p;
  rw_known i : i ∈ outbox (am_state_repository (pl_alerts p)) → known (oi_payload i);
  rw_world : well (pl_world p).1
}.

Lemma process_work n p :
  0 < n → pl_raw p ≠ [] → work_left (process_step cfg n p) < work_left p.
Proof.
  intros Hn Hne. unfold work_left. rewrite process_step_correlated. cbn [process_step pl_raw pl_matches pl_alerts pl_manager].
  rewrite sum_list_with_app. rewrite <- (take_drop n (pl_raw p)) at 3. rewrite sum_list_with_app.
  assert (sum_list_with (raw_cost (pl_manager p)) (take n (pl_raw p)) =
    length (take n (pl_raw p)) + sum_list_with (correlated_cost (engine_of (pl_manager p)))
      (process_block (load (pl_manager p)) <$> take n (pl_raw p))) as ->.
  { induction (take n (pl_raw p)) as [|b l IH]; [done|]. cbn. rewrite IH. unfold raw_cost. lia. }
  assert (0 < length (take n (pl_raw p))); [|lia]. destruct n, (pl_raw p); cbn; lia || done.
Qed.

Lemma filter_work c rest p : pl_correlated p = c :: rest → work_left (filter_step c rest p) < work_left p.
Proof.
  intros E. unfold work_left, filter_step. cbn [pl_raw pl_correlated pl_matches pl_alerts pl_manager]. rewrite filter_sent, E.
  rewrite sum_list_with_app. cbn [sum_list_with]. unfold correlated_cost at 2. lia.
Qed.

Lemma alert_work now l rest p :
  pl_matches p = l :: rest → running_well p →
  work_left (alert_step actions now l rest p) < work_left p ∧ running_well (alert_step actions now l rest p).
Proof.
  intros E [Hnl Hk Hw].
  assert (fits (length (outbox (am_state_repository (pl_alerts p)))) (pl_alerts p)) as Hf by (split; [apply Hnl|done|done]).
  apply (batch_fits _ (stamped now 0 l)) in Hf as [Hok Hlen Hk']. rewrite length_stamped in Hlen.
  split; [|split; [by apply alert_loses_nothing|exact Hk'|exact Hw]].
  unfold work_left, alert_step. cbn [pl_raw pl_correlated pl_matches pl_alerts pl_manager]. rewrite E. cbn [sum_list_with].
  unfold matches_cost at 2. lia.
Qed.

Lemma deliver_work p items s :
  get_pending_outbox (ob_batch_size outbox_config) (am_state_repository (pl_alerts p)) = (Ok items, s) → items ≠ [] →
  running_well p →
  work_left (deliver_step outbox_config d p) < work_left p ∧ running_well (deliver_step outbox_config d p).
Proof.
  intros Eg Hne [Hnl Hk Hw]. pose proof (nl_ok _ _ Hnl) as Hok.
  pose proof (deliver_loses_nothing outbox_config actions d ltac:(lia) p Hnl) as Hnl'.
  destruct (deliver_step_spec outbox_config d ltac:(lia) p Hok) as [_ Hkept _].
  destruct (pending_view _ _ _ _ Hok Eg) as (Hok1 & Ho & Hl). specialize (Hl items eq_refl ltac:(lia)).
  set (o1 := mkOutboxState s (pl_world p)).
  destruct (process_batch_items_spec logged items o1 Hok1) as (deleted & o2 & E2 & _ & _ & Hw2 & Hids & Hall).
  specialize (Hall deletes). cbn [o1 os_world] in *.
  destruct (executions_well (unordered items) (pl_world p) Hw) as [Hex Hw3].
  { intros i Hi. rewrite (unordered_perm items), Hl in Hi. apply Hk. by eapply elem_of_sublist; [exact Hi|apply sublist_take]. }
  assert ((process_batch logged outbox_config (mkOutboxState (am_state_repository (pl_alerts p)) (pl_world p))).2 = o2) as Eo.
  { unfold process_batch, mbind, eff_bind, on_state. cbn [os_state os_world]. rewrite Eg. cbn.
    destruct items; [done|]. unfold o1 in E2. by rewrite E2. }
  assert (length (outbox (os_state o2)) < length (outbox (am_state_repository (pl_alerts p)))) as Hshrink.
  { pose proof (f_equal length Hids) as Hlen. unfold identities, remaining in Hlen. rewrite !length_fmap in Hlen.
    change (os_outbox o2) with (outbox (os_state o2)) in Hlen. rewrite Hlen. unfold o1, os_outbox. cbn [os_state]. rewrite Ho.
    destruct items as [|i items]; [done|].
    assert (i ∈ outbox (am_state_repository (pl_alerts p))) as Hi.
    { eapply elem_of_sublist; [|apply (sublist_take _ (Z.to_nat (ob_batch_size outbox_config)))]. rewrite <- Hl. by left. }
    pose proof (length_fmap (λ i, (oi_id i, content i)) (outbox (am_state_repository (pl_alerts p)))) as Hfm. rewrite <- Hfm.
    apply (length_filter_lt _ _ (oi_id i, content i)); [by apply (list_elem_of_fmap_2 (λ i, (oi_id i, content i)))|].
    intros Hnot. apply Hnot. cbn. rewrite Hall, Hex. apply list_elem_of_fmap. exists i. split; [done|].
    rewrite (unordered_perm (i :: items)). by left. }
  split.
  - unfold work_left, deliver_step. cbn [pl_raw pl_correlated pl_matches pl_alerts pl_manager am_state_repository].
    rewrite Eo. lia.
  - split; [exact Hnl'| |].
    + intros i (j & Hj & _ & E)%Hkept. apply (f_equal snd) in E. cbn in E. unfold known. rewrite <- E. by apply Hk.
    + unfold deliver_step. cbn [pl_world]. rewrite Eo, Hw2. exact Hw3.
Qed.

Lemma work_step_well p q : work p q → running_well p → work_left q < work_left p ∧ running_well q.
Proof.
  intros [n p1 Hn Hne|c rest p1 E|now l rest p1 E|r p1 E (items & s & -> & Hne)] Hp.
  - split; [by apply process_work|]. destruct Hp as [Hnl Hk Hw]. split; [by apply process_loses_nothing|done|done].
  - split; [by apply filter_work|]. destruct Hp as [Hnl Hk Hw]. split; [by apply filter_loses_nothing|done|done].
  - by apply alert_work.
  - by eapply deliver_work.
Qed.

Lemma idle_empty p :
  running_well p → (∀ q, ¬ work p q) →
  pl_raw p = [] ∧ pl_correlated p = [] ∧ pl_matches p = [] ∧ outbox (am_state_repository (pl_alerts p)) = [].
Proof.
  intros Hp Hidle. split_and!.
  - destruct (pl_raw p) as [|b l] eqn:E; [done|]. exfalso. eapply Hidle, (step_process _ _ _ _ 1); [lia|]. by rewrite E.
  - destruct (pl_correlated p) as [|c l] eqn:E; [done|]. exfalso. by eapply Hidle, step_filter.
  - destruct (pl_matches p) as [|l ls] eqn:E; [done|]. exfalso. by eapply Hidle, (step_alert _ _ _ _ (λ _, 0%Z)).
  - pose proof (nl_ok _ _ (rw_lost _ Hp)) as Hok. pose proof (answers (ob_batch_size outbox_config) _ Hok) as Ha.
    destruct (get_pending_outbox (ob_batch_size outbox_config) (am_state_repository (pl_alerts p))) as [[items|e] s] eqn:Eg; [|done].
    destruct (pending_view _ _ _ _ Hok Eg) as (_ & _ & Hl). specialize (Hl items eq_refl ltac:(lia)).
    destruct items as [|i items].
    + destruct (outbox (am_state_repository (pl_alerts p))) as [|i l]; [done|].
      destruct (Z.to_nat (ob_batch_size outbox_config)) eqn:En; [lia|done].
    + exfalso. eapply Hidle, step_deliver; [exact Eg|]. eauto.
Qed.

End Liveness.

(** ** A concrete run *)

Import MonitorMatch.Demo Abi.AbiDemo RhaiScript.RhaiDemo Registry.RegistryDemo Interfaces.SerdeDemo Interfaces.InterfacesDemo
  Providers.ProvidersDemo Dispatch.DispatchDemo BlockProcessor.BlockProcessorDemo.

Module PipelineDemo.
(** Every template is its own rendering. *)
#[export] Instance plain_templates : TemplateEngine := {| template_from_str _ := Ok tt; render_str s _ := Ok s |}.

Definition outbox_config : OutboxConfig := mkOutboxConfig 2 10 500.
Definition actions : gmap string ActionConfig := {["hook" := slack_action]}.
Definition hook : WebhookAction :=
  mkWebhookAction (WebhookConfig_new "https://hooks.slack.com/x")
    (mkArc 0 (create_retryable_http_client HttpRetryConfig_default BaseHttpClientConfig_default)) "title" "body" SlackPayload.
Definition dispatcher : gmap string ActionType := {["hook" := WebhookType hook]}.

Definition idle : Pipeline (B := DemoDb) (S := MemStore) :=
  mkPipeline [] [] [] ∅ (mkAlertManager mem_empty ∅ ∅ ∅) (quiet_world, [])
    (MonitorManager_new [demo_monitor 1 None None "tx" ["hook"]] RhaiCompiler_new service) [] [].

(** One step of the first service that has something to do. *)
Definition turn (p : Pipeline (B := DemoDb) (S := MemStore)) : Pipeline (B := DemoDb) (S := MemStore) :=
  match pl_raw p, pl_correlated p, pl_matches p with
  | _ :: _, _, _ => process_step demo_config 1 p
  | [], c :: rest, _ => filter_step c rest p
  | [], [], l :: rest => alert_step actions (λ _, 0%Z) l rest p
  | [], [], [] => deliver_step outbox_config dispatcher p
  end.
Definition received : Pipeline (B := DemoDb) (S := MemStore) := receive_step [demo_block_data 10] idle.
Definition processed := turn received.
Definition filtered := turn processed.
Definition alerted := turn filtered.
Definition finished := turn alerted.

Notation step := (pipeline_step demo_config outbox_config actions dispatcher).
Notation work := (work_step demo_config outbox_config actions dispatcher).

Lemma turn_work p :
  (pl_raw p ≠ [] ∨ pl_correlated p ≠ [] ∨ pl_matches p ≠ [] ∨ mem_outbox (am_state_repository (pl_alerts p)) ≠ []) →
  work p (turn p).
Proof.
  intros Hne. unfold turn.
  destruct (pl_raw p) as [|b l] eqn:Er; [|apply step_process; [lia|by rewrite Er]].
  destruct (pl_correlated p) as [|c l] eqn:Ec; [|by apply step_filter].
  destruct (pl_matches p) as [|m l] eqn:Em; [|by apply step_alert].
  eapply step_deliver; [reflexivity|]. cbn. eexists _, _. split; [reflexivity|].
  destruct (mem_outbox _); [|done]. by destruct Hne as [?|[?|[?|?]]].
Qed.

Lemma demo_run : nsteps work 4 received finished.
Proof.
  eapply nsteps_l; [apply (turn_work received); by left|].
  eapply nsteps_l; [apply (turn_work processed); right; left; vm_compute; discriminate|].
  eapply nsteps_l; [apply (turn_work filtered); do 2 right; left; vm_compute; discriminate|].
  eapply nsteps_l; [apply (turn_work alerted); do 3 right; vm_compute; discriminate|]. constructor.
Qed.

Lemma demo_steps : rtc step idle finished.
Proof.
  eapply rtc_l; [apply (step_receive _ _ _ _ [demo_block_data 10])|].
  eapply rtc_subrel; [intros p q; apply step_work|]. eapply rtc_nsteps_2, demo_run.
Qed.

Lemma demo_delivered : idempotency_key <$> (pl_world finished).2 = ["1-hook-0x101"; "1-hook-0x100"].
Proof. vm_compute. reflexivity. Qed.

Lemma idle_sourced : pipeline_sourced idle.
Proof.
  split; [by intros ? ?%elem_of_nil|by intros ? ?%elem_of_nil|by intros ? ? ?%elem_of_nil|].
  split; [apply mem_empty_ok|by intros ? ?%elem_of_nil|intros n st m Hn; cbn in Hn; by rewrite lookup_empty in Hn].
Qed.

(** The alerts of a block are in the outbox. *)
Lemma alerted_ok : am_ok (pl_alerts alerted).
Proof.
  assert (∀ p, pl_raw p ≠ [] ∨ pl_correlated p ≠ [] ∨ pl_matches p ≠ [] ∨ mem_outbox (am_state_repository (pl_alerts p)) ≠ [] →
    pipeline_sourced p → pipeline_sourced (turn p)) as Hturn.
  { intros p Hne Hp. apply (step_refines demo_config outbox_config actions dispatcher ltac:(done) p); [|done].
    apply step_work, turn_work, Hne. }
  assert (pipeline_sourced received) as Hr
    by (apply (step_refines demo_config outbox_config actions dispatcher ltac:(done) idle received (step_receive _ _ _ _ _ _)), idle_sourced).
  apply Hturn in Hr; [|by left]. apply Hturn in Hr; [|right; left; vm_compute; discriminate].
  apply Hturn in Hr; [|do 2 right; left; vm_compute; discriminate]. exact (so_ok _ _ (ps_alerts _ Hr)).
Qed.

Lemma idle_lost : nothing_lost actions idle.
Proof. split; [apply mem_empty_ok|by intros ? ?%elem_of_nil|by intros ? ?%elem_of_nil]. Qed.

Definition well (w : World) : Prop := ∀ n, w_answers w n = Ok tt.

Lemma hook_delivers x w :
  known actions x → well w → is_ok (dispatcher_execute dispatcher x w).1 = true ∧ well (dispatcher_execute dispatcher x w).2.
Proof.
  intros [c Hc] Hw. unfold actions in Hc. apply lookup_singleton_Some in Hc as [Hn _].
  unfold dispatcher_execute, dispatcher. rewrite <- Hn, lookup_singleton_eq.
  assert (∀ r b, well b → is_ok (eff_map_err WebhookFailed (request r) b).1 = true ∧
    well (eff_map_err WebhookFailed (request r) b).2) as Hr.
  { intros r b Hb. unfold eff_map_err, request. cbn. by rewrite (Hb (length (w_requests b))). }
  destruct x as [m|n ms template]; by apply Hr.
Qed.
End PipelineDemo.
Import PipelineDemo.

Lemma pipeline_refines_witness :
  rtc spec_step (mkSpec [] [] []) (abs finished) ∧
  idempotency_key <$> sp_delivered (abs finished) = ["1-hook-0x101"; "1-hook-0x100"].
Proof.
  split; [|exact demo_delivered].
  apply (pipeline_refines demo_config outbox_config actions dispatcher ltac:(done) idle finished idle_sourced demo_steps).
Defined.


