(* ===== verification/Delivery.v ===== *)
(** * A delivery, await by await ([crates/argus-engine/src/outbox_processor.rs])

    The outbox processor's task between its awaits: the executions in flight, the results
    waiting in the stream, the deletion of the batch and of its items one by one.  The
    task can be aborted, and the process can crash, between any two of these steps. *)
From S2P Require Import Prelude Models MonitorMatch Interfaces Providers AlertManager OutboxProcessor Frames Dispatch Store Pipeline.

Section Delivery.
Context {S W DE : Type} `{OutboxRepository S}.
Context (execute : ActionPayload → eff W DE unit) (config : OutboxConfig).

Notation Outbox := (OutboxState (S := S) (W := W)).

(** Where the task is: asleep until the next poll; in the loop over the stream, with the
    items it has not started, those in flight, the results not yet handled and the
    identifiers that succeeded; about to delete them; or deleting them one by one. *)
Inductive Delivery :=
| Sleeping
| Executing (queued in_flight : list OutboxItem) (completed : list (Z * bool)) (successful_ids : list Z)
| Deleting (successful_ids : list Z)
| DeletingEach (ids : list Z).

Definition concurrency : nat := max (ob_concurrency config) 1.

(** The poll: an error or an empty batch ends it. *)
Definition poll (o : Outbox) : Delivery * Outbox :=
  match on_state (get_pending_outbox (ob_batch_size config)) o with
  | (Ok (i :: items), o) => (Executing (i :: items) [] [] [], o)
  | (_, o) => (Sleeping, o)
  end.

(** An execution ends: its result is in the stream. *)
Definition complete (item : OutboxItem) (o : Outbox) : (Z * bool) * Outbox :=
  let '(r, w) := execute (oi_payload item) (os_world o) in ((oi_id item, is_ok r), mkOutboxState (os_state o) w).

(** The loop takes a result. *)
Definition take_result (result : Z * bool) (successful_ids : list Z) (o : Outbox) : list Z * Outbox :=
  if result.2 then (successful_ids ++ [result.1], o)
  else (successful_ids, (on_state (increment_outbox_retries result.1) o).2).

Definition results_handled (successful_ids : list Z) : Delivery :=
  match successful_ids with [] => Sleeping | _ => Deleting successful_ids end.

Definition delete_batch (successful_ids : list Z) (o : Outbox) : Delivery * Outbox :=
  match on_state (delete_outbox_items_batch successful_ids) o with
  | (Ok _, o) => (Sleeping, o)
  | (Err _, o) => (DeletingEach successful_ids, o)
  end.

(** The steps of a batch.  The stream holds at most [concurrency] executions, in flight or
    with a result that is not handled. *)
Inductive batch_step : Delivery * Outbox → Delivery * Outbox → Prop :=
| batch_starts i queued in_flight completed ids o :
    length in_flight + length completed < concurrency →
    batch_step (Executing (i :: queued) in_flight completed ids, o) (Executing queued (in_flight ++ [i]) completed ids, o)
| batch_completes l1 i l2 queued completed ids o :
    batch_step (Executing queued (l1 ++ i :: l2) completed ids, o)
      (Executing queued (l1 ++ l2) (completed ++ [(complete i o).1]) ids, (complete i o).2)
| batch_takes result queued in_flight completed ids o :
    batch_step (Executing queued in_flight (result :: completed) ids, o)
      (Executing queued in_flight completed (take_result result ids o).1, (take_result result ids o).2)
| batch_ends ids o : batch_step (Executing [] [] [] ids, o) (results_handled ids, o)
| batch_deletes ids o : batch_step (Deleting ids, o) (delete_batch ids o)
| batch_deletes_one id ids o :
    batch_step (DeletingEach (id :: ids), o) (DeletingEach ids, (on_state (delete_outbox_items_batch [id]) o).2)
| batch_deleted o : batch_step (DeletingEach [], o) (Sleeping, o).

Inductive delivery_step : Delivery * Outbox → Delivery * Outbox → Prop :=
| delivery_polls o : delivery_step (Sleeping, o) (poll o)
| delivery_batch x y : batch_step x y → delivery_step x y.

(** ** A batch ends, and is the one of some completion order *)

(** The steps a batch can still take. *)
Definition steps_left (d : Delivery) : nat :=
  match d with
  | Sleeping => 0
  | Executing queued in_flight completed ids => 4 * length queued + 3 * length in_flight + 2 * length completed + length ids + 3
  | Deleting ids => length ids + 2
  | DeletingEach ids => length ids + 1
  end.

Implicit Types (x y : Delivery * Outbox).

Lemma batch_step_left x y : batch_step x y → steps_left y.1 < steps_left x.1.
Proof.
  intros [i q f c ids o Hc|l1 i l2 q c ids o|r q f c ids o|ids o|ids o|id ids o|o]; cbn [fst steps_left length].
  - rewrite length_app. cbn. lia.
  - rewrite !length_app. cbn. lia.
  - unfold take_result. destruct r.2; cbn [fst]; rewrite ?length_app; cbn; lia.
  - destruct ids; cbn; lia.
  - unfold delete_batch. destruct (on_state _ o) as [[u|e] o']; cbn; lia.
  - lia.
  - cbn. lia.
Qed.

(** The task is never stuck: an execution in flight ends some time, and otherwise it goes on. *)
Lemma batch_goes_on x : x.1 = Sleeping ∨ ∃ y, batch_step x y.
Proof.
  destruct x as [[|q f c ids|ids|[|id ids]] o]; [by left|right..].
  - destruct c as [|r c]; [|eexists; apply batch_takes].
    destruct f as [|i f]; [|eexists; apply (batch_completes [] i f)].
    destruct q as [|i q]; [eexists; apply batch_ends|]. eexists. apply batch_starts. unfold concurrency. cbn. lia.
  - eexists. apply batch_deletes.
  - eexists. apply batch_deleted.
  - eexists. apply batch_deletes_one.
Qed.

(** The executions of some items, one after the other. *)
Fixpoint completions (items : list OutboxItem) (w : W) : list (Z * bool) * W :=
  match items with
  | [] => ([], w)
  | i :: items =>
      let '(r, w) := execute (oi_payload i) w in
      let '(results, w) := completions items w in ((oi_id i, is_ok r) :: results, w)
  end.

Lemma completions_snoc items i s w :
  completions (items ++ [i]) w =
    let '(results, w1) := completions items w in
    let '(r, o) := complete i (mkOutboxState s w1) in (results ++ [r], os_world o).
Proof.
  revert w. induction items as [|j items IH]; intros w; cbn [app completions].
  { unfold complete. cbn. by destruct (execute (oi_payload i) w). }
  destruct (execute (oi_payload j) w) as [r w1]. rewrite IH. destruct (completions items w1) as [results w2].
  by destruct (complete i _).
Qed.

(** Where a batch of [items] fetched in [o0] can be: some completed items have been
    handled as the loop handles them one by one, others wait in the stream. *)
Inductive batch_reached (items : list OutboxItem) (o0 : Outbox) : Delivery * Outbox → Prop :=
| reached_results handled waiting queued in_flight completed ids oh o :
    handled ++ waiting ++ in_flight ++ queued ≡ₚ items →
    collect_results execute handled [] o0 = (Ok ids, oh) →
    os_state o = os_state oh → completions waiting (os_world oh) = (completed, os_world o) →
    batch_reached items o0 (Executing queued in_flight completed ids, o)
| reached_deleting completed ids o :
    completed ≡ₚ items → collect_results execute completed [] o0 = (Ok ids, o) → ids ≠ [] →
    batch_reached items o0 (Deleting ids, o)
| reached_each completed ids n o :
    completed ≡ₚ items → process_in_order execute completed o0 = delete_one_by_one ids n o →
    batch_reached items o0 (DeletingEach ids, o)
| reached_end completed n o :
    completed ≡ₚ items → process_in_order execute completed o0 = (Ok n, o) → batch_reached items o0 (Sleeping, o).

Lemma collect_snoc handled i acc ids o0 oh :
  collect_results execute handled acc o0 = (Ok ids, oh) →
  collect_results execute (handled ++ [i]) acc o0 =
    let '(r, o) := complete i oh in let '(ids', o') := take_result r ids o in (Ok ids', o').
Proof.
  revert acc o0. induction handled as [|j handled IH]; intros acc o0; cbn [app collect_results];
    unfold mbind, eff_bind, execute_item.
  - intros [= -> ->]. unfold complete, take_result. by destruct (execute (oi_payload i) (os_world oh)) as [[u|e] w].
  - destruct (execute (oi_payload j) (os_world o0)) as [[u|e] w]; cbn [is_ok]; apply IH.
Qed.

Lemma step_reached items o0 x y : batch_reached items o0 x → batch_step x y → batch_reached items o0 y.
Proof.
  intros Hx Hstep. destruct Hstep as [i q f c ids o Hc|l1 i l2 q c ids o|r q f c ids o|ids o|ids o|id ids o|o].
  - inversion Hx as [handled waiting ? ? ? ? oh ? Hperm Hcol Hs Hw| | |]; subst.
    eapply reached_results; [|done..]. rewrite <- Hperm. by rewrite <- (assoc_L (++) f [i] q).
  - inversion Hx as [handled waiting ? ? ? ? oh ? Hperm Hcol Hs Hw| | |]; subst.
    eapply (reached_results _ _ handled (waiting ++ [i])); [|exact Hcol| |].
    + rewrite <- Hperm. solve_Permutation.
    + rewrite <- Hs. unfold complete. by destruct (execute _ _).
    + rewrite (completions_snoc waiting i (os_state o)), Hw. unfold complete. cbn. by destruct (execute _ _).
  - inversion Hx as [handled waiting ? ? ? ? oh ? Hperm Hcol Hs Hw| | |]; subst.
    destruct waiting as [|i waiting]; [discriminate Hw|]. cbn [completions] in Hw.
    pose proof (collect_snoc handled i [] ids o0 oh Hcol) as Hcol'. unfold complete in Hcol'.
    destruct (execute (oi_payload i) (os_world oh)) as [r1 w1].
    destruct (completions waiting w1) as [rs w2] eqn:Er. injection Hw as <- -> Ew.
    destruct o as [s w], oh as [sh wh]. cbn [os_state os_world] in *. subst s w2.
    unfold take_result, on_state in *. cbn [fst snd os_state os_world] in *.
    destruct (is_ok r1); cbn [fst snd].
    + eapply (reached_results _ _ (handled ++ [i]) waiting); [|exact Hcol'|done|exact Er]. rewrite <- Hperm. solve_Permutation.
    + destruct (increment_outbox_retries (oi_id i) sh) as [r2 s2]. cbn [snd] in *.
      eapply (reached_results _ _ (handled ++ [i]) waiting); [|exact Hcol'|done|exact Er]. rewrite <- Hperm. solve_Permutation.
  - inversion Hx as [handled waiting ? ? ? ? oh ? Hperm Hcol Hs Hw| | |]; subst.
    destruct waiting as [|i waiting].
    2: { cbn in Hw. destruct (execute _ _) as [r1 w1]. by destruct (completions waiting w1). }
    injection Hw as Hw. rewrite !app_nil_r in Hperm.
    destruct o as [s w], oh as [sh wh]. cbn in *. subst sh wh.
    destruct ids as [|id ids]; [|by eapply reached_deleting].
    eapply (reached_end _ _ handled 0); [done|]. unfold process_in_order. by rewrite (eff_bind_run _ _ _ _ _ Hcol).
  - inversion Hx as [|completed ? ? Hperm Hcol Hne| |]; subst. unfold delete_batch.
    assert (process_in_order execute completed o0 = match on_state (delete_outbox_items_batch ids) o with
      | (Ok _, o) => (Ok (length ids), o) | (Err _, o) => delete_one_by_one ids 0 o end) as E.
    { unfold process_in_order. rewrite (eff_bind_run _ _ _ _ _ Hcol). by destruct ids. }
    destruct (on_state (delete_outbox_items_batch ids) o) as [[u|e] o']; [by eapply reached_end|by eapply reached_each].
  - inversion Hx as [| |completed ? n ? Hperm Hp|]; subst. cbn [delete_one_by_one] in Hp.
    destruct (on_state (delete_outbox_items_batch [id]) o) as [[u|e] o']; by eapply reached_each.
  - inversion Hx as [| |completed ? n ? Hperm Hp|]; subst. by eapply reached_end.
Qed.

(** C13: A batch of the outbox, whatever its interleaving (executions in flight at once up to
    the concurrency limit, results taken in the order they complete, retries counted
    while others run) always ends: it can take at most [4 n + 3] steps for [n] items, is
    never stuck before it ends, and its end is that of the sequential processing of its
    items in some completion order. *)
Theorem batch_linearizes items n o x :
  nsteps batch_step n (Executing items [] [] [], o) x →
  n ≤ 4 * length items + 3 ∧ (x.1 = Sleeping ∨ ∃ y, batch_step x y) ∧
  (x.1 = Sleeping → ∃ order count, order ≡ₚ items ∧ process_in_order execute order o = (Ok count, x.2)).
Proof.
  intros Hrun. split; [|split; [apply batch_goes_on|]].
  - assert (∀ y, nsteps batch_step n y x → n + steps_left x.1 ≤ steps_left y.1) as Hn.
    { clear Hrun. intros y Hrun. induction Hrun as [y|n y y1 x Hstep _ IH]; [done|]. apply batch_step_left in Hstep. lia. }
    apply Hn in Hrun. cbn in Hrun. lia.
  - assert (batch_reached items o (Executing items [] [] [], o)) as Hr.
    { eapply (reached_results _ _ [] []); done. }
    intros Hend. enough (batch_reached items o x) as Hx.
    { destruct x as [d o']. cbn in Hend. subst d. inversion Hx as [| | |order count ? Hperm Hp]; subst. by exists order, count. }
    clear Hend. revert Hr. induction Hrun as [y|k y y1 x Hstep _ IH]; intros Hr; [done|]. by eapply IH, step_reached.
Qed.
End Delivery.

(** ** On the database *)

Section OnDatabase.
Context `{AlloyPrimitives} `{TemplateEngine} `{DispatchEnv} `{DefaultHasher} `{SqliteChoices}.
Context `{Serde (list string)} `{Serde ActionConfig} `{SerdeLaws ActionPayload}.

Notation Db := SqliteStateRepository.
Notation log_keys l := (idempotency_key <$> l).
Implicit Types (t : Tables) (log : list ActionPayload).

Definition row_keys t : list string := or_idempotency_key <$> outbox_rows t.

(** The rows with an identifier given before are those of then. *)
Record grown t0 t : Prop := {
  gr_seq : (outbox_seq t0 ≤ outbox_seq t)%Z;
  gr_rows r : r ∈ outbox_rows t → (or_id r ≤ outbox_seq t0)%Z →
    ∃ r0, r0 ∈ outbox_rows t0 ∧ or_id r0 = or_id r ∧ or_idempotency_key r0 = or_idempotency_key r
}.

Lemma grown_refl t : grown t t.
Proof. split; [done|]. intros r Hr _. by exists r. Qed.

Lemma grown_same t0 t t' : outbox_rows t' = outbox_rows t → outbox_seq t' = outbox_seq t → grown t0 t → grown t0 t'.
Proof. intros Er Eq [Hs Hr]. split; [by rewrite Eq|]. by rewrite Er. Qed.

Lemma grown_admin t0 : admin_keeps (grown t0).
Proof. apply admin_blind_keeps. split; intros; by eapply (grown_same t0 t). Qed.

Lemma insert_grown t0 rows t t' : grown t0 t → foldM insert_or_ignore rows t = Ok t' → grown t0 t'.
Proof.
  revert t. induction rows as [|[[name json] key] rows IH]; intros t Ht; cbn; [by intros [= <-]|].
  intros (t1 & Hi & Hf)%bind_Ok. apply (IH t1); [|done]. unfold insert_or_ignore in Hi.
  apply bind_Ok in Hi as (id & ->%next_id_Ok & Hi). destruct Ht as [Hs Hr]. case_bool_decide; injection Hi as <-; split; cbn.
  - destruct ignored_row_takes_id; lia.
  - exact Hr.
  - lia.
  - intros r [Hin| ->%list_elem_of_singleton]%elem_of_app Hle; [by apply Hr|]. cbn in Hle. lia.
Qed.

Lemma grown_service t0 : service_keeps (grown t0).
Proof.
  split; intros.
  - apply set_last_only. intros t m Ht. by apply (grown_same t0 t).
  - destruct items; [apply preserves_ret|]. apply preserves_transaction, preserves_for_each. intros chunk.
    apply preserves_bind; [apply preserves_lift|]. intros rows. apply preserves_execute.
    intros t u t' Ht (t1 & Hf & [= _ <-])%bind_Ok. by eapply insert_grown.
  - apply pending_reads.
  - destruct ids; [apply preserves_ret|]. apply preserves_transaction, preserves_for_each. intros chunk.
    apply preserves_execute. intros t u t' [Hs Hr] [= _ <-]. split; [done|].
    intros r [_ Hin]%list_elem_of_filter. by apply Hr.
  - apply preserves_execute. intros t u t' [Hs Hr] [= _ <-]. split; [done|]. cbn.
    intros r (r1 & -> & Hin)%list_elem_of_fmap Hle.
    assert (or_id r1 ≤ outbox_seq t0)%Z as Hle1 by (by case_decide). destruct (Hr r1 Hin Hle1) as (r0 & ? & ? & ?).
    exists r0. by case_decide.
  - apply set_json_only. intros t m Ht. by apply (grown_same t0 t).
  - apply flush_only. intros t m Ht. by apply (grown_same t0 t).
  - apply checkpoint_only.
Qed.

(** The row of an identifier, if it is still there, has this key; its alert was delivered. *)
Definition known_as (id : Z) (key : string) t : Prop :=
  (id ≤ outbox_seq t)%Z ∧ ∀ r, r ∈ outbox_rows t → or_id r = id → or_idempotency_key r = key.
Definition sent (id : Z) t log : Prop :=
  (id ≤ outbox_seq t)%Z ∧ ∀ r, r ∈ outbox_rows t → or_id r = id → or_idempotency_key r ∈ log_keys log.

(** What the task holds is true of the tables: its items are those of the rows, and what it
    takes for delivered was. *)
Definition delivery_ok (dl : Delivery) t log : Prop :=
  match dl with
  | Sleeping => True
  | Executing queued in_flight completed ids =>
      (∀ i, i ∈ queued ++ in_flight → known_as (oi_id i) (item_key i) t) ∧
      (∀ id, (id, true) ∈ completed ∨ id ∈ ids → sent id t log)
  | Deleting ids | DeletingEach ids => ∀ id, id ∈ ids → sent id t log
  end.

Lemma known_grown id key t t' : grown t t' → known_as id key t → known_as id key t'.
Proof.
  intros [Hs Hr] [Hid Hk]. split; [lia|]. intros r Hin <-. destruct (Hr r Hin Hid) as (r0 & Hin0 & E & <-). by apply Hk.
Qed.

Lemma sent_grown id t t' log log' :
  grown t t' → (∀ k, k ∈ log_keys log → k ∈ log_keys log') → sent id t log → sent id t' log'.
Proof.
  intros [Hs Hr] Hlog [Hid Hk]. split; [lia|]. intros r Hin <-. destruct (Hr r Hin Hid) as (r0 & Hin0 & E & <-).
  by apply Hlog, Hk.
Qed.

Lemma delivery_ok_grown dl t t' log log' :
  grown t t' → (∀ k, k ∈ log_keys log → k ∈ log_keys log') → delivery_ok dl t log → delivery_ok dl t' log'.
Proof.
  intros Hg Hlog. destruct dl as [|q f c ids|ids|ids]; cbn; [done| |by intros Hok id Hin; eapply sent_grown, Hok..].
  intros [Hi Hids]. split; [intros i Hin; by eapply known_grown, Hi|]. intros id Hin. by eapply sent_grown, Hids.
Qed.

(** A key is in the outbox, or its alert was delivered. *)
Definition key_safe (k : string) t (w : World * list ActionPayload) : Prop := k ∈ row_keys t ∨ k ∈ log_keys w.2.

(** Deleting what was delivered loses no key. *)
Lemma delete_safe k ids w (s : Db) :
  (∀ id, id ∈ ids → sent id (sq_tables s) w.2) →
  key_safe k (sq_tables s) w → key_safe k (sq_tables (delete_outbox_items_batch ids s).2) w.
Proof.
  intros Hsent Hk. set (P := λ t, grown (sq_tables s) t ∧ key_safe k t w).
  enough (P (sq_tables (delete_outbox_items_batch ids s).2)) as [_ Hs] by exact Hs.
  destruct ids as [|id ids]; [by split; [apply grown_refl|]|].
  assert (preserves P (delete_outbox_items_batch (id :: ids))) as Hp; [|by apply Hp; split; [apply grown_refl|]].
  apply preserves_transaction. intros s1 Hs1.
  apply (for_each_inv (λ s, P (sq_tables s))); [|done]. intros chunk s2 Hchunk. apply preserves_execute.
  intros t u t' [[Hq Hr] Hkt] [= _ <-]. split; [split; [done|]|].
  - intros r [_ Hin]%list_elem_of_filter. by apply Hr.
  - destruct Hkt as [(r & -> & Hin)%list_elem_of_fmap|Hkt]; [|by right].
    destruct (decide (or_id r ∈ chunk)) as [Hc|Hc].
    + right. assert (or_id r ∈ id :: ids) as Hids.
      { rewrite <- (chunks_concat SQLITE_MAX_VARIABLES (id :: ids)) by (vm_compute; lia). 
        rewrite list_elem_of_In, in_concat. exists chunk. by rewrite <- !list_elem_of_In. }
      destruct (Hsent _ Hids) as [Hle Hrows]. destruct (Hr r Hin Hle) as (r0 & Hin0 & E & <-). by apply Hrows.
    + left. apply list_elem_of_fmap_2, list_elem_of_filter. by split.
Qed.

Lemma increment_safe k id w (s : Db) :
  key_safe k (sq_tables s) w → key_safe k (sq_tables (increment_outbox_retries id s).2) w.
Proof.
  intros Hk. revert s Hk. apply (preserves_execute (λ t, key_safe k t w)). intros t u t' Hk [= _ <-].
  destruct Hk as [Hk|Hk]; [left|by right]. unfold row_keys in *. cbn. rewrite <- list_fmap_compose.
  erewrite list_fmap_ext; [exact Hk|]. intros n r _. cbn. by case_decide.
Qed.

(** What a poll fetches is in the rows. *)
Lemma view_known i t : outbox_wf t → i ∈ view t → known_as (oi_id i) (item_key i) t.
Proof.
  intros Hwf Hi. pose proof (view_rows t Hwf) as Hv. apply list_elem_of_lookup in Hi as [n Hi].
  destruct (Forall2_lookup_r _ _ _ _ _ Hv Hi) as (r & Hr & _ & Eid & Ekey). apply list_elem_of_lookup_2 in Hr.
  pose proof (ow_ids t Hwf) as Hinc. pose proof (increasing_NoDup _ _ _ Hinc) as Hnd. split.
  - destruct Hinc as [_ Hle]. rewrite <- Eid. rewrite Forall_forall in Hle. by apply Hle.
  - intros r' Hr' E. assert (r' = r) as ->; [|done].
    apply list_elem_of_lookup in Hr as [x Hx]. apply list_elem_of_lookup in Hr' as [y Hy].
    assert (x = y) as ->; [|congruence]. eapply (NoDup_lookup _ _ _ (or_id r) Hnd); rewrite list_lookup_fmap; [by rewrite Hx|].
    rewrite Hy. cbn. congruence.
Qed.
End OnDatabase.

(** ** The steps of the task on the database *)

Section Steps.
Context `{AlloyPrimitives} `{TemplateEngine} `{DispatchEnv} `{DefaultHasher} `{SqliteChoices}.
Context `{SerdeLaws (list string)} `{Serde ActionConfig} `{SerdeLaws ActionPayload} `{Serde ThrottleState} `{Serde AggregationState}.
Context (d : gmap string ActionType) (config : OutboxConfig).

Notation Db := SqliteStateRepository.
Notation Outbox := (OutboxState (S := Db) (W := World * list ActionPayload)).
Notation step := (delivery_step (logged_execute d) config).
Notation tables o := (sq_tables (os_state o)).
Implicit Types (o : Outbox) (x y : Delivery * Outbox).

Lemma delivery_keeps P x y : service_keeps P → step x y → P (tables x.2) → P (tables y.2).
Proof.
  intros [_ _ Hg Hd Hi _ _ _] Hstep HP.
  assert (∀ A (m : eff Db PersistenceError A) o, preserves P m → P (tables o) → P (tables (on_state m o).2)) as Hon.
  { intros A m o Hm Ho. unfold on_state. specialize (Hm (os_state o) Ho). by destruct (m (os_state o)). }
  destruct Hstep as [o|x y Hstep]; cbn [snd] in *.
  - unfold poll. pose proof (Hon _ _ o (Hg (ob_batch_size config)) HP) as Ho. by destruct (on_state _ o) as [[[|i items]|e] o1].
  - destruct Hstep as [|l1 i l2 q c ids o2|r q f c ids o2| |ids o2|id ids o2|]; try exact HP; cbn [snd] in *.
    + unfold complete. by destruct (logged_execute d _ _).
    + unfold take_result. destruct r.2; [exact HP|]. by apply Hon.
    + unfold delete_batch. pose proof (Hon _ _ o2 (Hd ids) HP) as Ho. by destruct (on_state _ o2) as [[u|e] o3].
    + by apply Hon.
Qed.

(** An execution that succeeds is in the history. *)
Lemma complete_log i o :
  let '((id, ok), o') := complete (logged_execute d) i o in
  id = oi_id i ∧ os_state o' = os_state o ∧ (os_world o').2 = if ok then (os_world o).2 ++ [oi_payload i] else (os_world o).2.
Proof. unfold complete, logged_execute. by destruct (dispatcher_execute d (oi_payload i) (os_world o).1) as [[u|e] w]. Qed.

Notation safe k o := (key_safe k (tables o) (os_world o)).
Notation holds dl o := (delivery_ok dl (tables o) (os_world o).2).

Lemma log_grows (dl : Delivery) o o' :
  os_state o' = os_state o → (∀ k, k ∈ idempotency_key <$> (os_world o).2 → k ∈ idempotency_key <$> (os_world o').2) →
  (holds dl o → holds dl o') ∧ ∀ k, safe k o → safe k o'.
Proof.
  intros Es Hlog. split.
  - intros Hok. rewrite Es. eapply delivery_ok_grown; [apply grown_refl|exact Hlog|done].
  - intros k [Hk|Hk]; [left; by rewrite Es|right; by apply Hlog].
Qed.

Lemma completes_safe l1 i l2 q c ids o :
  holds (Executing q (l1 ++ i :: l2) c ids) o →
  let '(r, o') := complete (logged_execute d) i o in
  holds (Executing q (l1 ++ l2) (c ++ [r]) ids) o' ∧ ∀ k, safe k o → safe k o'.
Proof.
  intros Hok. pose proof (complete_log i o) as Hc. destruct (complete (logged_execute d) i o) as [[id ok] o'].
  destruct Hc as (-> & Es & Elog).
  assert (∀ k, k ∈ idempotency_key <$> (os_world o).2 → k ∈ idempotency_key <$> (os_world o').2) as Hsub.
  { intros k Hk. rewrite Elog. destruct ok; [|done]. rewrite fmap_app. apply elem_of_app. by left. }
  destruct (log_grows (Executing q (l1 ++ i :: l2) c ids) o o' Es Hsub) as [Hok' Hsafe]. split; [|done].
  destruct (Hok' Hok) as [Hi Hids]. split.
  - intros j Hj. apply Hi. set_solver.
  - intros id [[Hin|[= -> <-]%list_elem_of_singleton]%elem_of_app|Hin]; [by apply Hids; left| |by apply Hids; right].
    destruct (Hi i) as [Hle Hk]; [set_solver|]. split; [done|]. intros r Hr E. rewrite (Hk r Hr E), Elog, fmap_app.
    apply elem_of_app. right. by left.
Qed.

Lemma takes_safe r q f c ids o :
  holds (Executing q f (r :: c) ids) o → let '(ids', o') := take_result r ids o in
  holds (Executing q f c ids') o' ∧ ∀ k, safe k o → safe k o'.
Proof.
  intros [Hi Hids]. destruct r as [id ok]. unfold take_result. cbn [fst snd]. destruct ok.
  - split; [|done]. split; [done|]. intros id' [Hin|[Hin| ->%list_elem_of_singleton]%elem_of_app].
    + apply Hids. left. by right.
    + apply Hids. by right.
    + apply Hids. left. by left.
  - unfold on_state. pose proof (sk_increment _ (grown_service (tables o)) id (os_state o) (grown_refl _)) as Hg.
    pose proof (λ k, increment_safe k id (os_world o) (os_state o)) as Hk.
    destruct (increment_outbox_retries id (os_state o)) as [r s]. cbn [snd] in *. split; [|exact Hk].
    apply (delivery_ok_grown _ (tables o) _ (os_world o).2 _ Hg); [done|]. split; [done|].
    intros id' [Hin|Hin]; apply Hids; [left; by right|by right].
Qed.

Lemma deletes_safe ids o r o' (dl : Delivery) :
  (∀ id, id ∈ ids → sent id (tables o) (os_world o).2) → holds dl o →
  on_state (delete_outbox_items_batch ids) o = (r, o') → holds dl o' ∧ ∀ k, safe k o → safe k o'.
Proof.
  intros Hsent Hok E. pose proof (sk_delete _ (grown_service (tables o)) ids (os_state o) (grown_refl _)) as Hg.
  pose proof (λ k, delete_safe k ids (os_world o) (os_state o) Hsent) as Hk. unfold on_state in E.
  destruct (delete_outbox_items_batch ids (os_state o)) as [r1 s]. injection E as _ <-. cbn in *.
  split; [|exact Hk]. by eapply delivery_ok_grown.
Qed.

Lemma poll_safe o :
  (0 ≤ ob_batch_size config)%Z → outbox_wf (tables o) →
  holds (poll config o).1 (poll config o).2 ∧ ∀ k, safe k o → safe k (poll config o).2.
Proof.
  intros Hb Hwf. unfold poll, on_state.
  destruct (get_pending_outbox (ob_batch_size config) (os_state o)) as [r s] eqn:E.
  destruct (pending_take _ _ _ _ Hwf E) as [Et Hl]. assert (∀ k, safe k o → safe k (mkOutboxState s (os_world o))) as Hs.
  { intros k Hk. cbn. by rewrite Et. }
  destruct r as [[|i items]|e]; cbn [fst snd]; [done| |done]. split; [|exact Hs]. cbn. rewrite Et, app_nil_r. split.
  - intros j Hj. apply view_known; [done|]. rewrite (Hl _ eq_refl Hb) in Hj. eapply elem_of_sublist; [exact Hj|apply sublist_take].
  - intros id [Hin|Hin]; by apply elem_of_nil in Hin.
Qed.

Lemma batch_safe x y :
  batch_step (logged_execute d) config x y → holds x.1 x.2 → holds y.1 y.2 ∧ ∀ k, safe k x.2 → safe k y.2.
Proof.
  intros [i q f c ids o|l1 i l2 q c ids o|r q f c ids o|ids o|ids o|id ids o|o] Hok; cbn [fst snd] in *.
  - split; [|done]. destruct Hok as [Hi Hids]. split; [|done]. intros j Hj. apply Hi. set_solver.
  - pose proof (completes_safe l1 i l2 q c ids o Hok) as Hc. by destruct (complete _ i o).
  - pose proof (takes_safe r q f c ids o Hok) as Hc. by destruct (take_result r ids o).
  - split; [|done]. destruct Hok as [_ Hids]. destruct ids; [done|]. intros id Hin. apply Hids. by right.
  - unfold delete_batch. destruct (on_state _ o) as [r o'] eqn:E.
    destruct (deletes_safe ids o r o' (DeletingEach ids) Hok Hok E) as [Hok' Hk]. by destruct r.
  - destruct (on_state _ o) as [r o'] eqn:E. eapply (deletes_safe [id] o r o' (DeletingEach ids)); [| |exact E].
    + intros id' ->%list_elem_of_singleton. apply Hok. by left.
    + intros id' Hin. apply Hok. by right.
  - done.
Qed.

Lemma delivery_step_safe x y :
  (0 ≤ ob_batch_size config)%Z → outbox_wf (tables x.2) → step x y → holds x.1 x.2 →
  holds y.1 y.2 ∧ ∀ k, safe k x.2 → safe k y.2.
Proof. intros Hb Hwf Hstep Hok. destruct Hstep as [o|x y Hstep]; [exact (poll_safe o Hb Hwf)|by eapply batch_safe]. Qed.
End Steps.

(** ** A concrete batch *)

Import MonitorMatch.Demo Interfaces.InterfacesDemo OutboxProcessor.OutboxDemo.

Module DeliveryDemo.
Notation Task := (Delivery * OutboxState (S := MemStore) (W := list string))%type.
Notation step := (batch_step demo_execute demo_config).

(** The third item completes first, then the first; the second is refused. *)
Definition items : list OutboxItem := os_outbox demo_state.
Definition item (n : nat) : OutboxItem := nth n items (mkOutboxItem 0 "" (Single (demo_match 0)) 0).
Definition fetched : Task := (Executing items [] [] [], demo_state).
Definition all_started : Task := (Executing [] items [] [], demo_state).
Definition completed (n : nat) (rest : list OutboxItem) (x : Task) : Task :=
  match x.1 with
  | Executing q _ c ids => let '(r, o) := complete demo_execute (item n) x.2 in (Executing q rest (c ++ [r]) ids, o)
  | _ => x
  end.
Definition all_completed : Task :=
  completed 1 [] (completed 0 [item 1] (completed 2 [item 0; item 1] all_started)).
Definition taken (x : Task) : Task :=
  match x.1 with
  | Executing q f (r :: c) ids => let '(ids, o) := take_result r ids x.2 in (Executing q f c ids, o)
  | _ => x
  end.
Definition all_taken : Task := taken (taken (taken all_completed)).
Definition finished : Task := delete_batch [3; 1]%Z all_taken.2.

Lemma demo_batch : nsteps step 11 fetched finished.
Proof.
  eapply nsteps_l; [apply (batch_starts _ _ (item 0)); vm_compute; lia|].
  eapply nsteps_l; [apply (batch_starts _ _ (item 1)); vm_compute; lia|].
  eapply nsteps_l; [apply (batch_starts _ _ (item 2)); vm_compute; lia|].
  eapply nsteps_l; [apply (batch_completes _ _ [item 0; item 1] (item 2) [])|].
  eapply nsteps_l; [apply (batch_completes _ _ [] (item 0) [item 1])|].
  eapply nsteps_l; [apply (batch_completes _ _ [] (item 1) [])|].
  eapply nsteps_l; [apply batch_takes|]. eapply nsteps_l; [apply batch_takes|]. eapply nsteps_l; [apply batch_takes|].
  eapply nsteps_l; [apply batch_ends|].
  eapply nsteps_l; [apply (batch_deletes _ _ [3; 1]%Z all_taken.2)|]. constructor.
Qed.
End DeliveryDemo.
Import DeliveryDemo.

Lemma batch_linearizes_witness :
  ∃ order count, order ≡ₚ items ∧ process_in_order demo_execute order demo_state = (Ok count, finished.2) ∧
    os_world finished.2 = [mm_id (demo_match 9); mm_id (demo_match 7)] ∧
    (λ i, (oi_id i, oi_retries i)) <$> os_outbox finished.2 = [(2, 1)]%Z.
Proof.
  destruct (batch_linearizes demo_execute demo_config items 11 demo_state finished demo_batch) as (_ & _ & Hend).
  destruct (Hend ltac:(vm_compute; reflexivity)) as (order & count & Hperm & Hp). exists order, count.
  split; [exact Hperm|]. split; [exact Hp|]. split; vm_compute; reflexivity.
Defined.
