(* ===== verification/Tasks.v ===== *)
(** * The tasks and their bounded channels ([src/supervisor/mod.rs], [Supervisor::run])

    The ingestor, the block processor, the filtering engine and the alert manager's
    loop at the points where they wait: each turn of a task goes from one [await] to
    the next, a send waits while its channel is full, and the tasks are aborted and
    started again at any moment, with nothing left but the database. *)
From S2P Require Import Prelude Models MonitorMatch Abi Conversions RhaiScript Registry Manager Filtering Interfaces Providers AlertManager OutboxProcessor BlockProcessor Ingestor HttpPool Dispatch Pipeline.

Section Tasks.
Context `{AlloyPrimitives} `{DynAbi} `{RhaiEngine} `{TemplateEngine} `{DispatchEnv} `{DefaultHasher} `{CompletionOrder}.
Context {B S : Type} `{BlockStateRepository B} `{OutboxRepository S} `{KeyValueStore S}.
Context `{Serde ThrottleState} `{Serde AggregationState}.
Context (cfg : AppConfig) (notification_channel_capacity : Z).
Context (outbox_config : OutboxConfig) (actions : gmap string ActionConfig) (d : gmap string ActionType).

(** ** The channels *)

Definition raw_capacity : nat := 2 * Z.to_nat (cfg_block_chunk_size cfg).
Definition correlated_capacity : nat := 2 * Z.to_nat (cfg_block_chunk_size cfg).
Definition matches_capacity : nat := Z.to_nat notification_channel_capacity.

(** [mpsc::channel(0)] panics. *)
Definition channels_open : bool :=
  (0 <? raw_capacity)%nat && (0 <? correlated_capacity)%nat && (0 <? matches_capacity)%nat.

(** A message into a channel: [None] while it is full. *)
Definition offer {A} (capacity : nat) (a : A) (channel : list A) : option (list A) :=
  if (length channel <? capacity)%nat then Some (channel ++ [a]) else None.

(** ** Where the tasks wait *)

(** Before a cycle, in the delay after it, at the head of the [while] loop, in the loop
    over the blocks of a chunk before the check of the cancellation, and in [send], which
    the cancellation does not interrupt. *)
Inductive IngestorTask :=
| IngCycle
| IngWait
| IngFetch (needs_receipts : bool) (from_block safe : Z)
| IngSend (needs_receipts : bool) (batch : list BlockData) (to_block safe : Z)
| IngOffer (needs_receipts : bool) (block_data : BlockData) (batch : list BlockData) (to_block safe : Z)
| IngStopped.

(** In [recv] with its buffer, or in the loop of [process_and_dispatch]; [final] after
    the cancellation. *)
Inductive ProcessorTask :=
| PrReceive (block_buffer : list BlockData)
| PrSend (blocks : list CorrelatedBlockData) (last_processed : option Z) (final : bool)
| PrStopped.

Inductive FilterTask :=
| FtReceive
| FtSend (all_matches : list MonitorMatch)
| FtStopped.

(** [tk_boot], [tk_evaluated], [tk_before], [tk_received] and [tk_found] are history: the
    progress recorded when the tasks started, the numbers of the blocks the engine has
    taken since, those handed to it before, the blocks sent by the ingestor and the
    matches found. *)
Record Tasks := mkTasks {
  tk_ingestor : IngestorTask;
  tk_next_block : Z;
  tk_calibrator : BlockTimeCalibrator;
  tk_raw : list BlockData;
  tk_processor : ProcessorTask;
  tk_correlated : list CorrelatedBlockData;
  tk_filter : FilterTask;
  tk_matches : list (list MonitorMatch);
  tk_progress : B;
  tk_alerts : AlertManager (S := S);
  tk_world : World * list ActionPayload;
  tk_manager : MonitorManager;
  tk_cancelled : bool;
  tk_boot : Z;
  tk_evaluated : list Z;
  tk_before : list Z;
  tk_received : list BlockData;
  tk_found : list MonitorMatch
}.
Implicit Types (t : Tasks).

Definition set_ingestor i t : Tasks :=
  mkTasks i (tk_next_block t) (tk_calibrator t) (tk_raw t) (tk_processor t) (tk_correlated t) (tk_filter t) (tk_matches t)
    (tk_progress t) (tk_alerts t) (tk_world t) (tk_manager t) (tk_cancelled t) (tk_boot t) (tk_evaluated t) (tk_before t)
    (tk_received t) (tk_found t).
Definition set_processor p db t : Tasks :=
  mkTasks (tk_ingestor t) (tk_next_block t) (tk_calibrator t) (tk_raw t) p (tk_correlated t) (tk_filter t) (tk_matches t)
    db (tk_alerts t) (tk_world t) (tk_manager t) (tk_cancelled t) (tk_boot t) (tk_evaluated t) (tk_before t)
    (tk_received t) (tk_found t).
Definition set_filter f matches t : Tasks :=
  mkTasks (tk_ingestor t) (tk_next_block t) (tk_calibrator t) (tk_raw t) (tk_processor t) (tk_correlated t) f matches
    (tk_progress t) (tk_alerts t) (tk_world t) (tk_manager t) (tk_cancelled t) (tk_boot t) (tk_evaluated t) (tk_before t)
    (tk_received t) (tk_found t).
Definition set_alerts a w matches t : Tasks :=
  mkTasks (tk_ingestor t) (tk_next_block t) (tk_calibrator t) (tk_raw t) (tk_processor t) (tk_correlated t) (tk_filter t) matches
    (tk_progress t) a w (tk_manager t) (tk_cancelled t) (tk_boot t) (tk_evaluated t) (tk_before t) (tk_received t) (tk_found t).
Definition set_control mgr cancelled t : Tasks :=
  mkTasks (tk_ingestor t) (tk_next_block t) (tk_calibrator t) (tk_raw t) (tk_processor t) (tk_correlated t) (tk_filter t)
    (tk_matches t) (tk_progress t) (tk_alerts t) (tk_world t) mgr cancelled (tk_boot t) (tk_evaluated t) (tk_before t)
    (tk_received t) (tk_found t).

(** ** The ingestor ([BlockIngestor::run]) *)

(** The cycle up to its [while] loop; the panic of the calibrator ends the task, which
    makes the supervisor cancel the others. *)
Definition begin_cycle (ds : DataSource) (now : Z) t : Tasks :=
  match (get_last_processed_block (cfg_network_id cfg) (tk_progress t)).1, get_current_block_number ds with
  | Ok last_processed_block, Ok current_block =>
      match observe (tk_calibrator t) now current_block with
      | None => set_control (tk_manager t) true (set_ingestor IngStopped t)
      | Some c =>
          let from_block := start_block last_processed_block current_block (tk_next_block t) in
          let safe := safe_to_block cfg current_block in
          let i := if (current_block <? cfg_confirmation_blocks cfg)%Z || (safe <? from_block)%Z then IngWait
                   else IngFetch (requires_receipt_data (engine_of (tk_manager t))) from_block safe in
          mkTasks i (tk_next_block t) c (tk_raw t) (tk_processor t) (tk_correlated t) (tk_filter t) (tk_matches t)
            (tk_progress t) (tk_alerts t) (tk_world t) (tk_manager t) (tk_cancelled t) (tk_boot t) (tk_evaluated t)
            (tk_before t) (tk_received t) (tk_found t)
      end
  | _, _ => set_ingestor IngWait t
  end.

(** A block into the channel of the processor, and the high-water mark after it. *)
Definition send_raw needs (block_data : BlockData) batch to_block safe t : option Tasks :=
  raw ← offer raw_capacity block_data (tk_raw t);
  Some (mkTasks (IngSend needs batch to_block safe) (u64_add (block_number (bd_block block_data)) 1) (tk_calibrator t)
    raw (tk_processor t) (tk_correlated t) (tk_filter t) (tk_matches t) (tk_progress t) (tk_alerts t) (tk_world t)
    (tk_manager t) (tk_cancelled t) (tk_boot t) (tk_evaluated t) (tk_before t) (tk_received t ++ [block_data]) (tk_found t)).

Definition ingestor_turn (ds : DataSource) (now : Z) t : option Tasks :=
  match tk_ingestor t with
  | IngCycle => Some (begin_cycle ds now t)
  | IngWait => Some (set_ingestor (if tk_cancelled t then IngStopped else IngCycle) t)
  | IngFetch needs from_block safe =>
      if (safe <? from_block)%Z || tk_cancelled t then Some (set_ingestor IngWait t)
      else
        let to_block := Z.min (u64_add from_block (cfg_block_chunk_size cfg)) safe in
        match fetch_blocks_concurrent ds needs from_block to_block
                (mkFetchConfig (Z.to_nat (cfg_concurrency cfg)) (cfg_log_chunk_size cfg)) with
        | Some (Ok batch) => Some (set_ingestor (IngSend needs batch to_block safe) t)
        | Some (Err _) => Some (set_ingestor IngWait t)
        | None => None
        end
  | IngSend needs [] to_block safe => Some (set_ingestor (IngFetch needs (u64_add to_block 1) safe) t)
  | IngSend needs (block_data :: batch) to_block safe =>
      Some (set_ingestor (if tk_cancelled t then IngWait else IngOffer needs block_data batch to_block safe) t)
  | IngOffer needs block_data batch to_block safe =>
      match tk_processor t with
      | PrStopped => Some (set_ingestor IngWait t)
      | _ => send_raw needs block_data batch to_block safe t
      end
  | IngStopped => None
  end.

(** ** The block processor ([BlockProcessor::run]) *)

(** The end of [process_and_dispatch]: the progress is recorded when something was sent. *)
Definition record_progress (last_processed : option Z) (db : B) : B :=
  match last_processed with
  | Some n => (set_last_processed_block (cfg_network_id cfg) n db).2
  | None => db
  end.

Definition after_dispatch (final : bool) : ProcessorTask := if final then PrStopped else PrReceive [].

Definition processor_turn t : option Tasks :=
  let correlate blocks := process_block (load (tk_manager t)) <$> blocks in
  match tk_processor t with
  | PrReceive block_buffer =>
      if tk_cancelled t then
        Some (set_processor (match block_buffer with [] => PrStopped | _ => PrSend (correlate block_buffer) None true end)
                (tk_progress t) t)
      else
        match tk_raw t with
        | [] => None
        | block_data :: raw =>
            let block_buffer := block_buffer ++ [block_data] in
            let p := if (cfg_block_chunk_size cfg <=? Z.of_nat (length block_buffer))%Z
                     then PrSend (correlate block_buffer) None false else PrReceive block_buffer in
            Some (mkTasks (tk_ingestor t) (tk_next_block t) (tk_calibrator t) raw p (tk_correlated t) (tk_filter t) (tk_matches t)
              (tk_progress t) (tk_alerts t) (tk_world t) (tk_manager t) (tk_cancelled t) (tk_boot t) (tk_evaluated t)
              (tk_before t) (tk_received t) (tk_found t))
        end
  | PrSend (correlated_block :: blocks) last_processed final =>
      match tk_filter t with
      | FtStopped => Some (set_processor (after_dispatch final) (tk_progress t) t)
      | _ =>
          correlated ← offer correlated_capacity correlated_block (tk_correlated t);
          Some (mkTasks (tk_ingestor t) (tk_next_block t) (tk_calibrator t) (tk_raw t)
            (PrSend blocks (Some (cb_block_number correlated_block)) final) correlated (tk_filter t) (tk_matches t)
            (tk_progress t) (tk_alerts t) (tk_world t) (tk_manager t) (tk_cancelled t) (tk_boot t) (tk_evaluated t)
            (tk_before t) (tk_received t) (tk_found t))
      end
  | PrSend [] last_processed final =>
      Some (set_processor (after_dispatch final) (record_progress last_processed (tk_progress t)) t)
  | PrStopped => None
  end.

(** ** The filtering engine and the alert manager's loop *)

(** [FilteringEngine::run]: the loop ends when the processor is gone and its channel empty. *)
Definition filter_turn t : option Tasks :=
  match tk_filter t with
  | FtReceive =>
      match tk_correlated t with
      | [] => match tk_processor t with PrStopped => Some (set_filter FtStopped (tk_matches t) t) | _ => None end
      | block :: correlated =>
          let all_matches := block_matches (engine_of (tk_manager t)) block in
          Some (mkTasks (tk_ingestor t) (tk_next_block t) (tk_calibrator t) (tk_raw t) (tk_processor t) correlated
            (match all_matches with [] => FtReceive | _ => FtSend all_matches end) (tk_matches t)
            (tk_progress t) (tk_alerts t) (tk_world t) (tk_manager t) (tk_cancelled t) (tk_boot t)
            (tk_evaluated t ++ [cb_block_number block]) (tk_before t) (tk_received t) (tk_found t ++ all_matches))
      end
  | FtSend all_matches =>
      matches ← offer matches_capacity all_matches (tk_matches t);
      Some (set_filter FtReceive matches t)
  | FtStopped => None
  end.

(** The alert manager's task takes a message; an error is only logged. *)
Definition alert_turn (clock : nat → DateTime) t : option Tasks :=
  match tk_matches t with
  | [] => None
  | l :: rest =>
      Some (set_alerts (process_matches_batch actions (stamped clock 0 l) (tk_alerts t)).2 (tk_world t) rest t)
  end.

(** ** All of them *)

(** What the alert manager's scan and the outbox processor do beside the channels. *)
Definition scan_turn (force : bool) (now : DateTime) t : Tasks :=
  set_alerts (check_and_dispatch_expired_windows actions force now (tk_alerts t)).2 (tk_world t) (tk_matches t) t.
Definition poll_turn t : Tasks :=
  let o := (process_batch (logged_execute d) outbox_config (mkOutboxState (am_state_repository (tk_alerts t)) (tk_world t))).2 in
  let a := tk_alerts t in
  set_alerts (mkAlertManager (os_state o) (am_generated_alerts a) (am_throttle_states a) (am_aggregation_states a))
    (os_world o) (tk_matches t) t.

(** The blocks handed to the engine in this life: taken, and waiting in the channel. *)
Definition handed t : list Z := tk_evaluated t ++ (cb_block_number <$> tk_correlated t).

(** The tasks of a new process on the database. *)
Definition spawn (a : AlertManager (S := S)) (mgr : MonitorManager) (boot : Z) (before : list Z) (db : B) w : Tasks :=
  mkTasks IngCycle 0 (BlockTimeCalibrator_new (cfg_expected_block_time_ms cfg)) [] (PrReceive []) [] FtReceive []
    db a w mgr false boot [] before [] [].

(** The turns of the block processor, the engine and the alert manager. *)
Inductive internal_turn t : Tasks → Prop :=
| turn_processor t' : processor_turn t = Some t' → internal_turn t t'
| turn_filter t' : filter_turn t = Some t' → internal_turn t t'
| turn_alert clock t' : alert_turn clock t = Some t' → internal_turn t t'.

(** Everything that can happen while the process lives; [node] are the data sources the
    ingestor can meet. *)
Inductive task_step (node : DataSource → Prop) t : Tasks → Prop :=
| task_internal t' : internal_turn t t' → task_step node t t'
| task_ingest ds now t' : node ds → ingestor_turn ds now t = Some t' → task_step node t t'
| task_scan force now : task_step node t (scan_turn force now t)
| task_poll : task_step node t (poll_turn t)
| task_reload monitors : task_step node t (set_control (update (tk_manager t) monitors) (tk_cancelled t) t)
| task_cancel : task_step node t (set_control (tk_manager t) true t).
End Tasks.

(** ** No block is skipped *)

Section NoSkip.
Context `{AlloyPrimitives} `{DynAbi} `{RhaiEngine} `{TemplateEngine} `{DispatchEnv} `{DefaultHasher} `{CompletionOrder}.
Context {B S : Type} `{BlockStateLaws B} `{OutboxRepository S} `{KeyValueStore S}.
Context `{Serde ThrottleState} `{Serde AggregationState}.
Context (cfg : AppConfig) (notification_channel_capacity : Z).
Context (outbox_config : OutboxConfig) (actions : gmap string ActionConfig) (d : gmap string ActionType).
Implicit Types (t : Tasks (B := B) (S := S)).

Notation net := (cfg_network_id cfg).
Notation chunk := (cfg_block_chunk_size cfg).

(** A node whose blocks have the numbers asked for, and whose head stays clear of the
    end of the machine integers. *)
Definition honest_node (ds : DataSource) : Prop :=
  honest ds ∧ ∀ cur, get_current_block_number ds = Ok cur → (0 ≤ cur)%Z ∧ (cur + 1 + chunk ≤ u64_max)%Z.

(** The life of the process, and its end at any moment: only the database is left, and
    the next process goes on from the progress it finds. *)
Inductive life_step t : Tasks → Prop :=
| life_task t' :
    task_step cfg notification_channel_capacity outbox_config actions d honest_node t t' → life_step t t'
| life_restart a mgr p w :
    last_block (tk_progress t) net = Some p →
    life_step t (spawn cfg a mgr p (tk_before t ++ handed t) (tk_progress t) w).

(** The numbers of the blocks the ingestor has sent in this life, from the first handed
    to the engine to the last in the channel of the processor. *)
Definition pending t : list Z :=
  match tk_processor t with
  | PrReceive block_buffer => bd_number <$> block_buffer
  | PrSend blocks _ _ => cb_block_number <$> blocks
  | PrStopped => []
  end.
Definition line t : list Z := handed t ++ pending t ++ (bd_number <$> tk_raw t).
Definition next_in_line t : Z := (tk_boot t + 1 + Z.of_nat (length (line t)))%Z.

Record in_line (p0 : Z) t : Prop := {
  il_boot : (0 ≤ p0 ≤ tk_boot t)%Z;
  il_line : line t = seqZ (tk_boot t + 1) (Z.of_nat (length (line t)));
  il_next : Z.max (tk_boot t + 1) (tk_next_block t) = next_in_line t;
  il_bound : (next_in_line t ≤ u64_max)%Z;
  il_progress : ∃ p, last_block (tk_progress t) net = Some p ∧
    (tk_boot t ≤ p ≤ tk_boot t + Z.of_nat (length (handed t)))%Z;
  il_ingestor :
    match tk_ingestor t with
    | IngFetch _ from_block safe => from_block = next_in_line t ∧ (safe + 1 + chunk ≤ u64_max)%Z
    | IngSend _ batch to_block safe =>
        bd_number <$> batch = seqZ (next_in_line t) (to_block + 1 - next_in_line t) ∧
        (next_in_line t ≤ to_block + 1)%Z ∧ (to_block ≤ safe)%Z ∧ (safe + 1 + chunk ≤ u64_max)%Z
    | IngOffer _ block_data batch to_block safe =>
        bd_number <$> (block_data :: batch) = seqZ (next_in_line t) (to_block + 1 - next_in_line t) ∧
        (next_in_line t ≤ to_block + 1)%Z ∧ (to_block ≤ safe)%Z ∧ (safe + 1 + chunk ≤ u64_max)%Z
    | _ => True
    end;
  il_sending :
    match tk_processor t with
    | PrSend _ (Some n) _ => n = (tk_boot t + Z.of_nat (length (handed t)))%Z
    | _ => True
    end;
  il_filter : tk_filter t = FtStopped → tk_processor t = PrStopped;
  il_before n : (p0 < n ≤ tk_boot t)%Z → n ∈ tk_before t
}.
Lemma next_in_line_same t t' : tk_boot t' = tk_boot t → line t' = line t → next_in_line t' = next_in_line t.
Proof. unfold next_in_line. by intros -> ->. Qed.

(** A turn that moves blocks along the line. *)
Lemma in_line_moved p0 t t' :
  in_line p0 t → tk_boot t' = tk_boot t → tk_before t' = tk_before t → line t' = line t → tk_next_block t' = tk_next_block t →
  (tk_ingestor t' = tk_ingestor t ∨ tk_ingestor t' = IngWait ∨ tk_ingestor t' = IngCycle ∨ tk_ingestor t' = IngStopped) →
  (∃ p, last_block (tk_progress t') net = Some p ∧ tk_boot t' ≤ p ≤ tk_boot t' + Z.of_nat (length (handed t')))%Z →
  match tk_processor t' with PrSend _ (Some n) _ => n = (tk_boot t' + Z.of_nat (length (handed t')))%Z | _ => True end →
  (tk_filter t' = FtStopped → tk_processor t' = PrStopped) →
  in_line p0 t'.
Proof.
  intros [Hb Hl Hn Hbd _ Hi _ _ Hbef] Eb Ebe El En Ei Hp Hs Hf.
  pose proof (next_in_line_same t t' Eb El) as Enl. rewrite Eb in Hp, Hs.
  split; rewrite ?Enl, ?Eb, ?El, ?En, ?Ebe; try assumption.
  destruct Ei as [Ei|[Ei|[Ei|Ei]]]; by rewrite Ei.
Qed.

(** The block sent next is the one after those handed. *)
Lemma next_handed p0 t c blocks last final :
  in_line p0 t → tk_processor t = PrSend (c :: blocks) last final →
  cb_block_number c = (tk_boot t + Z.of_nat (length (handed t)) + 1)%Z.
Proof.
  intros Hin Ep. pose proof (il_line _ _ Hin) as Hl.
  assert (line t !! length (handed t) = Some (cb_block_number c)) as Hc.
  { unfold line, pending. rewrite Ep, lookup_app_r by done. by rewrite Nat.sub_diag. }
  rewrite Hl in Hc. apply lookup_seqZ in Hc as [-> _]. lia.
Qed.

Lemma pending_correlated mgr (blocks : list BlockData) :
  cb_block_number <$> (process_block (load mgr) <$> blocks) = bd_number <$> blocks.
Proof. rewrite <- list_fmap_compose. by apply list_fmap_ext. Qed.

Lemma offer_Some {A} n (a : A) l l' : offer n a l = Some l' → l' = l ++ [a] ∧ length l < n.
Proof. unfold offer. destruct (Nat.ltb_spec (length l) n); [|done]. by intros [= <-]. Qed.

Lemma offer_open {A} n (a : A) : 0 < n → offer n a [] = Some [a].
Proof. unfold offer. destruct n; [lia|done]. Qed.

Lemma record_progress_view n (db : B) :
  last_block (record_progress cfg (Some n) db) net = Some n ∨ last_block (record_progress cfg (Some n) db) net = last_block db net.
Proof.
  cbn. destruct (set_last_processed_block net n db) as [r db'] eqn:E. apply set_last_block_view in E.
  destruct r; cbn; [left; apply E|right; by rewrite E].
Qed.

Lemma processor_in_line p0 t t' : processor_turn cfg t = Some t' → in_line p0 t → in_line p0 t'.
Proof.
  intros E Hin. pose proof (il_progress _ _ Hin) as Hp. pose proof (il_sending _ _ Hin) as Hs. pose proof (il_filter _ _ Hin) as Hf.
  unfold processor_turn in E. destruct (tk_processor t) as [buf|[|c blocks] lp final|] eqn:Ep; [| | |done].
  - destruct (tk_cancelled t).
    + injection E as <-. apply (in_line_moved p0 t); cbn; auto.
      * unfold line, pending, handed. rewrite Ep. cbn. destruct buf; [done|]. by rewrite pending_correlated.
      * by destruct buf.
      * intros Hst. by specialize (Hf Hst).
    + destruct (tk_raw t) as [|bd raw] eqn:Er; [done|]. injection E as <-. apply (in_line_moved p0 t); cbn; auto.
      * unfold line, pending, handed. cbn [tk_evaluated tk_correlated tk_processor tk_raw]. rewrite Ep, Er. f_equal.
        destruct (_ <=? _)%Z; rewrite ?pending_correlated, fmap_app, <- app_assoc; done.
      * by destruct (_ <=? _)%Z.
      * intros Hst. by specialize (Hf Hst).
  - injection E as <-. apply (in_line_moved p0 t); cbn; auto.
    + unfold line, pending, handed. rewrite Ep. cbn. by destruct final.
    + destruct lp as [n|]; [|done]. cbn in Hs. destruct Hp as (p & Hp & Hr).
      destruct (record_progress_view n (tk_progress t)) as [Hn|Hn]; rewrite Hn; [exists n; split; [done|]|by exists p].
      cbn. unfold handed in *. cbn in *. lia.
    + by destruct final.
    + intros Hst. by specialize (Hf Hst).
  - destruct (tk_filter t) eqn:Ef; [| |by specialize (Hf eq_refl)];
      (destruct (offer _ c (tk_correlated t)) as [correlated|] eqn:Eo; [|done]; cbn in E; injection E as <-;
       apply offer_Some in Eo as [-> _]).
    all: match goal with |- in_line _ ?t' => assert (handed t' = handed t ++ [cb_block_number c]) as Eh
      by (unfold handed; cbn; by rewrite fmap_app, app_assoc) end.
    all: apply (in_line_moved p0 t); rewrite ?Eh, ?length_app; cbn; auto; try done.
    all: try (destruct Hp as (p & Hp & Hr); exists p; split; [done|lia]).
    all: try (rewrite (next_handed p0 t c blocks lp final Hin Ep); lia).
    all: unfold line, pending, handed; rewrite Ep; cbn; rewrite fmap_app, <- !app_assoc; reflexivity.
Qed.

Lemma filter_in_line p0 t t' : filter_turn notification_channel_capacity t = Some t' → in_line p0 t → in_line p0 t'.
Proof.
  intros E Hin. pose proof (il_progress _ _ Hin) as Hp. pose proof (il_sending _ _ Hin) as Hs. pose proof (il_filter _ _ Hin) as Hf.
  unfold filter_turn in E. destruct (tk_filter t) as [|l|] eqn:Ef; [| |done].
  - destruct (tk_correlated t) as [|c rest] eqn:Ec.
    + destruct (tk_processor t) eqn:Ep; [done|done|]. injection E as <-. apply (in_line_moved p0 t); cbn; auto. by rewrite Ep.
    + injection E as <-.
      match goal with |- in_line _ ?t' => assert (handed t' = handed t) as Eh end.
      { unfold handed. cbn. rewrite Ec. cbn. by rewrite <- app_assoc. }
      match goal with |- in_line _ ?t' => assert (line t' = line t) as El by (unfold line; by rewrite Eh) end.
      apply (in_line_moved p0 t); rewrite ?Eh; [done..|by left|done|done|]. cbn. by destruct (block_matches _ c).
  - destruct (offer _ l (tk_matches t)) as [ms|]; [|done]. injection E as <-. by apply (in_line_moved p0 t); cbn; auto.
Qed.

Lemma seqZ_one (m : Z) : seqZ m 1 = [m].
Proof. by rewrite seqZ_cons, seqZ_nil by lia. Qed.

(** The two cases of a send to the processor. *)
Lemma stopped_or {A} (pr : ProcessorTask) (x y : A) :
  (pr = PrStopped ∧ match pr with PrStopped => x | _ => y end = x) ∨
  (pr ≠ PrStopped ∧ match pr with PrStopped => x | _ => y end = y).
Proof. destruct pr; [by right|by right|by left]. Qed.

(** The ingestor's turns. *)
Lemma begin_cycle_in_line p0 ds now t :
  (0 ≤ cfg_confirmation_blocks cfg)%Z → (0 ≤ chunk)%Z →
  honest_node ds → in_line p0 t → in_line p0 (begin_cycle cfg ds now t).
Proof.
  intros Hconf Hchunk [_ Hhead] Hin. pose proof Hin as [Hb Hl Hn Hbd (p & Hp & Hr) Hi Hs Hf Hbef].
  assert (∀ i cal mgr cn, (i = IngWait ∨ i = IngStopped) →
    in_line p0 (mkTasks i (tk_next_block t) cal (tk_raw t) (tk_processor t) (tk_correlated t) (tk_filter t) (tk_matches t)
      (tk_progress t) (tk_alerts t) (tk_world t) mgr cn (tk_boot t) (tk_evaluated t) (tk_before t) (tk_received t) (tk_found t))) as Hsame.
  { intros i cal mgr cn Hi'. apply (in_line_moved p0 t); cbn; auto; [tauto|by exists p]. }
  unfold begin_cycle. pose proof (get_last_block_view net (tk_progress t)) as Hv.
  destruct (get_last_processed_block net (tk_progress t)) as [[o|e] db']; cbn [fst]; [|by apply Hsame; left].
  destruct (Hv _ _ eq_refl) as [_ Ho]. rewrite (Ho o eq_refl), Hp.
  destruct (get_current_block_number ds) as [cur|e]; [|by apply Hsame; left]. specialize (Hhead cur eq_refl).
  destruct (observe _ _ _) as [cal|]; [|by apply Hsame; right].
  destruct ((cur <? cfg_confirmation_blocks cfg)%Z || _) eqn:Eg; [by apply Hsame; left|].
  set (t1 := mkTasks _ _ _ _ _ _ _ _ _ _ _ _ _ _ _ _ _ _).
  assert (next_in_line t1 = next_in_line t) as En1 by (by apply next_in_line_same).
  split; rewrite ?En1; try assumption; [by exists p|]. unfold t1. cbn.
  assert (length (handed t) ≤ length (line t)) by (unfold line; rewrite length_app; lia).
  unfold next_in_line in Hbd, Hn. split.
  - unfold start_block, next_in_line. rewrite u64_add_small by (unfold_width; lia). lia.
  - unfold safe_to_block, u64_saturating_sub. lia.
Qed.

Lemma ingestor_in_line p0 ds now t t' :
  (0 ≤ cfg_confirmation_blocks cfg)%Z → (0 ≤ chunk)%Z →
  honest_node ds → ingestor_turn cfg ds now t = Some t' → in_line p0 t → in_line p0 t'.
Proof.
  intros Hconf Hchunk Hds E Hin. pose proof Hin as [Hb Hl Hn Hbd Hp Hi Hs Hf Hbef].
  assert (∀ i, (i = IngWait ∨ i = IngCycle ∨ i = IngStopped) → in_line p0 (set_ingestor i t)) as Hsame.
  { intros i Hi'. apply (in_line_moved p0 t); cbn; auto. }
  unfold ingestor_turn in E. destruct (tk_ingestor t) as [| |needs from safe|needs [|bd batch] to safe|needs bd batch to safe|] eqn:Ei; [| | | | | |done].
  - injection E as <-. by apply begin_cycle_in_line.
  - injection E as <-. apply Hsame. destruct (tk_cancelled t); tauto.
  - destruct Hi as [-> Hmax]. destruct (_ || _) eqn:Eg; [injection E as <-; apply Hsame; tauto|].
    apply orb_false_iff in Eg as [Hle%Z.ltb_ge _]. unfold next_in_line in Hbd, Hle.
    rewrite (u64_add_small (next_in_line t)) in E by (unfold next_in_line; unfold_width; lia).
    destruct (fetch_blocks_concurrent _ _ _ _ _) as [[batch|e]|] eqn:Ef; [| |done]; injection E as <-; [|apply Hsame; tauto].
    apply fetch_blocks_concurrent_numbers in Ef; [|apply Hds].
    split; try assumption. cbn. change (next_in_line (set_ingestor _ t)) with (next_in_line t).
    unfold next_in_line in *. split_and!; [|lia..]. unfold block_range in Ef. rewrite Ef. f_equal. lia.
  - injection E as <-. destruct Hi as (Hnums & Hle & Hto & Hmax). split; try assumption. cbn.
    change (next_in_line (set_ingestor _ t)) with (next_in_line t).
    assert (to + 1 = next_in_line t)%Z as Hto1.
    { destruct (Z.le_gt_cases (to + 1) (next_in_line t)); [lia|]. rewrite seqZ_cons in Hnums by lia. discriminate Hnums. }
    rewrite u64_add_small by (unfold_width; unfold next_in_line in *; lia). lia.
  - injection E as <-. destruct (tk_cancelled t); [apply Hsame; tauto|]. by split.
  - destruct (stopped_or (tk_processor t) (Some (set_ingestor IngWait t)) (send_raw cfg needs bd batch to safe t))
      as [[_ Em]|[_ Em]]; rewrite Em in E; clear Em; [injection E as <-; apply Hsame; tauto|]. unfold send_raw in E.
    destruct (offer _ bd _) as [raw|] eqn:Eo; [|done]. apply offer_Some in Eo as [-> _]. cbn in E. injection E as <-.
    destruct Hi as (Hnums & Hle & Hto & Hmax).
    destruct (Z.lt_ge_cases (next_in_line t) (to + 1)); [|by rewrite seqZ_nil in Hnums by lia].
    rewrite seqZ_cons in Hnums by lia. injection Hnums as Hbd1 Hnums.
    set (t1 := mkTasks _ _ _ _ _ _ _ _ _ _ _ _ _ _ _ _ _ _).
    assert (line t1 = line t ++ [bd_number bd]) as El1.
    { unfold line, t1. cbn. rewrite fmap_app, !app_assoc. done. }
    assert (next_in_line t1 = next_in_line t + 1)%Z as En1.
    { unfold next_in_line. rewrite El1, length_app. cbn. lia. }
    split; rewrite ?En1, ?El1; try assumption; unfold t1; cbn [tk_boot tk_next_block tk_ingestor].
    + rewrite length_app. cbn [length]. rewrite Nat2Z.inj_add, seqZ_app by lia. rewrite <- Hl.
      change (Z.of_nat 1) with 1%Z. rewrite seqZ_one, Hbd1. reflexivity.
    + unfold bd_number in Hbd1. rewrite Hbd1. unfold next_in_line in *. rewrite u64_add_small by (unfold_width; lia). lia.
    + unfold next_in_line in *. lia.
    + split_and!; [|lia..]. etrans; [exact Hnums|]. f_equal; lia.
Qed.

Lemma task_in_line p0 t t' :
  (0 ≤ cfg_confirmation_blocks cfg)%Z → (0 ≤ chunk)%Z →
  task_step cfg notification_channel_capacity outbox_config actions d honest_node t t' → in_line p0 t → in_line p0 t'.
Proof.
  intros Hconf Hchunk Hstep Hin. pose proof Hin as [_ _ _ _ Hp _ Hs Hf _].
  destruct Hstep as [t' [t1 E|t1 E|clock t1 E]|ds now t' Hds E|force now| |ms|].
  - by eapply processor_in_line.
  - by eapply filter_in_line.
  - unfold alert_turn in E. destruct (tk_matches t); [done|]. injection E as <-. by apply (in_line_moved p0 t); cbn; auto.
  - by eapply ingestor_in_line.
  - by apply (in_line_moved p0 t); cbn; auto.
  - by apply (in_line_moved p0 t); cbn; auto.
  - by apply (in_line_moved p0 t); cbn; auto.
  - by apply (in_line_moved p0 t); cbn; auto.
Qed.

(** What was handed in this life, by number. *)
Lemma handed_elem p0 t n : in_line p0 t → (tk_boot t < n ≤ tk_boot t + Z.of_nat (length (handed t)))%Z → n ∈ handed t.
Proof.
  intros Hin Hn. pose proof (il_line _ _ Hin) as Hl. unfold line in Hl. rewrite length_app, Nat2Z.inj_add, seqZ_app in Hl by lia.
  apply app_inj_1 in Hl as [Hl _]; [rewrite Hl; apply elem_of_seqZ; lia|by rewrite length_seqZ, Nat2Z.id].
Qed.

Lemma life_in_line p0 t t' :
  (0 ≤ cfg_confirmation_blocks cfg)%Z → (0 ≤ chunk)%Z → life_step t t' → in_line p0 t → in_line p0 t'.
Proof.
  intros Hconf Hchunk [t1 Hstep|a mgr p w Hp] Hin; [by eapply task_in_line|].
  pose proof Hin as [Hb _ Hn Hbd (p' & Hp' & Hr) _ _ _ Hbef]. rewrite Hp in Hp'. injection Hp' as <-.
  assert (length (handed t) ≤ length (line t)) by (unfold line; rewrite length_app; lia).
  unfold next_in_line in *. split; unfold next_in_line, line, pending, handed; cbn; try done; try lia.
  - exists p. split; [done|lia].
  - intros n Hlt. apply elem_of_app. destruct (Z.le_gt_cases n (tk_boot t)); [left; apply Hbef; lia|right].
    apply (handed_elem p0); [exact Hin|lia].
Qed.

(** C2: No block is skipped, over all lives of the process.  However the tasks are scheduled,
    however the channels fill up, whatever requests and recordings fail, and whenever the
    process dies and is started again: the blocks of a life go through the tasks in
    order, without gap or repetition, from the block after the recorded progress; every
    block the recorded progress covers has been handed to the filtering engine in this
    life or an earlier one; and those of this life the engine has not taken yet are in
    its channel. *)
Theorem no_block_skipped t t' p0 :
  (0 ≤ p0 < u64_max)%Z → (0 ≤ cfg_confirmation_blocks cfg)%Z → (0 ≤ chunk)%Z →
  last_block (tk_progress t) net = Some p0 → (∃ a mgr db w, t = spawn cfg a mgr p0 [] db w) →
  rtc life_step t t' →
  line t' = seqZ (tk_boot t' + 1) (Z.of_nat (length (line t'))) ∧
  ∃ p, last_block (tk_progress t') net = Some p ∧ (p0 ≤ p)%Z ∧
    (∀ n, (p0 < n ≤ p)%Z → n ∈ tk_before t' ++ handed t') ∧
    (∀ n, (tk_boot t' < n ≤ p)%Z → n ∈ tk_evaluated t' ∨ n ∈ cb_block_number <$> tk_correlated t').
Proof.
  intros [Hp0 Hmax] Hconf Hchunk Hp (a & mgr & db & w & ->) Hrun.
  assert (in_line p0 t') as Hin.
  { assert (in_line p0 (spawn cfg a mgr p0 [] db w)) as Hin.
    { split; unfold next_in_line, line, pending, handed; cbn; try done; try lia. exists p0. split; [done|lia]. }
    clear Hp. revert Hin. induction Hrun as [t|t t1 t2 Hstep _ IH]; [done|]. intros Hin. apply IH. by eapply life_in_line. }
  split; [apply Hin|]. pose proof (il_boot _ _ Hin) as Hb. destruct (il_progress _ _ Hin) as (p & Hlast & Hr). exists p.
  split_and!; [done|lia| |]; intros n Hn.
  - apply elem_of_app. destruct (Z.le_gt_cases n (tk_boot t')); [left; apply (il_before _ _ Hin); lia|right].
    apply (handed_elem p0); [exact Hin|lia].
  - apply elem_of_app, (handed_elem p0); [exact Hin|lia].
Qed.
End NoSkip.

(** ** Bounded channels, and no deadlock *)

Section Channels.
Context `{AlloyPrimitives} `{DynAbi} `{RhaiEngine} `{TemplateEngine} `{DispatchEnv} `{DefaultHasher} `{CompletionOrder}.
Context {B S : Type} `{BlockStateRepository B} `{OutboxRepository S} `{KeyValueStore S}.
Context `{Serde ThrottleState} `{Serde AggregationState}.
Context (cfg : AppConfig) (notification_channel_capacity : Z).
Context (outbox_config : OutboxConfig) (actions : gmap string ActionConfig) (d : gmap string ActionType).
Implicit Types (t : Tasks (B := B) (S := S)).

Notation chunk := (cfg_block_chunk_size cfg).
Notation internal := (internal_turn cfg notification_channel_capacity actions).

(** What the tasks hold in memory. *)
Definition held_by_ingestor t : nat :=
  match tk_ingestor t with
  | IngSend _ batch _ _ => length batch
  | IngOffer _ block_data batch _ _ => length (block_data :: batch)
  | _ => 0
  end.
Definition held_by_processor t : nat :=
  match tk_processor t with PrReceive block_buffer => length block_buffer | PrSend blocks _ _ => length blocks | PrStopped => 0 end.

Record within t : Prop := {
  wi_ingestor : held_by_ingestor t ≤ Z.to_nat chunk + 1;
  wi_from : match tk_ingestor t with IngFetch _ from_block _ => (0 ≤ from_block)%Z | _ => True end;
  wi_raw : length (tk_raw t) ≤ raw_capacity cfg;
  wi_processor : held_by_processor t ≤ Nat.max 1 (Z.to_nat chunk);
  wi_buffer block_buffer : tk_processor t = PrReceive block_buffer →
    block_buffer = [] ∨ (Z.of_nat (length block_buffer) < chunk)%Z;
  wi_correlated : length (tk_correlated t) ≤ correlated_capacity cfg;
  wi_matches : length (tk_matches t) ≤ matches_capacity notification_channel_capacity;
  wi_final : tk_processor t = PrStopped ∨ (∃ blocks last, tk_processor t = PrSend blocks last true) → tk_cancelled t = true;
  wi_filter : tk_filter t = FtStopped → tk_processor t = PrStopped ∧ tk_correlated t = []
}.

Lemma spawn_within a mgr boot before db w : within (spawn cfg a mgr boot before db w).
Proof.
  split; unfold held_by_ingestor, held_by_processor; cbn; try lia; try done.
  - intros buf [= <-]. by left.
  - intros [?|(? & ? & ?)]; done.
Qed.

Lemma offer_length {A} n (a : A) l l' : offer n a l = Some l' → l' = l ++ [a] ∧ length l' ≤ n.
Proof. intros [-> Hn]%offer_Some. split; [done|]. rewrite length_app. cbn. lia. Qed.

Lemma processor_within t t' : processor_turn cfg t = Some t' → within t → within t'.
Proof.
  intros E Hin. pose proof Hin as [Hi Hfr Hr Hp Hb Hc Hm Hf Hft]. unfold processor_turn in E.
  destruct (tk_processor t) as [buf|[|c blocks] lp final|] eqn:Ep; [| | |done].
  - destruct (tk_cancelled t) eqn:Ecan.
    + injection E as <-. unfold held_by_processor in Hp. rewrite Ep in Hp.
      split; cbn; auto; unfold held_by_processor; cbn; try (by destruct buf); [|intros Hst; by destruct (Hft Hst)].
      destruct buf; cbn in *; [lia|]. rewrite !length_fmap. lia.
    + destruct (tk_raw t) as [|bd raw] eqn:Er; [done|]. injection E as <-. unfold held_by_processor in Hp. rewrite Ep in Hp.
      assert (length (buf ++ [bd]) ≤ Nat.max 1 (Z.to_nat chunk)) as Hlen.
      { rewrite length_app. destruct (Hb buf eq_refl) as [->|]; cbn; lia. }
      destruct (Z.leb_spec chunk (Z.of_nat (length (buf ++ [bd])))).
      * split; cbn; auto; unfold held_by_processor; cbn; try (cbn in Hr; lia); try done.
        -- by rewrite !length_fmap.
        -- intros [?|(? & ? & [=])]; done.
        -- intros Hst; by destruct (Hft Hst).
      * split; cbn; auto; unfold held_by_processor; cbn; try (cbn in Hr; lia); try done.
        -- intros buf' [= <-]. by right.
        -- intros [?|(? & ? & [=])]; done.
        -- intros Hst; by destruct (Hft Hst).
  - injection E as <-. split; cbn; auto; unfold held_by_processor; cbn.
    + destruct final; cbn; lia.
    + destruct final; cbn; [done|]. intros buf [= <-]. by left.
    + destruct final; cbn; [intros _; apply Hf; right; eauto|]. intros [?|(? & ? & ?)]; done.
    + intros Hst; by destruct (Hft Hst).
  - unfold held_by_processor in Hp. rewrite Ep in Hp. cbn in Hp.
    destruct (tk_filter t) eqn:Ef; [| |by destruct (Hft eq_refl)];
      (destruct (offer _ c (tk_correlated t)) as [correlated|] eqn:Eo; [|done]; cbn in E; injection E as <-;
       apply offer_length in Eo as [-> Hlen]; split; cbn; auto; unfold held_by_processor; cbn; try lia; try done;
       intros [?|(? & ? & [=])]; [done|]; subst; apply Hf; right; eauto).
Qed.

(** A turn that touches neither the processor nor its channels. *)
Lemma within_same t t' :
  within t → held_by_ingestor t' ≤ Z.to_nat chunk + 1 →
  match tk_ingestor t' with IngFetch _ from_block _ => (0 ≤ from_block)%Z | _ => True end → tk_raw t' = tk_raw t → tk_processor t' = tk_processor t →
  length (tk_correlated t') ≤ length (tk_correlated t) → length (tk_matches t') ≤ matches_capacity notification_channel_capacity →
  (tk_cancelled t = true → tk_cancelled t' = true) → (tk_filter t' = FtStopped → tk_processor t = PrStopped ∧ tk_correlated t' = []) → within t'.
Proof.
  intros [Hi _ Hr Hp Hb Hc Hm Hf Hft] Hi' Hfr' Er Ep Hc' Hm' Hcan Hft'. unfold held_by_processor in Hp.
  split; unfold held_by_processor; rewrite ?Er, ?Ep; auto; lia.
Qed.

Lemma filter_within t t' : filter_turn notification_channel_capacity t = Some t' → within t → within t'.
Proof.
  intros E Hin. pose proof Hin as [Hi Hfr _ _ _ _ Hm _ Hft]. unfold filter_turn in E.
  destruct (tk_filter t) as [|l|] eqn:Ef; [| |done].
  - destruct (tk_correlated t) as [|c rest] eqn:Ec.
    + destruct (tk_processor t) eqn:Ep; [done|done|]. injection E as <-. apply (within_same t); auto.
    + injection E as <-. apply (within_same t); cbn; auto; [by rewrite Ec; cbn; lia|].
      by destruct (block_matches _ c).
  - destruct (offer _ l (tk_matches t)) as [ms|] eqn:Eo; [|done]. injection E as <-. apply offer_length in Eo as [_ Hl].
    apply (within_same t); cbn; auto. done.
Qed.

Lemma alert_within clock t t' : alert_turn actions clock t = Some t' → within t → within t'.
Proof.
  intros E Hin. pose proof Hin as [Hi Hfr _ _ _ _ Hm _ Hft]. unfold alert_turn in E. destruct (tk_matches t) as [|l rest] eqn:El; [done|].
  injection E as <-. apply (within_same t); cbn; auto. cbn in Hm. lia.
Qed.

Lemma u64_add_nonneg a b : (0 ≤ u64_add a b)%Z.
Proof. by apply Z.mod_pos_bound. Qed.

Lemma ingestor_within ds now t t' : (0 ≤ chunk)%Z → honest ds → ingestor_turn cfg ds now t = Some t' → within t → within t'.
Proof.
  intros Hchunk Hds E Hin. pose proof Hin as [Hi Hfr Hr Hp Hb Hc Hm Hf Hft].
  assert (∀ i, held_by_ingestor (set_ingestor i t) ≤ Z.to_nat chunk + 1 →
    match i with IngFetch _ from_block _ => (0 ≤ from_block)%Z | _ => True end → within (set_ingestor i t)) as Hset.
  { intros i Hh Hfr'. by apply (within_same t); cbn; auto. }
  unfold held_by_ingestor in Hi, Hset.
  unfold ingestor_turn in E. destruct (tk_ingestor t) as [| |needs from safe|needs [|bd batch] to safe|needs bd batch to safe|] eqn:Ei; [| | | | | |done].
  - injection E as <-. unfold begin_cycle.
    destruct (get_last_processed_block _ _).1; [|apply Hset; [cbn; lia|done]]. destruct (get_current_block_number ds); [|apply Hset; [cbn; lia|done]].
    destruct (observe _ _ _); [|apply (within_same t); cbn; auto; unfold held_by_ingestor; cbn; lia].
    apply (within_same t); cbn; auto. unfold held_by_ingestor. cbn. destruct (_ || _); lia.
    + cbn. destruct (_ || _); [done|]. unfold start_block.
      match goal with |- context [match ?o with Some _ => _ | None => _ end] => destruct o as [n|] end;
        [pose proof (u64_add_nonneg n 1)|unfold u64_saturating_sub]; lia.
  - injection E as <-. by destruct (tk_cancelled t); apply Hset; cbn; try lia.
  - destruct (_ || _); [injection E as <-; apply Hset; [cbn; lia|done]|].
    destruct (fetch_blocks_concurrent _ _ _ _ _) as [[batch|e]|] eqn:Ef; [| |done]; injection E as <-; (apply Hset; [cbn|done]); [|lia].
    apply fetch_blocks_concurrent_numbers in Ef; [|done].
    apply (f_equal length) in Ef. unfold block_range in Ef. rewrite length_fmap, length_seqZ in Ef.
    pose proof (Z.le_min_l (u64_add from chunk) safe). assert (u64_add from chunk ≤ from + chunk)%Z; [|lia].
    apply Z.mod_le; [lia|done].
  - injection E as <-. apply Hset; [cbn; lia|apply u64_add_nonneg].
  - injection E as <-. by destruct (tk_cancelled t); apply Hset; cbn in *; try lia.
  - cbn in Hi.
    destruct (stopped_or (tk_processor t) (Some (set_ingestor IngWait t)) (send_raw cfg needs bd batch to safe t))
      as [[_ Em]|[_ Em]]; rewrite Em in E; clear Em; [injection E as <-; apply Hset; [cbn; lia|done]|]. unfold send_raw in E.
    destruct (offer _ bd _) as [raw|] eqn:Eo; [|done]. apply offer_length in Eo as [-> Hl]. cbn in E. injection E as <-.
    split; unfold held_by_ingestor; cbn; auto. lia.
Qed.

Lemma task_within t t' :
  (0 ≤ chunk)%Z → task_step cfg notification_channel_capacity outbox_config actions d honest t t' → within t → within t'.
Proof.
  intros Hchunk Hstep Hin. pose proof Hin as [Hi Hfr Hr Hp Hb Hc Hm Hf Hft].
  destruct Hstep as [t' [t1 E|t1 E|clock t1 E]|ds now t' Hds E|force now| |ms|].
  - by eapply processor_within.
  - by eapply filter_within.
  - by eapply alert_within.
  - by eapply ingestor_within.
  - by apply (within_same t); cbn; auto.
  - by apply (within_same t); cbn; auto.
  - by apply (within_same t); cbn; auto.
  - by apply (within_same t); cbn; auto.
Qed.

Lemma tasks_within t t' :
  (0 ≤ chunk)%Z → rtc (task_step cfg notification_channel_capacity outbox_config actions d honest) t t' → within t → within t'.
Proof.
  intros Hchunk Hrun. induction Hrun as [t|t t1 t2 Hstep _ IH]; [done|]. intros Hin. apply IH. by eapply task_within.
Qed.

(** The turns the block processor, the engine and the alert manager can still take. *)
Definition turns_left t : nat :=
  7 * length (tk_raw t) +
  match tk_processor t with
  | PrReceive block_buffer => 1 + 6 * length block_buffer
  | PrSend blocks _ _ => 2 + 4 * length blocks
  | PrStopped => 0
  end +
  3 * length (tk_correlated t) +
  match tk_filter t with FtReceive => 1 | FtSend _ => 3 | FtStopped => 0 end +
  length (tk_matches t).

Lemma internal_decreases t t' : internal t t' → turns_left t' < turns_left t.
Proof.
  intros [t1 E|t1 E|clock t1 E]; unfold turns_left.
  - unfold processor_turn in E. destruct (tk_processor t) as [buf|[|c blocks] lp final|] eqn:Ep; [| | |done].
    + destruct (tk_cancelled t); [injection E as <-; cbn|].
      * destruct buf; cbn; rewrite ?length_fmap; lia.
      * destruct (tk_raw t) as [|bd raw]; [done|]. injection E as <-. cbn.
        destruct (_ <=? _)%Z; rewrite ?length_fmap, length_app; cbn; lia.
    + injection E as <-. cbn. destruct final; cbn; lia.
    + destruct (tk_filter t) eqn:Ef; [| |injection E as <-; cbn; rewrite ?Ef; destruct final; cbn; lia];
        (destruct (offer _ c _) as [l|] eqn:Eo; [|done]; cbn in E; injection E as <-; cbn; rewrite ?Ef;
         apply offer_Some in Eo as [-> _]; rewrite length_app; cbn; lia).
  - unfold filter_turn in E. destruct (tk_filter t) as [|l|] eqn:Ef; [| |done].
    + destruct (tk_correlated t) as [|c rest] eqn:Ec.
      * destruct (tk_processor t) eqn:Ep; [done|done|]. injection E as <-. cbn. rewrite Ep, Ec. cbn. lia.
      * injection E as <-. cbn. destruct (block_matches _ c); lia.
    + destruct (offer _ l (tk_matches t)) as [ms|] eqn:Eo; [|done]. injection E as <-.
      apply offer_Some in Eo as [-> _]. cbn. rewrite length_app. cbn. lia.
  - unfold alert_turn in E. destruct (tk_matches t) as [|l rest] eqn:Em; [done|]. injection E as <-. cbn. lia.
Qed.

(** Nothing is on its way but the blocks the processor holds until its batch is full; after
    the cancellation not even those: the processor and the engine have ended. *)
Definition settled t : Prop :=
  tk_correlated t = [] ∧ tk_matches t = [] ∧
  if tk_cancelled t then tk_processor t = PrStopped ∧ tk_filter t = FtStopped
  else tk_raw t = [] ∧ tk_filter t = FtReceive ∧
    ∃ block_buffer, tk_processor t = PrReceive block_buffer ∧ (Z.of_nat (length block_buffer) < chunk)%Z.

Lemma stuck_settled t :
  channels_open cfg notification_channel_capacity = true → within t → (∀ t', ¬ internal t t') → settled t.
Proof.
  intros Hopen [_ _ _ _ Hb _ _ Hf Hft] Hstuck. unfold channels_open in Hopen.
  rewrite !andb_true_iff, !Nat.ltb_lt in Hopen. destruct Hopen as [[Hraw Hcor] Hmat].
  assert (processor_turn cfg t = None) as Epr by (destruct (processor_turn cfg t) eqn:E; [exfalso; by eapply Hstuck, turn_processor|done]).
  assert (filter_turn notification_channel_capacity t = None) as Eft
    by (destruct (filter_turn notification_channel_capacity t) eqn:E; [exfalso; by eapply Hstuck, turn_filter|done]).
  assert (tk_matches t = []) as Em.
  { destruct (tk_matches t) eqn:E; [done|]. exfalso. eapply Hstuck, (turn_alert _ _ _ _ (λ _, 0%Z)). unfold alert_turn. by rewrite E. }
  assert (tk_correlated t = [] ∧ (tk_filter t = FtReceive ∧ tk_processor t ≠ PrStopped ∨ tk_filter t = FtStopped)) as [Ec Hfilter].
  { unfold filter_turn in Eft. destruct (tk_filter t) as [|l|]; [| |split; [by apply Hft|by right]].
    - destruct (tk_correlated t); [|done]. split; [done|]. left. split; [done|]. by destruct (tk_processor t).
    - rewrite Em, offer_open in Eft by done. done. }
  split; [done|]. split; [done|]. unfold processor_turn in Epr. rewrite Ec in Epr.
  destruct (tk_processor t) as [buf|[|c blocks] lp final|] eqn:Ep.
  - destruct (tk_cancelled t); [done|]. destruct (tk_raw t) as [|bd raw]; [|done].
    destruct Hfilter as [[Ef _]|Ef]; [|by destruct (Hft Ef)]. split; [done|]. split; [done|]. exists buf. split; [done|].
    destruct (Hb buf eq_refl) as [->|]; [|done]. unfold raw_capacity in Hraw. cbn. lia.
  - done.
  - by destruct (tk_filter t); rewrite ?offer_open in Epr.
  - rewrite Hf by by left. destruct Hfilter as [[_ ?]|]; done.
Qed.

(** A task waits for the channels only while another can move. *)
Lemma settled_ingestor ds now t :
  channels_open cfg notification_channel_capacity = true → (0 < cfg_concurrency cfg)%Z → settled t → tk_ingestor t ≠ IngStopped →
  is_Some (ingestor_turn cfg ds now t).
Proof.
  intros Hopen Hconc (_ & _ & Hs) Hst. unfold ingestor_turn.
  destruct (tk_ingestor t) as [| |needs from safe|needs [|bd batch] to safe|needs bd batch to safe|];
    [by eexists|by eexists| |by eexists|by eexists| |done].
  - destruct (_ || _); [by eexists|]. rewrite fetch_blocks_concurrent_returns by (cbn; lia).
    destruct (fetch_range _ _ _ _ _); by eexists.
  - destruct (tk_cancelled t); [destruct Hs as [Ep _]; rewrite Ep; by eexists|]. destruct Hs as (Er & _ & buf & Ep & _). rewrite Ep.
    unfold send_raw. unfold channels_open in Hopen. rewrite !andb_true_iff, !Nat.ltb_lt in Hopen.
    rewrite Er, offer_open by apply Hopen. by eexists.
Qed.

End Channels.

(** ** The tasks implement the services *)

Section Refinement.
Context `{AlloyPrimitives} `{DynAbi} `{RhaiEngine} `{TemplateEngine} `{DispatchEnv} `{DefaultHasher} `{CompletionOrder}.
Context {B S : Type} `{BlockStateRepository B} `{OutboxRepository S} `{!OutboxLaws S} `{KeyValueStore S} `{!KeyValueLaws S}.
Context `{!AlertStoreLaws S} `{Serde ThrottleState} `{Serde AggregationState}.
Context (cfg : AppConfig) (notification_channel_capacity : Z).
Context (outbox_config : OutboxConfig) (actions : gmap string ActionConfig) (d : gmap string ActionType).
Context (batch_size : (0 ≤ ob_batch_size outbox_config)%Z).
Implicit Types (t : Tasks (B := B) (S := S)).

Notation node_step := (task_step cfg notification_channel_capacity outbox_config actions d).
Notation service_step := (pipeline_step cfg outbox_config actions d).

(** The services a state of the tasks stands for: a buffered block has not left the raw
    channel, and a batch being sent is in the channel of the engine with its progress
    recorded. *)
Definition last_to_record (blocks : list CorrelatedBlockData) (last_processed : option Z) : option Z :=
  match last blocks with Some b => Some (cb_block_number b) | None => last_processed end.
Definition services t : Pipeline (B := B) (S := S) :=
  mkPipeline
    (match tk_processor t with PrReceive block_buffer => block_buffer | _ => [] end ++ tk_raw t)
    (tk_correlated t ++ match tk_processor t with PrSend blocks _ _ => blocks | _ => [] end)
    (tk_matches t ++ match tk_filter t with FtSend all_matches => [all_matches] | _ => [] end)
    (match tk_processor t with
     | PrSend blocks last_processed _ => record_progress cfg (last_to_record blocks last_processed) (tk_progress t)
     | _ => tk_progress t
     end)
    (tk_alerts t) (tk_world t) (tk_manager t) (tk_received t) (tk_found t).

Lemma send_blocks_last blocks lp (l : list CorrelatedBlockData) :
  (send_blocks blocks lp (mkChannel l None)).1 = Some (last_to_record blocks lp).
Proof.
  revert lp l. induction blocks as [|b blocks IH]; intros lp l; cbn; [done|]. rewrite IH.
  unfold last_to_record. rewrite last_cons. by destruct (last blocks).
Qed.

(** A batch taken by the processor, in one step of the services. *)
Lemma process_step_batch n (p : Pipeline (B := B) (S := S)) blocks :
  take n (pl_raw p) = blocks → blocks ≠ [] →
  process_step cfg n p =
    let correlated := process_block (load (pl_manager p)) <$> blocks in
    mkPipeline (drop n (pl_raw p)) (pl_correlated p ++ correlated) (pl_matches p)
      (record_progress cfg (last_to_record correlated None) (pl_progress p))
      (pl_alerts p) (pl_world p) (pl_manager p) (pl_received p) (pl_found p).
Proof.
  intros Ht Hne. unfold process_step. rewrite Ht. unfold process_and_dispatch, process_blocks_batch.
  destruct blocks as [|b blocks]; [done|]. cbn [out_channel out_db].
  pose proof (send_blocks_last (process_block (load (pl_manager p)) <$> b :: blocks) None []) as Hl.
  pose proof (send_blocks_open (process_block (load (pl_manager p)) <$> b :: blocks) None []) as Hs.
  destruct (send_blocks _ _ _) as [r ch]. cbn [fst snd] in Hl, Hs. subst r ch.
  destruct (last_to_record _ None) as [n'|]; done.
Qed.

Lemma stutter t t' : services t' = services t → rtc service_step (services t) (services t').
Proof. by intros ->. Qed.

Lemma processor_refines t t' :
  processor_turn cfg t = Some t' → (tk_filter t = FtStopped → tk_processor t = PrStopped ∧ tk_correlated t = []) →
  rtc service_step (services t) (services t').
Proof.
  intros E Hft. unfold processor_turn in E.
  destruct (tk_processor t) as [buf|[|c blocks] lp final|] eqn:Ep; [| | |done].
  - assert (∀ bs raw, bs ≠ [] → buf ++ tk_raw t = bs ++ raw → ∀ final,
      rtc service_step (services t)
        (services (mkTasks (tk_ingestor t) (tk_next_block t) (tk_calibrator t) raw
          (PrSend (process_block (load (tk_manager t)) <$> bs) None final) (tk_correlated t) (tk_filter t) (tk_matches t)
          (tk_progress t) (tk_alerts t) (tk_world t) (tk_manager t) (tk_cancelled t) (tk_boot t) (tk_evaluated t)
          (tk_before t) (tk_received t) (tk_found t)))) as Hbatch.
    { intros bs raw Hne Hbs final. apply rtc_once, step_work.
      assert (pl_raw (services t) = bs ++ raw) as Hraw by (unfold services; cbn; by rewrite Ep).
      pose proof (process_step_batch (length bs) (services t) bs) as Hs. rewrite Hraw, take_app_length, drop_app_length in Hs.
      specialize (Hs eq_refl Hne). unfold services at 2. cbn.
      match goal with |- work_step _ _ _ _ _ ?q => assert (q = process_step cfg (length bs) (services t)) as -> end.
      { rewrite Hs. unfold services. cbn. by rewrite Ep, app_nil_r. }
      apply step_process; [destruct bs; [done|cbn; lia]|]. rewrite Hraw. by destruct bs. }
    destruct (tk_cancelled t) eqn:Ecan.
    + injection E as <-. destruct buf as [|b buf]; [apply stutter; unfold services; cbn; by rewrite Ep|].
      exact (Hbatch (b :: buf) (tk_raw t) ltac:(done) eq_refl true).
    + destruct (tk_raw t) as [|bd raw] eqn:Er; [done|]. injection E as <-. destruct (_ <=? _)%Z.
      * apply (Hbatch (buf ++ [bd]) raw); [by destruct buf|by rewrite <- app_assoc].
      * apply stutter. unfold services. cbn. by rewrite Ep, Er, <- app_assoc.
  - injection E as <-. apply stutter. unfold services. cbn. rewrite Ep. by destruct final.
  - destruct (tk_filter t) eqn:Ef; [| |by destruct (Hft eq_refl)];
      (destruct (offer _ c _) as [l|] eqn:Eo; [|done]; cbn in E; injection E as <-; apply offer_Some in Eo as [-> _];
       apply stutter; unfold services; cbn; rewrite Ep, Ef, <- app_assoc; unfold last_to_record; rewrite last_cons;
       by destruct (last blocks)).
Qed.

Lemma filter_refines t t' :
  filter_turn notification_channel_capacity t = Some t' → within cfg notification_channel_capacity t →
  rtc service_step (services t) (services t').
Proof.
  intros E Hin. unfold filter_turn in E. destruct (tk_filter t) as [|l|] eqn:Ef; [| |done].
  - destruct (tk_correlated t) as [|c rest] eqn:Ec.
    + destruct (tk_processor t) eqn:Ep; [done|done|]. injection E as <-. apply stutter. unfold services. cbn. by rewrite Ep, Ef.
    + injection E as <-. apply rtc_once, step_work.
      match goal with |- work_step _ _ _ _ _ ?q =>
        assert (q = filter_step c (rest ++ match tk_processor t with PrSend blocks _ _ => blocks | _ => [] end) (services t)) as -> end.
      { unfold filter_step. rewrite filter_sent. unfold services. cbn. rewrite Ef, app_nil_r.
        destruct (block_matches (engine_of (tk_manager t)) c) as [|m ms]; cbn; [by rewrite !app_nil_r|]. by rewrite app_nil_r. }
      apply step_filter. unfold services. cbn. by rewrite Ec.
  - destruct (offer _ l (tk_matches t)) as [ms|] eqn:Eo; [|done]. injection E as <-. apply offer_Some in Eo as [-> _].
    apply stutter. unfold services. cbn. by rewrite Ef, app_nil_r.
Qed.

Lemma ingestor_refines ds now t t' :
  ingestor_turn cfg ds now t = Some t' → rtc service_step (services t) (services t').
Proof.
  intros E. unfold ingestor_turn in E.
  destruct (tk_ingestor t) as [| |needs from safe|needs [|bd batch] to safe|needs bd batch to safe|] eqn:Ei; [| | | | | |done].
  - injection E as <-. apply stutter. unfold begin_cycle.
    destruct (get_last_processed_block _ _).1; [|done]. destruct (get_current_block_number ds); [|done].
    by destruct (observe _ _ _).
  - injection E as <-. by apply stutter.
  - destruct (_ || _); [injection E as <-; by apply stutter|].
    destruct (fetch_blocks_concurrent _ _ _ _ _) as [[]|]; [| |done]; injection E as <-; by apply stutter.
  - injection E as <-. by apply stutter.
  - injection E as <-. by destruct (tk_cancelled t); apply stutter.
  - destruct (stopped_or (tk_processor t) (Some (set_ingestor IngWait t)) (send_raw cfg needs bd batch to safe t))
      as [[_ Em]|[_ Em]]; rewrite Em in E; clear Em; [injection E as <-; by apply stutter|]. unfold send_raw in E.
    destruct (offer _ bd _) as [raw|] eqn:Eo; [|done]. apply offer_Some in Eo as [-> _]. cbn in E. injection E as <-.
    apply rtc_once.
    match goal with |- pipeline_step _ _ _ _ _ ?q => assert (q = receive_step [bd] (services t)) as -> end.
    { unfold receive_step, services. cbn. by rewrite app_assoc. }
    apply step_receive.
Qed.

Lemma task_refines t t' :
  node_step honest t t' → within cfg notification_channel_capacity t → rtc service_step (services t) (services t').
Proof.
  intros Hstep Hin. destruct Hstep as [t' [t1 E|t1 E|clock t1 E]|ds now t' Hds E|force now| |ms|].
  - eapply processor_refines; [exact E|apply Hin].
  - by eapply filter_refines.
  - unfold alert_turn in E. destruct (tk_matches t) as [|l rest] eqn:Em; [done|]. injection E as <-. apply rtc_once, step_work.
    pose proof (step_alert cfg outbox_config actions d clock l (rest ++ match tk_filter t with FtSend l => [l] | _ => [] end) (services t)) as Hs.
    apply Hs. unfold services. cbn. by rewrite Em.
  - by eapply ingestor_refines.
  - apply rtc_once. apply (step_scan _ _ _ _ force now (services t)).
  - apply rtc_once. apply (step_poll _ _ _ _ (services t)).
  - apply rtc_once. apply (step_reload _ _ _ _ ms (services t)).
  - by apply stutter.
Qed.

(** C4: The tasks with their bounded channels implement the services of the pipeline, and
    through them the specification: every run of the tasks from the start of the process
    is a run of the services, whose steps take whole batches and never wait, and what
    is received, found and delivered on the way is a run of the specification. *)
Theorem tasks_refine_services t t' :
  (0 ≤ cfg_block_chunk_size cfg)%Z →
  (∃ a mgr boot before db w, t = spawn cfg a mgr boot before db w) →
  rtc (node_step honest) t t' →
  rtc service_step (services t) (services t') ∧
  (am_sourced (λ m, m ∈ tk_found t) (tk_alerts t) → rtc spec_step (abs (services t)) (abs (services t'))).
Proof.
  intros Hchunk (a & mgr & boot & before & db & w & ->) Hrun.
  pose proof (spawn_within cfg notification_channel_capacity a mgr boot before db w) as Hin.
  assert (rtc service_step (services (spawn cfg a mgr boot before db w)) (services t')) as Hs.
  { revert Hin. induction Hrun as [t|t t1 t2 Hstep _ IH]; intros Hin; [done|].
    etrans; [by apply task_refines|]. apply IH. by eapply task_within. }
  split; [done|]. intros Ha.
  assert (pipeline_sourced (services (spawn cfg a mgr boot before db w))) as Hp.
  { split; cbn; [by intros ? ?%elem_of_nil|by intros ? ?%elem_of_nil|by intros ? ? ?%elem_of_nil|exact Ha]. }
  revert Hp. clear Hrun Ha. induction Hs as [p|p q r Hstep _ IH]; intros Hp; [done|].
  destruct (step_refines cfg outbox_config actions d batch_size p q Hstep Hp) as [Hq Hr]. etrans; [exact Hr|by apply IH].
Qed.
End Refinement.

(** ** Concrete schedules *)

Import MonitorMatch.Demo AbiDemo RhaiDemo RegistryDemo Interfaces.SerdeDemo InterfacesDemo ProvidersDemo DispatchDemo
  BlockProcessorDemo PipelineDemo.

Module TasksDemo.
Notation Tsk := (Tasks (B := DemoDb) (S := MemStore)).

(** Chunks of two blocks, two confirmations: the blocks up to 12 are confirmed. *)
Definition config : AppConfig := mkAppConfig "net" 2 2 4 1000 None 2 Latest None.
Definition booted : Tsk :=
  spawn config (mkAlertManager mem_empty ∅ ∅ ∅) (pl_manager idle) 9 [] ({["net" := 9%Z]} : DemoDb) (quiet_world, []).

(** A block with one transaction each. *)
Definition node : DataSource := {|
  fetch_block_core_data n := Err ChannelClosed;
  fetch_block_only n := Ok (mkBlock n (1000 + n) [] (FullTxs [demo_tx (10 * n) (Some 1%Z) []]));
  fetch_logs_for_range a b := Ok [];
  get_current_block_number := Ok 14%Z;
  fetch_receipts hs _ := Ok ∅
|}.

Inductive Turn := TIngest | TProcess | TFilter | TAlert | TPoll.
Definition take_turn (u : Turn) (t : Tsk) : Tsk :=
  default t match u with
  | TIngest => ingestor_turn config node 0 t
  | TProcess => processor_turn config t
  | TFilter => filter_turn 1 t
  | TAlert => alert_turn actions (λ _, 0%Z) t
  | TPoll => Some (poll_turn outbox_config dispatcher t)
  end.
Definition schedule (us : list Turn) (t : Tsk) : Tsk := foldl (λ t u, take_turn u t) t us.

Lemma node_honest : honest_node config node.
Proof. split; [intros n b [= <-]; reflexivity|intros cur [= <-]; vm_compute; split; discriminate]. Qed.

Lemma schedule_steps (nodes : DataSource → Prop) us t :
  nodes node → rtc (task_step config 1 outbox_config actions dispatcher nodes) t (schedule us t).
Proof.
  intros Hn. revert t. induction us as [|u us IH]; intros t; [done|]. cbn. etrans; [|apply IH].
  destruct u; cbn.
  - destruct (ingestor_turn config node 0 t) eqn:E; [|done]. by eapply rtc_once, task_ingest.
  - destruct (processor_turn config t) eqn:E; [|done]. by apply rtc_once, task_internal, turn_processor.
  - destruct (filter_turn 1 t) eqn:E; [|done]. by apply rtc_once, task_internal, turn_filter.
  - destruct (alert_turn actions (λ _, 0%Z) t) eqn:E; [|done]. by eapply rtc_once, task_internal, turn_alert.
  - by apply rtc_once, task_poll.
Qed.

Definition rounds (n : nat) : list Turn := mjoin (replicate n [TIngest; TProcess; TFilter; TAlert]).

(** The first batch is recorded, block 12 waits in the buffer; the process dies and starts
    again: block 12 is received again. *)
Definition first_life : Tsk := schedule (rounds 20) booted.
Definition second_life : Tsk :=
  spawn config (tk_alerts first_life) (pl_manager idle) 11 (tk_before first_life ++ handed first_life) (tk_progress first_life)
    (quiet_world, []).
End TasksDemo.
Import TasksDemo.

Lemma no_block_skipped_witness :
  let t := schedule (rounds 20) second_life in
  tk_before t ++ handed t = [10; 11]%Z ∧ line t = [12]%Z ∧
  ∃ p, last_block (tk_progress t) "net" = Some p ∧ (9 ≤ p)%Z ∧ ∀ n, (9 < n ≤ p)%Z → n ∈ tk_before t ++ handed t.
Proof.
  intros t. split; [vm_compute; reflexivity|]. split; [vm_compute; reflexivity|].
  assert (rtc (life_step config 1 outbox_config actions dispatcher) booted t) as Hrun.
  { assert (∀ us t, rtc (life_step config 1 outbox_config actions dispatcher) t (schedule us t)) as Hlife.
    { intros us t1. eapply rtc_subrel; [intros x y; apply life_task|apply schedule_steps, node_honest]. }
    assert (life_step config 1 outbox_config actions dispatcher first_life second_life) as Hrestart.
    { refine (life_restart config 1 outbox_config actions dispatcher first_life (tk_alerts first_life) (pl_manager idle) 11
        (quiet_world, []) _). vm_compute. reflexivity. }
    assert (rtc (life_step config 1 outbox_config actions dispatcher) booted first_life) as Hfirst by (unfold first_life; apply Hlife).
    etrans; [exact Hfirst|]. etrans; [exact (rtc_once _ _ Hrestart)|]. unfold t. apply Hlife. }
  destruct (no_block_skipped config 1 outbox_config actions dispatcher booted t 9) as (_ & p & Hp & Hle & Hall & _);
    [vm_compute; split; [discriminate|reflexivity]|vm_compute; discriminate|vm_compute; discriminate|vm_compute; reflexivity
    |by repeat eexists|exact Hrun|]. exists p. auto.
Defined.


Lemma tasks_refine_services_witness :
  let t := schedule [TPoll] first_life in
  idempotency_key <$> sp_delivered (abs (services config t)) = ["1-hook-0x110"; "1-hook-0x100"] ∧
  rtc (pipeline_step config outbox_config actions dispatcher) (services config booted) (services config t) ∧
  rtc spec_step (mkSpec [] [] []) (abs (services config t)).
Proof.
  intros t. split; [vm_compute; reflexivity|].
  destruct (tasks_refine_services config 1 outbox_config actions dispatcher ltac:(done) booted t) as [Hs Hspec];
    [vm_compute; discriminate|by repeat eexists| |].
  - assert (rtc (task_step config 1 outbox_config actions dispatcher honest) booted first_life) as Hfirst
      by (unfold first_life; apply schedule_steps, node_honest).
    etrans; [exact Hfirst|]. unfold t. apply schedule_steps, node_honest.
  - split; [exact Hs|]. apply Hspec. exact (ps_alerts _ idle_sourced).
Defined.

(** A chunk size of zero is accepted by the configuration, and the channels cannot be made. *)
Lemma zero_chunk_panics capacity : channels_open (mkAppConfig "net" 0 2 4 1000 None 2 Latest None) capacity = false.
Proof. reflexivity. Qed.
