(* ===== verification/DryRun.v ===== *)
(** * The dry run ([src/cmd/dry_run.rs])

    A range of past blocks is fetched, processed and evaluated in batches, in one
    task; the alerts are flushed and delivered at the end, and a report is made. *)
From S2P Require Import Prelude Models MonitorMatch Abi Conversions RhaiScript Registry Manager Filtering Interfaces Providers AlertManager OutboxProcessor BlockProcessor Ingestor HttpPool Dispatch Validator Loader Store Context Pipeline.

Inductive DryRunError `{RhaiEngine} :=
| DryRunDataSource (e : DataSourceError)
| DryRunBlockProcessor
| DryRunFiltering (e : RhaiError)
| DryRunAlertManager (e : AlertManagerError)
| InvalidBlockRange (from to : Z)
| DryRunActionDispatcher (e : ActionDispatcherError)
| DryRunAppContext (e : AppContextError).

Definition calculate_total_blocks (from_block to_block : Z) : Z := u64_add (u64_sub to_block from_block) 1.

Definition group_matches_by_monitor (matches : list MonitorMatch) : gmap string nat :=
  foldl (λ acc m, <[mm_monitor_name m := default 0 (acc !! mm_monitor_name m) + 1]> acc) ∅ matches.

Definition calculate_batch_end_block (current_block batch_size target_block : Z) : Z :=
  Z.min (u64_sub (u64_add current_block batch_size) 1) target_block.

Definition BATCH_SIZE : Z := 50.

(** What [print_summary_report] prints. *)
Record SummaryReport := mkReport {
  rp_range : Z * Z;
  rp_total_blocks : Z;
  rp_total_matches : nat;
  rp_matches_by_monitor : gmap string nat;
  rp_generated_alerts : gmap string nat;
  rp_successful_count : nat
}.

Section DryRun.
Context `{AlloyPrimitives} `{DynAbi} `{RhaiEngine} `{DefaultHasher} `{CompletionOrder}.

Definition validate_block_range (from_block to_block : Z) : result DryRunError unit :=
  if (to_block <? from_block)%Z then Err (InvalidBlockRange from_block to_block) else Ok tt.

(** The parallel [try_fold] and [try_reduce]: the matches in the order of the items, or
    the error of an item that failed, the first to complete. *)
Definition par_evaluate (fe : RhaiFilteringEngine) (blocks : list CorrelatedBlockData) : result RhaiError (list MonitorMatch) :=
  let results := evaluate_item fe <$> (blocks ≫= cb_items) in
  match head (unordered (omap (λ r, match r with Err e => Some e | Ok _ => None end) results)) with
  | Some e => Err e
  | None => Ok (mjoin (omap result_ok results))
  end.

(** ** The loop *)

Section Loop.
Context {S : Type} `{OutboxRepository S} `{KeyValueStore S} `{Serde ThrottleState} `{Serde AggregationState}.
(** The tasks that panic, and the readings of the clock. *)
Context (ds : DataSource) (mgr : MonitorManager) (actions : gmap string ActionConfig) (fetch_cfg : FetchConfig).
Context (panics : list BlockData → bool) (evaluation_panics : list CorrelatedBlockData → bool).
Context (clock : nat → DateTime) (flush_time : DateTime).
Notation Alerts := (AlertManager (S := S)).

Definition evaluate_batch (blocks : list CorrelatedBlockData) : result DryRunError (list MonitorMatch) :=
  if evaluation_panics blocks then Err DryRunBlockProcessor
  else map_err DryRunFiltering (par_evaluate (engine_of mgr) blocks).

(** The body of the loop, once the blocks are fetched. *)
Definition dry_run_batch (fetched : result DataSourceError (list BlockData)) (matches : list MonitorMatch)
    : eff Alerts DryRunError (list MonitorMatch) :=
  block_data_batch ← lift_result (map_err DryRunDataSource fetched);
  match block_data_batch with
  | [] => mret matches
  | _ =>
      decoded_blocks_batch ← lift_result (ok_or (process_blocks_batch (load mgr) panics block_data_batch) DryRunBlockProcessor);
      batch_matches ← lift_result (evaluate_batch decoded_blocks_batch);
      match batch_matches with
      | [] => mret matches
      | _ =>
          _ ← eff_map_err DryRunAlertManager (process_matches_batch actions (stamped clock (length matches) batch_matches));
          mret (matches ++ batch_matches)
      end
  end.

(** [None] without fuel, or when a fetch never returns. *)
Fixpoint dry_run_batches (fuel : nat) (current_block to_block : Z) (matches : list MonitorMatch) (a : Alerts)
    : option (result DryRunError (list MonitorMatch) * Alerts) :=
  match fuel with
  | 0 => None
  | Datatypes.S fuel =>
      if (current_block <=? to_block)%Z then
        let batch_end_block := calculate_batch_end_block current_block BATCH_SIZE to_block in
        fetched ← fetch_blocks_concurrent ds (requires_receipt_data (engine_of mgr)) current_block batch_end_block fetch_cfg;
        match dry_run_batch fetched matches a with
        | (Ok matches, a) => dry_run_batches fuel (u64_add batch_end_block 1) to_block matches a
        | (Err e, a) => Some (Err e, a)
        end
      else Some (Ok matches, a)
  end.

Definition run_dry_run_loop (fuel : nat) (from_block to_block : Z) (a : Alerts)
    : option (result DryRunError (list MonitorMatch) * Alerts) :=
  match validate_block_range from_block to_block with
  | Err e => Some (Err e, a)
  | Ok _ =>
      match dry_run_batches fuel from_block to_block [] a with
      | Some (Ok matches, a) =>
          let '(r, a) := AlertManager.flush actions flush_time a in
          Some ((λ _, matches) <$> map_err DryRunAlertManager r, a)
      | o => o
      end
  end.
End Loop.
End DryRun.

(** ** What a dry run finds *)

Section DryRunTheorems.
Context `{AlloyPrimitives} `{DynAbi} `{RhaiEngine} `{DefaultHasher} `{CompletionOrder}.

(** Either every item was evaluated, or the error is that of an item that failed. *)
Lemma par_evaluate_spec fe blocks :
  let items := blocks ≫= cb_items in
  match par_evaluate fe blocks with
  | Ok ms => (∀ i, i ∈ items → is_ok (evaluate_item fe i) = true) ∧ ms = blocks ≫= block_matches fe
  | Err e => ∃ i, i ∈ items ∧ evaluate_item fe i = Err e
  end.
Proof.
  cbv zeta. unfold par_evaluate. set (items := blocks ≫= cb_items). set (errors := omap _ _).
  assert (∀ e, e ∈ errors ↔ ∃ i, i ∈ items ∧ evaluate_item fe i = Err e) as Herr.
  { intros e. unfold errors. rewrite list_elem_of_omap. setoid_rewrite list_elem_of_fmap. split.
    - intros (r & (i & -> & Hi) & Hr). exists i. split; [done|].
      destruct (evaluate_item fe i); cbn in Hr; [done|by injection Hr as ->].
    - intros (i & Hi & Hr). exists (Err e). split; [|done]. by exists i. }
  destruct (unordered errors) as [|e es] eqn:Eu; cbn [head].
  - assert (errors = []) as Hnil by (apply Permutation_nil; rewrite <- Eu; apply unordered_perm).
    assert (∀ i, i ∈ items → is_ok (evaluate_item fe i) = true) as Hall.
    { intros i Hi. destruct (evaluate_item fe i) as [|e] eqn:Ei; [done|].
      assert (e ∈ errors) as He by (apply Herr; eauto). rewrite Hnil in He. by apply elem_of_nil in He. }
    split; [done|]. clear -Hall. subst items. induction blocks as [|b blocks IH]; [done|].
    cbn. rewrite fmap_app, omap_app, join_app. f_equal; [|apply IH; intros i Hi; apply Hall; cbn; apply elem_of_app; by right].
    unfold block_matches. assert (∀ i, i ∈ cb_items b → is_ok (evaluate_item fe i) = true) as Hb
      by (intros i Hi; apply Hall; cbn; apply elem_of_app; by left).
    clear -Hb. induction (cb_items b) as [|i l IH]; [done|]. cbn.
    specialize (Hb i ltac:(by left)) as Hi. destruct (evaluate_item fe i) as [ms|e]; [|done]. cbn. f_equal.
    apply IH. intros j Hj. apply Hb. by right.
  - apply Herr. rewrite <- unordered_perm, Eu. by left.
Qed.

Lemma calculate_batch_end_small current to :
  (0 ≤ current ≤ to)%Z → (to + BATCH_SIZE ≤ u64_max)%Z →
  calculate_batch_end_block current BATCH_SIZE to = Z.min (current + BATCH_SIZE - 1) to.
Proof.
  intros. unfold calculate_batch_end_block, BATCH_SIZE in *. unfold u64_add, u64_sub, u64_wrap. unfold_width.
  rewrite (Z.mod_small (current + 50)) by lia. by rewrite Z.mod_small by lia.
Qed.
End DryRunTheorems.

Section Range.
Context `{AlloyPrimitives} `{DynAbi} `{RhaiEngine} `{DefaultHasher} `{CompletionOrder}.
Context {S : Type} `{OutboxRepository S} `{!OutboxLaws S} `{KeyValueStore S} `{!KeyValueLaws S}.
Context `{!AlertStoreLaws S} `{Serde ThrottleState} `{Serde AggregationState}.
Context (ds : DataSource) (mgr : MonitorManager) (actions : gmap string ActionConfig) (fetch_cfg : FetchConfig).
Context (clock : nat → DateTime) (flush_time : DateTime).
Context (reliable : ∀ items (s : S), is_ok (enqueue_outbox_batch items s).1 = true).
(** The chain between the two blocks, served by the data source. *)
Context (from to : Z) (chain : Z → Block) (logs : list Log) (receipts : gmap TxHash TransactionReceipt).
Context (Hserves : serves ds from to chain logs receipts) (Hfrom : is_u64 from) (Hend : (to + BATCH_SIZE ≤ u64_max)%Z).
Context (Hconc : 0 < fc_concurrency fetch_cfg).
Context (Hchunk : (0 ≤ fc_log_chunk_size fetch_cfg)%Z) (Hlogs : (to + fc_log_chunk_size fetch_cfg ≤ u64_max)%Z).
Context (Hnodup : NoDup (block_range from to ≫= λ n, hashes_of (chain n))).
Implicit Types (a : AlertManager (S := S)).

Notation fe := (engine_of mgr).

(** The blocks from one number to another, each fetched and processed alone. *)
Definition dry_run_blocks (first last : Z) : list CorrelatedBlockData :=
  (λ n, process_block (load mgr) (block_data_of chain logs receipts (requires_receipt_data fe) n)) <$> block_range first last.

(** The outcome of evaluating them, after the matches [ms]. *)
Definition evaluated (blocks : list CorrelatedBlockData) (ms : list MonitorMatch) (r : result DryRunError (list MonitorMatch)) a' : Prop :=
  am_ok a' ∧
  match r with
  | Ok ms' => (∀ i, i ∈ blocks ≫= cb_items → is_ok (evaluate_item fe i) = true) ∧
      ms' = ms ++ (blocks ≫= block_matches fe) ∧ ∀ m, m ∈ ms' → accounted actions a' m
  | Err e => ∃ i e', i ∈ blocks ≫= cb_items ∧ evaluate_item fe i = Err e' ∧ e = DryRunFiltering e'
  end.

Notation data_of := (block_data_of chain logs receipts (requires_receipt_data fe)).
Notation batch first last := (dry_run_batch mgr actions (λ _, false) (λ _, false) clock (Ok (data_of <$> block_range first last))).
Notation batches := (dry_run_batches ds mgr actions fetch_cfg (λ _, false) (λ _, false) clock).

Lemma part_nodup first last :
  (from ≤ first ≤ last + 1)%Z → (last ≤ to)%Z → NoDup (block_range first last ≫= λ n, hashes_of (chain n)).
Proof.
  intros Hf Hl. revert Hnodup. rewrite (block_range_app from last to), (block_range_app from (first - 1) last) by lia.
  replace (first - 1 + 1)%Z with first by lia. rewrite !bind_app. intros [[_ [_ Hn]]%NoDup_app _]%NoDup_app. exact Hn.
Qed.

Lemma fetched first last :
  (from ≤ first ≤ last)%Z → (last ≤ to)%Z →
  fetch_blocks_concurrent ds (requires_receipt_data fe) first last fetch_cfg =
  Some (Ok (data_of <$> block_range first last)).
Proof.
  intros Hf Hl. apply fetch_blocks_concurrent_spec.
  - done.
  - by apply (serves_sub ds from to first last); [lia|lia|].
  - revert Hfrom Hend. unfold BATCH_SIZE. unfold_width. lia.
  - done.
  - lia.
  - apply part_nodup; lia.
Qed.

Lemma dry_run_batch_run first last ms a :
  (first ≤ last)%Z →
  batch first last ms a =
  match par_evaluate fe (dry_run_blocks first last) with
  | Err e => (Err (DryRunFiltering e), a)
  | Ok [] => (Ok ms, a)
  | Ok found =>
      let '(r, a') := process_matches_batch actions (stamped clock (length ms) found) a in
      ((λ _, ms ++ found) <$> map_err DryRunAlertManager r, a')
  end.
Proof.
  intros Hf. unfold dry_run_batch, dry_run_blocks. rewrite (list_fmap_compose data_of (process_block (load mgr))).
  destruct (data_of <$> block_range first last) as [|b bs] eqn:E.
  { apply fmap_nil_inv in E. revert E. unfold block_range. by rewrite seqZ_cons by lia. }
  unfold mbind, eff_bind, lift_result, evaluate_batch, process_blocks_batch. cbn [map_err ok_or].
  destruct (par_evaluate fe (process_block (load mgr) <$> b :: bs)) as [[|m found]|e]; cbn [map_err]; [done| |done].
  unfold eff_map_err. by destruct (process_matches_batch _ _ _) as [[u|e] a'].
Qed.

Lemma dry_run_batch_spec first last ms a :
  (first ≤ last)%Z → am_ok a → (∀ m, m ∈ ms → accounted actions a m) →
  let '(r, a') := batch first last ms a in evaluated (dry_run_blocks first last) ms r a'.
Proof.
  intros Hf Hok Hms. rewrite dry_run_batch_run by done. unfold evaluated.
  pose proof (par_evaluate_spec fe (dry_run_blocks first last)) as Hp. cbv zeta in Hp.
  destruct (par_evaluate fe (dry_run_blocks first last)) as [[|m found]|e].
  - destruct Hp as [Hall <-]. split_and!; [done|done|by rewrite app_nil_r|done].
  - destruct Hp as [Hall <-].
    destruct (process_batch_accounted actions reliable (stamped clock (length ms) (m :: found)) a Hok) as (a' & E & Hg & Hacc).
    rewrite E. cbn [fmap result_fmap map_err].
    split_and!; [apply (gr_ok _ _ Hg)|done|done|]. intros m' [Hin|Hin]%elem_of_app.
    + by eapply accounted_grows, Hms.
    + destruct (stamped_elem_2 clock (length ms) _ _ Hin) as [t Ht]. by eapply Hacc.
  - destruct Hp as (i & Hi & He). split; [done|]. eauto.
Qed.

Lemma dry_run_batches_spec fuel first ms a :
  (from ≤ first ≤ to + 1)%Z → ((to + 1 - first) ≤ 50 * (Z.of_nat fuel - 1))%Z → am_ok a → (∀ m, m ∈ ms → accounted actions a m) →
  ∃ r a', batches fuel first to ms a = Some (r, a') ∧ evaluated (dry_run_blocks first to) ms r a'.
Proof.
  revert first ms a. induction fuel as [|fuel IH]; intros first ms a Hf Hfuel Hok Hms; [lia|]. cbn [dry_run_batches].
  destruct (Z.leb_spec first to) as [Hle|Hgt].
  2:{ exists (Ok ms), a. split; [done|]. unfold evaluated, dry_run_blocks. rewrite block_range_nil by lia. cbn.
      split_and!; [done|by intros ? ?%elem_of_nil|by rewrite app_nil_r|done]. }
  rewrite calculate_batch_end_small by (revert Hfrom; unfold_width; lia).
  set (last := Z.min _ _). assert (first ≤ last ≤ to ∧ (last = to ∨ last = first + 49))%Z as Hl by (unfold last, BATCH_SIZE; lia).
  clearbody last. rewrite fetched by lia. cbn [mbind option_bind].
  pose proof (dry_run_batch_spec first last ms a ltac:(lia) Hok Hms) as Hb.
  assert (dry_run_blocks first to = dry_run_blocks first last ++ dry_run_blocks (last + 1) to) as Happ.
  { unfold dry_run_blocks. rewrite <- fmap_app. f_equal. apply block_range_app; lia. }
  destruct (batch first last ms a) as [[ms1|e] a1]; cycle 1.
  { exists (Err e), a1. split; [done|]. destruct Hb as [Hok1 (i & e' & Hi & He & ->)]. split; [done|].
    exists i, e'. split; [|done]. rewrite Happ, bind_app. apply elem_of_app. by left. }
  destruct Hb as [Hok1 (Hall & -> & Hacc)]. rewrite u64_add_small; [|revert Hfrom Hend; unfold BATCH_SIZE; unfold_width; lia..].
  destruct (IH (last + 1)%Z _ a1 ltac:(lia) ltac:(lia) Hok1 Hacc) as (r & a' & -> & Hok' & Hr). exists r, a'. split; [done|].
  split; [done|]. rewrite Happ. destruct r as [ms'|e].
  - destruct Hr as (Hall' & -> & Hacc'). split_and!; [|by rewrite bind_app, app_assoc|done].
    rewrite bind_app. intros i [Hi|Hi]%elem_of_app; auto.
  - destruct Hr as (i & e' & Hi & He & ->). exists i, e'. split; [|done]. rewrite bind_app. apply elem_of_app. by right.
Qed.

Notation run := (run_dry_run_loop ds mgr actions fetch_cfg (λ _, false) (λ _, false) clock flush_time).

(** C18: A dry run with at least one request in flight, over a range that the data source serves, ends; it refuses an inverted
    range, and otherwise evaluates every block of the range once under the loaded
    monitors: the matches are, in block order, those of the blocks fetched, processed
    and evaluated one by one, whatever the chunk size, the concurrency and the
    completion order, and each is accounted for by the alert manager.  If the
    evaluation of some item fails, the run ends with the error of such an item.  The
    only other failure is that of the last saving of the alert states. *)
Theorem run_dry_run_loop_correct fuel a :
  am_ok a → ((to + 1 - from) ≤ 50 * (Z.of_nat fuel - 1))%Z →
  let items := dry_run_blocks from to ≫= cb_items in
  let found := dry_run_blocks from to ≫= block_matches fe in
  ((to < from)%Z → run fuel from to a = Some (Err (InvalidBlockRange from to), a)) ∧
  ((from ≤ to)%Z → ∃ a1,
     am_ok a1 ∧
     ((∀ i, i ∈ items → is_ok (evaluate_item fe i) = true) →
        let '(r, a2) := AlertManager.flush actions flush_time a1 in
        run fuel from to a = Some ((λ _, found) <$> map_err DryRunAlertManager r, a2) ∧
        ∀ m, m ∈ found → accounted actions a2 m) ∧
     ((∃ i, i ∈ items ∧ is_ok (evaluate_item fe i) = false) →
        ∃ i e, i ∈ items ∧ evaluate_item fe i = Err e ∧ run fuel from to a = Some (Err (DryRunFiltering e), a1))).
Proof.
  intros Hok Hfuel items found. unfold run_dry_run_loop, validate_block_range. split.
  { intros Hlt. by rewrite (proj2 (Z.ltb_lt _ _)) by done. }
  intros Hle. rewrite (proj2 (Z.ltb_ge _ _)) by done.
  destruct (dry_run_batches_spec fuel from [] a ltac:(lia) Hfuel Hok ltac:(by intros ? ?%elem_of_nil)) as (r & a1 & -> & Hok1 & Hr).
  exists a1. split; [done|]. split.
  - intros Hall. destruct r as [ms|e]; cycle 1.
    { destruct Hr as (i & e' & Hi & He & _). specialize (Hall i Hi). by rewrite He in Hall. }
    destruct Hr as (_ & -> & Hacc). cbn [app] in *.
    pose proof (λ m, check_accounted actions reliable true flush_time a1 m Hok1) as Hc. cbv zeta in Hc.
    unfold AlertManager.flush. destruct (check_and_dispatch_expired_windows actions true flush_time a1) as [r a2].
    split; [done|]. intros m Hm. by apply Hc, Hacc.
  - intros (i & Hi & Hf). destruct r as [ms|e].
    { destruct Hr as (Hall & _). by rewrite (Hall i Hi) in Hf. }
    destruct Hr as (j & e' & Hj & He & ->). eauto.
Qed.
End Range.

(** ** The command *)

Definition print_summary_report (from_block to_block : Z) (matches : list MonitorMatch)
    (generated_alerts : gmap string nat) (successful_count : nat) : SummaryReport :=
  {| rp_range := (from_block, to_block); rp_total_blocks := calculate_total_blocks from_block to_block;
     rp_total_matches := length matches; rp_matches_by_monitor := group_matches_by_monitor matches;
     rp_generated_alerts := generated_alerts; rp_successful_count := successful_count |}.

Section Command.
Context `{AlloyPrimitives} `{DynAbi} `{RhaiEngine} `{TemplateEngine} `{DispatchEnv} `{UrlOps} `{DefaultHasher} `{ErrorTexts}.
Context `{SqliteChoices} `{SerdeLaws (list string)} `{Serde ActionConfig} `{SerdeLaws ActionPayload} `{CompletionOrder} `{LogsBloom}.
Context `{Serde ThrottleState} `{Serde AggregationState} `{!Sha256Injective}.
Context (parse_abi : string → result string JsonAbi) (env : string → option string).
Context (panics : list BlockData → bool) (evaluation_panics : list CorrelatedBlockData → bool).
Context (clock : nat → DateTime) (first_flush second_flush : DateTime).

(** The loop over the services of a context; the actions are those of its alert manager. *)
Definition context_actions (ctx : AppContext) : gmap string ActionConfig :=
  collect_map ac_name id (mv_actions (ctx_monitor_validator ctx)).

Definition context_loop (fuel : nat) (provider : RpcProvider) (ctx : AppContext) (from_block to_block : Z) :=
  let config := ctx_config ctx in
  let evm_source := rpc_data_source (mkRpcSource provider (registry_provider (ctx_monitor_manager ctx))) in
  run_dry_run_loop evm_source (ctx_monitor_manager ctx) (context_actions ctx)
    (mkFetchConfig (Z.to_nat (cfg_concurrency config)) (cfg_log_chunk_size config))
    panics evaluation_panics clock first_flush fuel from_block to_block (ctx_alert_manager ctx).

(** [execute]: [None] when the loop or the final drain has not ended by then. *)
Definition dry_run_execute (fuel drain_fuel : nat) (provider : RpcProvider) (e : Environment) (outbox_config : OutboxConfig)
    (from_block to_block : Z) (db : SqliteStateRepository) (w : World)
    : option (result DryRunError SummaryReport * (SqliteStateRepository * World)) :=
  match build_context parse_abi env e db with
  | (Err err, db) => Some (Err (DryRunAppContext err), (db, w))
  | (Ok ctx, _) =>
      match context_loop fuel provider ctx from_block to_block with
      | None => None
      | Some (Err err, a) => Some (Err err, (am_state_repository a, w))
      | Some (Ok matches, a) =>
          match AlertManager.flush (context_actions ctx) second_flush a with
          | (Err err, a) => Some (Err (DryRunAlertManager err), (am_state_repository a, w))
          | (Ok _, a) =>
              match drain_queue (dispatcher_execute (ctx_action_dispatcher ctx)) outbox_config drain_fuel 0
                      (mkOutboxState (am_state_repository a) w) with
              | None => None
              | Some (Err err, o) =>
                  Some (Err (DryRunActionDispatcher (ExecutionError (persistence_text err))), (os_state o, os_world o))
              | Some (Ok successful_count, o) =>
                  Some (Ok (print_summary_report from_block to_block matches (am_generated_alerts a) successful_count),
                    (os_state o, dispatcher_shutdown (ctx_action_dispatcher ctx) (os_world o)))
              end
          end
      end
  end.

Lemma group_matches_lookup matches name :
  default 0 (group_matches_by_monitor matches !! name) = length (filter (λ m, mm_monitor_name m = name) matches).
Proof.
  unfold group_matches_by_monitor. induction matches as [|m ms IH] using rev_ind; [done|].
  rewrite foldl_app, filter_app, length_app. cbn [foldl]. rewrite filter_cons. cbn.
  destruct (decide (mm_monitor_name m = name)) as [<-|Hne].
  - rewrite lookup_insert_eq. cbn. by rewrite IH.
  - rewrite lookup_insert_ne by done. cbn. by rewrite IH, Nat.add_0_r.
Qed.

Notation sourced := (am_sourced (S := SqliteStateRepository) (λ _, True)).

Lemma batches_sourced ds mgr acts cfg fuel cur to ms a r a' :
  sourced a → dry_run_batches ds mgr acts cfg panics evaluation_panics clock fuel cur to ms a = Some (r, a') → sourced a'.
Proof.
  revert cur ms a. induction fuel as [|fuel IH]; intros cur ms a Ha; [done|]. cbn [dry_run_batches].
  destruct (_ <=? _)%Z; [|intros [= <- <-]; done].
  destruct (fetch_blocks_concurrent _ _ _ _ _) as [fetched|]; [|done]. cbn [mbind option_bind].
  destruct (dry_run_batch _ _ _ _ _ _ _ a) as [r1 a1] eqn:E.
  assert (sourced a1) as Ha1.
  { revert E. unfold dry_run_batch, mbind, eff_bind, lift_result, eff_map_err.
    destruct (map_err _ fetched) as [bs|e]; [|by intros [= <- <-]].
    destruct bs as [|b bs]; [by intros [= <- <-]|].
    destruct (ok_or _ _) as [blocks|e]; [|by intros [= <- <-]].
    destruct (evaluate_batch _ _ _) as [[|m found]|e]; [by intros [= <- <-]| |by intros [= <- <-]].
    pose proof (batch_sourced acts (λ _, True) (stamped clock (length ms) (m :: found)) a Ha ltac:(done)) as Hb.
    destruct (process_matches_batch _ _ a) as [[u|e] a2]; intros [= <- <-]; exact Hb. }
  destruct r1 as [ms1|e]; [by apply IH|by intros [= <- <-]].
Qed.

Lemma context_loop_Ok fuel provider ctx from to ms a :
  sourced (ctx_alert_manager ctx) → context_loop fuel provider ctx from to = Some (Ok ms, a) → (from ≤ to)%Z ∧ sourced a.
Proof.
  intros Ha0. unfold context_loop, run_dry_run_loop, validate_block_range.
  destruct (Z.ltb_spec to from) as [|Hle]; [done|].
  destruct (dry_run_batches _ _ _ _ _ _ _ _ _ _ _ _) as [[[ms1|err] a1]|] eqn:Er; [|done|done].
  apply batches_sourced in Er; [|done].
  pose proof (scan_sourced (context_actions ctx) (λ _, True) true first_flush a1 Er) as Ha1. unfold AlertManager.flush.
  destruct (check_and_dispatch_expired_windows _ true first_flush a1) as [[u|err] a2]; [|done].
  intros Heq. by injection Heq as _ <-.
Qed.

(** The report of a dry run tells what happened: the range and the number of its blocks,
    the number of matches found and, for every monitor, that of its own; and the count
    of deliveries is that of all the alerts enqueued by then, every one of which has
    been delivered and removed from the outbox. *)
Theorem dry_run_report_correct fuel drain_fuel provider e outbox_config from to db w report db' w' :
  store_wf (sq_tables db) → (0 < ob_batch_size outbox_config)%Z → is_u64 from → is_u64 to → (to - from < u64_max)%Z →
  dry_run_execute fuel drain_fuel provider e outbox_config from to db w = Some (Ok report, (db', w')) →
  (from ≤ to)%Z ∧ rp_range report = (from, to) ∧ rp_total_blocks report = (to - from + 1)%Z ∧
  ∃ ctx s matches a1 a2,
    build_context parse_abi env e db = (Ok ctx, s) ∧ context_loop fuel provider ctx from to = Some (Ok matches, a1) ∧
    AlertManager.flush (context_actions ctx) second_flush a1 = (Ok tt, a2) ∧
    rp_total_matches report = length matches ∧
    (∀ name, default 0 (rp_matches_by_monitor report !! name) = length (filter (λ m, mm_monitor_name m = name) matches)) ∧
    rp_generated_alerts report = am_generated_alerts a2 ∧
    rp_successful_count report = length (outbox (am_state_repository a2)) ∧ outbox db' = [].
Proof.
  intros Hwf Hbatch Hf Ht Hrange. unfold dry_run_execute.
  destruct (build_context parse_abi env e db) as [[ctx|err] s] eqn:Eb; [|done].
  destruct (build_context_services _ _ _ _ _ _ Hwf Eb) as (Hrepo & Hwf1 & _).
  destruct (context_loop fuel provider ctx from to) as [[[ms|err] a1]|] eqn:El; [|done|done].
  destruct (AlertManager.flush (context_actions ctx) second_flush a1) as [[[]|err] a2] eqn:Ef; [|done].
  destruct (drain_queue _ _ _ _ _) as [[[n|err] o]|] eqn:Ed; [|done|done]. intros [= <- <- <-].
  assert (sourced (ctx_alert_manager ctx)) as Ha0.
  { split; [unfold am_ok; rewrite Hrepo; apply (wf_outbox _ Hwf1)|by intros ? _ ? _|done]. }
  destruct (context_loop_Ok _ _ _ _ _ _ _ Ha0 El) as [Hle Ha1].
  pose proof (scan_sourced (context_actions ctx) (λ _, True) true second_flush a1 Ha1) as Ha2.
  unfold AlertManager.flush in Ef. rewrite Ef in Ha2. cbn in Ha2.
  destruct (drain_queue_Ok _ _ drain_fuel 0 (mkOutboxState (am_state_repository a2) w) n o (so_ok _ _ Ha2) Hbatch Ed) as (_ & Hnil & ->).
  split; [done|]. split; [done|]. split.
  { cbn. unfold calculate_total_blocks, u64_add, u64_sub, u64_wrap. revert Hf Ht Hrange. unfold_width. intros.
    rewrite (Z.mod_small (to - from)) by lia. by rewrite Z.mod_small by lia. }
  exists ctx, s, ms, a1, a2. split; [done|]. split; [done|].
  split; [done|]. split; [done|]. split; [intros name; apply group_matches_lookup|]. by split_and!.
Qed.
End Command.

(** ** A concrete dry run *)

Import MonitorMatch.Demo AbiDemo RhaiDemo DispatchDemo Interfaces.SerdeDemo InterfacesDemo StoreDemo RegistryDemo
  ProvidersDemo ContextDemo.

Module DryRunDemo.
(** A transaction of 100 wei in every block. *)
Definition demo_chain (n : Z) : Block := mkBlock n (1000 + n) [] (FullTxs [AbiDemo.demo_tx (10 * n) (Some 1%Z) []]).
Definition chain_ds : DataSource := {|
  fetch_block_core_data n := Ok (demo_chain n, []);
  fetch_block_only n := Ok (demo_chain n);
  fetch_logs_for_range a b := Ok [];
  get_current_block_number := Ok 100%Z;
  fetch_receipts hs _ := Ok (filter (λ p, p.1 ∈ hs) ∅)
|}.
Lemma chain_serves : serves chain_ds 10 70 demo_chain [] ∅.
Proof. split; intros; try split; reflexivity. Qed.

Definition manager : MonitorManager := MonitorManager_new [demo_monitor 1 None None "tx" ["hook"]] RhaiCompiler_new service.
Definition hook_actions : gmap string ActionConfig := {["hook" := slack_action]}.
Definition no_alerts : AlertManager (S := MemStore) := mkAlertManager mem_empty ∅ ∅ ∅.
Definition two_batches := run_dry_run_loop chain_ds manager hook_actions (mkFetchConfig 4 0) (λ _, false) (λ _, false)
  (λ _, 0%Z) 0%Z 3 10 70 no_alerts.

Definition chain_provider : RpcProvider := {|
  get_block_by_number n := Ok (Some (demo_chain n));
  get_logs a b ts := Ok [];
  get_transaction_receipt h := Ok None;
  get_block_number := Ok 100%Z
|}.
Definition big : MonitorConfig := mkMonitorConfig "big" "net" None None "tx" ["out"] Active.
Definition dry_environment : Environment :=
  mkEnvironment (settings (config (Absolute 500))) None (Some (Ok abi_dir)) (file [action "out"]) (file [big]) (Ok 1000%Z)
    all_features.
Definition outcome := dry_run_execute ContextDemo.parse_abi (λ _, None) (λ _, false) (λ _, false) (λ _, 0%Z) 0%Z 0%Z 2 2
  chain_provider dry_environment (mkOutboxConfig 100 10 500) 10 12 (demo_db []) quiet_world.
End DryRunDemo.
Import DryRunDemo.

Lemma run_dry_run_loop_correct_witness :
  ∃ a2, two_batches = Some (Ok (dry_run_blocks manager demo_chain [] ∅ 10 70 ≫= block_matches (engine_of manager)), a2) ∧
    (∀ m, m ∈ dry_run_blocks manager demo_chain [] ∅ 10 70 ≫= block_matches (engine_of manager) → accounted hook_actions a2 m) ∧
    length (outbox (am_state_repository a2)) = 61.
Proof.
  assert ((length ∘ outbox ∘ am_state_repository ∘ snd <$> two_batches) = Some 61) as Hlen by (vm_compute; reflexivity).
  assert (∀ items (s : MemStore), is_ok (enqueue_outbox_batch items s).1 = true) as Hrel by reflexivity.
  destruct (run_dry_run_loop_correct chain_ds manager hook_actions (mkFetchConfig 4 0) (λ _, 0%Z) 0%Z Hrel
    10 70 demo_chain [] ∅ chain_serves ltac:(split; vm_compute; discriminate) ltac:(vm_compute; discriminate) (Nat.lt_0_succ 3)
    ltac:(vm_compute; discriminate) ltac:(vm_compute; discriminate)
    ltac:(apply (bool_decide_unpack (NoDup _)); vm_compute; exact I) 3 no_alerts mem_empty_ok ltac:(vm_compute; discriminate))
    as [_ (a1 & Hok1 & Hall & _)]; [vm_compute; discriminate|].
  assert (∀ i, i ∈ dry_run_blocks manager demo_chain [] ∅ 10 70 ≫= cb_items →
    is_ok (evaluate_item (engine_of manager) i) = true) as Hitems.
  { assert (forallb (λ i, is_ok (evaluate_item (engine_of manager) i)) (dry_run_blocks manager demo_chain [] ∅ 10 70 ≫= cb_items)
      = true) as Hb by (vm_compute; reflexivity).
    intros i Hi. apply (proj1 (List.forallb_forall _ _) Hb), list_elem_of_In, Hi. }
  specialize (Hall Hitems). unfold two_batches in *.
  destruct (AlertManager.flush hook_actions 0 a1) as [r a2]. destruct Hall as [E Hacc].
  assert (is_ok <$> (fst <$> two_batches) = Some true) as Hr by (vm_compute; reflexivity).
  unfold two_batches in Hr. rewrite E in Hr, Hlen. destruct r as [u|e]; [|discriminate Hr].
  exists a2. split; [exact E|]. split; [exact Hacc|]. by injection Hlen.
Defined.

Lemma dry_run_report_correct_witness :
  ∃ report db' w', outcome = Some (Ok report, (db', w')) ∧
    rp_total_blocks report = 3%Z ∧ rp_total_matches report = 3 ∧ rp_matches_by_monitor report !! "big" = Some 3 ∧
    rp_successful_count report = 3 ∧ outbox db' = [] ∧ length (w_requests w') = 3.
Proof.
  assert (match outcome with
    | Some (Ok report, (db', w')) => rp_total_matches report = 3 ∧ rp_matches_by_monitor report !! "big" = Some 3 ∧
        rp_successful_count report = 3 ∧ length (w_requests w') = 3
    | _ => False end) as Ho by (vm_compute; by split_and!).
  destruct outcome as [[[report|err] [db' w']]|] eqn:E; [|destruct Ho|destruct Ho].
  destruct Ho as (Hm & Hb & Hs & Hw).
  destruct (dry_run_report_correct ContextDemo.parse_abi (λ _, None) (λ _, false) (λ _, false) (λ _, 0%Z) 0%Z 0%Z 2 2 chain_provider
    dry_environment (mkOutboxConfig 100 10 500) 10 12 (demo_db []) quiet_world report db' w' empty_store_wf ltac:(vm_compute; reflexivity)
    ltac:(split; vm_compute; discriminate) ltac:(split; vm_compute; discriminate) ltac:(vm_compute; reflexivity) E) as (_ & _ & Ht & _ & _ & _ & _ & _ & _ & _ & _ & _ & _ & _ & _ & Hnil).
  exists report, db', w'.
  split; [reflexivity|]. split; [exact Ht|]. split; [exact Hm|]. split; [exact Hb|]. split; [exact Hs|]. split; [exact Hnil|exact Hw].
Defined.

(** Near the largest block number the end of a batch wraps around: the batch is empty, and
    the loop goes on with block 40. *)
Lemma batch_end_wraps :
  calculate_batch_end_block (2 ^ 64 - 10) BATCH_SIZE u64_max = 39%Z ∧ block_range (2 ^ 64 - 10) 39 = [].
Proof. split; vm_compute; reflexivity. Qed.
