(* ===== verification/Supervisor.v ===== *)
(** * The supervisor ([src/supervisor/mod.rs])

    The loop that watches the services, the signals and the configuration changes the
    API announces, and the shutdown: the tasks are aborted, the alerts flushed and the
    outbox drained within a timeout. *)
From S2P Require Import Prelude Config Models MonitorMatch Abi Conversions RhaiScript Registry Manager Filtering Interfaces Providers AlertManager OutboxProcessor BlockProcessor Ingestor HttpPool Dispatch Validator Store Frames Context Api Requests Pipeline.

(** ** The task of the HTTP server *)

Section HttpServer.
Context {SocketAddr : Type} (parse_addr : string → option SocketAddr) (bind : SocketAddr → bool).

(** [run_server_from_config] up to its first request: where it listens, or the panic that
    stops its task. *)
Inductive ServerStart :=
| ServerPanics (message : string)
| ServerListens (addr : SocketAddr).

Definition run_server_from_config (server : ServerConfig) : ServerStart :=
  match parse_addr (listen_address server) with
  | None => ServerPanics "Invalid server.listen_address format"
  | Some addr =>
      match api_key server with
      | None => ServerPanics "`server.api_key` or `ARGUS_API_KEY` must be set to run the API server"
      | Some _ => if bind addr then ServerListens addr else ServerPanics "Failed to bind address"
      end
  end.

(** The supervisor spawns it when there is a key. *)
Definition http_server_task (server : ServerConfig) : option ServerStart :=
  match api_key server with
  | Some _ => Some (run_server_from_config server)
  | None => None
  end.

(** The panic for a missing key is out of reach, and a server listens only where it was told
    to, with a key for its write endpoints. *)
Lemma http_server_cases server :
  match http_server_task server with
  | None => api_key server = None
  | Some (ServerListens addr) => parse_addr (listen_address server) = Some addr ∧ is_Some (api_key server)
  | Some (ServerPanics m) => m = "Invalid server.listen_address format" ∨ m = "Failed to bind address"
  end.
Proof.
  unfold http_server_task, run_server_from_config. destruct (api_key server) eqn:Ek; [|done].
  destruct (parse_addr _) as [addr|] eqn:Ea; [|by left]. destruct (bind addr); [by split|by right].
Qed.

(** Without a [server] section the API is off, whatever the environment says. *)
Lemma no_section_no_server : http_server_task ServerConfig_default = None.
Proof. done. Qed.
End HttpServer.

Section Supervisor.
Context `{AlloyPrimitives} `{DynAbi} `{RhaiEngine} `{TemplateEngine} `{DispatchEnv} `{DefaultHasher} `{CompletionOrder} `{UrlOps}.
Context `{SqliteChoices} `{Serde (list string)} `{Serde ActionConfig} `{Serde ActionPayload} `{!ApiTexts}.
Context {B S : Type} `{BlockStateRepository B} `{OutboxRepository S} `{KeyValueStore S}.
Context `{Serde ThrottleState} `{Serde AggregationState}.
Context (cfg : AppConfig) (outbox_config : OutboxConfig) (acts : gmap string ActionConfig) (d : gmap string ActionType).
Context (validator : MonitorValidator) (normalize_json : string → result string string) (api_key : string).

(** The running system: the services, the API with the tables it changes and the requests
    it has open, and the version of the configuration channel the supervisor has seen.
    [rn_reloaded] and [rn_abandoned] are history: whether the last reload could read the
    monitors, and whether the client of a writing request left before its answer. *)
Record Running := mkRunning {
  rn_pipeline : Pipeline (B := B) (S := S);
  rn_api : ApiSystem;
  rn_seen : nat;
  rn_cancelled : bool;
  rn_reloaded : bool;
  rn_requests : list OpenRequest;
  rn_abandoned : bool
}.
Implicit Types (s : Running).

(** [config_rx.changed()]: the monitors are read again. *)
Definition config_changed s : Running :=
  let '(r, repo) := get_monitors (cfg_network_id cfg) (api_repo (rn_api s)) in
  let api := mkApi repo (api_compiler (rn_api s)) (api_config_tx (rn_api s)) in
  let p := match r with Ok monitors => reload_step monitors (rn_pipeline s) | Err _ => rn_pipeline s end in
  mkRunning p api (cfg_version (api_config_tx (rn_api s))) (rn_cancelled s) (is_ok r) (rn_requests s) (rn_abandoned s).

Definition cancel s : Running :=
  mkRunning (rn_pipeline s) (rn_api s) (rn_seen s) true (rn_reloaded s) (rn_requests s) (rn_abandoned s).

Definition with_requests (api : ApiSystem) (requests : list OpenRequest) (abandoned : bool) s : Running :=
  mkRunning (rn_pipeline s) api (rn_seen s) (rn_cancelled s) (rn_reloaded s) requests abandoned.

(** While the loop runs: the services step; requests come to the API, each takes a turn
    among the others, and a client may leave, which drops its request at an await; a change
    is seen, a task fails or a signal comes. *)
Inductive supervisor_step s : Running → Prop :=
| sup_service p :
    pipeline_step cfg outbox_config acts d (rn_pipeline s) p → pl_manager p = pl_manager (rn_pipeline s) →
    supervisor_step s (mkRunning p (rn_api s) (rn_seen s) (rn_cancelled s) (rn_reloaded s) (rn_requests s) (rn_abandoned s))
| sup_request metrics rq :
    let r := mkOpen rq (on_request (cfg_network_id cfg) validator normalize_json api_key metrics rq) in
    supervisor_step s (with_requests (rn_api s) (rn_requests s ++ [r]) (rn_abandoned s) s)
| sup_turn i r :
    rn_requests s !! i = Some r →
    supervisor_step s
      (with_requests (take_turn r (rn_api s)).2 (<[i := (take_turn r (rn_api s)).1]> (rn_requests s)) (rn_abandoned s) s)
| sup_client_left i r :
    rn_requests s !! i = Some r → waiting (or_todo r) = true →
    supervisor_step s
      (with_requests (rn_api s) (delete i (rn_requests s)) (rn_abandoned s || requires_auth (rq_endpoint (or_request r))) s)
| sup_config_changed : rn_seen s < cfg_version (api_config_tx (rn_api s)) → supervisor_step s (config_changed s)
| sup_cancel : supervisor_step s (cancel s).

(** ** Graceful shutdown *)

(** [join_set.shutdown()] aborts the tasks: what is in the channels is dropped. *)
Definition aborted (p : Pipeline (B := B) (S := S)) : Pipeline :=
  mkPipeline [] [] [] (pl_progress p) (pl_alerts p) (pl_world p) (pl_manager p) (pl_received p) (pl_found p).

Definition flushed (now : DateTime) (p : Pipeline (B := B) (S := S)) : Pipeline :=
  mkPipeline (pl_raw p) (pl_correlated p) (pl_matches p) (pl_progress p) (AlertManager.shutdown acts now (pl_alerts p))
    (pl_world p) (pl_manager p) (pl_received p) (pl_found p).

Definition pipeline_outbox (p : Pipeline (B := B) (S := S)) : OutboxState (S := S) (W := World * list ActionPayload) :=
  mkOutboxState (am_state_repository (pl_alerts p)) (pl_world p).

Definition with_outbox (p : Pipeline (B := B) (S := S)) (o : OutboxState (S := S)) (w : World * list ActionPayload) : Pipeline :=
  let a := pl_alerts p in
  mkPipeline (pl_raw p) (pl_correlated p) (pl_matches p) (pl_progress p)
    (mkAlertManager (os_state (W := World * list ActionPayload) o) (am_generated_alerts a) (am_throttle_states a) (am_aggregation_states a))
    w (pl_manager p) (pl_received p) (pl_found p).

(** [drain_queue] after [n] batches, when it has not ended by then. *)
Fixpoint drain_cut (n : nat) (o : OutboxState (S := S) (W := World * list ActionPayload)) : option OutboxState :=
  match n with
  | 0 => Some o
  | Datatypes.S n =>
      match on_state (get_pending_outbox (ob_batch_size outbox_config)) o with
      | (Ok (i :: items), o) =>
          match process_batch_items (logged_execute d) (i :: items) o with
          | (Ok _, o) => drain_cut n o
          | (Err _, _) => None
          end
      | _ => None
      end
  end.

Definition with_pipeline s (p : Pipeline (B := B) (S := S)) (repo : SqliteStateRepository) : Running :=
  mkRunning p (mkApi repo (api_compiler (rn_api s)) (api_config_tx (rn_api s))) (rn_seen s) (rn_cancelled s) (rn_reloaded s)
    (rn_requests s) (rn_abandoned s).

(** The cleanup, ended or cut short by its timeout between two of its calls; the result
    of the final drain when there is one. *)
Inductive shut_down (now : DateTime) s : Running → option (result PersistenceError nat) → Prop :=
| timeout_before_flush :
    shut_down now s (with_pipeline s (aborted (rn_pipeline s)) (api_repo (rn_api s))) None
| timeout_in_drain n o :
    let p := flushed now (aborted (rn_pipeline s)) in
    drain_cut n (pipeline_outbox p) = Some o →
    shut_down now s (with_pipeline s (with_outbox p o (os_world o)) (api_repo (rn_api s))) None
| timeout_after_drain fuel r o :
    let p := flushed now (aborted (rn_pipeline s)) in
    drain_queue (logged_execute d) outbox_config fuel 0 (pipeline_outbox p) = Some (r, o) →
    shut_down now s (with_pipeline s (with_outbox p o (os_world o)) (api_repo (rn_api s))) (Some r)
| cleaned_up fuel r o :
    let p := flushed now (aborted (rn_pipeline s)) in
    drain_queue (logged_execute d) outbox_config fuel 0 (pipeline_outbox p) = Some (r, o) →
    shut_down now s
      (with_pipeline s (with_outbox p o (dispatcher_shutdown d (os_world o).1, (os_world o).2))
         (cleanup (Store.flush (api_repo (rn_api s))).2).2) (Some r).

(** [run]: the loop until the cancellation, then the shutdown. *)
Definition supervised (now : DateTime) s s' (r : option (result PersistenceError nat)) : Prop :=
  ∃ s1, rtc supervisor_step s s1 ∧ rn_cancelled s1 = true ∧ shut_down now s1 s' r.
End Supervisor.

(** ** No stale snapshot *)

Section Fresh.
Context `{AlloyPrimitives} `{DynAbi} `{RhaiEngine} `{TemplateEngine} `{DispatchEnv} `{DefaultHasher} `{CompletionOrder} `{UrlOps}.
Context `{SqliteChoices} `{SerdeLaws (list string)} `{Serde ActionConfig} `{SerdeLaws ActionPayload} `{!ApiTexts} `{!Sha256Injective}.
Context {B S : Type} `{BlockStateRepository B} `{OutboxRepository S} `{KeyValueStore S}.
Context `{Serde ThrottleState} `{Serde AggregationState}.
Context (cfg : AppConfig) (outbox_config : OutboxConfig) (acts : gmap string ActionConfig) (d : gmap string ActionType).
Context (validator : MonitorValidator) (normalize_json : string → result string string) (api_key : string).
Context (svc : AbiService).
Implicit Types (s : Running (B := B) (S := S)).

Notation step := (supervisor_step cfg outbox_config acts d validator normalize_json api_key).
Notation tables_of s := (sq_tables (api_repo (rn_api s))).
Notation version s := (cfg_version (api_config_tx (rn_api s))).
Notation manager_of s := (pl_manager (rn_pipeline s)).

(** No request has written what it still has to announce. *)
Definition all_announced s : Prop := ∀ r, r ∈ rn_requests s → ¬ announcing (or_todo r).

(** The snapshot is that of monitors that were stored; of those stored now, when every
    change has been announced and seen and the last reload succeeded. *)
Record fresh s : Prop := {
  fr_receiver : cfg_receiver (api_config_tx (rn_api s)) = true;
  fr_cache : cache_ok (mgr_compiler (manager_of s));
  fr_service : mgr_abi_service (manager_of s) = svc;
  fr_requests : Forall open_ok (rn_requests s);
  fr_seen : rn_seen s ≤ version s;
  fr_snapshot : ∃ ms, load (manager_of s) = snapshot_spec svc ms ∧
    (rn_seen s = version s → rn_reloaded s = true → rn_abandoned s = false → all_announced s →
     listed_monitors (cfg_network_id cfg) (tables_of s) = Ok ms)
}.

Lemma listed_same n t t' : monitors t = monitors t' → listed_monitors n t = listed_monitors n t'.
Proof. unfold listed_monitors, get_monitors, select, execute, mbind, eff_bind. cbn. by intros ->. Qed.

Lemma config_changed_fresh s : fresh s → fresh (config_changed cfg s).
Proof.
  intros [Hr Hc Hs Hq Hv (ms & Hl & Hf)]. unfold config_changed.
  destruct (get_monitors (cfg_network_id cfg) (api_repo (rn_api s))) as [[ms'|e] repo] eqn:Eg.
  - destruct (get_monitors_Ok _ _ _ _ Eg) as [Hlist Ht].
    destruct (organize_assets_spec ms' svc (mgr_compiler (manager_of s)) Hc) as [Ho Hc'].
    unfold reload_step, update. rewrite Hs. destruct (organize_assets ms' svc _) as [st c]. cbn in Ho, Hc'.
    split; cbn; [done|done|done|done|done|]. exists ms'. split; [done|]. intros _ _ _ _. by rewrite Ht.
  - split; cbn; [done|done|done|done|done|]. by exists ms.
Qed.

(** A turn of a request. *)
Lemma turn_fresh s i r :
  fresh s → rn_requests s !! i = Some r →
  fresh (with_requests (take_turn r (rn_api s)).2 (<[i := (take_turn r (rn_api s)).1]> (rn_requests s)) (rn_abandoned s) s).
Proof.
  intros [Hr Hc Hsv Hq Hv (ms & Hl & Hf)] Hi. assert (open_ok r) as Hok by (by eapply Forall_lookup_1).
  pose proof (take_turn_ok r (rn_api s) Hok) as Hok'. pose proof (take_turn_announces r (rn_api s) Hok Hr) as Ha.
  destruct (take_turn r (rn_api s)) as [r' api]. cbn [fst snd] in *. destruct Ha as [Hr' Ha].
  split; cbn [with_requests rn_api rn_seen rn_pipeline rn_reloaded rn_requests rn_abandoned]; [done..| |lia|].
  { by apply Forall_insert. }
  exists ms. split; [done|]. intros E Hre Hab Hall. destruct Ha as [Ev|(Ev & Hn & Ha)]; [lia|].
  destruct Ha as [Hm|Ha].
  - rewrite (listed_same _ _ (tables_of s)) by done. apply Hf; [congruence|done..|].
    intros r2 Hr2. apply list_elem_of_lookup in Hr2 as [j Hj]. destruct (decide (i = j)) as [<-|Hne]; [by simplify_eq|].
    apply Hall. cbn. apply list_elem_of_lookup. exists j. by rewrite list_lookup_insert_ne.
  - destruct (Hall r'); [|done]. cbn. apply list_elem_of_lookup. exists i. apply list_lookup_insert_eq. by eapply lookup_lt_Some.
Qed.

Lemma step_fresh s s' : fresh s → step s s' → fresh s'.
Proof.
  intros Hs Hstep. pose proof (config_changed_fresh s Hs) as Hchanged. pose proof Hs as [Hr Hc Hsv Hq Hv (ms & Hl & Hf)].
  destruct Hstep as [p _ Hm|metrics rq r|i r Hi|i r Hi Hw|_|].
  - split; cbn; rewrite ?Hm; [done..|]. by exists ms.
  - split; cbn; [done..| |done|].
    { apply Forall_app. split; [done|]. constructor; [apply open_request_ok|done]. }
    exists ms. split; [done|]. intros E Hre Hab Hall. apply Hf; [done..|].
    intros r2 Hr2. apply Hall. cbn. apply elem_of_app. by left.
  - by apply turn_fresh.
  - assert (open_ok r) as [_ Hreads] by (by eapply Forall_lookup_1).
    split; cbn; [done..| |done|].
    { by apply Forall_delete. }
    exists ms. split; [done|]. intros E Hre [Hab Hread]%orb_false_iff Hall. apply Hf; [done..|].
    intros r2 Hr2. rewrite (delete_Permutation _ _ _ Hi) in Hr2. apply elem_of_cons in Hr2 as [->|Hr2]; [|by apply Hall].
    eapply reads_not_announcing; [exact Hr|]. by apply Hreads.
  - exact Hchanged.
  - split; cbn; [done..|]. by exists ms.
Qed.

(** The engine is never silently stale: in every run of the supervised system, however the
    requests and the services are interleaved, the snapshot of the monitor manager is the
    one of monitors that were stored, and when no change waits to be announced or to be
    seen, the last reload could read the monitors and no client left its writing request
    in the middle, it is exactly the one of the monitors stored now. *)
Theorem snapshot_never_stale s s' : fresh s → rtc step s s' → fresh s'.
Proof. intros Hs Hrun. revert Hs. induction Hrun as [s|s s1 s' Hstep _ IH]; intros Hs; [done|]. by eapply IH, step_fresh. Qed.
End Fresh.

(** ** The shutdown *)

Section Cut.
Context `{AlloyPrimitives} `{TemplateEngine} `{DispatchEnv} `{DefaultHasher} `{CompletionOrder}.
Context {S : Type} `{OutboxRepository S} `{!OutboxLaws S}.
Context (outbox_config : OutboxConfig) (d : gmap string ActionType) (batch_size : (0 ≤ ob_batch_size outbox_config)%Z).
Implicit Types (o : OutboxState (S := S) (W := World * list ActionPayload)).

Lemma drain_cut_polled n o o' : os_ok o → drain_cut outbox_config d n o = Some o' → polled o o'.
Proof.
  revert o. induction n as [|n IH]; intros o Hok; cbn [drain_cut]; [intros [= <-]; by apply polled_refl|]. unfold on_state.
  destruct (get_pending_outbox (ob_batch_size outbox_config) (os_state o)) as [[items|e] st] eqn:Eg; [|done].
  destruct (drain_round_polled outbox_config d batch_size o _ st items Hok Eg ltac:(by left)) as [_ H2'].
  destruct items as [|i items]; [done|]. destruct (process_batch_items _ (i :: items) _) as [[m|e] o2]; [|done].
  intros Hc. eapply polled_trans; [exact H2'|]. eapply IH; [apply H2'|exact Hc].
Qed.
End Cut.

Section Shutdown.
Context `{AlloyPrimitives} `{DynAbi} `{RhaiEngine} `{TemplateEngine} `{DispatchEnv} `{DefaultHasher} `{CompletionOrder} `{UrlOps}.
Context `{SqliteChoices} `{Serde (list string)} `{Serde ActionConfig} `{Serde ActionPayload} `{!ApiTexts}.
Context {B S : Type} `{BlockStateRepository B} `{OutboxRepository S} `{!OutboxLaws S} `{KeyValueStore S} `{!KeyValueLaws S}.
Context `{!AlertStoreLaws S} `{Serde ThrottleState} `{Serde AggregationState}.
Context (outbox_config : OutboxConfig) (acts : gmap string ActionConfig) (d : gmap string ActionType).
Context (batch_size : (0 < ob_batch_size outbox_config)%Z).
Context (reliable : ∀ items (s : S), is_ok (enqueue_outbox_batch items s).1 = true).
Implicit Types (s : Running (B := B) (S := S)) (p : Pipeline (B := B) (S := S)).
Implicit Types (o : OutboxState (S := S) (W := World * list ActionPayload)).

Notation alerts_of s := (pl_alerts (rn_pipeline s)).
Notation delivered_keys s := (idempotency_key <$> (pl_world (rn_pipeline s)).2).

(** A match is reported: it was delivered under the key of its own alert or of the
    aggregated alert it belongs to. *)
Definition reported s (m : MonitorMatch) : Prop :=
  match acts !! mm_action_name m with
  | None => True
  | Some c =>
      match ac_policy c with
      | None => mm_id m ∈ delivered_keys s
      | Some (Throttle _) => True
      | Some (Aggregation p) =>
          ∃ ms, mm_id m ∈ mm_id <$> ms ∧ idempotency_key (Aggregated (mm_action_name m) ms (agg_template p)) ∈ delivered_keys s
      end
  end.

(** The outbox after the flush. *)
Lemma flushed_spec now p :
  am_ok (pl_alerts p) → let a := pl_alerts (flushed acts now p) in
  am_ok a ∧ (∀ k, k ∈ keys (pl_alerts p) → k ∈ keys a) ∧
  ∀ m, accounted acts (pl_alerts p) m →
    match acts !! mm_action_name m with
    | None => True
    | Some c =>
        match ac_policy c with
        | None => mm_id m ∈ keys a
        | Some (Throttle _) => True
        | Some (Aggregation p) =>
            ∃ ms, mm_id m ∈ mm_id <$> ms ∧ idempotency_key (Aggregated (mm_action_name m) ms (agg_template p)) ∈ keys a
        end
    end.
Proof.
  intros Hok. cbn. unfold AlertManager.shutdown, AlertManager.flush. split; [by apply check_ok|].
  split; [intros k; by apply check_keeps_keys|]. intros m Hm.
  destruct (check_accounted acts reliable true now (pl_alerts p) m Hok Hm) as [_ Ha]. revert Ha. unfold accounted.
  destruct (acts !! mm_action_name m) as [c|]; [|done]. destruct (ac_policy c) as [[pol|pol]|]; [|done|done].
  intros [(st & Hst & Hin)|Hk]; [|done]. apply (forced_empties acts reliable) in Hst; [|done].
  unfold ids in Hin. rewrite Hst in Hin. by apply elem_of_nil in Hin.
Qed.

Lemma polled_keys o o' k :
  polled o o' → k ∈ item_key <$> os_outbox o →
  k ∈ item_key <$> os_outbox o' ∨ k ∈ idempotency_key <$> (os_world o').2.
Proof.
  intros [_ _ (pl & Hlog & _ & Hall)] (i & -> & Hi)%list_elem_of_fmap. destruct (Hall i Hi) as [(j & Hj & E)|Hp].
  - left. apply list_elem_of_fmap. exists j. split; [|done]. unfold item_key. apply (f_equal snd) in E. cbn in E. by rewrite E.
  - right. rewrite Hlog, fmap_app. apply elem_of_app. right. by apply (list_elem_of_fmap_2 idempotency_key).
Qed.

(** What a drain of the flushed outbox keeps, and what a complete one delivers. *)
Section Drained.
Context (now : DateTime) (s : Running (B := B) (S := S)) (Hok : am_ok (alerts_of s)).
Let p := flushed acts now (aborted (rn_pipeline s)).

Lemma flushed_ok : os_ok (pipeline_outbox p).
Proof. apply flushed_spec, Hok. Qed.

Lemma drained_keeps o c repo :
  polled (pipeline_outbox p) o → let s2 := with_pipeline s (with_outbox p o (c, (os_world o).2)) repo in
  pl_progress (rn_pipeline s2) = pl_progress (rn_pipeline s) ∧
  (∀ k, k ∈ keys (alerts_of s) ∨ k ∈ delivered_keys s → k ∈ keys (alerts_of s2) ∨ k ∈ delivered_keys s2).
Proof.
  intros Hp s2. split; [done|]. intros k [Hk|Hk].
  - apply (polled_keys _ _ k Hp). by apply flushed_spec.
  - right. destruct Hp as [_ _ (pl & Hlog & _)]. change (k ∈ idempotency_key <$> (os_world o).2).
    rewrite Hlog, fmap_app. apply elem_of_app. by left.
Qed.

Lemma drained_reports fuel o n c repo :
  drain_queue (logged_execute d) outbox_config fuel 0 (pipeline_outbox p) = Some (Ok n, o) →
  let s2 := with_pipeline s (with_outbox p o (c, (os_world o).2)) repo in
  keys (alerts_of s2) = [] ∧ ∀ m, accounted acts (alerts_of s) m → reported s2 m.
Proof.
  intros Hd s2. pose proof (drain_queue_polled outbox_config d ltac:(lia) fuel 0 (pipeline_outbox p) (Ok n) o flushed_ok Hd) as Hp.
  destruct (drain_queue_Ok _ _ fuel 0 (pipeline_outbox p) n o flushed_ok batch_size Hd) as (_ & Hnil & _). split.
  { change (item_key <$> os_outbox o = []). by rewrite Hnil. }
  assert (∀ k, k ∈ keys (pl_alerts p) → k ∈ delivered_keys s2) as Hall.
  { intros k Hk. destruct (polled_keys _ _ k Hp Hk) as [Hin|Hin]; [|exact Hin]. rewrite Hnil in Hin. by apply elem_of_nil in Hin. }
  intros m Hm. destruct (flushed_spec now (aborted (rn_pipeline s)) Hok) as (_ & _ & Hacc). specialize (Hacc m Hm). revert Hacc.
  unfold reported. destruct (acts !! mm_action_name m) as [c'|]; [|done].
  destruct (ac_policy c') as [[pol|pol]|]; [|done|by apply Hall].
  intros (ms & Hin & Hk). exists ms. split; [done|]. by apply Hall.
Qed.
End Drained.

End Shutdown.

(** ** Concrete runs *)

Import MonitorMatch.Demo AbiDemo RhaiDemo RegistryDemo Interfaces.SerdeDemo InterfacesDemo ProvidersDemo DispatchDemo
  StoreDemo ContextDemo BlockProcessorDemo ApiDemo PipelineDemo.

Module SupervisorDemo.
Notation Sup := (Running (B := DemoDb) (S := MemStore)).

(** Nothing stored; the API key is ["key"]. *)
Definition svc : AbiService := from_named_abis [("erc20", erc20)].
Definition fresh_pipeline : Pipeline (B := DemoDb) (S := MemStore) :=
  mkPipeline [] [] [] ∅ (mkAlertManager mem_empty ∅ ∅ ∅) (quiet_world, []) (MonitorManager_new [] RhaiCompiler_new svc) [] [].
Definition booted : Sup := mkRunning fresh_pipeline start 0 false true [] false.

Notation step := (supervisor_step BlockProcessorDemo.demo_config PipelineDemo.outbox_config PipelineDemo.actions dispatcher with_out json "key").

(** A request comes, and takes turns. *)
Definition post (m : MonitorConfig) : ApiRequest := mkRequest (Some "Bearer key") (CreateMonitor m).
Definition received (rq : ApiRequest) (s : Sup) : Sup :=
  with_requests (rn_api s) (rn_requests s ++ [mkOpen rq (on_request (cfg_network_id BlockProcessorDemo.demo_config) with_out json "key" (0, 0, 0)%Z rq)])
    (rn_abandoned s) s.
Definition turned (s : Sup) : Sup :=
  match rn_requests s !! 0 with
  | Some r => with_requests (take_turn r (rn_api s)).2 (<[0 := (take_turn r (rn_api s)).1]> (rn_requests s)) (rn_abandoned s) s
  | None => s
  end.
Definition left_alone (s : Sup) : Sup := with_requests (rn_api s) (delete 0 (rn_requests s)) (rn_abandoned s || true) s.

(** After its write; and once it is announced and seen. *)
Definition taken : Sup := received (post (ApiDemo.monitor "m" None)) booted.
Definition written : Sup := turned (turned (turned taken)).
Definition created : Sup := turned written.
Definition reloaded : Sup := config_changed BlockProcessorDemo.demo_config created.

Lemma turned_step (s : Sup) : rtc step s (turned s).
Proof. unfold turned. destruct (rn_requests s !! 0) eqn:E; [by apply rtc_once, sup_turn|done]. Qed.

Lemma demo_written : rtc step booted written.
Proof.
  transitivity taken; [exact (rtc_once _ _ (sup_request _ _ _ _ _ _ _ booted (0, 0, 0)%Z (post (ApiDemo.monitor "m" None))))|].
  transitivity (turned taken); [apply turned_step|].
  transitivity (turned (turned taken)); [apply turned_step|apply turned_step].
Qed.

Lemma demo_reload : rtc step booted reloaded.
Proof.
  transitivity written; [apply demo_written|]. transitivity created; [apply turned_step|].
  apply rtc_once. apply (sup_config_changed _ _ _ _ _ _ _ created). vm_compute. lia.
Qed.

Lemma booted_fresh : fresh BlockProcessorDemo.demo_config svc booted.
Proof.
  split; [reflexivity|apply cache_ok_new|reflexivity|constructor|vm_compute; lia|]. exists []. split; [vm_compute; reflexivity|].
  intros _ _ _ _. vm_compute. reflexivity.
Qed.

(** A supervised pipeline of the demonstration of the services. *)
Definition supervise (p : Pipeline (B := DemoDb) (S := MemStore)) : Sup := mkRunning p start 0 true true [] false.
Definition closed (p : Pipeline (B := DemoDb) (S := MemStore)) : option (Sup * option (result PersistenceError nat)) :=
  let p' := flushed PipelineDemo.actions 0 (aborted p) in
  '(r, o) ← drain_queue (logged_execute dispatcher) PipelineDemo.outbox_config 5 0 (pipeline_outbox p');
  Some (with_pipeline (supervise p) (with_outbox p' o (dispatcher_shutdown dispatcher (os_world o).1, (os_world o).2))
          (cleanup (Store.flush (api_repo start)).2).2, Some r).

Lemma closed_down p s r :
  closed p = Some (s, r) → shut_down PipelineDemo.outbox_config PipelineDemo.actions dispatcher 0 (supervise p) s r.
Proof.
  unfold closed. cbv zeta. destruct (drain_queue _ _ 5 0 _) as [[r' o]|] eqn:E; [|done].
  intros Heq. apply (f_equal (default (s, r))) in Heq. cbn in Heq.
  pose proof (f_equal fst Heq) as H1'. pose proof (f_equal snd Heq) as H2'. cbn [fst snd] in H1', H2'. rewrite <- H1', <- H2'.
  exact (cleaned_up _ _ _ 0%Z (supervise p) 5 r' o E).
Qed.
End SupervisorDemo.
Import SupervisorDemo.

(** A monitor created by a request is evaluated after the reload. *)
Lemma snapshot_never_stale_witness :
  fresh BlockProcessorDemo.demo_config svc reloaded ∧
  ∃ m, load (pl_manager (rn_pipeline reloaded)) = snapshot_spec svc [m] ∧ m_name m = "m".
Proof.
  pose proof (snapshot_never_stale BlockProcessorDemo.demo_config PipelineDemo.outbox_config PipelineDemo.actions dispatcher
    with_out json "key" svc booted reloaded booted_fresh demo_reload) as Hf.
  split; [exact Hf|]. destruct Hf as [_ _ _ _ _ (ms & Hl & Hms)].
  assert (forallb (λ r, negb (waiting (or_todo r))) (rn_requests reloaded) = true) as Hw by (vm_compute; reflexivity).
  pose proof (answered_announced (rn_requests reloaded) Hw) as Hall.
  specialize (Hms ltac:(vm_compute; reflexivity) ltac:(vm_compute; reflexivity) ltac:(vm_compute; reflexivity) Hall).
  assert (match listed_monitors (cfg_network_id BlockProcessorDemo.demo_config) (sq_tables (api_repo (rn_api reloaded))) with
    | Ok [m] => m_name m = "m" | _ => False end) as Hn by (vm_compute; reflexivity).
  rewrite Hms in Hn. destruct ms as [|m [|]]; [destruct Hn| |destruct Hn]. exists m. split; [exact Hl|exact Hn].
Defined.

(** A client that leaves after its monitor is written and before the change is announced:
    nothing waits to be seen, and the engine does not run the monitor. *)
Lemma abandoned_request_stale :
  rtc step booted (left_alone written) ∧
  rn_seen (left_alone written) = cfg_version (api_config_tx (rn_api (left_alone written))) ∧
  rn_requests (left_alone written) = [] ∧
  mr_name <$> monitors (sq_tables (api_repo (rn_api (left_alone written)))) = ["m"] ∧
  map_to_list (monitors_by_id (load (pl_manager (rn_pipeline (left_alone written))))) = [].
Proof.
  split; [|vm_compute; by split_and!]. transitivity written; [apply demo_written|]. apply rtc_once.
  destruct (rn_requests written !! 0) as [r|] eqn:E; [|vm_compute in E; discriminate E].
  assert ((λ r, (waiting (or_todo r), requires_auth (rq_endpoint (or_request r)))) <$> rn_requests written !! 0 = Some (true, true))
    as Hw by (vm_compute; reflexivity).
  rewrite E in Hw. apply (f_equal (default (false, false))) in Hw. cbn [fmap option_fmap option_map default from_option id] in Hw.
  apply pair_eq in Hw as [Hw Hr].
  pose proof (sup_client_left BlockProcessorDemo.demo_config PipelineDemo.outbox_config PipelineDemo.actions dispatcher with_out json "key" written 0 r E Hw) as Hs.
  rewrite Hr in Hs. exact Hs.
Qed.


(** A shutdown while matches wait in the channel, after the progress was recorded: they are
    neither delivered nor in the outbox, and the next start goes on with the next block. *)
Lemma shutdown_loses_matches :
  ∃ s' r, shut_down PipelineDemo.outbox_config PipelineDemo.actions dispatcher 0 (supervise filtered) s' r ∧
    mm_id <$> pl_found (rn_pipeline s') = ["1-hook-0x100"; "1-hook-0x101"] ∧
    keys (pl_alerts (rn_pipeline s')) = [] ∧ (pl_world (rn_pipeline s')).2 = [] ∧
    start_block (last_block (pl_progress (rn_pipeline s')) "net") 50 0 = 11%Z.
Proof.
  assert (match closed filtered with
    | Some (s', r) => mm_id <$> pl_found (rn_pipeline s') = ["1-hook-0x100"; "1-hook-0x101"] ∧
        keys (pl_alerts (rn_pipeline s')) = [] ∧ (pl_world (rn_pipeline s')).2 = [] ∧
        start_block (last_block (pl_progress (rn_pipeline s')) "net") 50 0 = 11%Z
    | None => False end) as Hc by (vm_compute; by split_and!).
  destruct (closed filtered) as [[s' r]|] eqn:E; [|destruct Hc]. exists s', r. split; [by apply closed_down|exact Hc].
Qed.

(** A monitor created while the system runs has no ABI linked to its address: its events
    are not decoded before the next start. *)
Lemma new_monitor_not_linked :
  let m := demo_monitor 1 (Some "0x1") (Some "erc20") "log" ["a"] in
  let item := mkItem transfer_tx [transfer_log] None in
  let mgr := update (MonitorManager_new [] RhaiCompiler_new svc) [m] in
  let linked := MonitorManager_new [m] RhaiCompiler_new (load_abis_from_monitors [m] svc).2 in
  (FilteringDemo.ids <$> evaluate_item (engine_of mgr) item) = Ok [] ∧
  (FilteringDemo.ids <$> evaluate_item (engine_of linked) item) = Ok ["1-a-0x7-4"].
Proof. split; vm_compute; reflexivity. Qed.
