(* ===== verification/Lives.v ===== *)
(** * The lives of the process over one database ([src/main.rs], [run_supervisor])

    The system as it is deployed: the services, the API and the start-up share one
    SQLite database, which outlives the process.  A life starts with the context built
    from the files and the tables, runs under the supervisor, and ends with a shutdown
    or a crash at any moment; the next one finds the tables as they were left. *)
From S2P Require Import Prelude Models MonitorMatch Abi Conversions RhaiScript Registry Manager Filtering Interfaces Providers AlertManager OutboxProcessor Frames BlockProcessor Ingestor HttpPool Dispatch Validator Loader Store Context Api Requests Pipeline Delivery Supervisor.

Section Lives.
Context `{AlloyPrimitives} `{DynAbi} `{RhaiEngine} `{TemplateEngine} `{DispatchEnv} `{UrlOps} `{DefaultHasher} `{CompletionOrder}.
Context `{!ErrorTexts} `{!ApiTexts} `{SqliteChoices}.
Context `{Serde (list string)} `{Serde ActionConfig} `{Serde ActionPayload} `{Serde ThrottleState} `{Serde AggregationState}.
Context (parse_abi : string → result string JsonAbi) (env : string → option string).
Context (normalize_json : string → result string string) (outbox_config : OutboxConfig).

Notation Db := SqliteStateRepository.
Notation Outside := (World * list ActionPayload)%type.

(** The three components that write the database, on the same one. *)
Definition share (db : Db) (s : Running (B := Db) (S := Db)) : Running :=
  let p := rn_pipeline s in
  let a := pl_alerts p in
  mkRunning
    (mkPipeline (pl_raw p) (pl_correlated p) (pl_matches p) db
       (mkAlertManager db (am_generated_alerts a) (am_throttle_states a) (am_aggregation_states a))
       (pl_world p) (pl_manager p) (pl_received p) (pl_found p))
    (mkApi db (api_compiler (rn_api s)) (api_config_tx (rn_api s)))
    (rn_seen s) (rn_cancelled s) (rn_reloaded s) (rn_requests s) (rn_abandoned s).

(** A step went from [db] to [db'] through one of them. *)
Definition wrote (db : Db) (s' : Running (B := Db) (S := Db)) (db' : Db) : Prop :=
  (pl_progress (rn_pipeline s'), am_state_repository (pl_alerts (rn_pipeline s')), api_repo (rn_api s')) ∈
    [(db', db, db); (db, db', db); (db, db, db')].

(** A process: what its context fixes, the database, where the outbox processor's task is, and
    the running system. *)
Record Life := mkLife {
  lf_config : AppConfig;
  lf_actions : gmap string ActionConfig;
  lf_dispatcher : gmap string ActionType;
  lf_validator : MonitorValidator;
  lf_db : Db;
  lf_delivery : Delivery;
  lf_running : Running (B := Db) (S := Db)
}.

(** [run_supervisor] and [SupervisorBuilder::build]: the context makes the supervisor, and
    [run] starts the services with empty channels. *)
Definition start_supervisor (ctx : AppContext) (actions : list ActionConfig) (db : Db) (w : Outside) : Life :=
  mkLife (ctx_config ctx) (collect_map ac_name id actions) (ctx_action_dispatcher ctx) (ctx_monitor_validator ctx) db Sleeping
    (share db
      (mkRunning (mkPipeline [] [] [] db (ctx_alert_manager ctx) w (ctx_monitor_manager ctx) [] [])
         (mkApi db (mgr_compiler (ctx_monitor_manager ctx)) (mkConfigChannel 0 true)) 0 false true [] false)).

Definition world_of (s : Running (B := Db) (S := Db)) : Outside := pl_world (rn_pipeline s).

(** The outside world after a step of the delivery. *)
Definition with_world (w : Outside) (s : Running (B := Db) (S := Db)) : Running :=
  let p := rn_pipeline s in
  mkRunning
    (mkPipeline (pl_raw p) (pl_correlated p) (pl_matches p) (pl_progress p) (pl_alerts p) w (pl_manager p) (pl_received p) (pl_found p))
    (rn_api s) (rn_seen s) (rn_cancelled s) (rn_reloaded s) (rn_requests s) (rn_abandoned s).

(** A step of the supervised system on the shared database; without a key in the
    configuration the API is not served.  The outbox is polled at once, or await by await
    with the steps of the others in between; no batch is taken while one is under way. *)
Inductive supervised_step (l : Life) : Life → Prop :=
| life_supervised s' db' :
    supervisor_step (lf_config l) outbox_config (lf_actions l) (lf_dispatcher l) (lf_validator l) normalize_json
      (default "" (cfg_api_key (lf_config l))) (lf_running l) s' →
    (cfg_api_key (lf_config l) = None →
       rn_api s' = rn_api (lf_running l) ∧ rn_requests s' = rn_requests (lf_running l)) →
    (lf_delivery l = Sleeping ∨ world_of s' = world_of (lf_running l)) →
    wrote (lf_db l) s' db' →
    supervised_step l
      (mkLife (lf_config l) (lf_actions l) (lf_dispatcher l) (lf_validator l) db' (lf_delivery l) (share db' s'))
| life_delivers dl o :
    delivery_step (logged_execute (lf_dispatcher l)) outbox_config
      (lf_delivery l, mkOutboxState (lf_db l) (world_of (lf_running l))) (dl, o) →
    supervised_step l
      (mkLife (lf_config l) (lf_actions l) (lf_dispatcher l) (lf_validator l) (os_state o) dl
         (share (os_state o) (with_world (os_world o) (lf_running l)))).

(** Between lives there are the tables and the outside world. *)
Inductive Machine :=
| Down (t : Tables) (w : Outside)
| Up (l : Life).

(** A start on a database some of whose statements will fail; a crash, also in the middle
    of a delivery; a shutdown, which aborts the task of the outbox wherever it is. *)
Inductive machine_step : Machine → Machine → Prop :=
| machine_starts e t faults w ctx db actions :
    build_context parse_abi env e (mkSqlite t faults) = (Ok ctx, db) →
    listed_actions (cfg_network_id (ctx_config ctx)) (sq_tables db) = Ok actions →
    machine_step (Down t w) (Up (start_supervisor ctx actions db w))
| machine_fails_to_start e t faults w err db :
    build_context parse_abi env e (mkSqlite t faults) = (Err err, db) →
    machine_step (Down t w) (Down (sq_tables db) w)
| machine_runs l l' : supervised_step l l' → machine_step (Up l) (Up l')
| machine_crashes l : machine_step (Up l) (Down (sq_tables (lf_db l)) (world_of (lf_running l)))
| machine_stops now l s' r db' :
    rn_cancelled (lf_running l) = true →
    shut_down outbox_config (lf_actions l) (lf_dispatcher l) now (lf_running l) s' r →
    db' = am_state_repository (pl_alerts (rn_pipeline s')) ∨
      db' = (cleanup (Store.flush (am_state_repository (pl_alerts (rn_pipeline s')))).2).2 →
    machine_step (Up l) (Down (sq_tables db') (world_of s')).

Definition tables_of (m : Machine) : Tables :=
  match m with Down t _ => t | Up l => sq_tables (lf_db l) end.
Definition outside_of (m : Machine) : Outside :=
  match m with Down _ w => w | Up l => world_of (lf_running l) end.
End Lives.

(** ** What a step of each component keeps *)

Section Steps.
Context `{AlloyPrimitives} `{DynAbi} `{RhaiEngine} `{TemplateEngine} `{DispatchEnv} `{DefaultHasher} `{CompletionOrder}.
Context `{SqliteChoices} `{Serde (list string)} `{Serde ActionConfig} `{Serde ActionPayload}.
Context `{Serde ThrottleState} `{Serde AggregationState}.
Context (cfg : AppConfig) (outbox_config : OutboxConfig) (acts : gmap string ActionConfig) (d : gmap string ActionType).
Context (P : Tables → Prop).

Notation Db := SqliteStateRepository.
Implicit Types (p q : Pipeline (B := Db) (S := Db)).
Notation in_progress p := (P (sq_tables (pl_progress p))).
Notation in_alerts p := (P (sq_tables (am_state_repository (pl_alerts p)))).

Lemma process_step_keeps n p :
  (∀ n b, preserves P (set_last_processed_block n b)) → in_progress p → in_progress (process_step cfg n p).
Proof.
  intros Hset Hp. unfold process_step, process_and_dispatch. cbn [pl_progress].
  destruct (process_blocks_batch _ _ _) as [l|]; [|exact Hp].
  destruct (send_blocks _ _ _) as [[[b|]|] ch]; try exact Hp. by apply Hset.
Qed.

Lemma alert_step_keeps clock l rest p :
  (∀ items, preserves P (enqueue_outbox_batch items)) → in_alerts p → in_alerts (alert_step acts clock l rest p).
Proof. intros He Hp. by apply (keeps_matches_batch acts (λ s, P (sq_tables s))). Qed.

Lemma scan_step_keeps force now p :
  (∀ items, preserves P (enqueue_outbox_batch items)) →
  (∀ T (ST : Serde T) key (value : T), preserves P (set_json_state key value)) →
  in_alerts p → in_alerts (scan_step acts force now p).
Proof. intros He Hs Hp. by apply (keeps_scan acts (λ s, P (sq_tables s))). Qed.

Lemma deliver_step_keeps p : service_keeps P → in_alerts p → in_alerts (deliver_step outbox_config d p).
Proof.
  intros [_ _ Hg Hd Hi _ _ _] Hp.
  by apply (keeps_batch (logged_execute d) outbox_config (λ s, P (sq_tables s)) Hg Hd Hi
    (mkOutboxState (am_state_repository (pl_alerts p)) (pl_world p))).
Qed.

(** The services' writes, but for those of the deliveries. *)
Record writes_keep : Prop := {
  wk_last n b : preserves P (set_last_processed_block n b);
  wk_enqueue items : preserves P (enqueue_outbox_batch items);
  wk_json {T} `{Serde T} key (value : T) : preserves P (set_json_state key value)
}.

Lemma pipeline_step_writes p q :
  pipeline_step cfg outbox_config acts d p q → writes_keep → in_progress p → in_alerts p →
  in_progress q ∧ in_alerts q ∧ pl_world q = pl_world p ∨ q = deliver_step outbox_config d p.
Proof.
  intros Hstep [Hl He Hj] Hp Ha.
  destruct Hstep as [p q [n p1 _ _|c rest p1 _|clock l rest p1 _|l p1 _ _]|blocks p|force now p|p|ms p];
    [left|left|left|by right|by left|left|by right|by left].
  - split; [by apply process_step_keeps|done].
  - done.
  - split; [done|]. split; [by apply alert_step_keeps|done].
  - split; [done|]. split; [by apply scan_step_keeps|done].
Qed.
End Steps.

(** ** The keys of the outbox *)

Section Keys.
Context `{DefaultHasher} `{SqliteChoices} `{SerdeLaws (list string)} `{Serde ActionConfig} `{SerdeLaws ActionPayload}.
Context `{AlloyPrimitives} `{TemplateEngine} `{DispatchEnv} `{CompletionOrder}.

Notation Db := SqliteStateRepository.

Definition kept (k : string) (t : Tables) : Prop := outbox_wf t ∧ k ∈ row_keys t.

Lemma kept_same k t t' :
  outbox_rows t' = outbox_rows t → outbox_seq t' = outbox_seq t → kept k t → kept k t'.
Proof. intros Er Eq [Hwf Hk]. split; [by eapply outbox_wf_same|]. unfold row_keys. by rewrite Er. Qed.

Lemma kept_view k t : outbox_wf t → kept k t ↔ k ∈ item_key <$> view t.
Proof. intros Hwf. unfold kept, row_keys. rewrite view_keys by done. tauto. Qed.

Lemma kept_admin k : admin_keeps (kept k).
Proof. apply admin_blind_keeps. split; intros; by eapply (kept_same k t). Qed.

Lemma kept_writes k : writes_keep (kept k).
Proof.
  split.
  - intros n b. apply set_last_only. intros t m Ht. by apply (kept_same k t).
  - intros items s [Hwf Hk]. destruct (enqueue_outbox_batch items s) as [r s'] eqn:E. cbn [snd].
    assert (outbox_ok s) as Hok by exact Hwf. destruct (enqueue_view items s r s' Hok E) as [Hwf' Ho].
    assert (k ∈ item_key <$> outbox s) as Hv by (apply (kept_view k _ Hwf); by split).
    apply kept_view; [exact Hwf'|]. change (k ∈ item_key <$> outbox s').
    destruct r as [u|e]; [|by rewrite Ho]. destruct Ho as (added & -> & _). rewrite fmap_app. apply elem_of_app. by left.
  - intros T ST key v. apply set_json_only. intros t m Ht. by apply (kept_same k t).
Qed.

Lemma polled_safe k (o o' : OutboxState (S := Db) (W := World * list ActionPayload)) :
  polled o o' → outbox_wf (sq_tables (os_state o)) →
  key_safe k (sq_tables (os_state o)) (os_world o) → key_safe k (sq_tables (os_state o')) (os_world o').
Proof.
  intros Hp Hwf [Hk|Hk].
  - pose proof (po_ok _ _ Hp) as Hok'. unfold row_keys in Hk. rewrite <- (view_keys _ Hwf) in Hk. unfold key_safe, row_keys.
    rewrite <- (view_keys (sq_tables (os_state o'))) by exact Hok'. by apply (polled_keys o o' k Hp).
  - right. destruct Hp as [_ _ (pl & Hlog & _)]. rewrite Hlog, fmap_app. apply elem_of_app. by left.
Qed.
End Keys.

Section Supervised.
Context `{AlloyPrimitives} `{DynAbi} `{RhaiEngine} `{TemplateEngine} `{DispatchEnv} `{UrlOps} `{DefaultHasher} `{CompletionOrder}.
Context `{!ApiTexts} `{SqliteChoices}.
Context `{SerdeLaws (list string)} `{Serde ActionConfig} `{SerdeLaws ActionPayload} `{Serde ThrottleState} `{Serde AggregationState}.
Context (cfg : AppConfig) (outbox_config : OutboxConfig) (acts : gmap string ActionConfig) (d : gmap string ActionType).
Context (validator : MonitorValidator) (normalize_json : string → result string string) (api_key : string).

Notation Db := SqliteStateRepository.
Implicit Types (s : Running (B := Db) (S := Db)) (P : Tables → Prop).
Notation sup_step := (supervisor_step cfg outbox_config acts d validator normalize_json api_key).

(** [P] holds of the tables each component sees. *)
Definition copies P s : Prop :=
  P (sq_tables (pl_progress (rn_pipeline s))) ∧ P (sq_tables (am_state_repository (pl_alerts (rn_pipeline s)))) ∧
  P (sq_tables (api_repo (rn_api s))).

Lemma supervisor_step_writes P s s' :
  sup_step s s' → writes_keep P → admin_keeps P → Forall open_ok (rn_requests s) → copies P s →
  copies P s' ∧ world_of s' = world_of s ∨
  rn_pipeline s' = deliver_step outbox_config d (rn_pipeline s) ∧ rn_api s' = rn_api s.
Proof.
  intros Hstep Hw Had Hopen (Hp & Ha & Hr). destruct Hstep as [p Hps _|metrics rq r|i r Hi|i r _ _|_|].
  - destruct (pipeline_step_writes cfg outbox_config acts d P _ _ Hps Hw Hp Ha) as [(Hp' & Ha' & Ew)| ->]; [left|by right].
    by split.
  - by left.
  - left. split; [|done]. split; [done|]. split; [done|]. exact (take_turn_keeps P r _ Had (Forall_lookup_1 _ _ _ _ Hopen Hi) Hr).
  - by left.
  - left. unfold config_changed. pose proof (preserves_get_monitors P (cfg_network_id cfg) (api_repo (rn_api s)) Hr) as Hg.
    destruct (get_monitors (cfg_network_id cfg) (api_repo (rn_api s))) as [[ms|e] repo]; by split.
  - by left.
Qed.

Lemma services_keep P s s' :
  sup_step s s' → service_keeps P →
  P (sq_tables (pl_progress (rn_pipeline s))) → P (sq_tables (am_state_repository (pl_alerts (rn_pipeline s)))) →
  P (sq_tables (pl_progress (rn_pipeline s'))) ∧ P (sq_tables (am_state_repository (pl_alerts (rn_pipeline s')))).
Proof.
  intros Hstep Hsk Hp Ha. assert (writes_keep P) as Hw by (by destruct Hsk; split).
  destruct Hstep as [p Hps _|metrics rq r|i r _|i r _ _|_|]; [|done..| |done].
  - destruct (pipeline_step_writes cfg outbox_config acts d P _ _ Hps Hw Hp Ha) as [(Hp' & Ha' & _)| ->]; [done|].
    split; [done|]. exact (deliver_step_keeps outbox_config d P _ Hsk Ha).
  - unfold config_changed. by destruct (get_monitors _ _) as [[ms|e] repo].
Qed.

Lemma supervisor_step_keeps P s s' :
  sup_step s s' → service_keeps P → admin_keeps P → Forall open_ok (rn_requests s) → copies P s → copies P s'.
Proof.
  intros Hstep Hsk Had Hopen Hs. assert (writes_keep P) as Hw by (by destruct Hsk; split).
  destruct (supervisor_step_writes P s s' Hstep Hw Had Hopen Hs) as [[? _]|[Ep Ea]]; [done|].
  destruct Hs as (Hp & Ha & Hr). unfold copies. rewrite Ep, Ea. split; [done|]. split; [|done].
  by apply deliver_step_keeps.
Qed.
End Supervised.

(** ** One life *)

Section OneLife.
Context `{AlloyPrimitives} `{DynAbi} `{RhaiEngine} `{TemplateEngine} `{DispatchEnv} `{UrlOps} `{DefaultHasher} `{CompletionOrder}.
Context `{!ErrorTexts} `{!ApiTexts} `{SqliteChoices}.
Context `{SerdeLaws (list string)} `{Serde ActionConfig} `{SerdeLaws ActionPayload} `{Serde ThrottleState} `{Serde AggregationState}.
Context (parse_abi : string → result string JsonAbi) (env : string → option string).
Context (normalize_json : string → result string string) (outbox_config : OutboxConfig).

Notation Db := SqliteStateRepository.
Implicit Types (l : Life) (P : Tables → Prop).
Notation supervised_step := (supervised_step normalize_json outbox_config).

(** Every component of the process sees the same tables. *)
Definition shared l : Prop := lf_running l = share (lf_db l) (lf_running l).

(** Its open requests are those of the API. *)
Notation serving l := (Forall open_ok (rn_requests (lf_running l))).

Lemma shared_copies P l : shared l → P (sq_tables (lf_db l)) → copies P (lf_running l).
Proof. intros -> HP. by split_and!. Qed.

Lemma step_shared l l' : supervised_step l l' → shared l'.
Proof. by intros []. Qed.

Lemma wrote_copies P db s db' : wrote db s db' → copies P s → P (sq_tables db) → P (sq_tables db').
Proof.
  unfold wrote. rewrite !elem_of_cons. intros [[= <- _ _]|[[= _ <- _]|[[= _ _ <-]|[]%elem_of_nil]]] (Hp & Ha & Hr) _; done.
Qed.

Lemma life_keeps P l l' :
  supervised_step l l' → shared l → serving l → service_keeps P → admin_keeps P → P (sq_tables (lf_db l)) → P (sq_tables (lf_db l')).
Proof.
  intros [s' db' Hstep _ _ Hw|dl o Hstep] Hsh Hopen Hsk Had HP; cbn [lf_db].
  - eapply wrote_copies; [exact Hw| |exact HP].
    eapply supervisor_step_keeps; [exact Hstep|done..|]. by apply shared_copies.
  - exact (delivery_keeps (lf_dispatcher l) outbox_config P _ _ Hsk Hstep HP).
Qed.

(** No step loses a key. *)
Lemma deliver_safe k l s' db' :
  (0 ≤ ob_batch_size outbox_config)%Z →
  rn_pipeline s' = deliver_step outbox_config (lf_dispatcher l) (rn_pipeline (lf_running l)) →
  rn_api s' = rn_api (lf_running l) → wrote (lf_db l) s' db' → shared l → outbox_wf (sq_tables (lf_db l)) →
  key_safe k (sq_tables (lf_db l)) (world_of (lf_running l)) → key_safe k (sq_tables db') (world_of s').
Proof.
  intros Hb Ep Ea Hw Hsh Hwf Hk. set (p := rn_pipeline (lf_running l)) in *.
  assert (am_state_repository (pl_alerts p) = lf_db l) as Edb by (unfold p; by rewrite Hsh).
  assert (pl_progress p = lf_db l) as Epr by (unfold p; by rewrite Hsh).
  assert (api_repo (rn_api (lf_running l)) = lf_db l) as Eap by (by rewrite Hsh).
  assert (am_ok (pl_alerts p)) as Hok by (unfold am_ok; by rewrite Edb).
  pose proof (deliver_step_spec outbox_config (lf_dispatcher l) Hb p Hok) as Hp.
  apply (polled_safe k) in Hp; cbn [os_state os_world] in *; [|by rewrite Edb|by rewrite Edb].
  rewrite <- Ep in Hp. unfold wrote in Hw. rewrite Ep, Ea, Eap in Hw.
  replace (pl_progress (deliver_step outbox_config (lf_dispatcher l) p)) with (lf_db l) in Hw by done.
  rewrite <- Ep, !elem_of_cons in Hw.
  destruct Hw as [[= <- E]|[[= E]|[[= E <-]|[]%elem_of_nil]]]; unfold world_of; by rewrite <- E.
Qed.

(** What the task holds is true. *)
Definition delivering l : Prop := delivery_ok (lf_delivery l) (sq_tables (lf_db l)) (world_of (lf_running l)).2.

Lemma deliver_life l dl (o : OutboxState (S := Db) (W := World * list ActionPayload)) :
  (0 ≤ ob_batch_size outbox_config)%Z → outbox_wf (sq_tables (lf_db l)) →
  delivery_step (logged_execute (lf_dispatcher l)) outbox_config
    (lf_delivery l, mkOutboxState (lf_db l) (world_of (lf_running l))) (dl, o) → delivering l →
  delivery_ok dl (sq_tables (os_state o)) (os_world o).2 ∧
  ∀ k, key_safe k (sq_tables (lf_db l)) (world_of (lf_running l)) → key_safe k (sq_tables (os_state o)) (os_world o).
Proof.
  intros Hb Hwf Hstep Hdl.
  exact (delivery_step_safe (lf_dispatcher l) outbox_config (lf_delivery l, mkOutboxState (lf_db l) (world_of (lf_running l))) (dl, o)
    Hb Hwf Hstep Hdl).
Qed.

Lemma life_safe k l l' :
  (0 ≤ ob_batch_size outbox_config)%Z → supervised_step l l' → shared l → serving l → outbox_wf (sq_tables (lf_db l)) → delivering l →
  key_safe k (sq_tables (lf_db l)) (world_of (lf_running l)) →
  key_safe k (sq_tables (lf_db l')) (world_of (lf_running l')).
Proof.
  intros Hb [s' db' Hstep _ _ Hw|dl o Hstep] Hsh Hopen Hwf Hdl Hk; cbn [lf_db lf_running].
  2: { exact (proj2 (deliver_life l dl o Hb Hwf Hstep Hdl) k Hk). }
  change (world_of (share db' s')) with (world_of s'). pose proof Hk as [Hin|Hin].
  - assert (kept k (sq_tables (lf_db l))) as HP by done.
    destruct (supervisor_step_writes _ _ _ _ _ _ _ (kept k) _ _ Hstep (kept_writes k) (kept_admin k)) as [[Hc _]|[Ep Ea]];
      [done|by apply shared_copies| |by eapply deliver_safe].
    left. by eapply (wrote_copies (kept k)).
  - destruct (supervisor_step_writes _ _ _ _ _ _ _ (λ _, True) _ _ Hstep) as [[_ Ew]|[Ep Ea]];
      [by split|by split|done|by split_and!| |by eapply deliver_safe].
    rewrite Ew. by right.
Qed.

Lemma life_delivering l l' :
  (0 ≤ ob_batch_size outbox_config)%Z → supervised_step l l' → shared l → serving l → outbox_wf (sq_tables (lf_db l)) →
  delivering l → delivering l'.
Proof.
  intros Hb Hl Hsh Hopen Hwf Hdl. pose proof (life_keeps _ l l' Hl Hsh Hopen (grown_service _) (grown_admin _) (grown_refl _)) as Hg.
  destruct Hl as [s' db' Hstep _ [Es|Ew] Hw|dl o Hstep]; unfold delivering; cbn [lf_delivery lf_db lf_running] in *.
  - by rewrite Es.
  - change (world_of (share db' s')) with (world_of s'). rewrite Ew. by eapply delivery_ok_grown.
  - by apply (deliver_life l dl o).
Qed.

(** The services leave the monitors alone, and the API announces its changes. *)
Lemma fresh_share cfg svc (s : Running (B := Db) (S := Db)) db :
  monitors (sq_tables db) = monitors (sq_tables (api_repo (rn_api s))) → fresh cfg svc s → fresh cfg svc (share db s).
Proof.
  intros Hm [Hr Hc Hs Hq Hv (ms & Hl & Hf)]. split; cbn; [done..|]. exists ms. split; [done|]. intros E Hre Hab Hall.
  rewrite (listed_same _ _ (sq_tables (api_repo (rn_api s)))) by done. by apply Hf.
Qed.

Lemma life_fresh `{!Sha256Injective} svc l l' :
  supervised_step l l' → shared l → fresh (lf_config l) svc (lf_running l) → fresh (lf_config l') svc (lf_running l').
Proof.
  intros Hl Hsh Hf. set (P := λ t, monitors t = monitors (sq_tables (lf_db l))).
  assert (service_keeps P) as Hsk by (apply service_blind_keeps; by split).
  destruct Hl as [s' db' Hstep _ _ Hw|dl o Hstep]; cbn [lf_config lf_running].
  2: { apply fresh_share; [|by destruct Hf; split].
    pose proof (delivery_keeps (lf_dispatcher l) outbox_config P _ _ Hsk Hstep eq_refl) as Hm. by rewrite Hsh. }
  apply fresh_share; [|by eapply step_fresh].
  destruct (services_keep _ _ _ _ _ _ _ P _ _ Hstep Hsk) as [Hp Ha]; [by rewrite Hsh|by rewrite Hsh|].
  unfold wrote in Hw. rewrite !elem_of_cons in Hw.
  destruct Hw as [[= E1 E2 ->]|[[= E1 E2 ->]|[[= _ _ ->]|[]%elem_of_nil]]]; [|..|done].
  - by rewrite <- E1.
  - by rewrite <- E2.
Qed.

(** ** The start *)

Lemma boot_keeps P e db r db' :
  build_context parse_abi env e db = (r, db') → admin_keeps P → (∀ n b, preserves P (set_last_processed_block n b)) →
  P (sq_tables db) → P (sq_tables db').
Proof.
  intros Hb Had Hset HP. change db' with (r, db').2. rewrite <- Hb. apply build_context_keeps; [done| |done].
  intros config p. by apply keeps_block_state.
Qed.

(** ** The end *)

Lemma drain_cut_keeps P d n (o o' : OutboxState (S := Db) (W := World * list ActionPayload)) :
  service_keeps P → drain_cut outbox_config d n o = Some o' → P (sq_tables (os_state o)) → P (sq_tables (os_state o')).
Proof.
  intros Hsk. pose proof Hsk as [_ _ Hg Hd Hi _ _ _].
  revert o. induction n as [|n IH]; intros o; cbn [drain_cut]; [by intros [= <-]|]. intros E HP.
  pose proof (keeps_on_state (λ s, P (sq_tables s)) _ (Hg (ob_batch_size outbox_config)) o HP) as H1'.
  destruct (on_state (get_pending_outbox _) o) as [[[|i items]|e] o1]; [done| |done].
  pose proof (keeps_batch_items (logged_execute d) (λ s, P (sq_tables s)) Hd Hi (i :: items) o1 H1') as H2'.
  destruct (process_batch_items (logged_execute d) (i :: items) o1) as [[m|e] o2]; [by eapply IH|done].
Qed.

(** Where a shutdown leaves the outbox. *)
Definition left_by acts d now (s s' : Running (B := Db) (S := Db)) : Prop :=
  am_state_repository (pl_alerts (rn_pipeline s')) = am_state_repository (pl_alerts (rn_pipeline s)) ∧ world_of s' = world_of s ∨
  ∃ o, let o0 := pipeline_outbox (flushed acts now (aborted (rn_pipeline s))) in
    ((∃ n, drain_cut outbox_config d n o0 = Some o) ∨
     (∃ fuel r, drain_queue (logged_execute d) outbox_config fuel 0 o0 = Some (r, o))) ∧
    am_state_repository (pl_alerts (rn_pipeline s')) = os_state o ∧ (world_of s').2 = (os_world o).2.

Lemma shut_down_left acts d now s s' r : shut_down outbox_config acts d now s s' r → left_by acts d now s s'.
Proof. intros [|n o p Hc|fuel r' o p Hd|fuel r' o p Hd]; [by left|right; exists o; split_and!; eauto..]. Qed.

Lemma service_writes P : service_keeps P → writes_keep P.
Proof. intros Hsk. by destruct Hsk; split. Qed.

Lemma flushed_keeps P acts now (p : Pipeline (B := Db) (S := Db)) :
  writes_keep P → P (sq_tables (am_state_repository (pl_alerts p))) →
  P (sq_tables (am_state_repository (pl_alerts (flushed acts now p)))).
Proof. intros [_ He Hs] HP. by apply (keeps_scan acts (λ s, P (sq_tables s))). Qed.

Lemma stop_keeps P acts d now (s s' : Running (B := Db) (S := Db)) r :
  shut_down outbox_config acts d now s s' r → service_keeps P →
  P (sq_tables (am_state_repository (pl_alerts (rn_pipeline s)))) →
  P (sq_tables (am_state_repository (pl_alerts (rn_pipeline s')))).
Proof.
  intros [[-> _]|(o & Hd & -> & _)]%shut_down_left Hsk HP; [done|].
  apply (flushed_keeps P acts now (aborted (rn_pipeline s)) (service_writes P Hsk)) in HP.
  destruct Hd as [[n Hd]|(fuel & r' & Hd)]; [by eapply drain_cut_keeps|]. pose proof Hsk as [_ _ Hg Hdel Hi _ _ _].
  exact (keeps_drain (logged_execute d) outbox_config (λ s, P (sq_tables s)) Hg Hdel Hi _ _ _ _ _ Hd HP).
Qed.

Lemma stop_safe k acts d now (s s' : Running (B := Db) (S := Db)) r :
  (0 ≤ ob_batch_size outbox_config)%Z → shut_down outbox_config acts d now s s' r →
  let db := am_state_repository (pl_alerts (rn_pipeline s)) in let db' := am_state_repository (pl_alerts (rn_pipeline s')) in
  store_wf (sq_tables db) → key_safe k (sq_tables db) (world_of s) → key_safe k (sq_tables db') (world_of s').
Proof.
  intros Hb Hdown db db' Hwf Hk. apply shut_down_left in Hdown as [[E Ew]|(o & Hd & E & Ew)].
  { unfold db'. by rewrite E, Ew. }
  set (p := flushed acts now (aborted (rn_pipeline s))) in *.
  pose proof (flushed_keeps store_wf acts now (aborted (rn_pipeline s)) (service_writes _ store_wf_service) Hwf) as Hwf'.
  assert (os_ok (pipeline_outbox p)) as Hok by (apply Hwf').
  assert (polled (pipeline_outbox p) o) as Hp.
  { destruct Hd as [[n Hd]|(fuel & r' & Hd)]; [by eapply drain_cut_polled|by eapply drain_queue_polled]. }
  apply (polled_safe k) in Hp; [|exact Hok|].
  - unfold db'. rewrite E. unfold key_safe. by rewrite Ew.
  - destruct Hk as [Hk|Hk]; [left|by right].
    by apply (flushed_keeps (kept k) acts now (aborted (rn_pipeline s)) (kept_writes k) (conj (wf_outbox _ Hwf) Hk)).
Qed.
End OneLife.

(** ** All the lives *)

Section AllLives.
Context `{AlloyPrimitives} `{DynAbi} `{RhaiEngine} `{TemplateEngine} `{DispatchEnv} `{UrlOps} `{DefaultHasher} `{CompletionOrder}.
Context `{!ErrorTexts} `{!ApiTexts} `{SqliteChoices} `{!Sha256Injective}.
Context `{SerdeLaws (list string)} `{Serde ActionConfig} `{SerdeLaws ActionPayload} `{Serde ThrottleState} `{Serde AggregationState}.
Context (parse_abi : string → result string JsonAbi) (env : string → option string).
Context (normalize_json : string → result string string) (outbox_config : OutboxConfig).
Context (batch_size : (0 ≤ ob_batch_size outbox_config)%Z).

Notation Db := SqliteStateRepository.
Implicit Types (m : Machine) (l : Life) (P : Tables → Prop).
Notation step := (machine_step parse_abi env normalize_json outbox_config).

(** The tables are consistent; a running process has one database, and a snapshot that
    is not silently stale. *)
Record consistent m : Prop := {
  co_tables : store_wf (tables_of m);
  co_life l : m = Up l → shared l ∧ delivering l ∧ ∃ svc, fresh (lf_config l) svc (lf_running l)
}.

Lemma started_tables ctx actions db w : sq_tables (lf_db (start_supervisor ctx actions db w)) = sq_tables db.
Proof. done. Qed.

Lemma cleaned_keeps P db :
  preserves P Store.flush → preserves P cleanup → P (sq_tables db) → P (sq_tables (cleanup (Store.flush db).2).2).
Proof. intros Hf Hc HP. by apply Hc, Hf. Qed.

Lemma machine_keeps P m m' :
  step m m' → consistent m → service_keeps P → admin_keeps P → P (tables_of m) → P (tables_of m').
Proof.
  intros Hstep [_ Hlife] Hsk Had HP. pose proof (sk_set_last P Hsk) as Hset.
  destruct Hstep as [e t faults w ctx db actions Hb _|e t faults w err db Hb|l l' Hl|l|now l s' r db' _ Hdown Hdb]; cbn in *.
  - exact (boot_keeps parse_abi env P _ _ _ _ Hb Had Hset HP).
  - exact (boot_keeps parse_abi env P _ _ _ _ Hb Had Hset HP).
  - destruct (Hlife l eq_refl) as (Hsh & _ & svc & Hf). eapply life_keeps; [exact Hl|done|apply Hf|done..].
  - done.
  - destruct (Hlife l eq_refl) as [Hsh _].
    assert (P (sq_tables (am_state_repository (pl_alerts (rn_pipeline s'))))) as HP'.
    { eapply stop_keeps; [exact Hdown|done|]. by rewrite Hsh. }
    destruct Hdb as [-> | ->]; [done|by destruct Hsk; apply cleaned_keeps].
Qed.

Lemma start_fresh e t faults ctx db actions w :
  store_wf t → build_context parse_abi env e (mkSqlite t faults) = (Ok ctx, db) →
  ∃ svc, fresh (lf_config (start_supervisor ctx actions db w)) svc (lf_running (start_supervisor ctx actions db w)).
Proof.
  intros Hwf Hb. destruct (build_context_services parse_abi env e (mkSqlite t faults) ctx db Hwf Hb) as (_ & _ & _ & ms & acts & svc & Hready).
  exists (ctx_abi_service ctx). destruct (ready_manager _ _ _ _ _ _ Hready) as [Hsvc Hc].
  split; cbn; [done|done|done|constructor|done|]. exists ms. split; [apply Hready|]. intros _ _ _ _.
  rewrite (ready_config _ _ _ _ _ _ Hready). apply Hready.
Qed.

Lemma step_consistent m m' : step m m' → consistent m → consistent m'.
Proof.
  intros Hstep Hm. split; [eapply machine_keeps; [done..|apply store_wf_service|apply store_wf_admin|apply Hm]|].
  destruct Hm as [Hwf Hlife]. intros l2 E.
  destruct Hstep as [e t faults w ctx db actions Hb _|e t faults w err db Hb|l l' Hl|l|now l s' r db' _ _ _]; try discriminate E;
    apply (f_equal (λ m, match m with Up l => l | Down _ _ => l2 end)) in E; cbn in E; subst l2.
  - split; [done|]. split; [done|]. by eapply start_fresh.
  - destruct (Hlife l eq_refl) as (Hsh & Hdl & svc & Hf). split; [by eapply step_shared|].
    split; [eapply life_delivering; [done|exact Hl|done|apply Hf|apply Hwf|done]|]. exists svc. by eapply life_fresh.
Qed.

(** The key of an alert that was enqueued is in the outbox, or it was delivered. *)
Definition safe (k : string) m : Prop := key_safe k (tables_of m) (outside_of m).

Lemma step_safe k m m' :
  step m m' → consistent m → safe k m → safe k m'.
Proof.
  intros Hstep [Hwf Hlife] Hk. unfold safe in *.
  assert (∀ e t faults r db, build_context parse_abi env e (mkSqlite t faults) = (r, db) → store_wf t →
    k ∈ row_keys t → k ∈ row_keys (sq_tables db)) as Hboot.
  { intros e t faults r db Hb Hwft Hin.
    by apply (boot_keeps parse_abi env (kept k) _ _ _ _ Hb (kept_admin k) (wk_last _ (kept_writes k)) (conj (wf_outbox _ Hwft) Hin)). }
  destruct Hstep as [e t faults w ctx db actions Hb _|e t faults w err db Hb|l l' Hl|l|now l s' r db' _ Hdown Hdb]; cbn in *.
  - destruct Hk as [Hk|Hk]; [left|by right]. by eapply Hboot.
  - destruct Hk as [Hk|Hk]; [left|by right]. by eapply Hboot.
  - destruct (Hlife l eq_refl) as (Hsh & Hdl & svc & Hf). eapply life_safe; [done|exact Hl|done|apply Hf|apply Hwf|done|done].
  - done.
  - destruct (Hlife l eq_refl) as [Hsh _].
    pose proof (stop_safe outbox_config k _ _ _ _ _ _ batch_size Hdown) as Hs. cbv zeta in Hs. rewrite Hsh in Hs at 1 2.
    specialize (Hs Hwf Hk). destruct Hdb as [-> | ->]; [done|]. destruct Hs as [Hs|Hs]; [left|by right].
    apply (cleaned_keeps (λ t, k ∈ row_keys t)); [by apply flush_only|apply checkpoint_only|done].
Qed.

Lemma progress_recorded n : service_keeps (λ t, is_Some (processed_blocks t !! n)) ∧ admin_keeps (λ t, is_Some (processed_blocks t !! n)).
Proof.
  split; [|by apply admin_blind_keeps]. split; intros.
  - cbn [set_last_processed_block sqlite_block_state]. unfold sqlite_set_last_processed_block.
    case_match; [|apply preserves_throw]. apply preserves_execute. intros t u t' Ht [= _ <-]. cbn.
    rewrite lookup_insert_is_Some'. by right.
  - by apply enqueue_only.
  - apply pending_reads.
  - by apply delete_outbox_only.
  - by apply increment_only.
  - by apply set_json_only.
  - by apply flush_only.
  - apply checkpoint_only.
Qed.

(** C1: Whatever happens over any number of lives (steps of the services in any order, API
    requests, failing statements and executions, shutdowns cut short, crashes at any
    moment, restarts with any files and configuration) the tables stay consistent, no
    alert that was enqueued is lost: its key is in the outbox or it was delivered; and a
    network whose progress is recorded always has one, so that no restart starts over. *)
Theorem alerts_survive_restarts m m' :
  consistent m → rtc step m m' →
  consistent m' ∧ (∀ k, safe k m → safe k m') ∧
  (∀ n, is_Some (processed_blocks (tables_of m) !! n) → is_Some (processed_blocks (tables_of m') !! n)).
Proof.
  intros Hm Hrun. revert Hm. induction Hrun as [m|m m1 m' Hstep _ IH]; intros Hm; [done|].
  destruct (IH (step_consistent m m1 Hstep Hm)) as (Hm' & Hk & Hn). split; [done|]. split.
  - intros k Hs. by eapply Hk, step_safe.
  - intros n Hs. apply Hn. destruct (progress_recorded n). by eapply (machine_keeps (λ t, is_Some (processed_blocks t !! n))).
Qed.

(** C11: In every life the engine is never silently stale, with the services, the requests of
    the API await by await and the start-up on one database: when no change waits to be
    announced or to be seen, the last reload succeeded and no client left its writing
    request in the middle, the snapshot is exactly the one of the monitors the tables
    hold. *)
Theorem lives_never_stale m l :
  consistent m → rtc step m (Up l) →
  ∃ svc ms, load (pl_manager (rn_pipeline (lf_running l))) = snapshot_spec svc ms ∧
    (rn_seen (lf_running l) = cfg_version (api_config_tx (rn_api (lf_running l))) → rn_reloaded (lf_running l) = true →
     rn_abandoned (lf_running l) = false → all_announced (lf_running l) →
     listed_monitors (cfg_network_id (lf_config l)) (sq_tables (lf_db l)) = Ok ms).
Proof.
  intros Hm Hrun.
  assert (consistent (Up l)) as [_ Hl].
  { revert Hm. induction Hrun as [m|m m1 m' Hstep _ IH]; intros Hm; [done|]. by eapply IH, step_consistent. }
  destruct (Hl l eq_refl) as (Hsh & _ & svc & [_ _ _ _ _ (ms & Hload & Hms)]). exists svc, ms. split; [done|].
  intros E Hre Hab Hall. rewrite <- Hms by done. by rewrite Hsh.
Qed.

(** C12: A start resumes where the last life ended, and a start that fails changes nothing of
    it either: the outbox, the saved states and every recorded progress are as they
    were, nothing is delivered; and a process that starts has empty channels, a progress
    to start from, and exactly the throttle and aggregation states that were saved. *)
Theorem restart_resumes t w m :
  store_wf t → step (Down t w) m →
  outside_of m = w ∧ outbox_rows (tables_of m) = outbox_rows t ∧
  application_state (tables_of m) = application_state t ∧
  (∀ n b, processed_blocks t !! n = Some b → processed_blocks (tables_of m) !! n = Some b) ∧
  ∀ l, m = Up l →
    let p := rn_pipeline (lf_running l) in
    is_Some (processed_blocks (tables_of m) !! cfg_network_id (lf_config l)) ∧
    pl_raw p = [] ∧ pl_correlated p = [] ∧ pl_matches p = [] ∧
    ∀ n, (∀ st, am_throttle_states (pl_alerts p) !! n = Some st ↔
            ∃ str, application_state t !! (throttle_prefix +:+ n) = Some str ∧ from_str str = Ok st) ∧
         (∀ st, am_aggregation_states (pl_alerts p) !! n = Some st ↔
            ∃ str, application_state t !! (aggregation_prefix +:+ n) = Some str ∧ from_str str = Ok st).
Proof.
  intros Hwf Hstep.
  assert (∀ P e faults r db, build_context parse_abi env e (mkSqlite t faults) = (r, db) → admin_keeps P →
    (∀ config p, preserves P (initialize_block_state config p)) → P t → P (sq_tables db)) as Hboot.
  { intros P e faults r db Hb Had Hbl HP. change db with (r, db).2. rewrite <- Hb. by apply build_context_keeps. }
  assert (∀ e faults r db, build_context parse_abi env e (mkSqlite t faults) = (r, db) →
    outbox_rows (sq_tables db) = outbox_rows t ∧ application_state (sq_tables db) = application_state t ∧
    ∀ n b, processed_blocks t !! n = Some b → processed_blocks (sq_tables db) !! n = Some b) as Hall.
  { intros e faults r db Hb. split; [|split].
    - eapply (Hboot (λ t', outbox_rows t' = outbox_rows t)); [exact Hb|by apply admin_blind_keeps| |done].
      intros. apply keeps_block_state. intros. by apply set_last_only.
    - eapply (Hboot (λ t', application_state t' = application_state t)); [exact Hb|by apply admin_blind_keeps| |done].
      intros. apply keeps_block_state. intros. by apply set_last_only.
    - intros n b. eapply (Hboot (λ t', processed_blocks t' !! n = Some b)); [exact Hb|by apply admin_blind_keeps|].
      intros. apply block_state_keeps. }
  inversion Hstep as [e t' faults w' ctx db actions Hb Hacts E1 E2|e t' faults w' err db Hb E1 E2| | |]; subst; clear Hstep.
  - destruct (Hall _ _ _ _ Hb) as (Ho & Ha & Hp). split_and!; [done..|]. intros l [= <-].
    destruct (build_context_services parse_abi env e (mkSqlite t faults) ctx db Hwf Hb) as (_ & _ & Hn & ms & as' & svc & Hready).
    cbn. rewrite (ready_config _ _ _ _ _ _ Hready). split_and!; [done..|].
    destruct (ready_alerts _ _ _ _ _ _ Hready) as (s1 & s2 & Et & Hnew). intros n.
    pose proof (new_states _ _ _ n Hnew) as Hst. cbn in Hst. by rewrite Et, Ha in Hst.
  - destruct (Hall _ _ _ _ Hb) as (Ho & Ha & Hp). by split_and!.
Qed.
End AllLives.

(** ** Concrete lives *)

Import MonitorMatch.Demo AbiDemo RhaiDemo RegistryDemo Interfaces.SerdeDemo InterfacesDemo ProvidersDemo DispatchDemo
  StoreDemo ContextDemo BlockProcessorDemo ApiDemo PipelineDemo.

Module LivesDemo.
(** The last life ended with an alert in the outbox. *)
Definition waiting_alert : ActionPayload := Single (AlertManager.AlertDemo.demo_match "out" 7).
Definition tables_left : Tables := sq_tables (enqueue_outbox_batch [("out", waiting_alert)] (demo_db [])).2.
Definition boot : result AppContextError AppContext * SqliteStateRepository :=
  build_context ContextDemo.parse_abi (λ _, None) environment (mkSqlite tables_left []).
Definition outside : World * list ActionPayload := (quiet_world, []).
Definition booted : option (AppContext * list ActionConfig) :=
  ctx ← result_ok boot.1; acts ← result_ok (listed_actions "net" (sq_tables boot.2)); Some (ctx, acts).
Definition first_life : option Life := '(ctx, acts) ← booted; Some (start_supervisor ctx acts boot.2 outside).
(** Its task polls the outbox, starts the delivery, and the alert goes out. *)
Definition outbox_of (l : Life) : OutboxState (S := SqliteStateRepository) (W := World * list ActionPayload) :=
  mkOutboxState (lf_db l) (world_of (lf_running l)).
Definition at_task (dl : Delivery) (o : OutboxState) (l : Life) : Life :=
  mkLife (lf_config l) (lf_actions l) (lf_dispatcher l) (lf_validator l) (os_state o) dl
    (share (os_state o) (with_world (os_world o) (lf_running l))).
Definition waiting_item : OutboxItem := mkOutboxItem 1 "out" waiting_alert 0.
Definition polled_life (l : Life) : Life :=
  let x := poll PipelineDemo.outbox_config (outbox_of l) in at_task x.1 x.2 l.
Definition started_life (l : Life) : Life := at_task (Executing [] [waiting_item] [] []) (outbox_of l) l.
Definition sent_life (l : Life) : Life :=
  let x := complete (logged_execute (lf_dispatcher l)) waiting_item (outbox_of l) in
  at_task (Executing [] [] [x.1] []) x.2 l.
Definition last_life (l : Life) : Life := sent_life (started_life (polled_life l)).

Notation step := (machine_step ContextDemo.parse_abi (λ _, None) ApiDemo.json PipelineDemo.outbox_config).

Lemma demo_starts : ∃ l, first_life = Some l ∧ step (Down tables_left outside) (Up l).
Proof.
  assert (is_ok boot.1 = true) as Hok by (vm_compute; reflexivity).
  assert (match listed_actions "net" (sq_tables boot.2) with Ok _ => True | Err _ => False end) as Hacts by (vm_compute; exact I).
  assert (match boot.1 with Ok ctx => cfg_network_id (ctx_config ctx) = "net" | Err _ => False end) as Hnet by (vm_compute; reflexivity).
  unfold first_life, booted. destruct boot as [[ctx|e] db] eqn:E; [|discriminate Hok]. cbn [fst snd] in Hacts, Hnet |- *.
  destruct (listed_actions "net" (sq_tables db)) as [acts|e] eqn:Ea; [|destruct Hacts]. exists (start_supervisor ctx acts db outside).
  split; [reflexivity|]. eapply machine_starts; [exact E|]. by rewrite Hnet.
Qed.

Lemma delivers l dl o :
  delivery_step (logged_execute (lf_dispatcher l)) PipelineDemo.outbox_config (lf_delivery l, outbox_of l) (dl, o) →
  step (Up l) (Up (at_task dl o l)).
Proof. intros Hd. apply machine_runs. by apply (life_delivers _ _ l). Qed.

Lemma sends l :
  lf_delivery l = Sleeping → lf_delivery (polled_life l) = Executing [waiting_item] [] [] [] →
  rtc step (Up l) (Up (last_life l)).
Proof.
  intros Hs Hp. eapply rtc_l.
  { apply (delivers l (poll PipelineDemo.outbox_config (outbox_of l)).1 (poll PipelineDemo.outbox_config (outbox_of l)).2).
    rewrite Hs, <- surjective_pairing. apply delivery_polls. }
  fold (polled_life l). eapply rtc_l.
  { apply (delivers (polled_life l) (Executing [] [waiting_item] [] [])). rewrite Hp.
    apply delivery_batch, (batch_starts _ _ waiting_item [] []). cbn. lia. }
  apply rtc_once, (delivers (started_life (polled_life l)) (Executing [] [] _ [])).
  apply delivery_batch, (batch_completes _ _ [] waiting_item [] [] []).
Qed.

Lemma left_consistent : consistent (Down tables_left outside).
Proof.
  split; [|done]. cbn [tables_of]. unfold tables_left. apply (sk_enqueue _ store_wf_service), empty_store_wf.
Qed.

(** A start, a delivery, and a crash before the item is deleted. *)
Lemma demo_lives :
  ∃ l, first_life = Some l ∧ rtc step (Down tables_left outside) (Up (last_life l)) ∧
    rtc step (Down tables_left outside) (Down (sq_tables (lf_db (last_life l))) (world_of (lf_running (last_life l)))).
Proof.
  destruct demo_starts as (l & Hl & Hs). exists l.
  assert ((λ l, (lf_delivery l, lf_delivery (polled_life l))) <$> first_life = Some (Sleeping, Executing [waiting_item] [] [] []))
    as Hd by (vm_compute; reflexivity).
  rewrite Hl in Hd. apply (f_equal (default (Sleeping, Sleeping))) in Hd. cbn [fmap option_fmap option_map default from_option id] in Hd.
  assert (rtc step (Down tables_left outside) (Up (last_life l))) as Hrun.
  { eapply rtc_l; [exact Hs|]. apply sends; [exact (f_equal fst Hd)|exact (f_equal snd Hd)]. }
  split; [done|]. split; [done|]. eapply rtc_r; [exact Hrun|apply machine_crashes].
Qed.
End LivesDemo.
Import LivesDemo.

(** The process crashes when the alert is out but still in the outbox: it is not lost. *)
Lemma alerts_survive_restarts_witness :
  ∃ t w, rtc step (Down tables_left outside) (Down t w) ∧ "1-out-0x7" ∈ row_keys tables_left ∧
    key_safe "1-out-0x7" t w ∧ idempotency_key <$> w.2 = ["1-out-0x7"] ∧ is_Some (processed_blocks t !! "net").
Proof.
  destruct demo_lives as (l & Hl & _ & Hrun). eexists _, _. split; [exact Hrun|].
  assert ("1-out-0x7" ∈ row_keys tables_left) as Hk by (apply (bool_decide_unpack _); vm_compute; exact I).
  split; [exact Hk|].
  destruct (alerts_survive_restarts ContextDemo.parse_abi (λ _, None) ApiDemo.json PipelineDemo.outbox_config ltac:(done)
    _ _ left_consistent Hrun) as (_ & Hsafe & _).
  split; [apply (Hsafe "1-out-0x7"); by left|].
  assert ((λ l, (idempotency_key <$> (world_of (lf_running (last_life l))).2,
      bool_decide (is_Some (processed_blocks (sq_tables (lf_db (last_life l))) !! "net")))) <$> first_life =
    Some (["1-out-0x7"], true)) as Hb by (vm_compute; reflexivity).
  rewrite Hl in Hb. apply (f_equal (default ([], false))) in Hb. cbn [fmap option_fmap option_map default from_option id] in Hb.
  split; [exact (f_equal fst Hb)|]. by apply (f_equal snd), bool_decide_eq_true in Hb.
Defined.

Lemma lives_never_stale_witness :
  ∃ l svc ms, rtc step (Down tables_left outside) (Up l) ∧ load (pl_manager (rn_pipeline (lf_running l))) = snapshot_spec svc ms ∧
    config_of <$> ms = [transfers].
Proof.
  destruct demo_lives as (l & Hl & Hrun & _).
  destruct (lives_never_stale ContextDemo.parse_abi (λ _, None) ApiDemo.json PipelineDemo.outbox_config ltac:(done) _ _ left_consistent Hrun)
    as (svc & ms & Hload & Hms). exists (last_life l), svc, ms. split; [exact Hrun|]. split; [exact Hload|].
  assert ((λ l, let s := lf_running (last_life l) in
    (Nat.eqb (rn_seen s) (cfg_version (api_config_tx (rn_api s))), rn_reloaded s,
     negb (rn_abandoned s) && forallb (λ r, negb (waiting (or_todo r))) (rn_requests s))) <$> first_life = Some (true, true, true)) as Hseen
    by (vm_compute; reflexivity).
  assert (match first_life with
    | Some l => match listed_monitors (cfg_network_id (lf_config (last_life l))) (sq_tables (lf_db (last_life l))) with
        | Ok ms => config_of <$> ms = [transfers] | Err _ => False end
    | None => False end) as Hlist by (vm_compute; reflexivity).
  rewrite Hl in Hseen, Hlist. apply (f_equal (default (false, false, false))) in Hseen. cbn [fmap option_fmap option_map default from_option id] in Hseen.
  cbv zeta in Hseen. apply pair_eq in Hseen as [[Hseen Hre]%pair_eq [Hab%negb_true_iff Hall]%andb_true_iff].
  apply Nat.eqb_eq in Hseen. rewrite (Hms Hseen Hre Hab (answered_announced _ Hall)) in Hlist. exact Hlist.
Defined.

Lemma restart_resumes_witness :
  ∃ l, step (Down tables_left outside) (Up l) ∧ row_keys (sq_tables (lf_db l)) = ["1-out-0x7"] ∧
    pl_matches (rn_pipeline (lf_running l)) = [] ∧ is_Some (processed_blocks (sq_tables (lf_db l)) !! cfg_network_id (lf_config l)).
Proof.
  destruct demo_starts as (l & _ & Hs). exists l. split; [exact Hs|].
  destruct (restart_resumes ContextDemo.parse_abi (λ _, None) ApiDemo.json PipelineDemo.outbox_config _ _ _
    (co_tables _ left_consistent) Hs) as (_ & Ho & _ & _ & Hl). specialize (Hl l eq_refl).
  cbv zeta in Hl. destruct Hl as (Hn & _ & _ & Hm & _). split; [|split; [exact Hm|exact Hn]].
  unfold row_keys. cbn [tables_of] in Ho. rewrite Ho. vm_compute. reflexivity.
Defined.
